(* ===== verification/_CoqProject ===== *)
-Q . S2P
Prelude.v
ByteOrder.v
Messages.v
Parser.v
WireFormat.v
FeedReader.v
StdMap.v
OrderBook.v
BookEngine.v
EngineLevels.v
EngineInvariant.v
EngineProperties.v
EngineTheorems.v
UdpFeedReader.v
PriceLadder.v
LadderRefinement.v
ArrayLadder.v
LadderTheorems.v
Double.v
DoubleFacts.v
Snapshot.v
SnapshotTheorems.v
RestServer.v
RestTheorems.v
Pipeline.v
PipelineTheorems.v
LiveMode.v
LiveModeTheorems.v
Typing.v
Recorder.v
Replay.v
ReplayTheorems.v
RecorderTheorems.v
Main.v
MainTheorems.v
Console.v
ConsoleTheorems.v
Descriptors.v
Server.v
ServerTheorems.v
Reply.v
Service.v
ReplyTheorems.v
EndToEnd.v
ServiceTheorems.v
TestEngine.v
TestFeed.v
TestRest.v
Bench.v
BenchBook.v
BenchBookTheorems.v
BenchParser.v
BenchSnapshot.v
BenchSnapshotTheorems.v
Random.v
BenchMixed.v
BenchMixedTheorems.v
BenchLadder.v
BenchLadderTheorems.v
Benchmarks.v
