(* ===== verification/Prelude.v ===== *)
(** * Verification of the ITCH 5.0 order-book reconstructor

    The program reads NASDAQ TotalView-ITCH 5.0 messages, from a file or from
    MoldUDP64 packets, parses them, keeps a limit order book per instrument, and
    serves snapshots of the books over HTTP.  This development models its C++
    sources as executable functions and proves what each part promises to the
    next, from the bytes of the feed to the JSON of a response.

    ** Parts

<<
     bytes                  src/feed_reader.cpp        FeedReader
     or datagrams           src/udp_feed_reader.cpp    UdpFeedReader
       | MessageBuffer      include/itch/byte_order.h  ByteOrder
       v
     parser                 src/parser.cpp             Parser, WireFormat
       | ParsedMessage      include/itch/messages.h    Messages
       v
     engine                 src/book_engine.{h,cpp}    StdMap, OrderBook, BookEngine
       | books, orders      include/itch/order_*.h     EngineLevels, EngineInvariant,
       |                                               EngineProperties, EngineTheorems
       v
     snapshots, publisher   include/itch/snapshot.h    Double, DoubleFacts,
       | SystemSnapshot     src/snapshot_publisher.cpp Snapshot, SnapshotTheorems
       v
     HTTP routes            src/rest_server.cpp        RestServer, RestTheorems
     HTTP server            src/rest_server.{h,cpp}    Server, ServerTheorems
       | reply              (j.dump, set_content)      Reply, ReplyTheorems
       |                    (threads of handlers)      Service, ServiceTheorems
       v
     bytes of a reply                                  EndToEnd (all of the above)

     main                   src/main.cpp               Pipeline, PipelineTheorems,
                                                       LiveMode, LiveModeTheorems,
                                                       Main, MainTheorems
     lines written          std::cout and std::cerr    Console, ConsoleTheorems
     descriptors            src/feed_reader.{h,cpp},   Descriptors
                            src/udp_feed_reader.{h,cpp}
     widths of the model    the types of all of these  Typing
     ladders                include/itch/price_ladder.h PriceLadder, ArrayLadder,
                                                       LadderRefinement, LadderTheorems

     replay                 bench/bench_replay.cpp     Replay, ReplayTheorems
     latency recorder       bench/hdr_recorder.h       Recorder, RecorderTheorems
     benchmarks             bench/bench_book_engine.cpp    Bench, BenchBook, BenchBookTheorems
                            bench/bench_parser.cpp         BenchParser
                            bench/bench_snapshot.cpp       BenchSnapshot, BenchSnapshotTheorems
                            bench/bench_mixed_workload.cpp Random, BenchMixed,
                                                           BenchMixedTheorems
                            bench/bench_ladder_shootout.cpp BenchLadder, BenchLadderTheorems
                            (all of them)                  Benchmarks
     unit tests             tests/test_price.cpp,
                            tests/test_book_engine.cpp     TestEngine
                            tests/test_parser.cpp,
                            tests/test_udp_feed_reader.cpp TestFeed
                            tests/test_rest.cpp            TestRest
>>

    The price ladders are alternatives for one side of a book, compared by the
    ladder shootout; the engine has [std::map] code of its own.  The programs
    under bench/ drive the same engine, parser, reader and ladders as the
    pipeline, and are modelled on top of them.

    ** How the code is modelled

    - A C++ expression is a value of [outcome]: a result, an exception with
      its [what()] string, or undefined behaviour. A load out of bounds, a
      division by zero and a cast out of range are undefined behaviour, so
      that a theorem that a function returns also says that it is memory safe.
    - Integers of [w] bits are [Z]; arithmetic wraps by [u8] ... [u64]. Bytes
      are [Byte.byte], a [MessageBuffer] is a list of them, [char] is [ascii].
    - [std::map] is an association list sorted by the comparator (StdMap), so
      a book's traversal order is part of its value; the unordered maps are
      stdpp's [gmap], and where the code traverses one the order is a
      parameter ([MapOrder]) and the theorems hold for every order.
    - The cached pointers [best_bid] and [best_ask] are the keys they point
      at; [top_of_book] says that they are never dangling.
    - A message handler is a function [Engine → Engine], named as the [handle]
      overload it translates. What the code writes on [std::cerr] is not part
      of its result: Console has a function per function that writes, which
      lists the lines ([handle_diagnostics] beside [handle], and so on).
    - [double] is the binary64 format of the Standard Library's [SpecFloat].
    - What the operating system and the libraries do is an interface:
      [PosixFile] and [ReliableFile] (read(2), with short reads and failures),
      the socket calls and the list of datagrams of UdpFeedReader, [Kernel]
      (which descriptors open(2) and socket(2) return), [ConcurrentQueue],
      [PathMatcher], [HttpListener] (what [listen] may do), [JsonPrinter] (a value is
      printed exactly when its strings are UTF-8), [HdrHistogram], [Distributions], [getenv] and the clocks. Each
      has instances, on which the witnesses run.
    - Threads are step relations. [Pipeline.live_step] is the contract of live
      mode, in which the receive thread hands over given messages and may end
      at any time; [LiveMode.live_mode_step] is the code, with the reader, the
      flags and the destructor of the thread, and refines it ([open_steps]).
    - The handlers of the HTTP server run on the library's pool of threads,
      next to the engine. Service has them as steps over any engine side that
      is a [Feed]; [Versioned] is what a feed promises, and the engine threads
      of both modes have an instance ([file_versioned], [live_versioned]).
    - The tests are lists of names and booleans ([suite]), one boolean for the
      assertions of a test.
    - [std::mt19937] is computed to the bit (Random), as the C++ standard
      defines it; the distributions it leaves to the implementation.
    - A benchmark is a function of the number of iterations that the benchmark
      library decides on ([iterate] of Bench).

    ** What is proved

    - The wire format (WireFormat). [encode] is the specification's layout of
      the nine message types. The parser inverts it on every message in range
      and ignores trailing bytes; what it returns encodes back to the bytes it
      read; on every buffer it throws, discards or returns as the type byte
      and the length say, and never reads out of bounds; both dispatchers
      agree.
    - The file reader (FeedReader). [next_message] depends on the remaining
      bytes only, not on how the reads chunk them; when reads fail, its result is
      exactly the one that they determine ([next_message_outcome]); frames come
      out as they went in. A frame without a body is not reported (a defect).
    - The UDP reader (UdpFeedReader). Over any sequence of packets of a
      session that fit the receive buffer, duplicated, dropped or reordered, messages are delivered in
      order and none twice, and the counters account for what was not; it is
      total; a datagram longer than the receive buffer loses messages without
      a count (a defect). Over any datagrams at all, its lines on the error
      stream account for every number of the sequence ([udp_accounts]).
    - The engine (EngineLevels to EngineTheorems). The specification is the
      map of resting orders ([spec_orders], a step per message); a book is the
      aggregate of the orders that rest in it ([engine_inv]: levels,
      well-formed books, orders on both sides). [run_refines_orders] needs no
      hypothesis; [run_invariant] and [top_of_book] hold for a feed that does
      not reuse the reference of a resting order ([feed_ok]), and
      [duplicate_ref_phantom] shows that this is needed. Well-formedness,
      isolation of instruments, counters and the instrument table need no such
      hypothesis or only that of their statement. [lvl_order_count] has 32
      bits: [run_invariant] bounds the number of messages by [2 ^ 32].
    - The snapshots (SnapshotTheorems). A snapshot shows each instrument's
      book, whose levels are the resting orders; the symbol index is sound and
      complete; the published snapshot is the one of the last multiple of the
      interval.
    - The routes (RestTheorems, DoubleFacts). Which requests are answered by
      which status; the book route shows the book to the depth asked for; the
      top route recovers the ticks of a price exactly from its double below [2
      ^ 31] ticks, and is undefined above (a defect).
    - The server (ServerTheorems, ReplyTheorems). Which path reaches which
      handler; in every interleaving of the engine thread with requests each
      response shows one version of the feed, and versions never go back; the
      one state in which the shutdown hangs, and for which libraries it can be reached; the
      status of a reply is the handler's as long as the strings of its body are
      UTF-8, and 500 when one is not (a defect: nothing checks the feed's
      bytes). Any number of requests at a time (ServiceTheorems): each reply is
      computed from one version of the feed, one that was current between the
      request and the reply ([requests_see_current]).
    - The whole way (EndToEnd, ServiceTheorems). [file_to_response] composes the
      reader, the parser, the engine, the snapshots, the routes and the printer:
      the reply to a request for a book after a capture lists the resting orders
      of the messages in it. [live_to_response] says the same of live mode, for
      any datagrams and any interleaving of the threads, of the prefix
      of the feed that was current.
    - The pipeline (PipelineTheorems, LiveModeTheorems, MainTheorems).
      The loop of file mode always ends; on a file of
      frames the engine runs their messages; in live mode no interleaving of the
      two threads loses a message: those that the UDP reader delivers are at every
      moment the ones run, the ones queued and the ones to come, and whenever the packets and
      the queue are used up all have been run. How far [main] comes for a configuration,
      a file and a feed ([main_endings]): it returns 1 when a file cannot be read, and
      otherwise waits in [pause] for the signal that kills it; live mode on an open
      socket never gets there (a defect). Request handlers that read the publisher
      while the engine runs see whole snapshots, in order.
    - The encoding (Typing). The values of the model keep the ranges of the C++ types
      that they stand for. In the program this is so by definition; here it checks that
      no wrap-around was left out.
    - The lines (ConsoleTheorems). What file mode writes is determined by the
      frames of the file: rejected frames, locates without a directory message,
      unknown references, oversized reductions, the number of messages.
    - The descriptors (Descriptors). The blocks that own a reader close what
      they open, on exceptions too, but for the socket of a UDP reader whose
      constructor throws (a defect).
    - The replay (ReplayTheorems). It computes what file mode computes, its
      counters are the numbers of frames, errors and messages, and the capture
      loader returns the first messages of the frames. The histograms of a
      profiled replay (RecorderTheorems) count the times that the clock showed, as far as
      they are positive, and that of the snapshots none; its CSV files hold in each
      column what the header says.
    - The benchmarks (BenchBookTheorems to BenchLadderTheorems). What each of
      them measures, for any number of iterations: the buffers are messages,
      the snapshot has the size asked for, deletes hit an order every time,
      hot and cold adds build the levels they should, the mixed workload aims
      at live orders, and the three ladders agree on the shootout's workload up
      to the totals of the array. Where a loop stops measuring what it is
      named after, that is stated too: replaces and executions run dry, the
      mixed workload corrupts its book when it starts over. Every registered
      benchmark runs with its arguments, for any number of iterations up to the
      library's limit ([benchmarks_run]).
    - The ladders (LadderRefinement, LadderTheorems). One interface, [Ladder];
      the flat and the array ladder show what the map ladder shows, the array
      ladder on clean removals inside its band; where they differ is stated
      too.

    - The tests (TestRest). The 105 tests of the repository pass on the model, which
      validates its definitions on their inputs.

    ** Fuel

    [file_loop], [replay_loop] and [load_capture_loop] take fuel, one unit per
    message: one more than the bytes of the file is enough ([file_mode_total],
    [replay_is_file_mode], [load_capture_spec]), and so are the messages and one
    ([file_to_books]). The other loops end by their shape: [read_exact_loop]
    on the bytes still wanted, [block_loop] on the message count of the
    packet, the loops of the ladders on their slots, [next_message] of the UDP
    reader on the datagrams to come, [iterate] on the iterations. [drain],
    which the statements on the UDP reader use to call it until it blocks,
    takes fuel above the number of messages of the session. The loops of the
    tests have the fuel of their inputs, and a test whose fuel runs out fails.

    ** What is not modelled

    The HTTP and JSON libraries (matching a path, connections, the text that
    [dump] prints: interfaces); the atomic pointer of the publisher, which is
    taken to be linearizable, as the snapshot last stored; the queue between
    the threads of live mode, an interface too; the buffering of the standard
    streams, and in live mode the order in which the lines of the two threads
    come out; the line of the replay that gives times and memory; the network, the ports and the pauses of the tests.
    [reserve] and moves have no observable effect here, except the move out of
    the pending queue of the UDP reader. Declarations without code, such as
    those of the headers, have no definition of their own. *)

From stdpp Require Export base tactics numbers list gmap fin_maps strings sorting.
From Stdlib Require Export ZArith Lia.

#[global] Open Scope Z_scope.

(** ** Outcomes of C++ code

    A C++ expression either yields a value, throws an exception that carries
    a [what()] string, or has undefined behaviour: an out-of-bounds read, a
    division by zero, a floating-to-integer conversion out of range. *)
Inductive outcome (A : Type) : Type :=
| Ret (a : A)
| Throw (what : string)
| Undef.
Arguments Ret {A} a.
Arguments Throw {A} what.
Arguments Undef {A}.

#[export] Instance outcome_ret : MRet outcome := λ A a, Ret a.
#[export] Instance outcome_bind : MBind outcome := λ A B f m,
  match m with
  | Ret a => f a
  | Throw w => Throw w
  | Undef => Undef
  end.
#[export] Instance outcome_fmap : FMap outcome := λ A B f m,
  match m with
  | Ret a => Ret (f a)
  | Throw w => Throw w
  | Undef => Undef
  end.

(** The outcome is a value or an exception: the standard defines it. *)
Definition defined {A} (m : outcome A) : Prop :=
  match m with Undef => False | _ => True end.

(** Reading through a pointer: outside the object the behaviour is undefined. *)
Definition deref {A} (o : option A) : outcome A :=
  match o with Some a => Ret a | None => Undef end.

(** ** Machine integers: a w-bit unsigned value is a [Z] below [2^w]; every
    operation that can leave the range is followed by the wrap of its type. *)
Declare Scope itch_scope.
Delimit Scope itch_scope with itch.

Definition u8 (z : Z) : Z := z mod 2 ^ 8.
Definition u16 (z : Z) : Z := z mod 2 ^ 16.
Definition u32 (z : Z) : Z := z mod 2 ^ 32.
Definition u64 (z : Z) : Z := z mod 2 ^ 64.

Notation "x ∈u8" := (0 ≤ x < 2 ^ 8) (at level 70) : itch_scope.
Notation "x ∈u16" := (0 ≤ x < 2 ^ 16) (at level 70) : itch_scope.
Notation "x ∈u32" := (0 ≤ x < 2 ^ 32) (at level 70) : itch_scope.
Notation "x ∈u48" := (0 ≤ x < 2 ^ 48) (at level 70) : itch_scope.
Notation "x ∈u64" := (0 ≤ x < 2 ^ 64) (at level 70) : itch_scope.

Create HintDb itch discriminated.

#[global] Open Scope itch_scope.

(** [lia] with the machine-integer wraps and their constants in view. *)
Ltac ulia :=
  unfold u8, u16, u32, u64 in *;
  change (2 ^ 8) with 256 in *; change (2 ^ 16) with 65536 in *;
  change (2 ^ 32) with 4294967296 in *;
  change (2 ^ 48) with 281474976710656 in *;
  change (2 ^ 64) with 18446744073709551616 in *;
  Z.div_mod_to_equations; lia.

Ltac in_range := first [done | ulia].

Lemma u8_range z : u8 z ∈u8.
Proof. by apply Z.mod_pos_bound. Qed.
Lemma u16_range z : u16 z ∈u16.
Proof. by apply Z.mod_pos_bound. Qed.
Lemma u32_range z : u32 z ∈u32.
Proof. by apply Z.mod_pos_bound. Qed.
Lemma u64_range z : u64 z ∈u64.
Proof. by apply Z.mod_pos_bound. Qed.
Lemma u16_id z : z ∈u16 → u16 z = z.
Proof. apply Z.mod_small. Qed.
Lemma u32_id z : z ∈u32 → u32 z = z.
Proof. apply Z.mod_small. Qed.
Lemma u64_id z : z ∈u64 → u64 z = z.
Proof. apply Z.mod_small. Qed.
#[export] Hint Resolve u8_range u16_range u32_range u64_range : itch.
#[export] Hint Rewrite u16_id u32_id u64_id using in_range : itch.

(** ** Lists *)

Lemma length_omap_le {A B} (f : A → option B) (l : list A) :
  (length (omap f l) ≤ length l)%nat.
Proof. induction l as [|x l IH]; [done|]. csimpl. destruct (f x); csimpl; lia. Qed.

(** ** Finite maps *)

Lemma insert_is_Some {K A} `{Countable K} (m : gmap K A) k (a : A) k' :
  is_Some (m !! k') → is_Some (<[k := a]> m !! k').
Proof. rewrite lookup_insert. by case_decide; [eauto|]. Qed.

(** ** Sums over finite maps *)
Section map_sum.
Context {K V : Type} `{Countable K}.
Implicit Types (m : gmap K V) (f g : V → Z).

(** The sum of [f] over the values of a map. *)
Definition map_sum (f : V → Z) (m : gmap K V) : Z :=
  map_fold (λ _ v acc, f v + acc) 0 m.

Lemma map_sum_empty f : map_sum f ∅ = 0.
Proof. apply map_fold_empty. Qed.

Lemma map_sum_insert f m k v :
  m !! k = None → map_sum f (<[k:=v]> m) = f v + map_sum f m.
Proof.
  intros Hk. unfold map_sum. rewrite map_fold_insert_L; [done| |done].
  intros. lia.
Qed.

Lemma map_sum_delete f m k v :
  m !! k = Some v → map_sum f (delete k m) = map_sum f m - f v.
Proof.
  intros Hk. rewrite <- (insert_delete_id m k v Hk) at 2.
  rewrite map_sum_insert by apply lookup_delete_eq. lia.
Qed.

Lemma map_sum_replace f m k v v' :
  m !! k = Some v → map_sum f (<[k:=v']> m) = map_sum f m - f v + f v'.
Proof.
  intros Hk. rewrite <- insert_delete_eq.
  rewrite map_sum_insert by apply lookup_delete_eq.
  rewrite (map_sum_delete _ _ _ _ Hk). lia.
Qed.

Lemma map_sum_bounds f m b :
  (∀ k v, m !! k = Some v → 0 ≤ f v ≤ b) →
  0 ≤ map_sum f m ≤ b * Z.of_nat (size m).
Proof.
  induction m as [|k v m Hk IH] using map_ind; intros Hf.
  - rewrite map_sum_empty, map_size_empty. lia.
  - rewrite map_sum_insert, map_size_insert_None by done.
    assert (0 ≤ f v ≤ b) by (apply (Hf k); apply lookup_insert_eq).
    ospecialize* IH.
    { intros k' v' Hk'. apply (Hf k'). rewrite lookup_insert_ne; congruence. }
    lia.
Qed.

Lemma map_sum_lookup_le f m k v :
  (∀ k v, m !! k = Some v → 0 ≤ f v) → m !! k = Some v → f v ≤ map_sum f m.
Proof.
  intros Hf Hk. rewrite <- (insert_delete_id m k v Hk).
  rewrite map_sum_insert by apply lookup_delete_eq.
  assert (0 ≤ map_sum f (delete k m)); [|lia].
  assert (∀ k' v', delete k m !! k' = Some v' → 0 ≤ f v') as Hf'.
  { intros k' v' [_ Hk']%lookup_delete_Some. eauto. }
  revert Hf'. generalize (delete k m) as m'. clear.
  induction m' as [|k v m Hk IH] using map_ind; intros Hf.
  { by rewrite map_sum_empty. }
  rewrite map_sum_insert by done.
  assert (0 ≤ f v) by (apply (Hf k); apply lookup_insert_eq).
  assert (0 ≤ map_sum f m); [|lia].
  apply IH. intros k' v' Hk'. apply (Hf k'). rewrite lookup_insert_ne; congruence.
Qed.

Lemma map_sum_pos_witness f m :
  0 < map_sum f m → ∃ k v, m !! k = Some v ∧ 0 < f v.
Proof.
  induction m as [|k v m Hk IH] using map_ind; intros Hs.
  { rewrite map_sum_empty in Hs. lia. }
  rewrite map_sum_insert in Hs by done.
  destruct (Z_lt_le_dec 0 (f v)) as [Hv|Hv].
  { exists k, v. by rewrite lookup_insert_eq. }
  destruct IH as (k' & v' & Hk' & ?); [lia|].
  exists k', v'. rewrite lookup_insert_ne by congruence. done.
Qed.

End map_sum.
