(* ===== verification/ByteOrder.v ===== *)
(** Byte buffers and the big-endian reads of [include/itch/byte_order.h].

    A [const uint8_t* p] into a buffer is the buffer and an offset; loading
    outside the buffer is undefined behaviour.  The reference meaning of a
    read is [be_value], the positional value of a byte string, with its
    inverse [be_bytes]. *)

From S2P Require Import Prelude.
From Stdlib Require Import Strings.Byte.

(** [using MessageBuffer = std::vector<uint8_t>] *)
Definition MessageBuffer : Type := list byte.

#[export] Instance byte_eq_decision : EqDecision byte := Byte.byte_eq_dec.

Definition byte_val (b : byte) : Z := Z.of_N (Byte.to_N b).

Definition byte_of (z : Z) : byte :=
  default x00 (Byte.of_N (Z.to_N (u8 z))).

Definition load (p : list byte) (i : nat) : outcome Z :=
  b ← deref (p !! i); Ret (byte_val b).

Definition read_be16 (p : list byte) (o : nat) : outcome Z :=
  b0 ← load p o; b1 ← load p (o + 1);
  Ret (u16 (Z.lor (Z.shiftl (u16 b0) 8) b1)).

Definition read_be32 (p : list byte) (o : nat) : outcome Z :=
  b0 ← load p o; b1 ← load p (o + 1); b2 ← load p (o + 2); b3 ← load p (o + 3);
  Ret (Z.lor (Z.lor (Z.lor
    (u32 (Z.shiftl b0 24)) (u32 (Z.shiftl b1 16))) (u32 (Z.shiftl b2 8))) b3).

Definition read_be48 (p : list byte) (o : nat) : outcome Z :=
  b0 ← load p o; b1 ← load p (o + 1); b2 ← load p (o + 2); b3 ← load p (o + 3);
  b4 ← load p (o + 4); b5 ← load p (o + 5);
  Ret (Z.lor (Z.lor (Z.lor (Z.lor (Z.lor
    (u64 (Z.shiftl b0 40)) (u64 (Z.shiftl b1 32))) (u64 (Z.shiftl b2 24)))
    (u64 (Z.shiftl b3 16))) (u64 (Z.shiftl b4 8))) b5).

Definition read_be64 (p : list byte) (o : nat) : outcome Z :=
  b0 ← load p o; b1 ← load p (o + 1); b2 ← load p (o + 2); b3 ← load p (o + 3);
  b4 ← load p (o + 4); b5 ← load p (o + 5); b6 ← load p (o + 6); b7 ← load p (o + 7);
  Ret (Z.lor (Z.lor (Z.lor (Z.lor (Z.lor (Z.lor (Z.lor
    (u64 (Z.shiftl b0 56)) (u64 (Z.shiftl b1 48))) (u64 (Z.shiftl b2 40)))
    (u64 (Z.shiftl b3 32))) (u64 (Z.shiftl b4 24))) (u64 (Z.shiftl b5 16)))
    (u64 (Z.shiftl b6 8))) b7).

(** ** Reference meaning *)

Fixpoint be_value_acc (acc : Z) (l : list byte) : Z :=
  match l with
  | [] => acc
  | b :: l => be_value_acc (acc * 256 + byte_val b) l
  end.
Definition be_value (l : list byte) : Z := be_value_acc 0 l.

(** The [n] low-order bytes of [v], most significant first. *)
Fixpoint be_bytes (n : nat) (v : Z) : list byte :=
  match n with
  | O => []
  | S n => byte_of (v / 256 ^ Z.of_nat n) :: be_bytes n v
  end.

(** ** Bytes *)

Lemma byte_val_range b : byte_val b ∈u8.
Proof. unfold byte_val. pose proof (Byte.to_N_bounded b). ulia. Qed.
#[export] Hint Resolve byte_val_range : itch.

Lemma byte_of_val b : byte_of (byte_val b) = b.
Proof.
  unfold byte_of, u8. rewrite Z.mod_small by apply byte_val_range.
  unfold byte_val. by rewrite N2Z.id, Byte.of_to_N.
Qed.

Lemma byte_val_of z : byte_val (byte_of z) = u8 z.
Proof.
  unfold byte_of. pose proof (u8_range z) as Hz.
  destruct (Byte.of_N (Z.to_N (u8 z))) as [b|] eqn:E; simpl.
  - apply Byte.to_of_N in E. unfold byte_val. rewrite E. ulia.
  - apply Byte.of_N_None_iff in E. ulia.
Qed.

Lemma byte_val_inj b1 b2 : byte_val b1 = byte_val b2 → b1 = b2.
Proof. intros E. rewrite <- (byte_of_val b1), <- (byte_of_val b2). by rewrite E. Qed.

(** ** Positional value *)

Lemma be_value_acc_app acc l1 l2 :
  be_value_acc acc (l1 ++ l2) = be_value_acc (be_value_acc acc l1) l2.
Proof. revert acc. induction l1; simpl; auto. Qed.

Lemma be_value_acc_shift acc l :
  be_value_acc acc l = acc * 256 ^ Z.of_nat (length l) + be_value l.
Proof.
  unfold be_value. revert acc. induction l as [|b l IH]; intros acc; simpl; [lia|].
  rewrite IH, (IH (0 * 256 + byte_val b)). rewrite Nat2Z.inj_succ, Z.pow_succ_r by lia. ring.
Qed.

Lemma be_value_cons b l :
  be_value (b :: l) = byte_val b * 256 ^ Z.of_nat (length l) + be_value l.
Proof. unfold be_value. simpl. apply be_value_acc_shift. Qed.

Lemma be_value_range l : 0 ≤ be_value l < 256 ^ Z.of_nat (length l).
Proof.
  induction l as [|b l IH]; [by vm_compute|].
  rewrite be_value_cons. simpl length. rewrite Nat2Z.inj_succ, Z.pow_succ_r by lia.
  pose proof (byte_val_range b). change (2 ^ 8) with 256 in *. nia.
Qed.

Lemma length_be_bytes n v : length (be_bytes n v) = n.
Proof. induction n; simpl; auto. Qed.
#[export] Hint Rewrite length_be_bytes : itch.

Lemma be_value_bytes n v : be_value (be_bytes n v) = v mod 256 ^ Z.of_nat n.
Proof.
  induction n as [|n IH]; [by rewrite Z.mod_1_r|].
  simpl be_bytes. rewrite be_value_cons, length_be_bytes, IH, byte_val_of.
  rewrite Nat2Z.inj_succ, Z.pow_succ_r by lia.
  unfold u8. change (2 ^ 8) with 256. rewrite (Z.mul_comm 256).
  rewrite Z.rem_mul_r by (try apply Z.pow_nonzero; lia). ring.
Qed.

Lemma be_bytes_value_acc acc l :
  be_bytes (length l) (be_value_acc acc l) = l.
Proof.
  revert acc. induction l as [|b l IH]; intros acc; [done|]. simpl. f_equal; [|apply IH].
  rewrite be_value_acc_shift. rewrite Z.div_add_l by lia.
  rewrite (Z.div_small (be_value l)) by apply be_value_range.
  apply byte_val_inj. rewrite byte_val_of.
  pose proof (byte_val_range b). ulia.
Qed.

(** Splitting a value and combining it again are inverse on byte strings. *)
Lemma be_bytes_value l : be_bytes (length l) (be_value l) = l.
Proof. apply be_bytes_value_acc. Qed.

(** ** Shift-and-or is the positional value *)

Lemma lor_shiftl_byte a b n :
  0 ≤ n → 0 ≤ a → b ∈u8 →
  Z.lor (Z.shiftl a (n + 8)) (Z.shiftl b n) = Z.shiftl (a * 256 + b) n.
Proof.
  intros Hn Ha Hb. rewrite Z.add_comm, <- Z.shiftl_shiftl by lia.
  rewrite <- Z.shiftl_lor. f_equal.
  change 256 with (2 ^ 8). rewrite <- (Z.shiftl_mul_pow2 a 8) by lia.
  symmetry. apply Z.add_nocarry_lor. apply Z.bits_inj'. intros i Hi.
  rewrite Z.land_spec, Z.bits_0, Z.shiftl_spec by lia.
  destruct (Z_lt_le_dec i 8).
  - by rewrite Z.testbit_neg_r by lia.
  - assert (Z.testbit b i = false) as ->; [|by rewrite andb_false_r].
    apply Z.testbit_false; [lia|]. rewrite Z.div_small; [done|].
    split; [lia|]. eapply Z.lt_le_trans; [apply Hb|]. apply Z.pow_le_mono_r; lia.
Qed.

Lemma shiftl_wrap w b n :
  b ∈u8 → 0 ≤ n → n + 8 ≤ w → Z.shiftl b n mod 2 ^ w = Z.shiftl b n.
Proof.
  intros Hb ??. apply Z.mod_small. rewrite Z.shiftl_mul_pow2 by lia.
  assert (2 ^ (n + 8) ≤ 2 ^ w) by (apply Z.pow_le_mono_r; lia).
  assert (0 < 2 ^ n) by (apply Z.pow_pos_nonneg; lia).
  rewrite Z.pow_add_r in * by lia. nia.
Qed.

(** ** Loads *)

Lemma load_ok p i : (i < length p)%nat → ∃ b, p !! i = Some b ∧ load p i = Ret (byte_val b).
Proof. intros [b Hb]%lookup_lt_is_Some. exists b. unfold load. by rewrite Hb. Qed.

Lemma load_undef p i : (length p ≤ i)%nat → load p i = Undef.
Proof. intros Hi. unfold load. by rewrite (proj2 (lookup_ge_None p i)). Qed.

(** The slice [[o, o + n)] of a buffer. *)
Definition slice (p : list byte) (o n : nat) : list byte := take n (drop o p).

Lemma length_slice p o n : (o + n ≤ length p)%nat → length (slice p o n) = n.
Proof. intros. unfold slice. rewrite length_take, length_drop. lia. Qed.

Lemma slice_cons p o n b :
  p !! o = Some b → slice p o (S n) = b :: slice p (o + 1) n.
Proof. intros Hb. unfold slice. by rewrite (drop_S _ _ _ Hb), Nat.add_1_r. Qed.

Lemma slice_cons_at p o k n b :
  p !! (o + k)%nat = Some b → slice p (o + k) (S n) = b :: slice p (o + S k) n.
Proof. intros Hb. by rewrite (slice_cons _ _ _ _ Hb), <- Nat.add_assoc, Nat.add_1_r. Qed.

Lemma slice_0 p o : slice p o 0 = [].
Proof. done. Qed.

Lemma slice_skip p q n : slice (p ++ q) (length p) n = take n q.
Proof. unfold slice. by rewrite drop_app_length. Qed.

(** Open the [n] in-bounds loads of a read. *)
Ltac open_loads :=
  repeat match goal with
  | |- context [load ?p ?i] =>
      let b := fresh "b" in let Hb := fresh "Hb" in let E := fresh "E" in
      destruct (load_ok p i) as (b & Hb & E); [lia|rewrite E; clear E; simpl]
  end.

(** The value of a slice whose bytes are known. *)
Ltac value_of_slice :=
  erewrite slice_cons by eassumption;
  repeat (erewrite slice_cons_at by eassumption);
  rewrite slice_0; unfold be_value; cbn [be_value_acc].

(** Merge the shifted bytes of an or-chain, the two most significant first. *)
Ltac merge_bytes :=
  repeat lazymatch goal with
  | |- context [Z.lor (Z.shiftl ?a ?m) (Z.shiftl ?b ?n)] =>
      replace (Z.shiftl a m) with (Z.shiftl a (n + 8)) by (f_equal; lia);
      rewrite (lor_shiftl_byte a b n) by (done || lia)
  end.

Lemma combine_be16 a0 a1 :
  a0 ∈u8 → a1 ∈u8 →
  u16 (Z.lor (Z.shiftl (u16 a0) 8) a1) =
  (0 * 256 + a0) * 256 + a1.
Proof.
  intros. rewrite (u16_id a0) by ulia.
  rewrite <- (Z.shiftl_0_r a1). change 8 with (0 + 8).
  rewrite lor_shiftl_byte, !Z.shiftl_0_r by (done || lia).
  apply u16_id. ulia.
Qed.

Lemma combine_be32 a0 a1 a2 a3 :
  a0 ∈u8 → a1 ∈u8 → a2 ∈u8 → a3 ∈u8 →
  Z.lor (Z.lor (Z.lor (u32 (Z.shiftl a0 24)) (u32 (Z.shiftl a1 16))) (u32 (Z.shiftl a2 8))) a3 =
  (((0 * 256 + a0) * 256 + a1) * 256 + a2) * 256 + a3.
Proof.
  intros. unfold u32. rewrite !shiftl_wrap by (done || lia).
  rewrite <- (Z.shiftl_0_r a3).
  merge_bytes.
  by rewrite Z.shiftl_0_r.
Qed.

Lemma combine_be48 a0 a1 a2 a3 a4 a5 :
  a0 ∈u8 → a1 ∈u8 → a2 ∈u8 → a3 ∈u8 → a4 ∈u8 → a5 ∈u8 →
  Z.lor (Z.lor (Z.lor (Z.lor (Z.lor (u64 (Z.shiftl a0 40)) (u64 (Z.shiftl a1 32))) (u64 (Z.shiftl a2 24))) (u64 (Z.shiftl a3 16))) (u64 (Z.shiftl a4 8))) a5 =
  (((((0 * 256 + a0) * 256 + a1) * 256 + a2) * 256 + a3) * 256 + a4) * 256 + a5.
Proof.
  intros. unfold u64. rewrite !shiftl_wrap by (done || lia).
  rewrite <- (Z.shiftl_0_r a5).
  merge_bytes.
  by rewrite Z.shiftl_0_r.
Qed.

Lemma combine_be64 a0 a1 a2 a3 a4 a5 a6 a7 :
  a0 ∈u8 → a1 ∈u8 → a2 ∈u8 → a3 ∈u8 → a4 ∈u8 → a5 ∈u8 → a6 ∈u8 → a7 ∈u8 →
  Z.lor (Z.lor (Z.lor (Z.lor (Z.lor (Z.lor (Z.lor (u64 (Z.shiftl a0 56)) (u64 (Z.shiftl a1 48))) (u64 (Z.shiftl a2 40))) (u64 (Z.shiftl a3 32))) (u64 (Z.shiftl a4 24))) (u64 (Z.shiftl a5 16))) (u64 (Z.shiftl a6 8))) a7 =
  (((((((0 * 256 + a0) * 256 + a1) * 256 + a2) * 256 + a3) * 256 + a4) * 256 + a5) * 256 + a6) * 256 + a7.
Proof.
  intros. unfold u64. rewrite !shiftl_wrap by (done || lia).
  rewrite <- (Z.shiftl_0_r a7).
  merge_bytes.
  by rewrite Z.shiftl_0_r.
Qed.

Lemma read_be16_slice p o :
  (o + 2 ≤ length p)%nat → read_be16 p o = Ret (be_value (slice p o 2)).
Proof.
  intros Ho. unfold read_be16. open_loads. value_of_slice. f_equal.
  apply combine_be16; apply byte_val_range.
Qed.

Lemma read_be32_slice p o :
  (o + 4 ≤ length p)%nat → read_be32 p o = Ret (be_value (slice p o 4)).
Proof.
  intros Ho. unfold read_be32. open_loads. value_of_slice. f_equal.
  apply combine_be32; apply byte_val_range.
Qed.

Lemma read_be48_slice p o :
  (o + 6 ≤ length p)%nat → read_be48 p o = Ret (be_value (slice p o 6)).
Proof.
  intros Ho. unfold read_be48. open_loads. value_of_slice. f_equal.
  apply combine_be48; apply byte_val_range.
Qed.

Lemma read_be64_slice p o :
  (o + 8 ≤ length p)%nat → read_be64 p o = Ret (be_value (slice p o 8)).
Proof.
  intros Ho. unfold read_be64. open_loads. value_of_slice. f_equal.
  apply combine_be64; apply byte_val_range.
Qed.
