(* ===== verification/Messages.v ===== *)
(** Data of the feed: prices ([include/itch/price.h]) and the nine in-scope
    ITCH 5.0 messages ([include/itch/messages.h]).  Field names carry a
    two-letter prefix per struct. *)

From S2P Require Import Prelude.
From Stdlib Require Import Strings.Ascii.

(** [struct Price { uint32_t raw; }], ordered by [raw]. *)
Record Price := mkPrice { raw : Z }.

#[export] Instance Price_eq_dec : EqDecision Price.
Proof. solve_decision. Defined.

(** The defaulted [operator<=>] compares the single member. *)
Definition price_ltb (a b : Price) : bool := raw a <? raw b.
Definition price_gtb (a b : Price) : bool := raw b <? raw a.

Record StockDirectoryMsg := {
  sd_stock_locate : Z;
  sd_tracking_number : Z;
  sd_timestamp : Z;
  sd_stock : string;
  sd_market_category : ascii;
  sd_financial_status : ascii;
  sd_round_lot_size : Z;
  sd_round_lots_only : ascii;
  sd_issue_classification : ascii;
  sd_issue_sub_type : string;
  sd_authenticity : ascii;
  sd_short_sale_threshold : ascii;
  sd_ipo_flag : ascii;
  sd_luld_ref_price_tier : ascii;
  sd_etp_flag : ascii;
  sd_etp_leverage_factor : Z;
  sd_inverse_indicator : ascii
}.

Record StockTradingActionMsg := {
  ta_stock_locate : Z;
  ta_tracking_number : Z;
  ta_timestamp : Z;
  ta_stock : string;
  ta_trading_state : ascii;
  ta_reserved : ascii;
  ta_reason : string
}.

Record AddOrderMsg := {
  ao_stock_locate : Z;
  ao_tracking_number : Z;
  ao_timestamp : Z;
  ao_order_ref : Z;
  ao_side : ascii;
  ao_shares : Z;
  ao_stock : string;
  ao_price : Price
}.

Record AddOrderMPIDMsg := {
  am_stock_locate : Z;
  am_tracking_number : Z;
  am_timestamp : Z;
  am_order_ref : Z;
  am_side : ascii;
  am_shares : Z;
  am_stock : string;
  am_price : Price;
  am_attribution : string
}.

Record OrderExecutedMsg := {
  oe_stock_locate : Z;
  oe_tracking_number : Z;
  oe_timestamp : Z;
  oe_order_ref : Z;
  oe_executed_shares : Z;
  oe_match_number : Z
}.

Record OrderExecutedPriceMsg := {
  op_stock_locate : Z;
  op_tracking_number : Z;
  op_timestamp : Z;
  op_order_ref : Z;
  op_executed_shares : Z;
  op_match_number : Z;
  op_printable : ascii;
  op_execution_price : Price
}.

Record OrderCancelMsg := {
  oc_stock_locate : Z;
  oc_tracking_number : Z;
  oc_timestamp : Z;
  oc_order_ref : Z;
  oc_cancelled_shares : Z
}.

Record OrderDeleteMsg := {
  od_stock_locate : Z;
  od_tracking_number : Z;
  od_timestamp : Z;
  od_order_ref : Z
}.

Record OrderReplaceMsg := {
  or_stock_locate : Z;
  or_tracking_number : Z;
  or_timestamp : Z;
  or_original_order_ref : Z;
  or_new_order_ref : Z;
  or_shares : Z;
  or_price : Price
}.

(** [std::variant] of the nine messages. *)
Inductive ParsedMessage :=
| StockDirectory (m : StockDirectoryMsg)
| StockTradingAction (m : StockTradingActionMsg)
| AddOrder (m : AddOrderMsg)
| AddOrderMPID (m : AddOrderMPIDMsg)
| OrderExecuted (m : OrderExecutedMsg)
| OrderExecutedPrice (m : OrderExecutedPriceMsg)
| OrderCancel (m : OrderCancelMsg)
| OrderDelete (m : OrderDeleteMsg)
| OrderReplace (m : OrderReplaceMsg).

Lemma price_eq a b : raw a = raw b → a = b.
Proof. destruct a, b; simpl. congruence. Qed.
