(* ===== verification/Parser.v ===== *)
(** The message parser of [src/parser.cpp].

    [parse] follows the source: the length guard of each message type, then
    reads at the fixed offsets, then the dispatch on the type byte.  A read
    outside the buffer is [Undef]; a truncated message is a [Throw].  The wire
    format, stated independently as [encode], is the reference the parser is
    proved against in both directions. *)

From S2P Require Import Prelude ByteOrder Messages.
From stdpp Require Import pretty.
From Stdlib Require Import Strings.Ascii Strings.Byte.
From Stdlib Require Strings.String.

(** ** std::string *)

(** [s.find_last_not_of(c)] *)
Fixpoint find_last_not_of (s : string) (c : ascii) : option nat :=
  match s with
  | EmptyString => None
  | String x s' =>
      match find_last_not_of s' c with
      | Some n => Some (S n)
      | None => if Ascii.eqb x c then None else Some 0%nat
      end
  end.

(** [s.resize(n)] for [n] at most the length of [s]. *)
Definition resize (s : string) (n : nat) : string := Strings.String.substring 0 n s.

(** [std::string(reinterpret_cast<const char*>(p), len)] *)
Definition string_of_ptr (p : list byte) (o len : nat) : outcome string :=
  if decide (o + len ≤ length p)%nat
  then Ret (Strings.String.string_of_list_byte (slice p o len)) else Undef.

(** [static_cast<char>(p[i])] *)
Definition load_char (p : list byte) (i : nat) : outcome ascii :=
  b ← deref (p !! i); Ret (ascii_of_byte b).

Definition read_alpha (p : list byte) (o len : nat) : outcome string :=
  s ← string_of_ptr p o len;
  match find_last_not_of s " "%char with
  | None => Ret ""%string
  | Some last => Ret (resize s (last + 1))
  end.

(** ** Length guards *)

Definition require (buf : MessageBuffer) (needed : nat) (msg_type : string)
  : outcome unit :=
  if decide (length buf < needed)%nat then
    Throw ("Parser: truncated " +:+ msg_type +:+ " message: need " +:+
           pretty needed +:+ " bytes, got " +:+ pretty (length buf))
  else Ret tt.

(** ** Per-type deserializers *)

Definition parse_stock_directory (buf : MessageBuffer) : outcome StockDirectoryMsg :=
  _ ← require buf 39 "StockDirectory";
  stock_locate ← read_be16 buf 1;
  tracking_number ← read_be16 buf 3;
  timestamp ← read_be48 buf 5;
  stock ← read_alpha buf 11 8;
  market_category ← load_char buf 19;
  financial_status ← load_char buf 20;
  round_lot_size ← read_be32 buf 21;
  round_lots_only ← load_char buf 25;
  issue_classification ← load_char buf 26;
  issue_sub_type ← read_alpha buf 27 2;
  authenticity ← load_char buf 29;
  short_sale_threshold ← load_char buf 30;
  ipo_flag ← load_char buf 31;
  luld_ref_price_tier ← load_char buf 32;
  etp_flag ← load_char buf 33;
  etp_leverage_factor ← read_be32 buf 34;
  inverse_indicator ← load_char buf 38;
  Ret {| sd_stock_locate := stock_locate; sd_tracking_number := tracking_number;
         sd_timestamp := timestamp; sd_stock := stock;
         sd_market_category := market_category;
         sd_financial_status := financial_status;
         sd_round_lot_size := round_lot_size; sd_round_lots_only := round_lots_only;
         sd_issue_classification := issue_classification;
         sd_issue_sub_type := issue_sub_type; sd_authenticity := authenticity;
         sd_short_sale_threshold := short_sale_threshold; sd_ipo_flag := ipo_flag;
         sd_luld_ref_price_tier := luld_ref_price_tier; sd_etp_flag := etp_flag;
         sd_etp_leverage_factor := etp_leverage_factor;
         sd_inverse_indicator := inverse_indicator |}.

Definition parse_trading_action (buf : MessageBuffer) : outcome StockTradingActionMsg :=
  _ ← require buf 25 "StockTradingAction";
  stock_locate ← read_be16 buf 1;
  tracking_number ← read_be16 buf 3;
  timestamp ← read_be48 buf 5;
  stock ← read_alpha buf 11 8;
  trading_state ← load_char buf 19;
  reserved ← load_char buf 20;
  reason ← read_alpha buf 21 4;
  Ret {| ta_stock_locate := stock_locate; ta_tracking_number := tracking_number;
         ta_timestamp := timestamp; ta_stock := stock;
         ta_trading_state := trading_state; ta_reserved := reserved;
         ta_reason := reason |}.

Definition parse_add_order (buf : MessageBuffer) : outcome AddOrderMsg :=
  _ ← require buf 36 "AddOrder";
  stock_locate ← read_be16 buf 1;
  tracking_number ← read_be16 buf 3;
  timestamp ← read_be48 buf 5;
  order_ref ← read_be64 buf 11;
  side ← load_char buf 19;
  shares ← read_be32 buf 20;
  stock ← read_alpha buf 24 8;
  price_raw ← read_be32 buf 32;
  Ret {| ao_stock_locate := stock_locate; ao_tracking_number := tracking_number;
         ao_timestamp := timestamp; ao_order_ref := order_ref; ao_side := side;
         ao_shares := shares; ao_stock := stock; ao_price := mkPrice price_raw |}.

Definition parse_add_order_mpid (buf : MessageBuffer) : outcome AddOrderMPIDMsg :=
  _ ← require buf 40 "AddOrderMPID";
  stock_locate ← read_be16 buf 1;
  tracking_number ← read_be16 buf 3;
  timestamp ← read_be48 buf 5;
  order_ref ← read_be64 buf 11;
  side ← load_char buf 19;
  shares ← read_be32 buf 20;
  stock ← read_alpha buf 24 8;
  price_raw ← read_be32 buf 32;
  attribution ← read_alpha buf 36 4;
  Ret {| am_stock_locate := stock_locate; am_tracking_number := tracking_number;
         am_timestamp := timestamp; am_order_ref := order_ref; am_side := side;
         am_shares := shares; am_stock := stock; am_price := mkPrice price_raw;
         am_attribution := attribution |}.

Definition parse_order_executed (buf : MessageBuffer) : outcome OrderExecutedMsg :=
  _ ← require buf 31 "OrderExecuted";
  stock_locate ← read_be16 buf 1;
  tracking_number ← read_be16 buf 3;
  timestamp ← read_be48 buf 5;
  order_ref ← read_be64 buf 11;
  executed_shares ← read_be32 buf 19;
  match_number ← read_be64 buf 23;
  Ret {| oe_stock_locate := stock_locate; oe_tracking_number := tracking_number;
         oe_timestamp := timestamp; oe_order_ref := order_ref;
         oe_executed_shares := executed_shares; oe_match_number := match_number |}.

Definition parse_order_executed_price (buf : MessageBuffer)
  : outcome OrderExecutedPriceMsg :=
  _ ← require buf 36 "OrderExecutedPrice";
  stock_locate ← read_be16 buf 1;
  tracking_number ← read_be16 buf 3;
  timestamp ← read_be48 buf 5;
  order_ref ← read_be64 buf 11;
  executed_shares ← read_be32 buf 19;
  match_number ← read_be64 buf 23;
  printable ← load_char buf 31;
  execution_price_raw ← read_be32 buf 32;
  Ret {| op_stock_locate := stock_locate; op_tracking_number := tracking_number;
         op_timestamp := timestamp; op_order_ref := order_ref;
         op_executed_shares := executed_shares; op_match_number := match_number;
         op_printable := printable;
         op_execution_price := mkPrice execution_price_raw |}.

Definition parse_order_cancel (buf : MessageBuffer) : outcome OrderCancelMsg :=
  _ ← require buf 23 "OrderCancel";
  stock_locate ← read_be16 buf 1;
  tracking_number ← read_be16 buf 3;
  timestamp ← read_be48 buf 5;
  order_ref ← read_be64 buf 11;
  cancelled_shares ← read_be32 buf 19;
  Ret {| oc_stock_locate := stock_locate; oc_tracking_number := tracking_number;
         oc_timestamp := timestamp; oc_order_ref := order_ref;
         oc_cancelled_shares := cancelled_shares |}.

Definition parse_order_delete (buf : MessageBuffer) : outcome OrderDeleteMsg :=
  _ ← require buf 19 "OrderDelete";
  stock_locate ← read_be16 buf 1;
  tracking_number ← read_be16 buf 3;
  timestamp ← read_be48 buf 5;
  order_ref ← read_be64 buf 11;
  Ret {| od_stock_locate := stock_locate; od_tracking_number := tracking_number;
         od_timestamp := timestamp; od_order_ref := order_ref |}.

Definition parse_order_replace (buf : MessageBuffer) : outcome OrderReplaceMsg :=
  _ ← require buf 35 "OrderReplace";
  stock_locate ← read_be16 buf 1;
  tracking_number ← read_be16 buf 3;
  timestamp ← read_be48 buf 5;
  original_order_ref ← read_be64 buf 11;
  new_order_ref ← read_be64 buf 19;
  shares ← read_be32 buf 27;
  price_raw ← read_be32 buf 31;
  Ret {| or_stock_locate := stock_locate; or_tracking_number := tracking_number;
         or_timestamp := timestamp; or_original_order_ref := original_order_ref;
         or_new_order_ref := new_order_ref; or_shares := shares;
         or_price := mkPrice price_raw |}.

(** ** Dispatcher *)

(** [return parse_x(buf)] in a function that returns [optional<ParsedMessage>]. *)
Definition some_as {A} (C : A → ParsedMessage) (m : outcome A)
  : outcome (option ParsedMessage) :=
  a ← m; Ret (Some (C a)).

(** The [switch] dispatch (the default build). *)
Definition parse (buf : MessageBuffer) : outcome (option ParsedMessage) :=
  match buf with
  | [] => Throw "Parser: empty message buffer"
  | _ =>
      type ← load_char buf 0;
      if Ascii.eqb type "R" then some_as StockDirectory (parse_stock_directory buf)
      else if Ascii.eqb type "H" then some_as StockTradingAction (parse_trading_action buf)
      else if Ascii.eqb type "A" then some_as AddOrder (parse_add_order buf)
      else if Ascii.eqb type "F" then some_as AddOrderMPID (parse_add_order_mpid buf)
      else if Ascii.eqb type "E" then some_as OrderExecuted (parse_order_executed buf)
      else if Ascii.eqb type "C" then some_as OrderExecutedPrice (parse_order_executed_price buf)
      else if Ascii.eqb type "X" then some_as OrderCancel (parse_order_cancel buf)
      else if Ascii.eqb type "D" then some_as OrderDelete (parse_order_delete buf)
      else if Ascii.eqb type "U" then some_as OrderReplace (parse_order_replace buf)
      else Ret None
  end%char%string.

(** The computed-goto dispatch ([ITCH_PARSER_COMPUTED_GOTO]): a 256-entry table
    of labels, all [L_unknown] but the nine designated ones. *)
Inductive label := L_unknown | L_R | L_H | L_A | L_F | L_E | L_C | L_X | L_D | L_U.

Definition dispatch : list label :=
  let at_char (c : ascii) := nat_of_ascii c in
  <[at_char "U"%char := L_U]> $ <[at_char "D"%char := L_D]> $
  <[at_char "X"%char := L_X]> $ <[at_char "C"%char := L_C]> $
  <[at_char "E"%char := L_E]> $ <[at_char "F"%char := L_F]> $
  <[at_char "A"%char := L_A]> $ <[at_char "H"%char := L_H]> $
  <[at_char "R"%char := L_R]> $ replicate 256 L_unknown.

Definition parse_goto (buf : MessageBuffer) : outcome (option ParsedMessage) :=
  match buf with
  | [] => Throw "Parser: empty message buffer"%string
  | _ =>
      i ← load buf 0;
      l ← deref (dispatch !! Z.to_nat i);
      match l with
      | L_R => some_as StockDirectory (parse_stock_directory buf)
      | L_H => some_as StockTradingAction (parse_trading_action buf)
      | L_A => some_as AddOrder (parse_add_order buf)
      | L_F => some_as AddOrderMPID (parse_add_order_mpid buf)
      | L_E => some_as OrderExecuted (parse_order_executed buf)
      | L_C => some_as OrderExecutedPrice (parse_order_executed_price buf)
      | L_X => some_as OrderCancel (parse_order_cancel buf)
      | L_D => some_as OrderDelete (parse_order_delete buf)
      | L_U => some_as OrderReplace (parse_order_replace buf)
      | L_unknown => Ret None
      end
  end.
