(* ===== verification/WireFormat.v ===== *)
(** The ITCH 5.0 wire format as a specification, and the parser against it.

    [Wire] is the interface a message type offers the dispatcher: how its body
    (the bytes after the type byte) is laid out, when a value is encodable, and
    the laws that tie the deserializer to the layout.  The nine instances
    discharge it from the source's offsets; the dispatcher's theorems use the
    interface only. *)

From S2P Require Import Prelude ByteOrder Messages Parser.
From Stdlib Require Import Strings.Ascii Strings.Byte.
From Stdlib Require Strings.String.

(** ** Fields *)

(** A fixed-width alpha field: left-justified, padded with spaces. *)
Definition pad (n : nat) (s : string) : list byte :=
  let l := Strings.String.list_byte_of_string s in l ++ replicate (n - length l) x20.

(** A string without its trailing spaces. *)
Definition strip (s : string) : string :=
  match find_last_not_of s " "%char with
  | None => ""
  | Some last => resize s (last + 1)
  end.

(** The text of an alpha field. *)
Definition alpha (l : list byte) : string :=
  strip (Strings.String.string_of_list_byte l).

(** A string that fits an [n]-byte alpha field and has no trailing space. *)
Definition alpha_ok (n : nat) (s : string) : Prop :=
  (length (Strings.String.list_byte_of_string s) ≤ n)%nat ∧
  alpha (Strings.String.list_byte_of_string s) = s.

Definition char_of (l : list byte) : ascii :=
  match l with b :: _ => ascii_of_byte b | [] => zero end.

Definition chr (c : ascii) : list byte := [byte_of_ascii c].

(** ** The interface of a message body *)
Class Wire (A : Type) := {
  wire_len : nat;                       (* bytes after the type byte *)
  wire_body : A → list byte;
  wire_ok : A → Prop;
  wire_parse : MessageBuffer → outcome A;
  wire_body_length a : wire_ok a → length (wire_body a) = wire_len;
  wire_short t rest : (length rest < wire_len)%nat → ∃ w, wire_parse (t :: rest) = Throw w;
  wire_total t rest : (wire_len ≤ length rest)%nat →
    ∃ a, wire_parse (t :: rest) = Ret a ∧ wire_ok a ∧ wire_body a = take wire_len rest;
  wire_complete t a tail : wire_ok a → wire_parse (t :: wire_body a ++ tail) = Ret a
}.

(** ** Field lemmas *)

Lemma find_last_not_of_lt s c k :
  find_last_not_of s c = Some k → (k < Strings.String.length s)%nat.
Proof.
  revert k. induction s as [|x s IH]; intros k; simpl; [done|].
  destruct (find_last_not_of s c) as [j|].
  - intros [= <-]. specialize (IH j eq_refl). lia.
  - destruct (Ascii.eqb x c); [done|]. intros [= <-]. lia.
Qed.

Lemma strip_cons c s :
  strip (String c s) =
  if decide (strip s = "" ∧ c = " "%char) then "" else String c (strip s).
Proof.
  unfold strip. simpl. destruct (find_last_not_of s " "%char) as [k|] eqn:E.
  - apply find_last_not_of_lt in E. rewrite decide_False; [done|].
    intros [Hr _]. unfold resize in Hr. rewrite Nat.add_1_r in Hr.
    destruct s; simpl in *; [lia|done].
  - destruct (Ascii.eqb_spec c " "%char) as [->|Hc]; [done|].
    rewrite decide_False by (intros [_ ?]; done). unfold resize. simpl.
    by destruct s.
Qed.

Lemma ascii_space b : ascii_of_byte b = " "%char ↔ b = x20.
Proof.
  split; [|by intros ->]. intros Hb. rewrite <- (byte_of_ascii_of_byte b), Hb. done.
Qed.

Lemma alpha_cons b l :
  alpha (b :: l) =
  if decide (alpha l = "" ∧ b = x20) then "" else String (ascii_of_byte b) (alpha l).
Proof.
  unfold alpha.
  change (Strings.String.string_of_list_byte (b :: l))
    with (String (ascii_of_byte b) (Strings.String.string_of_list_byte l)).
  rewrite strip_cons. apply decide_ext. by rewrite ascii_space.
Qed.

Lemma list_byte_cons c s :
  Strings.String.list_byte_of_string (String c s) =
  byte_of_ascii c :: Strings.String.list_byte_of_string s.
Proof. done. Qed.

Lemma alpha_nil : alpha [] = "".
Proof. done. Qed.

Lemma pad_alpha l : pad (length l) (alpha l) = l.
Proof.
  unfold pad. induction l as [|b l IH]; [done|].
  rewrite alpha_cons. case_decide as Hd.
  - destruct Hd as [Ha ->]. rewrite Ha in IH. simpl in *. f_equal.
    by rewrite Nat.sub_0_r in IH.
  - rewrite list_byte_cons, byte_of_ascii_of_byte. simpl. f_equal. exact IH.
Qed.

Lemma alpha_app_spaces l k : alpha (l ++ replicate k x20) = alpha l.
Proof.
  induction l as [|b l IH]; simpl.
  - induction k as [|k IHk]; simpl; [done|]. rewrite alpha_cons, IHk. done.
  - by rewrite !alpha_cons, IH.
Qed.

Lemma alpha_length l :
  (length (Strings.String.list_byte_of_string (alpha l)) ≤ length l)%nat.
Proof.
  induction l as [|b l IH]; [done|]. rewrite alpha_cons.
  case_decide; [simpl; lia|]. rewrite list_byte_cons. simpl. lia.
Qed.

Lemma alpha_idem l : alpha (Strings.String.list_byte_of_string (alpha l)) = alpha l.
Proof.
  transitivity (alpha (pad (length l) (alpha l))); [|by rewrite pad_alpha].
  unfold pad. by rewrite alpha_app_spaces.
Qed.

Lemma alpha_ok_alpha n l : (length l ≤ n)%nat → alpha_ok n (alpha l).
Proof.
  intros Hn. split; [|apply alpha_idem].
  etrans; [apply alpha_length|done].
Qed.

Lemma alpha_pad n s : alpha_ok n s → alpha (pad n s) = s.
Proof. intros [_ Hs]. unfold pad. by rewrite alpha_app_spaces. Qed.

Lemma length_pad n s : alpha_ok n s → length (pad n s) = n.
Proof. intros [Hs _]. unfold pad. rewrite length_app, length_replicate. lia. Qed.

Lemma length_chr c : length (chr c) = 1%nat.
Proof. done. Qed.

Lemma char_of_chr c : char_of (chr c) = c.
Proof. apply ascii_of_byte_of_ascii. Qed.

Lemma chr_char_of l : length l = 1%nat → chr (char_of l) = l.
Proof.
  destruct l as [|b [|]]; simpl; try discriminate. intros _. unfold chr.
  by rewrite byte_of_ascii_of_byte.
Qed.

Lemma be_value_be n w v :
  w = 8 * Z.of_nat n → 0 ≤ v < 2 ^ w → be_value (be_bytes n v) = v.
Proof.
  intros -> Hv. rewrite be_value_bytes. apply Z.mod_small.
  rewrite Z.pow_mul_r in Hv by lia. exact Hv.
Qed.

Lemma be_value_lt n w l : length l = n → w = 8 * Z.of_nat n → 0 ≤ be_value l < 2 ^ w.
Proof.
  intros <- ->. rewrite Z.pow_mul_r by lia. apply be_value_range.
Qed.

Lemma be_value_ub n w l : length l = n → w = 8 * Z.of_nat n → be_value l < 2 ^ w.
Proof. intros Hl Hw. by destruct (be_value_lt _ _ _ Hl Hw). Qed.

Lemma be_be_value n l : length l = n → be_bytes n (be_value l) = l.
Proof. intros <-. apply be_bytes_value. Qed.

(** ** Reads as slices *)

Lemma read_alpha_slice p o n :
  (o + n ≤ length p)%nat → read_alpha p o n = Ret (alpha (slice p o n)).
Proof.
  intros Hn. unfold read_alpha, string_of_ptr, alpha, strip. rewrite decide_True by done. simpl.
  by destruct (find_last_not_of _ _).
Qed.

Lemma load_char_slice p i :
  (i < length p)%nat → load_char p i = Ret (char_of (slice p i 1)).
Proof.
  intros [b Hb]%lookup_lt_is_Some. unfold load_char. rewrite Hb. simpl.
  by rewrite (slice_cons _ _ _ _ Hb).
Qed.

Lemma slice_tail b l o n : slice (b :: l) (S o) n = slice l o n.
Proof. done. Qed.

Lemma slice_here f r n : length f = n → slice (f ++ r) 0 n = f.
Proof. intros <-. unfold slice. by rewrite drop_0, take_app_length. Qed.

Lemma slice_next f r o n k :
  length f = k → (k ≤ o)%nat → slice (f ++ r) o n = slice r (o - k) n.
Proof. intros <- Ho. unfold slice. by rewrite drop_app_ge by done. Qed.

Lemma slice_glue p o o' n m :
  o' = (o + n)%nat → slice p o n ++ slice p o' m = slice p o (n + m).
Proof.
  intros ->. unfold slice. rewrite <- drop_drop. by rewrite take_take_drop.
Qed.

(** Turn every read of a deserializer, under its length guard, into a slice. *)
Ltac reads_to_slices :=
  repeat first
    [ rewrite read_be16_slice by lia
    | rewrite read_be32_slice by lia
    | rewrite read_be48_slice by lia
    | rewrite read_be64_slice by lia
    | rewrite read_alpha_slice by lia
    | rewrite load_char_slice by lia ];
  cbn [mbind outcome_bind].

Lemma require_short buf n ty : (length buf < n)%nat → ∃ w, require buf n ty = Throw w.
Proof. intros Hn. unfold require. rewrite decide_True by done. eauto. Qed.

Lemma require_ok buf n ty : (n ≤ length buf)%nat → require buf n ty = Ret tt.
Proof. intros Hn. unfold require. rewrite decide_False by lia. done. Qed.

(** *** Automation of the instances *)

Arguments be_bytes : simpl never.
Arguments be_value : simpl never.
Arguments slice : simpl never.
Arguments pad : simpl never.
Arguments alpha : simpl never.
Arguments chr : simpl never.
Arguments char_of : simpl never.
Arguments take : simpl never.

(** Both directions reduce to slices: [to_view] opens a deserializer applied to
    a long enough buffer, [resolve_slices] computes the slices of an encoded
    body, [glue_slices] joins the adjacent slices of a buffer. *)
Ltac to_view :=
  rewrite require_ok by lia; cbn [mbind outcome_bind]; reads_to_slices.

Ltac field_length :=
  first [ apply length_be_bytes | apply length_chr | apply length_pad; assumption
        | apply length_slice; simpl in *; lia | reflexivity ].

Ltac resolve_slices :=
  repeat first
    [ rewrite slice_here by field_length
    | erewrite slice_next; [|field_length|lia];
      cbn [Nat.sub] ].

Ltac glue_slices :=
  repeat (rewrite slice_glue by reflexivity; cbn [Nat.add]).

Ltac field_ok :=
  first [ eapply be_value_lt; [field_length|reflexivity]
        | apply be_value_range
        | eapply be_value_ub; [field_length|reflexivity]
        | apply alpha_ok_alpha; rewrite length_slice; simpl in *; lia ].

Ltac field_back :=
  repeat first
    [ rewrite be_be_value by field_length
    | rewrite chr_char_of by field_length
    | match goal with |- context [pad ?n (alpha ?l)] =>
        replace (pad n (alpha l)) with l
          by (rewrite <- (pad_alpha l) at 1; f_equal; field_length) end ].

Ltac field_forth :=
  repeat first
    [ erewrite be_value_be by (reflexivity || (split; eassumption))
    | rewrite alpha_pad by assumption
    | rewrite char_of_chr ].

(** One message type is short, total, or complete by the same steps. *)
Ltac wire_length ok body :=
  intros m Hm; unfold ok in Hm; destruct_and!; unfold body;
  rewrite !length_app, ?length_be_bytes; repeat rewrite length_pad by done; done.

Ltac wire_short_by parse :=
  intros t rest Hr; unfold parse, require;
  rewrite decide_True by (simpl; lia); eexists; reflexivity.

Ltac wire_total_by parse ok body :=
  intros t rest Hr; remember (t :: rest) as buf eqn:Eb;
  assert (length buf = S (length rest)) by (by subst);
  unfold parse; to_view; subst buf; rewrite !slice_tail;
  eexists; split; [reflexivity|split];
  [ unfold ok; cbn; split_and!; field_ok
  | unfold body; cbn; field_back; glue_slices; done ].

Ltac wire_complete_by parse ok body Hlen :=
  intros t m tail Hm; remember (t :: body m ++ tail) as buf eqn:Eb;
  assert (length buf = S (length (body m) + length tail))
    by (subst; cbn [length]; by rewrite length_app);
  pose proof (Hlen m Hm) as Hl; unfold parse; to_view; subst buf;
  rewrite !slice_tail; unfold body; rewrite <- !app_assoc;
  unfold ok in Hm; destruct_and!; resolve_slices; field_forth.

(** ** The nine message bodies *)

Definition stock_directory_body (m : StockDirectoryMsg) : list byte :=
  be_bytes 2 (sd_stock_locate m) ++ be_bytes 2 (sd_tracking_number m) ++
  be_bytes 6 (sd_timestamp m) ++ pad 8 (sd_stock m) ++
  chr (sd_market_category m) ++ chr (sd_financial_status m) ++
  be_bytes 4 (sd_round_lot_size m) ++ chr (sd_round_lots_only m) ++
  chr (sd_issue_classification m) ++ pad 2 (sd_issue_sub_type m) ++
  chr (sd_authenticity m) ++ chr (sd_short_sale_threshold m) ++
  chr (sd_ipo_flag m) ++ chr (sd_luld_ref_price_tier m) ++ chr (sd_etp_flag m) ++
  be_bytes 4 (sd_etp_leverage_factor m) ++ chr (sd_inverse_indicator m).

Definition stock_directory_ok (m : StockDirectoryMsg) : Prop :=
  sd_stock_locate m ∈u16 ∧ sd_tracking_number m ∈u16 ∧ sd_timestamp m ∈u48 ∧
  alpha_ok 8 (sd_stock m) ∧ sd_round_lot_size m ∈u32 ∧
  alpha_ok 2 (sd_issue_sub_type m) ∧ sd_etp_leverage_factor m ∈u32.

Lemma length_stock_directory_body m : stock_directory_ok m → length (stock_directory_body m) = 38%nat.
Proof. revert m. wire_length stock_directory_ok stock_directory_body. Qed.

#[export] Program Instance wire_stock_directory : Wire StockDirectoryMsg := {|
  wire_len := 38;
  wire_body := stock_directory_body;
  wire_ok := stock_directory_ok;
  wire_parse := parse_stock_directory;
  wire_body_length := length_stock_directory_body
|}.
Next Obligation. wire_short_by parse_stock_directory. Qed.
Next Obligation. wire_total_by parse_stock_directory stock_directory_ok stock_directory_body. Qed.
Next Obligation.
  wire_complete_by parse_stock_directory stock_directory_ok stock_directory_body length_stock_directory_body.
  by destruct m as [? ? ? ? ? ? ? ? ? ? ? ? ? ? ? ? ?].
Qed.

Definition trading_action_body (m : StockTradingActionMsg) : list byte :=
  be_bytes 2 (ta_stock_locate m) ++ be_bytes 2 (ta_tracking_number m) ++
  be_bytes 6 (ta_timestamp m) ++ pad 8 (ta_stock m) ++ chr (ta_trading_state m) ++
  chr (ta_reserved m) ++ pad 4 (ta_reason m).

Definition trading_action_ok (m : StockTradingActionMsg) : Prop :=
  ta_stock_locate m ∈u16 ∧ ta_tracking_number m ∈u16 ∧ ta_timestamp m ∈u48 ∧
  alpha_ok 8 (ta_stock m) ∧ alpha_ok 4 (ta_reason m).

Lemma length_trading_action_body m : trading_action_ok m → length (trading_action_body m) = 24%nat.
Proof. revert m. wire_length trading_action_ok trading_action_body. Qed.

#[export] Program Instance wire_trading_action : Wire StockTradingActionMsg := {|
  wire_len := 24;
  wire_body := trading_action_body;
  wire_ok := trading_action_ok;
  wire_parse := parse_trading_action;
  wire_body_length := length_trading_action_body
|}.
Next Obligation. wire_short_by parse_trading_action. Qed.
Next Obligation. wire_total_by parse_trading_action trading_action_ok trading_action_body. Qed.
Next Obligation.
  wire_complete_by parse_trading_action trading_action_ok trading_action_body length_trading_action_body.
  by destruct m as [? ? ? ? ? ? ?].
Qed.

Definition add_order_body (m : AddOrderMsg) : list byte :=
  be_bytes 2 (ao_stock_locate m) ++ be_bytes 2 (ao_tracking_number m) ++
  be_bytes 6 (ao_timestamp m) ++ be_bytes 8 (ao_order_ref m) ++ chr (ao_side m) ++
  be_bytes 4 (ao_shares m) ++ pad 8 (ao_stock m) ++ be_bytes 4 (raw (ao_price m)).

Definition add_order_ok (m : AddOrderMsg) : Prop :=
  ao_stock_locate m ∈u16 ∧ ao_tracking_number m ∈u16 ∧ ao_timestamp m ∈u48 ∧
  ao_order_ref m ∈u64 ∧ ao_shares m ∈u32 ∧ alpha_ok 8 (ao_stock m) ∧
  raw (ao_price m) ∈u32.

Lemma length_add_order_body m : add_order_ok m → length (add_order_body m) = 35%nat.
Proof. revert m. wire_length add_order_ok add_order_body. Qed.

#[export] Program Instance wire_add_order : Wire AddOrderMsg := {|
  wire_len := 35;
  wire_body := add_order_body;
  wire_ok := add_order_ok;
  wire_parse := parse_add_order;
  wire_body_length := length_add_order_body
|}.
Next Obligation. wire_short_by parse_add_order. Qed.
Next Obligation. wire_total_by parse_add_order add_order_ok add_order_body. Qed.
Next Obligation.
  wire_complete_by parse_add_order add_order_ok add_order_body length_add_order_body.
  by destruct m as [? ? ? ? ? ? ? []].
Qed.

Definition add_order_mpid_body (m : AddOrderMPIDMsg) : list byte :=
  be_bytes 2 (am_stock_locate m) ++ be_bytes 2 (am_tracking_number m) ++
  be_bytes 6 (am_timestamp m) ++ be_bytes 8 (am_order_ref m) ++ chr (am_side m) ++
  be_bytes 4 (am_shares m) ++ pad 8 (am_stock m) ++
  be_bytes 4 (raw (am_price m)) ++ pad 4 (am_attribution m).

Definition add_order_mpid_ok (m : AddOrderMPIDMsg) : Prop :=
  am_stock_locate m ∈u16 ∧ am_tracking_number m ∈u16 ∧ am_timestamp m ∈u48 ∧
  am_order_ref m ∈u64 ∧ am_shares m ∈u32 ∧ alpha_ok 8 (am_stock m) ∧
  raw (am_price m) ∈u32 ∧ alpha_ok 4 (am_attribution m).

Lemma length_add_order_mpid_body m : add_order_mpid_ok m → length (add_order_mpid_body m) = 39%nat.
Proof. revert m. wire_length add_order_mpid_ok add_order_mpid_body. Qed.

#[export] Program Instance wire_add_order_mpid : Wire AddOrderMPIDMsg := {|
  wire_len := 39;
  wire_body := add_order_mpid_body;
  wire_ok := add_order_mpid_ok;
  wire_parse := parse_add_order_mpid;
  wire_body_length := length_add_order_mpid_body
|}.
Next Obligation. wire_short_by parse_add_order_mpid. Qed.
Next Obligation. wire_total_by parse_add_order_mpid add_order_mpid_ok add_order_mpid_body. Qed.
Next Obligation.
  wire_complete_by parse_add_order_mpid add_order_mpid_ok add_order_mpid_body length_add_order_mpid_body.
  by destruct m as [? ? ? ? ? ? ? [] ?].
Qed.

Definition order_executed_body (m : OrderExecutedMsg) : list byte :=
  be_bytes 2 (oe_stock_locate m) ++ be_bytes 2 (oe_tracking_number m) ++
  be_bytes 6 (oe_timestamp m) ++ be_bytes 8 (oe_order_ref m) ++
  be_bytes 4 (oe_executed_shares m) ++ be_bytes 8 (oe_match_number m).

Definition order_executed_ok (m : OrderExecutedMsg) : Prop :=
  oe_stock_locate m ∈u16 ∧ oe_tracking_number m ∈u16 ∧ oe_timestamp m ∈u48 ∧
  oe_order_ref m ∈u64 ∧ oe_executed_shares m ∈u32 ∧ oe_match_number m ∈u64.

Lemma length_order_executed_body m : order_executed_ok m → length (order_executed_body m) = 30%nat.
Proof. revert m. wire_length order_executed_ok order_executed_body. Qed.

#[export] Program Instance wire_order_executed : Wire OrderExecutedMsg := {|
  wire_len := 30;
  wire_body := order_executed_body;
  wire_ok := order_executed_ok;
  wire_parse := parse_order_executed;
  wire_body_length := length_order_executed_body
|}.
Next Obligation. wire_short_by parse_order_executed. Qed.
Next Obligation. wire_total_by parse_order_executed order_executed_ok order_executed_body. Qed.
Next Obligation.
  wire_complete_by parse_order_executed order_executed_ok order_executed_body length_order_executed_body.
  by destruct m as [? ? ? ? ? ?].
Qed.

Definition order_executed_price_body (m : OrderExecutedPriceMsg) : list byte :=
  be_bytes 2 (op_stock_locate m) ++ be_bytes 2 (op_tracking_number m) ++
  be_bytes 6 (op_timestamp m) ++ be_bytes 8 (op_order_ref m) ++
  be_bytes 4 (op_executed_shares m) ++ be_bytes 8 (op_match_number m) ++
  chr (op_printable m) ++ be_bytes 4 (raw (op_execution_price m)).

Definition order_executed_price_ok (m : OrderExecutedPriceMsg) : Prop :=
  op_stock_locate m ∈u16 ∧ op_tracking_number m ∈u16 ∧ op_timestamp m ∈u48 ∧
  op_order_ref m ∈u64 ∧ op_executed_shares m ∈u32 ∧ op_match_number m ∈u64 ∧
  raw (op_execution_price m) ∈u32.

Lemma length_order_executed_price_body m : order_executed_price_ok m → length (order_executed_price_body m) = 35%nat.
Proof. revert m. wire_length order_executed_price_ok order_executed_price_body. Qed.

#[export] Program Instance wire_order_executed_price : Wire OrderExecutedPriceMsg := {|
  wire_len := 35;
  wire_body := order_executed_price_body;
  wire_ok := order_executed_price_ok;
  wire_parse := parse_order_executed_price;
  wire_body_length := length_order_executed_price_body
|}.
Next Obligation. wire_short_by parse_order_executed_price. Qed.
Next Obligation. wire_total_by parse_order_executed_price order_executed_price_ok order_executed_price_body. Qed.
Next Obligation.
  wire_complete_by parse_order_executed_price order_executed_price_ok order_executed_price_body length_order_executed_price_body.
  by destruct m as [? ? ? ? ? ? ? []].
Qed.

Definition order_cancel_body (m : OrderCancelMsg) : list byte :=
  be_bytes 2 (oc_stock_locate m) ++ be_bytes 2 (oc_tracking_number m) ++
  be_bytes 6 (oc_timestamp m) ++ be_bytes 8 (oc_order_ref m) ++
  be_bytes 4 (oc_cancelled_shares m).

Definition order_cancel_ok (m : OrderCancelMsg) : Prop :=
  oc_stock_locate m ∈u16 ∧ oc_tracking_number m ∈u16 ∧ oc_timestamp m ∈u48 ∧
  oc_order_ref m ∈u64 ∧ oc_cancelled_shares m ∈u32.

Lemma length_order_cancel_body m : order_cancel_ok m → length (order_cancel_body m) = 22%nat.
Proof. revert m. wire_length order_cancel_ok order_cancel_body. Qed.

#[export] Program Instance wire_order_cancel : Wire OrderCancelMsg := {|
  wire_len := 22;
  wire_body := order_cancel_body;
  wire_ok := order_cancel_ok;
  wire_parse := parse_order_cancel;
  wire_body_length := length_order_cancel_body
|}.
Next Obligation. wire_short_by parse_order_cancel. Qed.
Next Obligation. wire_total_by parse_order_cancel order_cancel_ok order_cancel_body. Qed.
Next Obligation.
  wire_complete_by parse_order_cancel order_cancel_ok order_cancel_body length_order_cancel_body.
  by destruct m as [? ? ? ? ?].
Qed.

Definition order_delete_body (m : OrderDeleteMsg) : list byte :=
  be_bytes 2 (od_stock_locate m) ++ be_bytes 2 (od_tracking_number m) ++
  be_bytes 6 (od_timestamp m) ++ be_bytes 8 (od_order_ref m).

Definition order_delete_ok (m : OrderDeleteMsg) : Prop :=
  od_stock_locate m ∈u16 ∧ od_tracking_number m ∈u16 ∧ od_timestamp m ∈u48 ∧
  od_order_ref m ∈u64.

Lemma length_order_delete_body m : order_delete_ok m → length (order_delete_body m) = 18%nat.
Proof. revert m. wire_length order_delete_ok order_delete_body. Qed.

#[export] Program Instance wire_order_delete : Wire OrderDeleteMsg := {|
  wire_len := 18;
  wire_body := order_delete_body;
  wire_ok := order_delete_ok;
  wire_parse := parse_order_delete;
  wire_body_length := length_order_delete_body
|}.
Next Obligation. wire_short_by parse_order_delete. Qed.
Next Obligation. wire_total_by parse_order_delete order_delete_ok order_delete_body. Qed.
Next Obligation.
  wire_complete_by parse_order_delete order_delete_ok order_delete_body length_order_delete_body.
  by destruct m as [? ? ? ?].
Qed.

Definition order_replace_body (m : OrderReplaceMsg) : list byte :=
  be_bytes 2 (or_stock_locate m) ++ be_bytes 2 (or_tracking_number m) ++
  be_bytes 6 (or_timestamp m) ++ be_bytes 8 (or_original_order_ref m) ++
  be_bytes 8 (or_new_order_ref m) ++ be_bytes 4 (or_shares m) ++
  be_bytes 4 (raw (or_price m)).

Definition order_replace_ok (m : OrderReplaceMsg) : Prop :=
  or_stock_locate m ∈u16 ∧ or_tracking_number m ∈u16 ∧ or_timestamp m ∈u48 ∧
  or_original_order_ref m ∈u64 ∧ or_new_order_ref m ∈u64 ∧ or_shares m ∈u32 ∧
  raw (or_price m) ∈u32.

Lemma length_order_replace_body m : order_replace_ok m → length (order_replace_body m) = 34%nat.
Proof. revert m. wire_length order_replace_ok order_replace_body. Qed.

#[export] Program Instance wire_order_replace : Wire OrderReplaceMsg := {|
  wire_len := 34;
  wire_body := order_replace_body;
  wire_ok := order_replace_ok;
  wire_parse := parse_order_replace;
  wire_body_length := length_order_replace_body
|}.
Next Obligation. wire_short_by parse_order_replace. Qed.
Next Obligation. wire_total_by parse_order_replace order_replace_ok order_replace_body. Qed.
Next Obligation.
  wire_complete_by parse_order_replace order_replace_ok order_replace_body length_order_replace_body.
  by destruct m as [? ? ? ? ? ? []].
Qed.

(** ** The whole message *)

Definition message_type (m : ParsedMessage) : ascii :=
  match m with
  | StockDirectory _ => "R"
  | StockTradingAction _ => "H"
  | AddOrder _ => "A"
  | AddOrderMPID _ => "F"
  | OrderExecuted _ => "E"
  | OrderExecutedPrice _ => "C"
  | OrderCancel _ => "X"
  | OrderDelete _ => "D"
  | OrderReplace _ => "U"
  end%char.

Definition message_body (m : ParsedMessage) : list byte :=
  match m with
  | StockDirectory m => wire_body m
  | StockTradingAction m => wire_body m
  | AddOrder m => wire_body m
  | AddOrderMPID m => wire_body m
  | OrderExecuted m => wire_body m
  | OrderExecutedPrice m => wire_body m
  | OrderCancel m => wire_body m
  | OrderDelete m => wire_body m
  | OrderReplace m => wire_body m
  end.

(** Every field is in the range of its type; alpha fields fit. *)
Definition message_ok (m : ParsedMessage) : Prop :=
  match m with
  | StockDirectory m => wire_ok m
  | StockTradingAction m => wire_ok m
  | AddOrder m => wire_ok m
  | AddOrderMPID m => wire_ok m
  | OrderExecuted m => wire_ok m
  | OrderExecutedPrice m => wire_ok m
  | OrderCancel m => wire_ok m
  | OrderDelete m => wire_ok m
  | OrderReplace m => wire_ok m
  end.

(** The wire encoding: the type byte, then the body. *)
Definition encode (m : ParsedMessage) : list byte :=
  byte_of_ascii (message_type m) :: message_body m.

(** The length of a message of an in-scope type, [None] out of scope. *)
Definition expected_length (c : ascii) : option nat :=
  if Ascii.eqb c "R" then Some 39%nat
  else if Ascii.eqb c "H" then Some 25%nat
  else if Ascii.eqb c "A" then Some 36%nat
  else if Ascii.eqb c "F" then Some 40%nat
  else if Ascii.eqb c "E" then Some 31%nat
  else if Ascii.eqb c "C" then Some 36%nat
  else if Ascii.eqb c "X" then Some 23%nat
  else if Ascii.eqb c "D" then Some 19%nat
  else if Ascii.eqb c "U" then Some 35%nat
  else None.

(** What [parse] may answer on a buffer. *)
Inductive parse_spec (buf : MessageBuffer) : outcome (option ParsedMessage) → Prop :=
| ParseEmpty :
    buf = [] → parse_spec buf (Throw "Parser: empty message buffer")
| ParseSkip t rest :
    buf = t :: rest → expected_length (ascii_of_byte t) = None →
    parse_spec buf (Ret None)
| ParseTruncated t rest n w :
    buf = t :: rest → expected_length (ascii_of_byte t) = Some n →
    (length buf < n)%nat → parse_spec buf (Throw w)
| ParseMessage t rest n m :
    buf = t :: rest → expected_length (ascii_of_byte t) = Some n →
    (n ≤ length buf)%nat → message_type m = ascii_of_byte t → message_ok m →
    encode m = take n buf → parse_spec buf (Ret (Some m)).

Lemma wire_cases {A} `{Wire A} (C : A → ParsedMessage) (c : ascii) t rest n :
  (∀ a, message_type (C a) = c) → (∀ a, message_body (C a) = wire_body a) →
  (∀ a, message_ok (C a) = wire_ok a) →
  ascii_of_byte t = c → expected_length c = Some n → n = S wire_len →
  parse_spec (t :: rest) (some_as C (wire_parse (t :: rest))).
Proof.
  intros Hty Hbody Hok Ht Hn ->. subst c. unfold some_as.
  destruct (decide (length rest < wire_len)%nat) as [Hs|Hl].
  - destruct (wire_short t rest Hs) as [w ->].
    eapply ParseTruncated; [done|exact Hn|simpl; lia].
  - destruct (wire_total t rest ltac:(lia)) as (a & -> & Ha & Hb).
    eapply ParseMessage; [done|exact Hn|simpl; lia|done| |].
    + by rewrite Hok.
    + unfold encode. by rewrite Hty, Hbody, Hb, byte_of_ascii_of_byte.
Qed.

(** Dispatch on one type byte. *)
Ltac dispatch_case t C c :=
  destruct (Ascii.eqb_spec (ascii_of_byte t) c) as [?|?];
  [refine (wire_cases C c t _ _ _ _ _ _ _ _); (eassumption || reflexivity)|].

Lemma parse_meets_spec buf : parse_spec buf (parse buf).
Proof.
  destruct buf as [|t rest]; [by constructor|].
  unfold parse. change (load_char (t :: rest) 0) with (Ret (ascii_of_byte t)).
  cbn [mbind outcome_bind].
  dispatch_case t StockDirectory "R"%char.
  dispatch_case t StockTradingAction "H"%char.
  dispatch_case t AddOrder "A"%char.
  dispatch_case t AddOrderMPID "F"%char.
  dispatch_case t OrderExecuted "E"%char.
  dispatch_case t OrderExecutedPrice "C"%char.
  dispatch_case t OrderCancel "X"%char.
  dispatch_case t OrderDelete "D"%char.
  dispatch_case t OrderReplace "U"%char.
  eapply ParseSkip; [done|]. unfold expected_length.
  repeat match goal with H : ascii_of_byte t ≠ _ |- _ =>
    apply Ascii.eqb_neq in H; rewrite H; clear H end. done.
Qed.

Lemma some_as_complete {A} `{Wire A} (C : A → ParsedMessage) t a tail :
  wire_ok a → some_as C (wire_parse (t :: wire_body a ++ tail)) = Ret (Some (C a)).
Proof. intros Ha. unfold some_as. by rewrite wire_complete. Qed.

Lemma parse_complete m tail : message_ok m → parse (encode m ++ tail) = Ret (Some m).
Proof. destruct m; intros Hm; by apply (some_as_complete _ _ _ tail Hm). Qed.

Lemma encode_length m :
  message_ok m → expected_length (message_type m) = Some (length (encode m)).
Proof.
  destruct m; intros Hm; unfold encode; cbn [length message_body];
    by rewrite (wire_body_length _ Hm).
Qed.

(** ** Properties of the parser *)

(** C9: Decoding inverts encoding: the parser, given the wire encoding of any
    of the nine messages followed by arbitrary further bytes, returns exactly
    that message. *)
Theorem parse_encode m tail :
  message_ok m → parse (encode m ++ tail) = Ret (Some m).
Proof. apply parse_complete. Qed.

Definition sample_add : AddOrderMsg := {|
  ao_stock_locate := 1; ao_tracking_number := 0; ao_timestamp := 34200000000000;
  ao_order_ref := 123456789; ao_side := "B"%char; ao_shares := 100;
  ao_stock := "AAPL"; ao_price := mkPrice 1894300 |}.

Lemma sample_add_ok : message_ok (AddOrder sample_add).
Proof.
  cbn. unfold add_order_ok, alpha_ok. cbn. split_and!; (lia || by vm_compute).
Qed.

Lemma parse_encode_witness :
  message_ok (AddOrder sample_add) ∧
  parse (encode (AddOrder sample_add) ++ [x20]) = Ret (Some (AddOrder sample_add)).
Proof.
  split; [apply sample_add_ok|]. apply (parse_encode (AddOrder sample_add) [x20]), sample_add_ok.
Defined.

(** C10: Parsing loses nothing: whenever the parser returns a message, every
    field is in the range of its type and re-encoding the message gives back
    the very bytes of the buffer, up to the message's length. *)
Theorem parse_lossless buf m :
  parse buf = Ret (Some m) →
  message_ok m ∧ encode m = take (length (encode m)) buf.
Proof.
  intros E. pose proof (parse_meets_spec buf) as S. rewrite E in S.
  inversion S as [| | |t rest n m' Hb Hn Hl Ht Hok He]; subst. split; [done|].
  by rewrite He at 1; rewrite He, length_take_le by lia.
Qed.

Lemma parse_lossless_witness :
  parse (encode (AddOrder sample_add)) = Ret (Some (AddOrder sample_add)) ∧
  message_ok (AddOrder sample_add).
Proof.
  assert (parse (encode (AddOrder sample_add)) = Ret (Some (AddOrder sample_add))) as E
    by (vm_compute; reflexivity).
  split; [exact E|]. exact (proj1 (parse_lossless _ _ E)).
Defined.

(** C11: The parser answers exactly as documented on every buffer: an empty
    buffer throws; an out-of-scope type byte gives [nullopt] whatever follows;
    an in-scope type throws when the buffer is shorter than the message and
    returns a message of that type otherwise.  In particular no buffer makes
    it read out of bounds. *)
Theorem parse_classification buf :
  match buf with
  | [] => parse buf = Throw "Parser: empty message buffer"
  | t :: _ =>
      match expected_length (ascii_of_byte t) with
      | None => parse buf = Ret None
      | Some n =>
          if decide (length buf < n)%nat then ∃ w, parse buf = Throw w
          else ∃ m, parse buf = Ret (Some m) ∧ message_type m = ascii_of_byte t
      end
  end.
Proof.
  destruct (parse_meets_spec buf) as [Hb|t rest Hb Hn|t rest n w Hb Hn Hl
    |t rest n m Hb Hn Hl Ht Hok He]; subst; [done|by rewrite Hn| |]; rewrite Hn.
  - rewrite decide_True by done. eauto.
  - rewrite decide_False by lia. eauto.
Qed.

(** The label the [switch] would jump to. *)
Definition label_of (c : ascii) : label :=
  if Ascii.eqb c "R" then L_R
  else if Ascii.eqb c "H" then L_H
  else if Ascii.eqb c "A" then L_A
  else if Ascii.eqb c "F" then L_F
  else if Ascii.eqb c "E" then L_E
  else if Ascii.eqb c "C" then L_C
  else if Ascii.eqb c "X" then L_X
  else if Ascii.eqb c "D" then L_D
  else if Ascii.eqb c "U" then L_U
  else L_unknown.

Lemma dispatch_lookup b :
  dispatch !! Z.to_nat (byte_val b) = Some (label_of (ascii_of_byte b)).
Proof. destruct b; vm_compute; reflexivity. Qed.

(** C30: The computed-goto build dispatches like the [switch] build: the two
    parsers agree on every buffer. *)
Theorem parse_goto_equiv buf : parse_goto buf = parse buf.
Proof.
  destruct buf as [|t rest]; [done|]. unfold parse_goto, parse, load, load_char.
  change ((t :: rest) !! 0%nat) with (Some t). cbn [deref mbind outcome_bind].
  rewrite dispatch_lookup. cbn [deref mbind outcome_bind]. unfold label_of.
  repeat (destruct (Ascii.eqb (ascii_of_byte t) _); [done|]). done.
Qed.
