(* ===== verification/FeedReader.v ===== *)
(** The file feed reader of [src/feed_reader.cpp].

    [read(2)] is the operating system's: the reader is written against the
    interface [PosixFile], whose laws are POSIX's (a successful [read] of [n]
    bytes hands over between 1 and [n] next bytes of the file, none only at its
    end; it may fail at any time).  [ReliableFile] adds that no [read] fails.
    Both have the instance [SimFile], a byte string with a schedule of short
    reads and failures. *)

From S2P Require Import Prelude ByteOrder.
From Stdlib Require Import Strings.Byte.
From Equations Require Import Equations.

#[local] Obligation Tactic := idtac.

(** The return value of [read(fd, buf, n)]: the bytes transferred, or -1. *)
Inductive read_result :=
| ReadBytes (bs : list byte)
| ReadError.

Class PosixFile (F : Type) := {
  sys_read : F → nat → read_result * F;
  (** What is left of the file from the descriptor's position on. *)
  remaining : F → list byte;
  sys_read_data f n bs f' :
    sys_read f n = (ReadBytes bs, f') →
    remaining f = bs ++ remaining f' ∧ (length bs ≤ n)%nat;
  sys_read_eof f n f' :
    (0 < n)%nat → sys_read f n = (ReadBytes [], f') → remaining f = []
}.

Class ReliableFile (F : Type) `{PosixFile F} :=
  sys_read_reliable f n : (sys_read f n).1 ≠ ReadError.

(** [memcpy(buf + o, bs)] *)
Definition write_at (buf : list byte) (o : nat) (bs : list byte) : list byte :=
  take o buf ++ bs ++ drop (o + length bs) buf.

Section reader.
Context {F : Type} `{PosixFile F}.

(** The loop of [read_exact]: it recurses on [n - total], since a [read] that
    does not end the loop transfers at least one byte. *)
Equations? read_exact_loop (f : F) (buf : list byte) (n total : nat)
  : outcome (bool * list byte * F) by wf (n - total)%nat lt :=
  read_exact_loop f buf n total with decide (total < n)%nat => {
  | right _ => Ret (true, buf, f);
  | left Hlt with sys_read f (n - total) => {
    | (ReadBytes [], f') =>
        if decide (total = 0%nat) then Ret (false, buf, f')
        else Throw "FileFeedReader: truncated read";
    | (ReadError, f') => Throw "FileFeedReader: read error";
    | (ReadBytes (b :: bs), f') =>
        read_exact_loop f' (write_at buf total (b :: bs)) n (total + length (b :: bs)) } }.
Proof. simpl. lia. Qed.

Definition read_exact (f : F) (buf : list byte) (n : nat)
  : outcome (bool * list byte * F) := read_exact_loop f buf n 0.

(** [len_buf] is uninitialised in the source and only read once filled. *)
Definition next_message (f : F) : outcome (option MessageBuffer * F) :=
  '(ok, len_buf, f) ← read_exact f [x00; x00] 2;
  if negb ok then Ret (None, f)
  else
    l0 ← load len_buf 0; l1 ← load len_buf 1;
    let msg_len := u16 (Z.lor (Z.shiftl (u16 l0) 8) l1) in
    if msg_len =? 0 then Throw "FileFeedReader: zero-length message frame"
    else
      match read_exact f (replicate (Z.to_nat msg_len) x00) (Z.to_nat msg_len) with
      | Ret (_, buf, f) => Ret (Some buf, f)
      | Throw _ => Throw "FileFeedReader: truncated message frame"
      | Undef => Undef
      end.

End reader.

(** ** Reference: a file is a sequence of frames *)

(** The frame of a message: its length as two big-endian bytes, then itself. *)
Definition frame (m : MessageBuffer) : list byte :=
  be_bytes 2 (Z.of_nat (length m)) ++ m.

Definition frameable (m : MessageBuffer) : Prop := 0 < Z.of_nat (length m) < 2 ^ 16.

(** [next_message] on a file seen as the byte string that is left of it: the
    message and what is left after it.  The case of a body that is missing
    entirely is the one place where the source does not report a truncated
    frame: [read_exact] then reports a clean end of file by its return value,
    which [next_message] ignores. *)
Definition next_message_ref (rest : list byte)
  : outcome (option MessageBuffer * list byte) :=
  match rest with
  | [] => Ret (None, [])
  | [_] => Throw "FileFeedReader: truncated read"
  | a :: b :: body =>
      let n := Z.to_nat (be_value [a; b]) in
      if decide (n = 0%nat) then Throw "FileFeedReader: zero-length message frame"
      else if decide (n ≤ length body)%nat then Ret (Some (take n body), drop n body)
      else if decide (body = []) then Ret (Some (replicate n x00), [])
      else Throw "FileFeedReader: truncated message frame"
  end.

(** ** Instances *)

(** A file with a schedule for its reads: transfer at most [S k] bytes, or
    fail; with no schedule left a [read] transfers all it is asked for. *)
Inductive read_step := ShortRead (k : nat) | FailRead.

Record SimFile := { sim_bytes : list byte; sim_steps : list read_step }.

Definition sim_read (f : SimFile) (n : nat) : read_result * SimFile :=
  let transfer k :=
    (ReadBytes (take k (sim_bytes f)),
     {| sim_bytes := drop k (sim_bytes f); sim_steps := tail (sim_steps f) |}) in
  match sim_steps f with
  | [] => transfer n
  | ShortRead k :: _ => transfer (Nat.min (S k) n)
  | FailRead :: steps =>
      (ReadError, {| sim_bytes := sim_bytes f; sim_steps := steps |})
  end.

(** A file whose reads are short but do not fail. *)
Record ChunkedFile := { chunked_bytes : list byte; chunk_sizes : list nat }.

Definition chunked_read (f : ChunkedFile) (n : nat) : read_result * ChunkedFile :=
  let k := match chunk_sizes f with [] => n | k :: _ => Nat.min (S k) n end in
  (ReadBytes (take k (chunked_bytes f)),
   {| chunked_bytes := drop k (chunked_bytes f); chunk_sizes := tail (chunk_sizes f) |}).

Lemma chunk_data (l : list byte) k n :
  (k ≤ n)%nat → l = take k l ++ drop k l ∧ (length (take k l) ≤ n)%nat.
Proof. intros. rewrite take_drop, length_take. split; [done|lia]. Qed.

Lemma chunk_eof (l : list byte) k : (0 < k)%nat → take k l = [] → l = [].
Proof. destruct k; [lia|]. by destruct l. Qed.

(** Name the number of bytes of a short read before the pair is taken apart. *)
Ltac name_chunk :=
  try match goal with |- context [Nat.min (S ?k) ?n] =>
    let j := fresh "j" in
    assert (Nat.min (S k) n ≤ n ∧ (0 < n → 0 < Nat.min (S k) n))%nat by lia;
    generalize dependent (Nat.min (S k) n); intros j ?
  end.

#[export] Program Instance sim_file : PosixFile SimFile := {|
  sys_read := sim_read;
  remaining := sim_bytes
|}.
Next Obligation.
  intros f n bs f'. unfold sim_read.
  destruct (sim_steps f) as [|[k|] steps]; [| |done]; name_chunk;
    intros [= <- <-]; apply chunk_data; lia.
Qed.
Next Obligation.
  intros f n f' Hn. unfold sim_read.
  destruct (sim_steps f) as [|[k|] steps]; [| |done]; name_chunk;
    intros [= E _]; (eapply chunk_eof; [|exact E]); lia.
Qed.

#[export] Program Instance chunked_file : PosixFile ChunkedFile := {|
  sys_read := chunked_read;
  remaining := chunked_bytes
|}.
Next Obligation.
  intros f n bs f'. unfold chunked_read. destruct (chunk_sizes f); name_chunk;
    intros [= <- <-]; apply chunk_data; lia.
Qed.
Next Obligation.
  intros f n f' Hn. unfold chunked_read. destruct (chunk_sizes f); name_chunk;
    intros [= E _]; (eapply chunk_eof; [|exact E]); lia.
Qed.

#[export] Instance chunked_reliable : ReliableFile ChunkedFile.
Proof. intros f n. done. Qed.

(** ** The loop *)

Lemma length_write_at buf o bs :
  (o + length bs ≤ length buf)%nat → length (write_at buf o bs) = length buf.
Proof.
  intros Ho. unfold write_at. rewrite !length_app, length_take, length_drop. lia.
Qed.

Lemma write_at_app pre old bs :
  (length bs ≤ length old)%nat →
  write_at (pre ++ old) (length pre) bs = (pre ++ bs) ++ drop (length bs) old.
Proof.
  intros. unfold write_at. rewrite take_app_length, <- drop_drop, drop_app_length.
  by rewrite app_assoc.
Qed.

Section correctness.
Context {F : Type} `{PosixFile F}.

Lemma read_exact_loop_step f buf n total :
  read_exact_loop f buf n total =
  if decide (total < n)%nat then
    match sys_read f (n - total) with
    | (ReadBytes [], f') =>
        if decide (total = 0%nat) then Ret (false, buf, f')
        else Throw "FileFeedReader: truncated read"
    | (ReadError, _) => Throw "FileFeedReader: read error"
    | (ReadBytes bs, f') =>
        read_exact_loop f' (write_at buf total bs) n (total + length bs)
    end
  else Ret (true, buf, f).
Proof.
  rewrite read_exact_loop_equation_1. unfold read_exact_loop_unfold_clause_1.
  destruct (decide (total < n)%nat); [|done].
  by destruct (sys_read f (n - total)) as [[[|b bs]|] f'].
Qed.

(** What [read_exact] does on a file whose remaining bytes are [rest]. *)
Definition fills (f : F) (pre old : list byte) (r : outcome (bool * list byte * F)) : Prop :=
  let k := length old in
  let rest := remaining f in
  if decide (k ≤ length rest)%nat then
    ∃ f', r = Ret (true, pre ++ take k rest, f') ∧ remaining f' = drop k rest
  else if decide (pre = [] ∧ rest = []) then
    ∃ f', r = Ret (false, old, f') ∧ remaining f' = []
  else r = Throw "FileFeedReader: truncated read".

Lemma fills_step f f' pre old bs r :
  remaining f = bs ++ remaining f' → bs ≠ [] → (length bs ≤ length old)%nat →
  fills f' (pre ++ bs) (drop (length bs) old) r → fills f pre old r.
Proof.
  unfold fills. intros -> Hbs Hl. rewrite length_drop, length_app.
  assert (0 < length bs)%nat by (destruct bs; [done|simpl; lia]).
  rewrite (decide_False (P := pre = [] ∧ _)) by (intros [_ [? _]%app_eq_nil]; done).
  rewrite (decide_False (P := pre ++ bs = [] ∧ _)) by (intros [[_ ?]%app_eq_nil _]; done).
  repeat case_decide; try lia; [|done]. intros (f'' & -> & Hf''). exists f''.
  rewrite take_app_ge, drop_app_ge, <- app_assoc by lia. done.
Qed.

(** The reader either hits a failed [read] or sees the file as a byte string. *)
Lemma read_exact_loop_spec f pre old n :
  n = (length pre + length old)%nat →
  let r := read_exact_loop f (pre ++ old) n (length pre) in
  r = Throw "FileFeedReader: read error" ∨ fills f pre old r.
Proof.
  intros Hn r. subst r. remember (length old) as k eqn:Hk.
  revert f pre old Hn Hk. induction (lt_wf k) as [k _ IH]. intros f pre old Hn Hk.
  rewrite read_exact_loop_step. case_decide as Hlt.
  - destruct (sys_read f (n - length pre)) as [[bs|] f'] eqn:E; [|by left].
    destruct bs as [|b bs].
    { right. pose proof (sys_read_data _ _ _ _ E) as [Er _].
      apply sys_read_eof in E; [|lia]. unfold fills. rewrite E in Er |- *. simpl in *.
      rewrite (decide_False (P := (length old ≤ 0)%nat)) by lia.
      destruct pre as [|b pre]; simpl; repeat case_decide; naive_solver. }
    apply sys_read_data in E as [Er El].
    rewrite write_at_app by lia. rewrite <- length_app.
    edestruct (IH (k - length (b :: bs))%nat) as [Hr|Hr]; [| | |by left|right];
      [simpl; lia|rewrite length_app; lia|by rewrite length_drop, <- Hk|].
    eapply fills_step; [exact Er|done|lia|exact Hr].
  - right. assert (old = []) as -> by (destruct old; simpl in *; [done|lia]).
    unfold fills. case_decide; [|simpl in *; lia]. exists f. done.
Qed.

(** [read_exact] into a buffer of exactly the requested size. *)
Lemma read_exact_spec f buf :
  read_exact f buf (length buf) = Throw "FileFeedReader: read error" ∨
  fills f [] buf (read_exact f buf (length buf)).
Proof. apply (read_exact_loop_spec f [] buf). done. Qed.

(** The [next_message] of the source, once the two-byte prefix is read. *)
Definition read_body (f : F) (n : nat) : outcome (option MessageBuffer * F) :=
  match read_exact f (replicate n x00) n with
  | Ret (_, buf, f) => Ret (Some buf, f)
  | Throw _ => Throw "FileFeedReader: truncated message frame"
  | Undef => Undef
  end.

(** Some [read] of the file failed. *)
Definition read_failed : Prop :=
  ∃ (f : F) buf n, read_exact f buf n = Throw "FileFeedReader: read error".

Lemma read_body_spec f n :
  read_failed ∧ read_body f n = Throw "FileFeedReader: truncated message frame" ∨
  let body := remaining f in
  prod_map id remaining <$> read_body f n =
    (if decide (n ≤ length body)%nat then Ret (Some (take n body), drop n body)
     else if decide (body = []) then Ret (Some (replicate n x00), [])
     else Throw "FileFeedReader: truncated message frame").
Proof.
  unfold read_body. pose proof (read_exact_spec f (replicate n x00)) as Hr.
  rewrite length_replicate in Hr. destruct Hr as [E|Hr].
  { left. rewrite E. split; [|done]. by exists f, (replicate n x00), n. }
  right. unfold fills in Hr. rewrite length_replicate in Hr. simpl.
  repeat case_decide; try tauto; [| |by rewrite Hr];
    destruct Hr as (f' & -> & Hf'); cbn; by rewrite Hf'.
Qed.

Lemma next_message_prefix f l0 l1 f' :
  read_exact f [x00; x00] 2 = Ret (true, [l0; l1], f') →
  next_message f =
  if be_value [l0; l1] =? 0 then Throw "FileFeedReader: zero-length message frame"
  else read_body f' (Z.to_nat (be_value [l0; l1])).
Proof.
  intros E. unfold next_message. rewrite E. cbn [mbind outcome_bind negb].
  change (load [l0; l1] 0) with (Ret (byte_val l0)).
  change (load [l0; l1] 1) with (Ret (byte_val l1)). cbn [mbind outcome_bind].
  rewrite combine_be16 by apply byte_val_range. done.
Qed.

Lemma next_message_spec f :
  read_failed ∧
    (next_message f = Throw "FileFeedReader: read error" ∨
     next_message f = Throw "FileFeedReader: truncated message frame") ∨
  prod_map id remaining <$> next_message f = next_message_ref (remaining f).
Proof.
  pose proof (read_exact_spec f [x00; x00]) as Hr. cbn [length] in Hr.
  destruct Hr as [E|Hr].
  { left. split; [by exists f, [x00; x00], 2%nat|]. left. unfold next_message. by rewrite E. }
  unfold fills in Hr. cbn [length] in Hr.
  destruct (remaining f) as [|a [|b body]] eqn:Er.
  - right. simpl in Hr. destruct Hr as (f' & E & Hf').
    unfold next_message. rewrite E. simpl. by rewrite Hf'.
  - right. simpl in Hr. unfold next_message. by rewrite Hr.
  - case_decide; [|simpl in *; lia]. destruct Hr as (f' & E & Hf'). simpl in E, Hf'.
    rewrite drop_0 in Hf'. rewrite (next_message_prefix _ _ _ _ E). unfold next_message_ref.
    pose proof (be_value_range [a; b]) as Hn.
    destruct (Z.eqb_spec (be_value [a; b]) 0) as [->|Hz].
    { right. done. }
    rewrite decide_False by lia. rewrite <- Hf'.
    destruct (read_body_spec f' (Z.to_nat (be_value [a; b]))) as [[? ?]|?]; tauto.
Qed.

End correctness.

(** ** Reference: the reads of a frame *)

(** How the reads for a number of bytes end: with all of them, at the end of the
    file, or with one that fails. *)
Inductive read_end := Full | AtEof | Failed.

Section gathering.
Context {F : Type} `{PosixFile F}.

(** The reads for [n] bytes, each for what is still missing, hand over [bs] and end
    so. *)
Inductive gathers : F → nat → list byte → read_end → F → Prop :=
| gathers_full f : gathers f 0 [] Full f
| gathers_eof f n f' :
    (0 < n)%nat → sys_read f n = (ReadBytes [], f') → gathers f n [] AtEof f'
| gathers_failed f n f' :
    (0 < n)%nat → sys_read f n = (ReadError, f') → gathers f n [] Failed f'
| gathers_more f n bs f1 rest e f' :
    (0 < n)%nat → bs ≠ [] → sys_read f n = (ReadBytes bs, f1) →
    gathers f1 (n - length bs) rest e f' → gathers f n (bs ++ rest) e f'.

(** What the reads of a frame come to. *)
Inductive frame_read (f : F) : outcome (option MessageBuffer * F) → Prop :=
| no_frame f1 :
    gathers f 2 [] AtEof f1 → frame_read f (Ret (None, f1))
| prefix_truncated b f1 :
    gathers f 2 [b] AtEof f1 → frame_read f (Throw "FileFeedReader: truncated read")
| prefix_failed bs f1 :
    gathers f 2 bs Failed f1 → frame_read f (Throw "FileFeedReader: read error")
| zero_length bs f1 :
    gathers f 2 bs Full f1 → be_value bs = 0 →
    frame_read f (Throw "FileFeedReader: zero-length message frame")
| whole_frame bs f1 body f2 :
    gathers f 2 bs Full f1 → 0 < be_value bs →
    gathers f1 (Z.to_nat (be_value bs)) body Full f2 → frame_read f (Ret (Some body, f2))
| body_missing bs f1 f2 :
    gathers f 2 bs Full f1 → 0 < be_value bs →
    gathers f1 (Z.to_nat (be_value bs)) [] AtEof f2 →
    frame_read f (Ret (Some (replicate (Z.to_nat (be_value bs)) x00), f2))
| body_truncated bs f1 body f2 :
    gathers f 2 bs Full f1 → 0 < be_value bs → body ≠ [] →
    gathers f1 (Z.to_nat (be_value bs)) body AtEof f2 →
    frame_read f (Throw "FileFeedReader: truncated message frame")
| body_failed bs f1 body f2 :
    gathers f 2 bs Full f1 → 0 < be_value bs →
    gathers f1 (Z.to_nat (be_value bs)) body Failed f2 →
    frame_read f (Throw "FileFeedReader: truncated message frame").

Lemma gathers_total f n : ∃ bs e f', gathers f n bs e f'.
Proof.
  revert f. induction (lt_wf n) as [n _ IH]. intros f.
  destruct (decide (n = 0%nat)) as [->|Hn]; [eexists _, _, _; apply gathers_full|].
  destruct (sys_read f n) as [[bs|] f1] eqn:E; [|eexists _, _, _; eapply gathers_failed; [lia|done]].
  destruct bs as [|b bs]; [eexists _, _, _; eapply gathers_eof; [lia|done]|].
  destruct (IH (n - length (b :: bs))%nat ltac:(simpl; lia) f1) as (rest & e & f' & Hg).
  eexists _, _, _. eapply (gathers_more _ _ (b :: bs)); [lia|done|done|exact Hg].
Qed.

Lemma gathers_length f n bs e f' :
  gathers f n bs e f' → (length bs ≤ n)%nat ∧ (e = Full → length bs = n) ∧
    (e = AtEof → length bs < n)%nat.
Proof.
  induction 1 as [f|f n f' Hn E|f n f' Hn E|f n bs f1 rest e f' Hn Hbs E Hg [IH1 [IH2 IH3]]];
    simpl; [split_and!; done || lia..|].
  apply sys_read_data in E as [_ Hl]. rewrite length_app.
  split; [lia|split; intros He; [rewrite IH2 by done; lia|specialize (IH3 He); lia]].
Qed.

(** The loop of [read_exact] does these reads. *)
Lemma read_exact_loop_gathers f k bs e f' :
  gathers f k bs e f' → ∀ pre old n, length old = k → n = (length pre + k)%nat →
  read_exact_loop f (pre ++ old) n (length pre) =
  match e with
  | Full => Ret (true, pre ++ bs, f')
  | AtEof => if decide (pre ++ bs = []) then Ret (false, old, f')
             else Throw "FileFeedReader: truncated read"
  | Failed => Throw "FileFeedReader: read error"
  end.
Proof.
  induction 1 as [f|f k f' Hk E|f k f' Hk E|f k bs f1 rest e f' Hk Hbs E Hg IH];
    intros pre old n Hold ->; rewrite read_exact_loop_step.
  - apply nil_length_inv in Hold as ->. by rewrite decide_False by lia.
  - rewrite decide_True by lia. replace (length pre + k - length pre)%nat with k by lia.
    rewrite E, app_nil_r. by destruct pre.
  - rewrite decide_True by lia. replace (length pre + k - length pre)%nat with k by lia.
    by rewrite E.
  - rewrite decide_True by lia. replace (length pre + k - length pre)%nat with k by lia.
    rewrite E. apply sys_read_data in E as [_ Hl].
    destruct bs as [|b bs]; [done|]. rewrite write_at_app by lia. rewrite <- length_app.
    rewrite (IH (pre ++ b :: bs) (drop (length (b :: bs)) old));
      [|by rewrite length_drop, Hold|rewrite length_app; lia].
    rewrite <- app_assoc. destruct e; [done| |done].
    by rewrite !decide_False by (intros [_ ?]%app_eq_nil; done).
Qed.

Lemma read_exact_gathers f buf bs e f' :
  gathers f (length buf) bs e f' →
  read_exact f buf (length buf) =
  match e with
  | Full => Ret (true, bs, f')
  | AtEof => if decide (bs = []) then Ret (false, buf, f')
             else Throw "FileFeedReader: truncated read"
  | Failed => Throw "FileFeedReader: read error"
  end.
Proof. intros Hg. by apply (read_exact_loop_gathers _ _ _ _ _ Hg []). Qed.

(** After a whole prefix. *)
Lemma next_message_gathers f bs f1 :
  gathers f 2 bs Full f1 →
  next_message f =
  if be_value bs =? 0 then Throw "FileFeedReader: zero-length message frame"
  else read_body f1 (Z.to_nat (be_value bs)).
Proof.
  intros Hg. destruct (gathers_length _ _ _ _ _ Hg) as (_ & Hl & _). specialize (Hl eq_refl).
  pose proof (read_exact_gathers f [x00; x00] bs Full f1 Hg) as E.
  destruct bs as [|l0 [|l1 [|]]]; try done. by apply (next_message_prefix f).
Qed.

Lemma read_body_gathers f n bs e f' :
  gathers f n bs e f' →
  read_body f n =
  match e with
  | Full => Ret (Some bs, f')
  | AtEof => if decide (bs = []) then Ret (Some (replicate n x00), f')
             else Throw "FileFeedReader: truncated message frame"
  | Failed => Throw "FileFeedReader: truncated message frame"
  end.
Proof.
  intros Hg. rewrite <- (length_replicate n x00) in Hg at 1.
  pose proof (read_exact_gathers f (replicate n x00) bs e f' Hg) as E.
  rewrite length_replicate in E. unfold read_body. rewrite E. destruct e; try done. by case_decide.
Qed.

Lemma frame_read_result f r : frame_read f r → next_message f = r.
Proof.
  assert (∀ bs e f1, gathers f 2 bs e f1 → read_exact f [x00; x00] 2 =
    match e with
    | Full => Ret (true, bs, f1)
    | AtEof => if decide (bs = []) then Ret (false, [x00; x00], f1)
               else Throw "FileFeedReader: truncated read"
    | Failed => Throw "FileFeedReader: read error"
    end) as Hpre by (intros bs e f1; apply (read_exact_gathers f [x00; x00])).
  destruct 1 as [f1 Hg|b f1 Hg|bs f1 Hg|bs f1 Hg Hz|bs f1 body f2 Hg Hn Hb|bs f1 f2 Hg Hn Hb
    |bs f1 body f2 Hg Hn Hne Hb|bs f1 body f2 Hg Hn Hb].
  1, 2, 3: unfold next_message; by rewrite (Hpre _ _ _ Hg).
  { by rewrite (next_message_gathers _ _ _ Hg), Hz. }
  all: rewrite (next_message_gathers _ _ _ Hg), (proj2 (Z.eqb_neq _ _)) by lia;
    rewrite (read_body_gathers _ _ _ _ _ Hb); try done.
  by rewrite decide_False.
Qed.

Lemma frame_read_total f : ∃ r, frame_read f r.
Proof.
  destruct (gathers_total f 2) as (bs & e & f1 & Hg).
  destruct (gathers_length _ _ _ _ _ Hg) as (_ & _ & Hl). destruct e.
  - pose proof (be_value_range bs) as Hr. destruct (decide (be_value bs = 0)).
    { eexists. by eapply zero_length. }
    destruct (gathers_total f1 (Z.to_nat (be_value bs))) as (body & e & f2 & Hb). destruct e.
    + eexists. eapply whole_frame; [exact Hg|lia|exact Hb].
    + destruct body as [|b body]; eexists;
        [eapply body_missing; [exact Hg|lia|exact Hb]
        |eapply (body_truncated _ _ _ (b :: body)); [exact Hg|lia|done|exact Hb]].
    + eexists. eapply body_failed; [exact Hg|lia|exact Hb].
  - specialize (Hl eq_refl). destruct bs as [|b [|]]; [..|simpl in Hl; lia]; eexists;
      [by eapply no_frame|by eapply prefix_truncated].
  - eexists. by eapply prefix_failed.
Qed.

End gathering.

(** A failed [read] is the only source of read errors. *)
Section reliable.
Context {F : Type} `{ReliableFile F}.

Lemma read_exact_loop_reliable f buf n total :
  read_exact_loop f buf n total ≠ Throw "FileFeedReader: read error".
Proof.
  remember (n - total)%nat as k eqn:Hk. revert f buf total Hk.
  induction (lt_wf k) as [k _ IH]. intros f buf total Hk.
  rewrite read_exact_loop_step. case_decide; [|done].
  pose proof (sys_read_reliable f (n - total)) as Hrel.
  destruct (sys_read f (n - total)) as [[[|b bs]|] f']; [by case_decide| |done].
  eapply IH; [|reflexivity]. simpl. lia.
Qed.

Lemma next_message_reliable (f : F) :
  prod_map id remaining <$> next_message f = next_message_ref (remaining f).
Proof.
  destruct (next_message_spec f) as [[(f' & buf & n & E) _]|?]; [|done].
  by apply read_exact_loop_reliable in E.
Qed.

(** A frame at the front of the file. *)
Lemma next_message_framed (f : F) m tail :
  frameable m → remaining f = frame m ++ tail →
  prod_map id remaining <$> next_message f = Ret (Some m, tail).
Proof.
  intros Hm Hf. rewrite next_message_reliable, Hf. unfold frameable in Hm.
  assert (be_value (be_bytes 2 (Z.of_nat (length m))) = Z.of_nat (length m)) as Hv.
  { rewrite be_value_bytes. apply Z.mod_small. lia. }
  unfold frame. destruct (be_bytes 2 _) as [|a [|b [|]]] eqn:Eb; try discriminate.
  simpl app. unfold next_message_ref. rewrite Hv, Nat2Z.id.
  rewrite decide_False by lia. rewrite decide_True by (rewrite length_app; lia).
  by rewrite take_app_length, drop_app_length.
Qed.

End reliable.

(** ** Properties of the reader *)

(** C18: On a file whose reads do not fail the reader is a function of the
    bytes left in the file: whatever the sizes of the chunks [read] hands over,
    [next_message] returns, throws and advances as the reference on the byte
    string does. *)
Theorem next_message_refines {F} `{ReliableFile F} (f : F) :
  prod_map id remaining <$> next_message f = next_message_ref (remaining f).
Proof. apply next_message_reliable. Qed.

Lemma next_message_refines_witness :
  let f := {| chunked_bytes := frame [x41; x42] ++ [x00]; chunk_sizes := [0; 0; 1]%nat |} in
  prod_map id remaining <$> next_message f = Ret (Some [x41; x42], [x00]).
Proof. cbv zeta. rewrite next_message_refines. reflexivity. Defined.

(** C28: Which result each run of reads has: [next_message] returns or throws exactly
    what the reads of its frame say, failures included, and nothing else.  The end of
    the file before a prefix is no message; in a prefix it is a truncated read, in a
    body a truncated frame, but right after a prefix a buffer of zeros; a read that fails
    while a prefix is read is a read error, while a body is read a truncated frame, and
    is not tried again; a prefix of zero is an error of its own. *)
Theorem next_message_outcome {F} `{PosixFile F} (f : F) r :
  next_message f = r ↔ frame_read f r.
Proof.
  split; [|apply frame_read_result]. intros <-.
  destruct (frame_read_total f) as [r Hr]. by rewrite (frame_read_result _ _ Hr).
Qed.

(** A read that fails in the body, after one of its five bytes. *)
Definition failing_file : SimFile :=
  {| sim_bytes := [x00; x05; x41; x42]; sim_steps := [ShortRead 5; ShortRead 0; FailRead] |}.

Lemma next_message_outcome_witness :
  next_message failing_file = Throw "FileFeedReader: truncated message frame".
Proof.
  apply next_message_outcome. eapply (body_failed _ [x00; x05] _ [x41]); [|done|].
  - eapply (gathers_more _ 2 [x00; x05] _ []); [lia|done|reflexivity|apply gathers_full].
  - eapply (gathers_more _ 5 [x41] _ []); [lia|done|reflexivity|].
    eapply gathers_failed; [simpl; lia|reflexivity].
Defined.

(** Framing round trip: a file that starts with the frame of a message of
    1 to 65535 bytes yields exactly that message and continues after the
    frame; a file with nothing left is a clean end of file. *)
Theorem next_message_frame {F} `{ReliableFile F} (f : F) m tail :
  frameable m → remaining f = frame m ++ tail →
  prod_map id remaining <$> next_message f = Ret (Some m, tail).
Proof. apply next_message_framed. Qed.

Lemma next_message_frame_witness :
  let f := {| chunked_bytes := frame [x41]; chunk_sizes := [] |} in
  frameable [x41] ∧ prod_map id remaining <$> next_message f = Ret (Some [x41], []).
Proof.
  split; [unfold frameable; simpl; lia|].
  apply (next_message_frame _ [x41] []); [unfold frameable; simpl; lia|reflexivity].
Defined.

(** A frame whose body is missing entirely is not reported: when the file
    ends right after a non-zero length prefix, [next_message] returns a buffer
    of that many zero bytes and no error, where its comment and its header
    promise an exception. *)
Theorem next_message_missing_body {F} `{ReliableFile F} (f : F) n :
  0 < n < 2 ^ 16 → remaining f = be_bytes 2 n →
  prod_map id remaining <$> next_message f = Ret (Some (replicate (Z.to_nat n) x00), []).
Proof.
  intros Hn Hf. rewrite next_message_reliable, Hf.
  assert (be_value (be_bytes 2 n) = n) as Hv.
  { rewrite be_value_bytes. apply Z.mod_small. lia. }
  destruct (be_bytes 2 _) as [|a [|b [|]]] eqn:Eb; try discriminate.
  unfold next_message_ref. rewrite Hv.
  rewrite !decide_False by (simpl; lia). by rewrite decide_True.
Qed.

Lemma next_message_missing_body_witness :
  let f := {| chunked_bytes := [x00; x05]; chunk_sizes := [] |} in
  prod_map id remaining <$> next_message f = Ret (Some (replicate 5 x00), []).
Proof. apply (next_message_missing_body _ 5); [lia|reflexivity]. Defined.
