(* ===== verification/StdMap.v ===== *)
(** [std::map<K, V, Compare>]: an association list in the order of the
    comparator, searched and updated by comparator calls alone.  The laws hold
    for any strict total order ([StrictTotal]); the program uses it with
    [std::less<Price>] and [std::greater<Price>]. *)

From S2P Require Import Prelude Messages.

Class StrictTotal {K} (ltb : K → K → bool) : Prop := {
  ltb_irrefl k : ltb k k = false;
  ltb_trans k1 k2 k3 : ltb k1 k2 = true → ltb k2 k3 = true → ltb k1 k3 = true;
  ltb_total k1 k2 : ltb k1 k2 = false → ltb k2 k1 = false → k1 = k2
}.

#[export] Instance price_ltb_order : StrictTotal price_ltb.
Proof.
  unfold price_ltb. split; intros; [lia|lia|]. apply price_eq. lia.
Qed.

#[export] Instance price_gtb_order : StrictTotal price_gtb.
Proof.
  unfold price_gtb. split; intros; [lia|lia|]. apply price_eq. lia.
Qed.

Section operations.
Context {K V : Type} (ltb : K → K → bool).

(** [m.find(k)] *)
Fixpoint om_find (k : K) (m : list (K * V)) : option V :=
  match m with
  | [] => None
  | (k', v) :: m =>
      if ltb k' k then om_find k m else if ltb k k' then None else Some v
  end.

(** [m[k] = v], or a write through [m[k]] or [m.find(k)->second]. *)
Fixpoint om_set (k : K) (v : V) (m : list (K * V)) : list (K * V) :=
  match m with
  | [] => [(k, v)]
  | (k', v') :: m' =>
      if ltb k' k then (k', v') :: om_set k v m'
      else if ltb k k' then (k, v) :: m else (k, v) :: m'
  end.

(** [m.erase(m.find(k))] for a key that is present, nothing otherwise. *)
Fixpoint om_erase (k : K) (m : list (K * V)) : list (K * V) :=
  match m with
  | [] => []
  | (k', v') :: m' =>
      if ltb k' k then (k', v') :: om_erase k m'
      else if ltb k k' then m else m'
  end.

(** The order of iteration. *)
Definition om_sorted (m : list (K * V)) : Prop :=
  StronglySorted (λ a b, ltb a.1 b.1 = true) m.

End operations.

(** [m.begin()->second], as the key of its node. *)
Definition om_begin {K V} (m : list (K * V)) : option K := fst <$> head m.

Section laws.
Context {K V : Type} (ltb : K → K → bool) `{!StrictTotal ltb}.
Implicit Types (m : list (K * V)) (k : K) (v : V).

(** Compare two keys: less, greater, or equal. *)
Ltac compare_keys a b :=
  let E1 := fresh "E" in let E2 := fresh "E" in
  destruct (ltb a b) eqn:E1;
  [|destruct (ltb b a) eqn:E2; [|pose proof (ltb_total _ _ E1 E2); subst]].

Lemma ltb_ne a b : ltb a b = true → a ≠ b.
Proof. intros E ->. by rewrite ltb_irrefl in E. Qed.

Lemma ltb_asym a b : ltb a b = true → ltb b a = false.
Proof.
  intros E. destruct (ltb b a) eqn:E2; [|done].
  pose proof (ltb_trans _ _ _ E E2) as E3. by rewrite ltb_irrefl in E3.
Qed.

Lemma om_sorted_cons k v m :
  om_sorted ltb ((k, v) :: m) ↔
  om_sorted ltb m ∧ ∀ k' v', (k', v') ∈ m → ltb k k' = true.
Proof.
  unfold om_sorted. split.
  - intros Hs. inversion Hs as [|? ? Hm Hf]; subst. split; [done|].
    intros k' v' Hin. rewrite Forall_forall in Hf.
    by apply (Hf (k', v')).
  - intros [Hm Hf]. constructor; [done|]. apply Forall_forall.
    intros [k' v'] Hin. by eapply Hf.
Qed.

Lemma om_find_elem k v m : om_find ltb k m = Some v → (k, v) ∈ m.
Proof.
  induction m as [|[k' v'] m IH]; simpl; [done|].
  compare_keys k' k; intros; simplify_eq; [right; auto|left].
Qed.

Lemma om_elem_find k v m : om_sorted ltb m → (k, v) ∈ m → om_find ltb k m = Some v.
Proof.
  induction m as [|[k' v'] m IH]; simpl; [intros _ Hin; by apply not_elem_of_nil in Hin|].
  intros [Hm Hf]%om_sorted_cons [?|Hin]%elem_of_cons; simplify_eq.
  - by rewrite ltb_irrefl.
  - rewrite (Hf _ _ Hin). auto.
Qed.

(** A key in front of every key of the map is not found in it. *)
Lemma om_find_front k m :
  (∀ k' v', (k', v') ∈ m → ltb k k' = true) → om_find ltb k m = None.
Proof.
  intros Hf. destruct (om_find ltb k m) as [v|] eqn:E; [|done].
  apply om_find_elem in E. apply Hf in E. by rewrite ltb_irrefl in E.
Qed.

Lemma om_find_set_eq k v m : om_find ltb k (om_set ltb k v m) = Some v.
Proof.
  induction m as [|[k' v'] m IH]; simpl; [by rewrite ltb_irrefl|].
  compare_keys k' k; simpl; rewrite ?ltb_irrefl; [by rewrite E|done|done].
Qed.

Lemma om_find_set_ne k k' v m :
  k ≠ k' → om_find ltb k' (om_set ltb k v m) = om_find ltb k' m.
Proof.
  intros Hne. induction m as [|[k0 v0] m IH]; simpl.
  - compare_keys k k'; done.
  - compare_keys k0 k; simpl; [by rewrite IH| |].
    + compare_keys k k'; [done| |done].
      assert (ltb k' k0 = true) as Hk by eauto using ltb_trans.
      by rewrite (ltb_asym _ _ Hk), Hk.
    + compare_keys k k'; done.
Qed.

Lemma om_find_erase_ne k k' m :
  k ≠ k' → om_sorted ltb m → om_find ltb k' (om_erase ltb k m) = om_find ltb k' m.
Proof.
  intros Hne. induction m as [|[k0 v0] m IH]; simpl; [done|].
  intros [Hm Hf]%om_sorted_cons.
  compare_keys k0 k; simpl; [by rewrite IH|done|].
  compare_keys k k'; [done| |done].
  apply om_find_front. eauto using ltb_trans.
Qed.

Lemma om_find_erase_eq k m :
  om_sorted ltb m → om_find ltb k (om_erase ltb k m) = None.
Proof.
  induction m as [|[k0 v0] m IH]; simpl; [done|]. intros [Hm Hf]%om_sorted_cons.
  compare_keys k0 k; simpl.
  - rewrite E. auto.
  - by rewrite (ltb_asym _ _ E0), E0.
  - by apply om_find_front.
Qed.

Lemma om_set_elem k v m k' v' :
  (k', v') ∈ om_set ltb k v m → (k' = k ∧ v' = v) ∨ (k', v') ∈ m.
Proof.
  induction m as [|[k0 v0] m IH]; simpl.
  - intros ?%list_elem_of_singleton. left. by simplify_eq.
  - compare_keys k0 k; rewrite !elem_of_cons; intros; destruct_or!; simplify_eq;
      naive_solver.
Qed.

Lemma om_erase_elem k m k' v' : (k', v') ∈ om_erase ltb k m → (k', v') ∈ m.
Proof.
  induction m as [|[k0 v0] m IH]; simpl; [done|].
  compare_keys k0 k; rewrite ?elem_of_cons; naive_solver.
Qed.

Lemma om_set_sorted k v m : om_sorted ltb m → om_sorted ltb (om_set ltb k v m).
Proof.
  induction m as [|[k0 v0] m IH]; simpl.
  - intros _. apply om_sorted_cons. split; [constructor|]. by intros ?? ?%not_elem_of_nil.
  - intros Hs. pose proof Hs as [Hm Hf]%om_sorted_cons.
    compare_keys k0 k; apply om_sorted_cons.
    + split; [auto|]. intros k' v' [[-> ->]|?]%om_set_elem; eauto.
    + split; [done|]. intros k' v' [?|?]%elem_of_cons; simplify_eq; eauto using ltb_trans.
    + done.
Qed.

Lemma om_erase_sorted k m : om_sorted ltb m → om_sorted ltb (om_erase ltb k m).
Proof.
  induction m as [|[k0 v0] m IH]; simpl; [done|].
  intros Hs. pose proof Hs as [Hm Hf]%om_sorted_cons.
  compare_keys k0 k; [|done|done].
  apply om_sorted_cons. split; [auto|]. intros k' v' ?%om_erase_elem. eauto.
Qed.

(** Two ordered maps with the same lookups are the same map. *)
Lemma om_ext m1 m2 :
  om_sorted ltb m1 → om_sorted ltb m2 →
  (∀ k, om_find ltb k m1 = om_find ltb k m2) → m1 = m2.
Proof.
  revert m2. induction m1 as [|[k1 v1] m1 IH]; intros [|[k2 v2] m2] H1 H2 Hf.
  - done.
  - specialize (Hf k2). simpl in Hf. by rewrite ltb_irrefl in Hf.
  - specialize (Hf k1). simpl in Hf. by rewrite ltb_irrefl in Hf.
  - pose proof H1 as [Hs1 Hf1]%om_sorted_cons. pose proof H2 as [Hs2 Hf2]%om_sorted_cons.
    compare_keys k1 k2.
    + specialize (Hf k1). simpl in Hf. rewrite ltb_irrefl, (ltb_asym _ _ E), E in Hf. done.
    + specialize (Hf k2). simpl in Hf. rewrite ltb_irrefl, (ltb_asym _ _ E0), E0 in Hf. done.
    + pose proof (Hf k2) as Hv. simpl in Hv. rewrite ltb_irrefl in Hv. simplify_eq.
      f_equal. apply IH; [done..|]. intros k.
      specialize (Hf k). simpl in Hf. compare_keys k2 k; [done| |].
      * rewrite !om_find_front; [done|..]; eauto using ltb_trans.
      * by rewrite !om_find_front.
Qed.

(** [begin()] is the first key in the order of the comparator. *)
Lemma om_begin_first k m :
  om_sorted ltb m → om_begin m = Some k →
  (∃ v, om_find ltb k m = Some v) ∧
  ∀ k' v', om_find ltb k' m = Some v' → k' = k ∨ ltb k k' = true.
Proof.
  destruct m as [|[k0 v0] m]; [done|]. unfold om_begin. simpl.
  intros [Hm Hf]%om_sorted_cons [= ->]. rewrite ltb_irrefl. split; [eauto|].
  intros k' v'. compare_keys k k'; [by right|done|by left].
Qed.

Lemma om_begin_None m : om_begin m = None ↔ m = [].
Proof. by destruct m as [|[??]?]. Qed.

Lemma om_begin_None_find m :
  om_begin m = None ↔ ∀ k, om_find ltb k m = None.
Proof.
  rewrite om_begin_None. split; [by intros ->|]. intros Hf.
  destruct m as [|[k v] m]; [done|]. specialize (Hf k). simpl in Hf.
  by rewrite ltb_irrefl in Hf.
Qed.

(** The first key of the order among the present keys is [begin()]. *)
Lemma om_begin_intro k v m :
  om_sorted ltb m → om_find ltb k m = Some v →
  (∀ k' v', om_find ltb k' m = Some v' → k' = k ∨ ltb k k' = true) →
  om_begin m = Some k.
Proof.
  intros Hs Hk Hmin. destruct (om_begin m) as [k0|] eqn:E.
  - pose proof (om_begin_first _ _ Hs E) as [[v0 Hk0] Hmin0].
    destruct (Hmin _ _ Hk0) as [->|H1]; [done|].
    destruct (Hmin0 _ _ Hk) as [->|H2]; [done|].
    by rewrite (ltb_asym _ _ H1) in H2.
  - rewrite om_begin_None_find in E. by rewrite E in Hk.
Qed.

End laws.

#[export] Hint Resolve om_set_sorted om_erase_sorted : itch.
