(* ===== verification/OrderBook.v ===== *)
(** Price levels, order records and one book
    ([include/itch/order_book.h], [include/itch/order_record.h] and the
    book-level helpers of [src/book_engine.cpp]).

    The two sides are [std::map]s with opposite comparators.  A
    [const PriceLevel*] into a side is the key of the node it points to. *)

From S2P Require Import Prelude Messages StdMap.
From Stdlib Require Import Strings.Ascii.
From Stdlib Require Strings.String.

Record PriceLevel := mkLevel {
  lvl_price : Price;
  lvl_total_shares : Z;   (* uint64_t *)
  lvl_order_count : Z     (* uint32_t *)
}.

(** [PriceLevel{}] *)
Definition PriceLevel_init : PriceLevel := mkLevel (mkPrice 0) 0 0.

Record OrderBook := {
  ob_stock_locate : Z;
  ob_last_update_timestamp : Z;
  ob_bids : list (Price * PriceLevel);   (* std::map<Price, PriceLevel, std::greater<Price>> *)
  ob_asks : list (Price * PriceLevel);   (* std::map<Price, PriceLevel> *)
  ob_best_bid : option Price;            (* const PriceLevel* *)
  ob_best_ask : option Price
}.

(** [OrderBook{}] *)
Definition OrderBook_init : OrderBook := {|
  ob_stock_locate := 0; ob_last_update_timestamp := 0;
  ob_bids := []; ob_asks := []; ob_best_bid := None; ob_best_ask := None |}.

Record OrderRecord := {
  rec_shares : Z;
  rec_price : Price;
  rec_stock_locate : Z;
  rec_side : ascii;
  rec_mpid : list ascii   (* std::array<char, 4> *)
}.

(** [mpid{}] *)
Definition mpid_init : list ascii := replicate 4 zero.

(** [rec.set_mpid_from(s)]: fill with spaces, then copy [min(s.size(), 4)]. *)
Definition set_mpid_from (s : string) : list ascii :=
  let l := Strings.String.list_ascii_of_string s in
  let n := Nat.min (length l) 4 in
  take n l ++ drop n (replicate 4 " "%char).

(** The loop of [mpid_view]: drop trailing spaces and NULs. *)
Fixpoint mpid_view_len (mpid : list ascii) (n : nat) : nat :=
  match n with
  | O => O
  | S n' =>
      match mpid !! n' with
      | Some c => if Ascii.eqb c " " || Ascii.eqb c zero then mpid_view_len mpid n' else n
      | None => n
      end
  end%char.

Definition mpid_view (r : OrderRecord) : string :=
  Strings.String.string_of_list_ascii
    (take (mpid_view_len (rec_mpid r) (length (rec_mpid r))) (rec_mpid r)).

(** ** Helpers of the engine *)

(** [clamped_sub(val, sub)]: the new value, and whether it was clamped. *)
Definition clamped_sub (val sub : Z) : Z * bool :=
  if val <? sub then (0, true) else (val - sub, false).

(** [side == 'B'] *)
Definition is_bid (side : ascii) : bool := Ascii.eqb side "B"%char.

Definition set_bids (m : list (Price * PriceLevel)) (b : OrderBook) : OrderBook := {|
  ob_stock_locate := ob_stock_locate b;
  ob_last_update_timestamp := ob_last_update_timestamp b;
  ob_bids := m; ob_asks := ob_asks b;
  ob_best_bid := ob_best_bid b; ob_best_ask := ob_best_ask b |}.

Definition set_asks (m : list (Price * PriceLevel)) (b : OrderBook) : OrderBook := {|
  ob_stock_locate := ob_stock_locate b;
  ob_last_update_timestamp := ob_last_update_timestamp b;
  ob_bids := ob_bids b; ob_asks := m;
  ob_best_bid := ob_best_bid b; ob_best_ask := ob_best_ask b |}.

Definition set_timestamp (ts : Z) (b : OrderBook) : OrderBook := {|
  ob_stock_locate := ob_stock_locate b;
  ob_last_update_timestamp := ts;
  ob_bids := ob_bids b; ob_asks := ob_asks b;
  ob_best_bid := ob_best_bid b; ob_best_ask := ob_best_ask b |}.

Definition refresh_top (b : OrderBook) : OrderBook := {|
  ob_stock_locate := ob_stock_locate b;
  ob_last_update_timestamp := ob_last_update_timestamp b;
  ob_bids := ob_bids b; ob_asks := ob_asks b;
  ob_best_bid := om_begin (ob_bids b);
  ob_best_ask := om_begin (ob_asks b) |}.

(** The [insert] lambda of [add_order_impl] and of the replace handler. *)
Definition insert_level (ltb : Price → Price → bool) (price : Price) (shares : Z)
    (side_map : list (Price * PriceLevel)) : list (Price * PriceLevel) :=
  let level := default PriceLevel_init (om_find ltb price side_map) in
  om_set ltb price
    (mkLevel price (u64 (lvl_total_shares level + shares))
       (u32 (lvl_order_count level + 1))) side_map.

(** [if (side == 'B') insert(book.bids); else insert(book.asks);] *)
Definition insert_shares (book : OrderBook) (side : ascii) (price : Price) (shares : Z)
  : OrderBook :=
  if is_bid side then set_bids (insert_level price_gtb price shares (ob_bids book)) book
  else set_asks (insert_level price_ltb price shares (ob_asks book)) book.

(** The [remove] lambda of [remove_shares]. *)
Definition remove_level (ltb : Price → Price → bool) (price : Price) (shares : Z)
    (full_removal : bool) (side_map : list (Price * PriceLevel))
  : list (Price * PriceLevel) :=
  match om_find ltb price side_map with
  | None => side_map
  | Some level =>
      let total := (clamped_sub (lvl_total_shares level) shares).1 in
      let count :=
        if full_removal then u32 (lvl_order_count level - 1) else lvl_order_count level in
      if count =? 0 then om_erase ltb price side_map
      else om_set ltb price (mkLevel (lvl_price level) total count) side_map
  end.

Definition remove_shares (book : OrderBook) (side : ascii) (price : Price) (shares : Z)
    (full_removal : bool) : OrderBook :=
  let book :=
    if is_bid side
    then set_bids (remove_level price_gtb price shares full_removal (ob_bids book)) book
    else set_asks (remove_level price_ltb price shares full_removal (ob_asks book)) book in
  refresh_top book.

(** ** One side of a book *)

Definition side_ltb (bid : bool) : Price → Price → bool :=
  if bid then price_gtb else price_ltb.

Definition side_map (bid : bool) (b : OrderBook) : list (Price * PriceLevel) :=
  if bid then ob_bids b else ob_asks b.

Definition best (bid : bool) (b : OrderBook) : option Price :=
  if bid then ob_best_bid b else ob_best_ask b.

#[export] Instance side_ltb_order bid : StrictTotal (side_ltb bid).
Proof. destruct bid; apply _. Qed.

(** A level is stored under its own price, its fields in the range of their
    types. *)
Definition level_ok (p : Price) (l : PriceLevel) : Prop :=
  lvl_price l = p ∧ lvl_total_shares l ∈u64 ∧ lvl_order_count l ∈u32.

Definition side_ok (bid : bool) (m : list (Price * PriceLevel)) : Prop :=
  om_sorted (side_ltb bid) m ∧ ∀ p l, om_find (side_ltb bid) p m = Some l → level_ok p l.

(** Well-formedness of a book: both sides in order, best first, and the cached
    top pointers at the first node of their side. *)
Definition book_ok (b : OrderBook) : Prop :=
  ∀ bid, side_ok bid (side_map bid b) ∧ best bid b = om_begin (side_map bid b).

(** ** Lemmas on levels *)

Lemma clamped_sub_le val sub : sub ≤ val → clamped_sub val sub = (val - sub, false).
Proof. intros. unfold clamped_sub. by rewrite (proj2 (Z.ltb_ge _ _)). Qed.

Lemma clamped_sub_gt val sub : val < sub → clamped_sub val sub = (0, true).
Proof. intros. unfold clamped_sub. by rewrite (proj2 (Z.ltb_lt _ _)). Qed.

Section levels.
Context (bid : bool).
Local Notation ltb := (side_ltb bid).
Implicit Types (m : list (Price * PriceLevel)) (p q : Price).

Lemma find_insert_level p q n m :
  om_find ltb q (insert_level ltb p n m) =
  if decide (p = q) then
    let level := default PriceLevel_init (om_find ltb p m) in
    Some (mkLevel p (u64 (lvl_total_shares level + n)) (u32 (lvl_order_count level + 1)))
  else om_find ltb q m.
Proof.
  unfold insert_level. case_decide as Hpq; [subst q|].
  - by rewrite om_find_set_eq by apply _.
  - by rewrite om_find_set_ne by (done || apply _).
Qed.

(** What a removal leaves of a level. *)
Definition removed_level (n : Z) (full : bool) (l : PriceLevel) : option PriceLevel :=
  let count := if full then u32 (lvl_order_count l - 1) else lvl_order_count l in
  if count =? 0 then None
  else Some (mkLevel (lvl_price l) (clamped_sub (lvl_total_shares l) n).1 count).

Lemma find_remove_level p q n full m :
  om_sorted ltb m →
  om_find ltb q (remove_level ltb p n full m) =
  if decide (p = q) then om_find ltb p m ≫= removed_level n full
  else om_find ltb q m.
Proof.
  intros Hs. unfold remove_level, removed_level.
  destruct (om_find ltb p m) as [l|] eqn:E; simpl; [|by case_decide; subst].
  case_decide as Hpq; [subst q|]; case_match.
  - by rewrite om_find_erase_eq by (done || apply _).
  - by rewrite om_find_set_eq by apply _.
  - by rewrite om_find_erase_ne by (done || apply _).
  - by rewrite om_find_set_ne by (done || apply _).
Qed.

Lemma insert_level_ok p n m : side_ok bid m → side_ok bid (insert_level ltb p n m).
Proof.
  intros [Hs Hl]. split; [apply om_set_sorted; [apply _|done]|].
  intros q l. rewrite find_insert_level. case_decide; [|apply Hl].
  intros [= <-]. subst. unfold level_ok. simpl. auto using u64_range, u32_range.
Qed.

Lemma remove_level_ok p n full m :
  0 ≤ n → side_ok bid m → side_ok bid (remove_level ltb p n full m).
Proof.
  intros Hn [Hs Hl]. split.
  - unfold remove_level. destruct (om_find ltb p m); [|done].
    destruct (_ =? 0); [apply om_erase_sorted|apply om_set_sorted]; (done || apply _).
  - intros q l. rewrite find_remove_level by done. case_decide; [|apply Hl]. subst q.
    destruct (om_find ltb p m) as [l0|] eqn:E; [|done]. simpl.
    destruct (Hl _ _ E) as (Hp & Ht & Hc). unfold removed_level.
    destruct (_ =? 0); [done|]. intros [= <-]. unfold level_ok. simpl. split; [done|split].
    + unfold clamped_sub. destruct (Z.ltb_spec (lvl_total_shares l0) n); simpl; ulia.
    + destruct full; [apply u32_range|done].
Qed.

End levels.

(** ** Lemmas on books *)

Lemma side_map_insert b bk side p n :
  side_map b (insert_shares bk side p n) =
  if decide (is_bid side = b) then insert_level (side_ltb b) p n (side_map b bk)
  else side_map b bk.
Proof. unfold insert_shares. destruct (is_bid side), b; done. Qed.

Lemma side_map_remove b bk side p n full :
  side_map b (remove_shares bk side p n full) =
  if decide (is_bid side = b) then remove_level (side_ltb b) p n full (side_map b bk)
  else side_map b bk.
Proof. unfold remove_shares. destruct (is_bid side), b; done. Qed.

Lemma side_map_refresh b bk : side_map b (refresh_top bk) = side_map b bk.
Proof. by destruct b. Qed.

Lemma side_map_timestamp b ts bk : side_map b (set_timestamp ts bk) = side_map b bk.
Proof. by destruct b. Qed.

Lemma best_refresh b bk : best b (refresh_top bk) = om_begin (side_map b bk).
Proof. by destruct b. Qed.

Lemma book_ok_init loc : book_ok {| ob_stock_locate := loc; ob_last_update_timestamp := 0;
  ob_bids := []; ob_asks := []; ob_best_bid := None; ob_best_ask := None |}.
Proof. intros []; (split; [split; [constructor|done]|done]). Qed.

Lemma book_ok_timestamp ts bk : book_ok bk → book_ok (set_timestamp ts bk).
Proof. intros Hok []; [apply (Hok true)|apply (Hok false)]. Qed.

Lemma book_ok_insert bk side p n :
  book_ok bk → book_ok (refresh_top (insert_shares bk side p n)).
Proof.
  intros Hok b. rewrite side_map_refresh, best_refresh. split; [|done].
  rewrite side_map_insert. destruct (Hok b) as [Hs _].
  case_decide; [by apply insert_level_ok|done].
Qed.

Lemma book_ok_remove bk side p n full :
  0 ≤ n → book_ok bk → book_ok (remove_shares bk side p n full).
Proof.
  intros Hn Hok b. unfold remove_shares. rewrite best_refresh, side_map_refresh.
  split; [|done]. destruct (Hok b) as [Hs _].
  pose proof (side_map_remove b bk side p n full) as E. unfold remove_shares in E.
  rewrite side_map_refresh in E. rewrite E.
  case_decide; [by apply remove_level_ok|done].
Qed.
