(* ===== verification/BookEngine.v ===== *)
(** The message handlers of [OrderBookEngine] ([src/book_engine.cpp],
    [src/book_engine.h]).

    The three [fast_map]s are finite maps.  A reference into one of them
    ([OrderBook&], [OrderRecord&]) is its key, and a write through the reference
    is a write at that key ([put_book], [put_order]).  The lines that
    the source writes on [std::cerr] are in Console. *)

From S2P Require Import Prelude Messages StdMap OrderBook.
From stdpp Require Import pretty.
From Stdlib Require Import Strings.Ascii.
From Stdlib Require Strings.String.

#[local] Open Scope Z_scope.

Record InstrumentInfo := {
  ii_stock_locate : Z;
  ii_symbol : string;
  ii_trading_state : ascii;
  ii_round_lot_size : Z;
  ii_market_category : ascii;
  ii_financial_status : ascii
}.

Record Engine := {
  order_index : gmap Z OrderRecord;
  books : gmap Z OrderBook;
  instruments : gmap Z InstrumentInfo;
  messages_processed : Z;
  skipped_unknown_ref : Z;
  corrupt_messages : Z;
  snapshot_interval : Z;
  pipeline_complete : bool
}.

(** The state after construction. *)
Definition Engine_init : Engine := {|
  order_index := ∅; books := ∅; instruments := ∅;
  messages_processed := 0; skipped_unknown_ref := 0; corrupt_messages := 0;
  snapshot_interval := 1000; pipeline_complete := false |}.

(** ** Writes *)

Definition set_order_index (f : gmap Z OrderRecord → gmap Z OrderRecord) (st : Engine)
  : Engine := {|
  order_index := f (order_index st); books := books st; instruments := instruments st;
  messages_processed := messages_processed st;
  skipped_unknown_ref := skipped_unknown_ref st; corrupt_messages := corrupt_messages st;
  snapshot_interval := snapshot_interval st; pipeline_complete := pipeline_complete st |}.

Definition set_books (f : gmap Z OrderBook → gmap Z OrderBook) (st : Engine) : Engine := {|
  order_index := order_index st; books := f (books st); instruments := instruments st;
  messages_processed := messages_processed st;
  skipped_unknown_ref := skipped_unknown_ref st; corrupt_messages := corrupt_messages st;
  snapshot_interval := snapshot_interval st; pipeline_complete := pipeline_complete st |}.

Definition set_instruments (f : gmap Z InstrumentInfo → gmap Z InstrumentInfo)
    (st : Engine) : Engine := {|
  order_index := order_index st; books := books st; instruments := f (instruments st);
  messages_processed := messages_processed st;
  skipped_unknown_ref := skipped_unknown_ref st; corrupt_messages := corrupt_messages st;
  snapshot_interval := snapshot_interval st; pipeline_complete := pipeline_complete st |}.

Definition put_book (loc : Z) (b : OrderBook) : Engine → Engine := set_books <[loc := b]>.
Definition put_order (ref : Z) (r : OrderRecord) : Engine → Engine :=
  set_order_index <[ref := r]>.
Definition erase_order (ref : Z) : Engine → Engine := set_order_index (delete ref).

(** [++messages_processed_], [++skipped_unknown_ref_], [++corrupt_messages_]. *)
Definition count_message (st : Engine) : Engine := {|
  order_index := order_index st; books := books st; instruments := instruments st;
  messages_processed := u64 (messages_processed st + 1);
  skipped_unknown_ref := skipped_unknown_ref st; corrupt_messages := corrupt_messages st;
  snapshot_interval := snapshot_interval st; pipeline_complete := pipeline_complete st |}.

Definition count_skipped (st : Engine) : Engine := {|
  order_index := order_index st; books := books st; instruments := instruments st;
  messages_processed := messages_processed st;
  skipped_unknown_ref := u64 (skipped_unknown_ref st + 1);
  corrupt_messages := corrupt_messages st;
  snapshot_interval := snapshot_interval st; pipeline_complete := pipeline_complete st |}.

Definition count_corrupt (st : Engine) : Engine := {|
  order_index := order_index st; books := books st; instruments := instruments st;
  messages_processed := messages_processed st;
  skipped_unknown_ref := skipped_unknown_ref st;
  corrupt_messages := u64 (corrupt_messages st + 1);
  snapshot_interval := snapshot_interval st; pipeline_complete := pipeline_complete st |}.

Definition set_snapshot_interval (interval : Z) (st : Engine) : Engine := {|
  order_index := order_index st; books := books st; instruments := instruments st;
  messages_processed := messages_processed st;
  skipped_unknown_ref := skipped_unknown_ref st; corrupt_messages := corrupt_messages st;
  snapshot_interval := interval; pipeline_complete := pipeline_complete st |}.

Definition mark_complete (st : Engine) : Engine := {|
  order_index := order_index st; books := books st; instruments := instruments st;
  messages_processed := messages_processed st;
  skipped_unknown_ref := skipped_unknown_ref st; corrupt_messages := corrupt_messages st;
  snapshot_interval := snapshot_interval st; pipeline_complete := true |}.

Definition set_rec_shares (n : Z) (r : OrderRecord) : OrderRecord := {|
  rec_shares := n; rec_price := rec_price r; rec_stock_locate := rec_stock_locate r;
  rec_side := rec_side r; rec_mpid := rec_mpid r |}.

(** ** Public accessors *)

Definition register_instrument (info : InstrumentInfo) : Engine → Engine :=
  set_instruments <[ii_stock_locate info := info]>.

Definition get_book (st : Engine) (stock_locate : Z) : option OrderBook :=
  books st !! stock_locate.
Definition get_order (st : Engine) (order_ref : Z) : option OrderRecord :=
  order_index st !! order_ref.
Definition get_instrument (st : Engine) (stock_locate : Z) : option InstrumentInfo :=
  instruments st !! stock_locate.

(** ** Internal helpers *)

Definition placeholder (stock_locate : Z) : InstrumentInfo := {|
  ii_stock_locate := stock_locate;
  ii_symbol := "UNKNOWN_" +:+ pretty stock_locate;
  ii_trading_state := "T"%char;
  ii_round_lot_size := 0; ii_market_category := zero; ii_financial_status := zero |}.

(** [books_[stock_locate].stock_locate = stock_locate] on a fresh book. *)
Definition new_book (stock_locate : Z) : OrderBook := {|
  ob_stock_locate := stock_locate; ob_last_update_timestamp := 0;
  ob_bids := []; ob_asks := []; ob_best_bid := None; ob_best_ask := None |}.

(** The book, and the state that holds it. *)
Definition get_or_create_book (stock_locate : Z) (st : Engine) : OrderBook * Engine :=
  match books st !! stock_locate with
  | Some book => (book, st)
  | None =>
      let st :=
        match instruments st !! stock_locate with
        | Some _ => st
        | None => set_instruments <[stock_locate := placeholder stock_locate]> st
        end in
      (new_book stock_locate, put_book stock_locate (new_book stock_locate) st)
  end.

Definition stamp_book (stock_locate timestamp : Z) (st : Engine) : Engine :=
  match books st !! stock_locate with
  | Some book => put_book stock_locate (set_timestamp timestamp book) st
  | None => st
  end.

(** ** Message handlers *)

Definition add_order_impl (stock_locate order_ref : Z) (side : ascii) (shares : Z)
    (price : Price) (timestamp : Z) (mpid : string) (st : Engine) : Engine :=
  let '(book, st) := get_or_create_book stock_locate st in
  let book := insert_shares book side price shares in
  let book := refresh_top book in
  let st := put_book stock_locate book st in
  let rec := {|
    rec_shares := shares; rec_price := price; rec_stock_locate := stock_locate;
    rec_side := side;
    rec_mpid := if decide (mpid = "") then mpid_init else set_mpid_from mpid |} in
  let st := put_order order_ref rec st in
  stamp_book stock_locate timestamp st.

Definition handle_add (m : AddOrderMsg) : Engine → Engine :=
  add_order_impl (ao_stock_locate m) (ao_order_ref m) (ao_side m) (ao_shares m)
    (ao_price m) (ao_timestamp m) "".

Definition handle_add_mpid (m : AddOrderMPIDMsg) : Engine → Engine :=
  add_order_impl (am_stock_locate m) (am_order_ref m) (am_side m) (am_shares m)
    (am_price m) (am_timestamp m) (am_attribution m).

Definition handle_executed (m : OrderExecutedMsg) (st : Engine) : Engine :=
  match order_index st !! oe_order_ref m with
  | None => count_skipped st
  | Some rec =>
      let '(book, st) := get_or_create_book (rec_stock_locate rec) st in
      let before := rec_shares rec in
      let '(after, clamped) := clamped_sub before (oe_executed_shares m) in
      let st := put_order (oe_order_ref m) (set_rec_shares after rec) st in
      let st := if clamped then count_corrupt st else st in
      let full_removal := after =? 0 in
      let book := remove_shares book (rec_side rec) (rec_price rec)
                    (u32 (before - after)) full_removal in
      let st := put_book (rec_stock_locate rec) book st in
      let st := stamp_book (rec_stock_locate rec) (oe_timestamp m) st in
      if full_removal then erase_order (oe_order_ref m) st else st
  end.

Definition handle_executed_price (m : OrderExecutedPriceMsg) (st : Engine) : Engine :=
  match order_index st !! op_order_ref m with
  | None => count_skipped st
  | Some rec =>
      let '(book, st) := get_or_create_book (rec_stock_locate rec) st in
      let before := rec_shares rec in
      let '(after, clamped) := clamped_sub before (op_executed_shares m) in
      let st := put_order (op_order_ref m) (set_rec_shares after rec) st in
      let st := if clamped then count_corrupt st else st in
      let full_removal := after =? 0 in
      let book := remove_shares book (rec_side rec) (rec_price rec)
                    (u32 (before - after)) full_removal in
      let st := put_book (rec_stock_locate rec) book st in
      let st := stamp_book (rec_stock_locate rec) (op_timestamp m) st in
      if full_removal then erase_order (op_order_ref m) st else st
  end.

Definition handle_cancel (m : OrderCancelMsg) (st : Engine) : Engine :=
  match order_index st !! oc_order_ref m with
  | None => count_skipped st
  | Some rec =>
      let '(book, st) := get_or_create_book (rec_stock_locate rec) st in
      let before := rec_shares rec in
      let '(after, clamped) := clamped_sub before (oc_cancelled_shares m) in
      let st := put_order (oc_order_ref m) (set_rec_shares after rec) st in
      let st := if clamped then count_corrupt st else st in
      let full_removal := after =? 0 in
      let book := remove_shares book (rec_side rec) (rec_price rec)
                    (u32 (before - after)) full_removal in
      let st := put_book (rec_stock_locate rec) book st in
      let st := stamp_book (rec_stock_locate rec) (oc_timestamp m) st in
      if full_removal then erase_order (oc_order_ref m) st else st
  end.

Definition handle_delete (m : OrderDeleteMsg) (st : Engine) : Engine :=
  match order_index st !! od_order_ref m with
  | None => count_skipped st
  | Some rec =>
      let '(book, st) := get_or_create_book (rec_stock_locate rec) st in
      let book := remove_shares book (rec_side rec) (rec_price rec) (rec_shares rec) true in
      let st := put_book (rec_stock_locate rec) book st in
      let st := stamp_book (rec_stock_locate rec) (od_timestamp m) st in
      erase_order (od_order_ref m) st
  end.

Definition handle_replace (m : OrderReplaceMsg) (st : Engine) : Engine :=
  match order_index st !! or_original_order_ref m with
  | None => count_skipped st
  | Some old_rec =>
      let st := erase_order (or_original_order_ref m) st in
      let '(book, st) := get_or_create_book (rec_stock_locate old_rec) st in
      let book := remove_shares book (rec_side old_rec) (rec_price old_rec)
                    (rec_shares old_rec) true in
      let book := insert_shares book (rec_side old_rec) (or_price m) (or_shares m) in
      let book := refresh_top book in
      let st := put_book (rec_stock_locate old_rec) book st in
      let rec := {|
        rec_shares := or_shares m; rec_price := or_price m;
        rec_stock_locate := rec_stock_locate old_rec; rec_side := rec_side old_rec;
        rec_mpid := rec_mpid old_rec |} in
      let st := put_order (or_new_order_ref m) rec st in
      stamp_book (rec_stock_locate old_rec) (or_timestamp m) st
  end.

Definition handle_directory (m : StockDirectoryMsg) : Engine → Engine :=
  set_instruments <[sd_stock_locate m := {|
    ii_stock_locate := sd_stock_locate m; ii_symbol := sd_stock m;
    ii_trading_state := "T"%char; ii_round_lot_size := sd_round_lot_size m;
    ii_market_category := sd_market_category m;
    ii_financial_status := sd_financial_status m |}]>.

Definition set_trading_state (c : ascii) (i : InstrumentInfo) : InstrumentInfo := {|
  ii_stock_locate := ii_stock_locate i; ii_symbol := ii_symbol i; ii_trading_state := c;
  ii_round_lot_size := ii_round_lot_size i; ii_market_category := ii_market_category i;
  ii_financial_status := ii_financial_status i |}.

Definition handle_trading_action (m : StockTradingActionMsg) (st : Engine) : Engine :=
  match instruments st !! ta_stock_locate m with
  | Some info =>
      set_instruments <[ta_stock_locate m := set_trading_state (ta_trading_state m) info]> st
  | None => st
  end.

(** [std::visit([this](const auto& m) { this->handle(m); }, msg)] *)
Definition handle (msg : ParsedMessage) : Engine → Engine :=
  match msg with
  | StockDirectory m => handle_directory m
  | StockTradingAction m => handle_trading_action m
  | AddOrder m => handle_add m
  | AddOrderMPID m => handle_add_mpid m
  | OrderExecuted m => handle_executed m
  | OrderExecutedPrice m => handle_executed_price m
  | OrderCancel m => handle_cancel m
  | OrderDelete m => handle_delete m
  | OrderReplace m => handle_replace m
  end.
