(* ===== verification/EngineLevels.v ===== *)
(** What the handlers do to the price levels, and the reference meaning of a
    level: the aggregate of the resting orders.

    A [slot] names one price level of one side of one book.  [level_at] looks a
    slot up in the engine's books; [level_of] computes it from an order index
    alone.  The lemmas of this file say how each handler changes [level_at] and
    how each map update changes [level_of]. *)

From S2P Require Import Prelude Messages StdMap OrderBook BookEngine.
From Stdlib Require Import Strings.Ascii.

Definition slot : Type := Z * bool * Price.

(** The slot an order rests at. *)
Definition order_slot (r : OrderRecord) : slot :=
  (rec_stock_locate r, is_bid (rec_side r), rec_price r).

Definition level_at (st : Engine) (k : slot) : option PriceLevel :=
  let '(loc, b, p) := k in
  book ← books st !! loc; om_find (side_ltb b) p (side_map b book).

Arguments level_at : simpl never.

(** ** The aggregate of an order index *)

Definition rests_at (k : slot) (r : OrderRecord) : bool := bool_decide (order_slot r = k).

Definition shares_at (idx : gmap Z OrderRecord) (k : slot) : Z :=
  map_sum (λ r, if rests_at k r then rec_shares r else 0) idx.

Definition orders_at (idx : gmap Z OrderRecord) (k : slot) : Z :=
  map_sum (λ r, if rests_at k r then 1 else 0) idx.

Definition level_of (idx : gmap Z OrderRecord) (k : slot) : option PriceLevel :=
  if orders_at idx k =? 0 then None
  else Some (mkLevel k.2 (shares_at idx k) (orders_at idx k)).

(** The shares of every resting order are a [uint32_t]. *)
Definition orders_ok (idx : gmap Z OrderRecord) : Prop :=
  ∀ ref r, idx !! ref = Some r → rec_shares r ∈u32.

(** ** Books *)

(** Every book is well-formed, filed under its own locate, and its instrument
    is known. *)
Definition books_ok (st : Engine) : Prop :=
  ∀ loc book, books st !! loc = Some book →
    book_ok book ∧ ob_stock_locate book = loc ∧ is_Some (instruments st !! loc).

Lemma level_at_put loc bk st k :
  level_at (put_book loc bk st) k =
  if decide (loc = k.1.1) then om_find (side_ltb k.1.2) k.2 (side_map k.1.2 bk)
  else level_at st k.
Proof.
  destruct k as [[loc' b] p]. unfold level_at. simpl.
  case_decide; [subst; by rewrite lookup_insert_eq|by rewrite lookup_insert_ne].
Qed.

Lemma level_at_books st st' k : books st = books st' → level_at st k = level_at st' k.
Proof. intros E. destruct k as [[loc b] p]. unfold level_at. by rewrite E. Qed.

(** [get_or_create_book] adds at most an empty book and a placeholder. *)
Lemma get_or_create_book_spec loc st book st' :
  get_or_create_book loc st = (book, st') →
  (∀ b p, om_find (side_ltb b) p (side_map b book) = level_at st (loc, b, p)) ∧
  (∀ k, level_at st' k = level_at st k) ∧
  books st' !! loc = Some book ∧ order_index st' = order_index st.
Proof.
  unfold get_or_create_book. destruct (books st !! loc) as [bk|] eqn:E; intros [= <- <-].
  - split_and!; try done. intros b p. unfold level_at. by rewrite E.
  - split_and!.
    + intros b p. unfold level_at. rewrite E. by destruct b.
    + intros [[loc' b] p]. rewrite level_at_put. simpl. case_decide; [subst loc'|].
      * unfold level_at. rewrite E. by destruct b.
      * unfold level_at. by destruct (instruments st !! loc).
    + simpl. apply lookup_insert_eq.
    + by case_match.
Qed.

Lemma get_or_create_book_ok loc st book st' :
  books_ok st → get_or_create_book loc st = (book, st') → books_ok st'.
Proof.
  unfold get_or_create_book. intros Hok.
  destruct (books st !! loc) as [bk|] eqn:E; intros [= <- <-]; [done|].
  intros loc' bk'. simpl. destruct (decide (loc = loc')) as [->|Hne].
  - rewrite lookup_insert_eq. intros [= <-]. split_and!; [apply book_ok_init|done|].
    destruct (instruments st !! loc') eqn:Ei; [by rewrite Ei|].
    simpl. rewrite lookup_insert_eq. eauto.
  - rewrite lookup_insert_ne by done. destruct (instruments st !! loc) eqn:Ei; simpl.
    + apply Hok.
    + intros Hb. destruct (Hok _ _ Hb) as (?&?&?). split_and!; [done..|].
      by rewrite lookup_insert_ne.
Qed.

Lemma stamp_book_spec loc ts st k : level_at (stamp_book loc ts st) k = level_at st k.
Proof.
  unfold stamp_book. destruct (books st !! loc) as [bk|] eqn:E; [|done].
  rewrite level_at_put. destruct k as [[loc' b] p]. simpl. case_decide; [|done].
  subst loc'. rewrite side_map_timestamp. unfold level_at. by rewrite E.
Qed.

Lemma stamp_book_index loc ts st : order_index (stamp_book loc ts st) = order_index st.
Proof. unfold stamp_book. by destruct (books st !! loc). Qed.

(** Updating one book of the state. *)
Lemma books_ok_put loc bk st :
  books_ok st → is_Some (books st !! loc) → book_ok bk → ob_stock_locate bk = loc →
  books_ok (put_book loc bk st).
Proof.
  intros Hok [bk0 Hbk0] Hbk Hl loc' bk'. simpl.
  destruct (decide (loc = loc')) as [->|Hne].
  - rewrite lookup_insert_eq. intros [= <-]. by destruct (Hok _ _ Hbk0) as (_&_&?).
  - rewrite lookup_insert_ne by done. apply Hok.
Qed.

Lemma stamp_book_ok loc ts st : books_ok st → books_ok (stamp_book loc ts st).
Proof.
  intros Hok. unfold stamp_book. destruct (books st !! loc) as [bk|] eqn:E; [|done].
  destruct (Hok _ _ E) as (?&?&_).
  apply books_ok_put; [done|by rewrite E|by apply book_ok_timestamp|done].
Qed.

Lemma books_ok_index f st : books_ok (set_order_index f st) ↔ books_ok st.
Proof. done. Qed.

Lemma books_ok_erase_if (b : bool) ref st :
  books_ok st → books_ok (if b then erase_order ref st else st).
Proof. by destruct b. Qed.

(** ** Effect of the handlers on levels *)

Lemma level_at_index f st k : level_at (set_order_index f st) k = level_at st k.
Proof. by apply level_at_books. Qed.

Lemma level_at_corrupt (c : bool) st k :
  level_at (if c then count_corrupt st else st) k = level_at st k.
Proof. destruct c; [by apply level_at_books|done]. Qed.

Definition level_added (n : Z) (p : Price) (o : option PriceLevel) : PriceLevel :=
  let level := default PriceLevel_init o in
  mkLevel p (u64 (lvl_total_shares level + n)) (u32 (lvl_order_count level + 1)).

Lemma find_insert_shares bk side p n b q :
  om_find (side_ltb b) q (side_map b (insert_shares bk side p n)) =
  if decide ((is_bid side, p) = (b, q))
  then Some (level_added n p (om_find (side_ltb b) q (side_map b bk)))
  else om_find (side_ltb b) q (side_map b bk).
Proof.
  rewrite side_map_insert.
  destruct (decide (is_bid side = b)) as [->|Hb]; [|by rewrite decide_False by congruence].
  rewrite find_insert_level. destruct (decide (p = q)) as [->|Hp].
  - by rewrite decide_True by done.
  - by rewrite decide_False by congruence.
Qed.

Lemma find_remove_shares bk side p n full b q :
  book_ok bk →
  om_find (side_ltb b) q (side_map b (remove_shares bk side p n full)) =
  if decide ((is_bid side, p) = (b, q))
  then om_find (side_ltb b) q (side_map b bk) ≫= removed_level n full
  else om_find (side_ltb b) q (side_map b bk).
Proof.
  intros Hok. rewrite side_map_remove.
  destruct (decide (is_bid side = b)) as [->|Hb]; [|by rewrite decide_False by congruence].
  destruct (Hok b) as [[Hs _] _]. rewrite find_remove_level by done.
  destruct (decide (p = q)) as [->|Hp].
  - by rewrite decide_True by done.
  - by rewrite decide_False by congruence.
Qed.

(** One update of the book of an order's locate: get or create the book, put
    back a changed one, stamp it. *)
Lemma update_book_spec loc ts st book st' (change : OrderBook → OrderBook) k :
  get_or_create_book loc st = (book, st') →
  level_at (stamp_book loc ts (put_book loc (change book) st')) k =
  if decide (loc = k.1.1)
  then om_find (side_ltb k.1.2) k.2 (side_map k.1.2 (change book))
  else level_at st k.
Proof.
  intros E. destruct (get_or_create_book_spec _ _ _ _ E) as (_ & Hk & _ & _).
  rewrite stamp_book_spec, level_at_put. case_decide; [done|apply Hk].
Qed.

Lemma get_or_create_book_in loc st book st' :
  books_ok st → get_or_create_book loc st = (book, st') →
  book_ok book ∧ ob_stock_locate book = loc ∧ books_ok st' ∧ is_Some (books st' !! loc).
Proof.
  intros Hok E. pose proof (get_or_create_book_ok _ _ _ _ Hok E) as Hok'.
  destruct (get_or_create_book_spec _ _ _ _ E) as (_ & _ & Hb & _).
  destruct (Hok' _ _ Hb) as (?&?&_). rewrite Hb. eauto.
Qed.

Lemma insert_shares_locate bk side p n :
  ob_stock_locate (insert_shares bk side p n) = ob_stock_locate bk.
Proof. unfold insert_shares. by destruct (is_bid side). Qed.

Lemma remove_shares_locate bk side p n full :
  ob_stock_locate (remove_shares bk side p n full) = ob_stock_locate bk.
Proof. unfold remove_shares. by destruct (is_bid side). Qed.

(** *** Adding an order *)

Lemma add_order_level loc ref side n p ts mpid st k :
  level_at (add_order_impl loc ref side n p ts mpid st) k =
  if decide ((loc, is_bid side, p) = k) then Some (level_added n p (level_at st k))
  else level_at st k.
Proof.
  unfold add_order_impl. destruct (get_or_create_book loc st) as [book st'] eqn:E.
  destruct (get_or_create_book_spec _ _ _ _ E) as (Hf & Hk & _ & _).
  rewrite stamp_book_spec. unfold put_order. rewrite level_at_index, level_at_put.
  destruct k as [[loc' b] q]. simpl. case_decide as Hl.
  - subst loc'. rewrite side_map_refresh, find_insert_shares, Hf.
    destruct (decide ((is_bid side, p) = (b, q))) as [He|He].
    + simplify_eq. by rewrite decide_True.
    + rewrite decide_False by congruence. done.
  - rewrite decide_False by congruence. apply Hk.
Qed.

Lemma add_order_books loc ref side n p ts mpid st :
  books_ok st → books_ok (add_order_impl loc ref side n p ts mpid st).
Proof.
  intros Hok. unfold add_order_impl.
  destruct (get_or_create_book loc st) as [book st'] eqn:E.
  destruct (get_or_create_book_in _ _ _ _ Hok E) as (?&Hl&?&?).
  apply stamp_book_ok. apply books_ok_index. apply books_ok_put; [done..| |].
  - by apply book_ok_insert.
  - by rewrite <- Hl, <- (insert_shares_locate book side p n).
Qed.

Lemma add_order_index loc ref side n p ts mpid st :
  order_index (add_order_impl loc ref side n p ts mpid st) =
  <[ref := {| rec_shares := n; rec_price := p; rec_stock_locate := loc; rec_side := side;
      rec_mpid := if decide (mpid = "") then mpid_init else set_mpid_from mpid |}]>
    (order_index st).
Proof.
  unfold add_order_impl. destruct (get_or_create_book loc st) as [book st'] eqn:E.
  destruct (get_or_create_book_spec _ _ _ _ E) as (_ & _ & _ & Hi).
  rewrite stamp_book_index. simpl. by rewrite Hi.
Qed.

(** *** Executions and cancels *)

(** The two other reductions are an execution of the same order reference,
    shares and timestamp. *)
Definition reduction (ref n ts : Z) : OrderExecutedMsg := {|
  oe_stock_locate := 0; oe_tracking_number := 0; oe_timestamp := ts;
  oe_order_ref := ref; oe_executed_shares := n; oe_match_number := 0 |}.

Lemma handle_executed_reduction m st :
  handle_executed m st =
  handle_executed (reduction (oe_order_ref m) (oe_executed_shares m) (oe_timestamp m)) st.
Proof. done. Qed.

Lemma handle_executed_price_reduction m st :
  handle_executed_price m st =
  handle_executed (reduction (op_order_ref m) (op_executed_shares m) (op_timestamp m)) st.
Proof. done. Qed.

Lemma handle_cancel_reduction m st :
  handle_cancel m st =
  handle_executed (reduction (oc_order_ref m) (oc_cancelled_shares m) (oc_timestamp m)) st.
Proof. done. Qed.

(** What a reduction does when the order is known. *)
Lemma reduction_unfold ref n ts st rec :
  order_index st !! ref = Some rec →
  ∃ book st' c,
    let after := (clamped_sub (rec_shares rec) n).1 in
    get_or_create_book (rec_stock_locate rec) st = (book, st') ∧
    handle_executed (reduction ref n ts) st =
    let st := put_order ref (set_rec_shares after rec) st' in
    let st := if (c : bool) then count_corrupt st else st in
    let st := put_book (rec_stock_locate rec)
      (remove_shares book (rec_side rec) (rec_price rec) (u32 (rec_shares rec - after))
         (after =? 0)) st in
    let st := stamp_book (rec_stock_locate rec) ts st in
    if after =? 0 then erase_order ref st else st.
Proof.
  intros E. unfold handle_executed. simpl. rewrite E.
  destruct (get_or_create_book (rec_stock_locate rec) st) as [book st'].
  destruct (clamped_sub (rec_shares rec) n) as [after c]. by exists book, st', c.
Qed.

Lemma reduction_level ref n ts st rec k :
  books_ok st → order_index st !! ref = Some rec →
  let after := (clamped_sub (rec_shares rec) n).1 in
  level_at (handle_executed (reduction ref n ts) st) k =
  if decide (order_slot rec = k)
  then level_at st k ≫= removed_level (u32 (rec_shares rec - after)) (after =? 0)
  else level_at st k.
Proof.
  intros Hok E after. destruct (reduction_unfold ref n ts _ _ E) as (book & st' & c & Eb & ->).
  fold after. destruct (get_or_create_book_spec _ _ _ _ Eb) as (Hf & Hk & _ & _).
  destruct (get_or_create_book_in _ _ _ _ Hok Eb) as (Hbk & _).
  destruct k as [[loc' b] q]. unfold order_slot. cbv zeta.
  assert (∀ (b : bool) (f : Engine → Engine) s k,
    level_at (f s) k = level_at s k → level_at (if b then f s else s) k = level_at s k) as Hif
    by (by intros []).
  rewrite Hif by done. rewrite stamp_book_spec, level_at_put. simpl.
  case_decide as Hl.
  - subst loc'. rewrite find_remove_shares, Hf by done.
    destruct (decide ((is_bid (rec_side rec), rec_price rec) = (b, q))) as [He|He].
    + simplify_eq. by rewrite decide_True.
    + by rewrite decide_False by congruence.
  - rewrite decide_False by congruence. rewrite level_at_corrupt.
    unfold put_order. rewrite level_at_index. apply Hk.
Qed.

Lemma reduction_books ref n ts st :
  books_ok st → books_ok (handle_executed (reduction ref n ts) st).
Proof.
  intros Hok. destruct (order_index st !! ref) as [rec|] eqn:E.
  2: { unfold handle_executed. simpl. by rewrite E. }
  destruct (reduction_unfold ref n ts _ _ E) as (book & st' & c & Eb & ->). cbv zeta.
  destruct (get_or_create_book_in _ _ _ _ Hok Eb) as (Hbk & Hl & Hok' & Hin).
  apply books_ok_erase_if, stamp_book_ok, books_ok_put;
    [by destruct c|by destruct c| |by rewrite remove_shares_locate].
  apply book_ok_remove; [apply u32_range|done].
Qed.

Lemma reduction_index ref n ts st rec :
  order_index st !! ref = Some rec →
  order_index (handle_executed (reduction ref n ts) st) =
  if rec_shares rec <=? n then delete ref (order_index st)
  else <[ref := set_rec_shares (rec_shares rec - n) rec]> (order_index st).
Proof.
  intros E. destruct (reduction_unfold ref n ts _ _ E) as (book & st' & c & Eb & ->). cbv zeta.
  destruct (get_or_create_book_spec _ _ _ _ Eb) as (_ & _ & _ & Hi).
  destruct (Z.leb_spec (rec_shares rec) n) as [Hn|Hn].
  - replace ((clamped_sub (rec_shares rec) n).1) with 0
      by (unfold clamped_sub; destruct (Z.ltb_spec (rec_shares rec) n); simpl; lia).
    simpl. rewrite stamp_book_index. destruct c; simpl; rewrite Hi; apply delete_insert_eq.
  - rewrite clamped_sub_le by lia. cbn [fst].
    rewrite (proj2 (Z.eqb_neq (rec_shares rec - n) 0)) by lia.
    rewrite stamp_book_index. destruct c; simpl; by rewrite Hi.
Qed.

(** *** Deletes *)

Lemma delete_unfold m st rec :
  order_index st !! od_order_ref m = Some rec →
  ∃ book st',
    get_or_create_book (rec_stock_locate rec) st = (book, st') ∧
    handle_delete m st =
    erase_order (od_order_ref m) (stamp_book (rec_stock_locate rec) (od_timestamp m)
      (put_book (rec_stock_locate rec)
        (remove_shares book (rec_side rec) (rec_price rec) (rec_shares rec) true) st')).
Proof.
  intros E. unfold handle_delete. rewrite E.
  destruct (get_or_create_book (rec_stock_locate rec) st) as [book st']. by exists book, st'.
Qed.

Lemma delete_level m st rec k :
  books_ok st → order_index st !! od_order_ref m = Some rec →
  level_at (handle_delete m st) k =
  if decide (order_slot rec = k) then level_at st k ≫= removed_level (rec_shares rec) true
  else level_at st k.
Proof.
  intros Hok E. destruct (delete_unfold m st rec E) as (book & st' & Eb & ->).
  destruct (get_or_create_book_spec _ _ _ _ Eb) as (Hf & Hk & _ & _).
  destruct (get_or_create_book_in _ _ _ _ Hok Eb) as (Hbk & _).
  destruct k as [[loc' b] q]. unfold order_slot, erase_order.
  rewrite level_at_index, stamp_book_spec, level_at_put. simpl. case_decide as Hl.
  - subst loc'. rewrite find_remove_shares, Hf by done.
    destruct (decide ((is_bid (rec_side rec), rec_price rec) = (b, q))) as [He|He].
    + simplify_eq. by rewrite decide_True.
    + by rewrite decide_False by congruence.
  - rewrite decide_False by congruence. apply Hk.
Qed.

Lemma delete_books m st : orders_ok (order_index st) → books_ok st → books_ok (handle_delete m st).
Proof.
  intros Hord Hok. destruct (order_index st !! od_order_ref m) as [rec|] eqn:E.
  2: { unfold handle_delete. by rewrite E. }
  destruct (delete_unfold m st rec E) as (book & st' & Eb & ->).
  destruct (get_or_create_book_in _ _ _ _ Hok Eb) as (Hbk & Hl & Hok' & Hin).
  apply books_ok_index, stamp_book_ok, books_ok_put;
    [done..| |by rewrite remove_shares_locate].
  apply book_ok_remove; [by apply (Hord _ _ E)|done].
Qed.

Lemma delete_index m st :
  order_index (handle_delete m st) = delete (od_order_ref m) (order_index st).
Proof.
  destruct (order_index st !! od_order_ref m) as [rec|] eqn:E.
  - destruct (delete_unfold m st rec E) as (book & st' & Eb & ->).
    destruct (get_or_create_book_spec _ _ _ _ Eb) as (_ & _ & _ & Hi).
    simpl. rewrite stamp_book_index. simpl. by rewrite Hi.
  - unfold handle_delete. rewrite E. simpl. by rewrite delete_id.
Qed.
