(* ===== verification/EngineInvariant.v ===== *)
(** The invariant of the book engine and its abstract specification.

    [spec_orders] is what a message does to the resting orders, stated without
    books.  The engine refines it, and its books are at every moment the
    aggregate of the resting orders ([engine_inv]): a level exists exactly when
    an order rests at it, with the sum of the shares and the number of orders.
    The invariant needs what the feed guarantees: a new order comes under a
    fresh reference. *)

From S2P Require Import Prelude ByteOrder Messages Parser WireFormat.
From S2P Require Import StdMap OrderBook BookEngine EngineLevels.
From Stdlib Require Import Strings.Ascii.

(** ** Specification: the resting orders *)

(** An execution or a cancel of [n] shares. *)
Definition spec_reduce (ref n : Z) (idx : gmap Z OrderRecord) : gmap Z OrderRecord :=
  match idx !! ref with
  | None => idx
  | Some r =>
      if rec_shares r <=? n then delete ref idx
      else <[ref := set_rec_shares (rec_shares r - n) r]> idx
  end.

Definition added_record (loc : Z) (side : ascii) (n : Z) (p : Price) (mpid : string)
  : OrderRecord := {|
  rec_shares := n; rec_price := p; rec_stock_locate := loc; rec_side := side;
  rec_mpid := if decide (mpid = "") then mpid_init else set_mpid_from mpid |}.

Definition replaced_record (m : OrderReplaceMsg) (old : OrderRecord) : OrderRecord := {|
  rec_shares := or_shares m; rec_price := or_price m;
  rec_stock_locate := rec_stock_locate old; rec_side := rec_side old;
  rec_mpid := rec_mpid old |}.

Definition spec_orders (msg : ParsedMessage) (idx : gmap Z OrderRecord)
  : gmap Z OrderRecord :=
  match msg with
  | StockDirectory _ | StockTradingAction _ => idx
  | AddOrder m =>
      <[ao_order_ref m :=
        added_record (ao_stock_locate m) (ao_side m) (ao_shares m) (ao_price m) ""]> idx
  | AddOrderMPID m =>
      <[am_order_ref m :=
        added_record (am_stock_locate m) (am_side m) (am_shares m) (am_price m)
          (am_attribution m)]> idx
  | OrderExecuted m => spec_reduce (oe_order_ref m) (oe_executed_shares m) idx
  | OrderExecutedPrice m => spec_reduce (op_order_ref m) (op_executed_shares m) idx
  | OrderCancel m => spec_reduce (oc_order_ref m) (oc_cancelled_shares m) idx
  | OrderDelete m => delete (od_order_ref m) idx
  | OrderReplace m =>
      match idx !! or_original_order_ref m with
      | None => idx
      | Some old =>
          <[or_new_order_ref m := replaced_record m old]>
            (delete (or_original_order_ref m) idx)
      end
  end.

(** ** The invariant *)

Record engine_inv (st : Engine) : Prop := {
  inv_levels k : level_at st k = level_of (order_index st) k;
  inv_books : books_ok st;
  inv_orders : orders_ok (order_index st)
}.

(** A new order comes under a reference that no resting order has; a replace
    may reuse the reference it frees. *)
Definition fresh_ref (idx : gmap Z OrderRecord) (msg : ParsedMessage) : Prop :=
  match msg with
  | AddOrder m => idx !! ao_order_ref m = None
  | AddOrderMPID m => idx !! am_order_ref m = None
  | OrderReplace m => delete (or_original_order_ref m) idx !! or_new_order_ref m = None
  | _ => True
  end.

(** The number of resting orders fits the [uint32_t] of an order count. *)
Definition has_room (idx : gmap Z OrderRecord) : Prop := Z.of_nat (size idx) < 2 ^ 32 - 1.

(** The shares of the message are a [uint32_t]. *)
Definition shares_in_range (msg : ParsedMessage) : Prop :=
  match msg with
  | AddOrder m => ao_shares m ∈u32
  | AddOrderMPID m => am_shares m ∈u32
  | OrderReplace m => or_shares m ∈u32
  | OrderExecuted m => oe_executed_shares m ∈u32
  | OrderExecutedPrice m => op_executed_shares m ∈u32
  | OrderCancel m => oc_cancelled_shares m ∈u32
  | _ => True
  end.

(** ** The aggregate *)

Lemma rests_at_true k r : order_slot r = k → rests_at k r = true.
Proof. intros. by apply bool_decide_eq_true. Qed.
Lemma rests_at_false k r : order_slot r ≠ k → rests_at k r = false.
Proof. intros. by apply bool_decide_eq_false. Qed.

Lemma orders_at_bounds idx k : 0 ≤ orders_at idx k ≤ Z.of_nat (size idx).
Proof.
  rewrite <- (Z.mul_1_l (Z.of_nat _)). apply map_sum_bounds.
  intros ? r' ?. destruct (rests_at _ r'); lia.
Qed.

Lemma shares_at_bounds idx k :
  orders_ok idx → 0 ≤ shares_at idx k ≤ (2 ^ 32 - 1) * Z.of_nat (size idx).
Proof.
  intros Hok. apply map_sum_bounds. intros ref r Hr. pose proof (Hok _ _ Hr).
  destruct (rests_at _ _); ulia.
Qed.

Lemma shares_at_empty idx k : orders_ok idx → orders_at idx k = 0 → shares_at idx k = 0.
Proof.
  intros Hok Ho. pose proof (shares_at_bounds idx k Hok) as Hb.
  destruct (Z.eq_dec (shares_at idx k) 0) as [|Hne]; [done|exfalso].
  destruct (map_sum_pos_witness (λ r, if rests_at k r then rec_shares r else 0) idx)
    as (ref & r & Hr & Hpos); [unfold shares_at in *; lia|].
  cbv beta in Hpos.
  assert ((if rests_at k r then 1 else 0) ≤ orders_at idx k).
  { apply (map_sum_lookup_le (λ r, if rests_at k r then 1 else 0) idx ref r); [|done].
    intros ? r' ?. destruct (rests_at _ r'); lia. }
  destruct (rests_at k r); lia.
Qed.

Lemma level_of_default idx k :
  orders_ok idx →
  lvl_total_shares (default PriceLevel_init (level_of idx k)) = shares_at idx k ∧
  lvl_order_count (default PriceLevel_init (level_of idx k)) = orders_at idx k.
Proof.
  intros Hok. unfold level_of. destruct (Z.eqb_spec (orders_at idx k) 0) as [E|E]; [|done].
  simpl. by rewrite E, shares_at_empty.
Qed.

Lemma shares_at_lookup idx ref r :
  orders_ok idx → idx !! ref = Some r →
  rec_shares r ≤ shares_at idx (order_slot r) ∧ 1 ≤ orders_at idx (order_slot r).
Proof.
  intros Hok Hr. split.
  - pose proof (map_sum_lookup_le
      (λ r', if rests_at (order_slot r) r' then rec_shares r' else 0) idx ref r) as H.
    cbv beta in H. rewrite rests_at_true in H by done. apply H; [|done].
    intros ref' r' Hr'. pose proof (Hok _ _ Hr'). destruct (rests_at _ _); lia.
  - pose proof (map_sum_lookup_le
      (λ r', if rests_at (order_slot r) r' then 1 else 0) idx ref r) as H.
    cbv beta in H. rewrite rests_at_true in H by done. apply H; [|done].
    intros ? r' ?. destruct (rests_at _ r'); lia.
Qed.

Section updates.
Context (idx : gmap Z OrderRecord) (ref : Z) (r : OrderRecord) (k : slot).

Lemma aggregate_insert :
  idx !! ref = None →
  shares_at (<[ref := r]> idx) k =
    (if rests_at k r then rec_shares r else 0) + shares_at idx k ∧
  orders_at (<[ref := r]> idx) k = (if rests_at k r then 1 else 0) + orders_at idx k.
Proof. intros Hn. unfold shares_at, orders_at. by rewrite !map_sum_insert by done. Qed.

Lemma aggregate_delete :
  idx !! ref = Some r →
  shares_at (delete ref idx) k =
    shares_at idx k - (if rests_at k r then rec_shares r else 0) ∧
  orders_at (delete ref idx) k = orders_at idx k - (if rests_at k r then 1 else 0).
Proof.
  intros Hr. unfold shares_at, orders_at.
  by rewrite !(map_sum_delete _ idx ref r) by done.
Qed.

Lemma aggregate_reduce n :
  idx !! ref = Some r →
  shares_at (<[ref := set_rec_shares n r]> idx) k =
    shares_at idx k - (if rests_at k r then rec_shares r - n else 0) ∧
  orders_at (<[ref := set_rec_shares n r]> idx) k = orders_at idx k.
Proof.
  intros Hr. unfold shares_at, orders_at.
  rewrite !(map_sum_replace _ idx ref r) by done.
  change (rests_at k (set_rec_shares n r)) with (rests_at k r).
  destruct (rests_at k r); simpl; lia.
Qed.

(** The levels of the updated index, as the handlers compute them. *)
Lemma level_of_insert :
  orders_ok idx → has_room idx → rec_shares r ∈u32 → idx !! ref = None →
  level_of (<[ref := r]> idx) k =
  if decide (order_slot r = k)
  then Some (level_added (rec_shares r) (rec_price r) (level_of idx k))
  else level_of idx k.
Proof.
  intros Hok Hroom Hr Hn. destruct (aggregate_insert Hn) as [Hs Ho].
  unfold level_of. rewrite Hs, Ho. case_decide as Hk.
  - rewrite rests_at_true by done.
    destruct (level_of_default idx k Hok) as [Ht Hc].
    pose proof (orders_at_bounds idx k) as Hb. pose proof (shares_at_bounds idx k Hok) as Hb'.
    unfold has_room in Hroom.
    rewrite (proj2 (Z.eqb_neq (1 + orders_at idx k) 0)) by lia.
    unfold level_added. fold (level_of idx k). rewrite Ht, Hc.
    rewrite u64_id, u32_id by (change (2 ^ 32) with 4294967296 in *; ulia).
    subst k. simpl. do 2 f_equal; lia.
  - rewrite rests_at_false by done. by rewrite !Z.add_0_l.
Qed.

Lemma level_of_delete :
  orders_ok idx → has_room idx → idx !! ref = Some r →
  level_of (delete ref idx) k =
  if decide (order_slot r = k) then level_of idx k ≫= removed_level (rec_shares r) true
  else level_of idx k.
Proof.
  intros Hok Hroom Hr. destruct (aggregate_delete Hr) as [Hs Ho].
  unfold level_of. rewrite Hs, Ho. case_decide as Hk.
  - rewrite rests_at_true by done.
    destruct (shares_at_lookup _ _ _ Hok Hr) as [Hle Hone]. rewrite Hk in Hle, Hone.
    pose proof (orders_at_bounds idx k) as Hb. unfold has_room in Hroom.
    rewrite (proj2 (Z.eqb_neq (orders_at idx k) 0)) by lia. simpl.
    unfold removed_level. simpl. rewrite u32_id by ulia.
    destruct (Z.eqb_spec (orders_at idx k - 1) 0); [done|].
    by rewrite clamped_sub_le by done.
  - rewrite rests_at_false by done. by rewrite !Z.sub_0_r.
Qed.

Lemma level_of_reduce n :
  orders_ok idx → has_room idx → idx !! ref = Some r → 0 ≤ n < rec_shares r →
  level_of (<[ref := set_rec_shares (rec_shares r - n) r]> idx) k =
  if decide (order_slot r = k) then level_of idx k ≫= removed_level n false
  else level_of idx k.
Proof.
  intros Hok Hroom Hr Hn. destruct (aggregate_reduce (rec_shares r - n) Hr) as [Hs Ho].
  unfold level_of. rewrite Hs, Ho. case_decide as Hk.
  - rewrite rests_at_true by done.
    destruct (shares_at_lookup _ _ _ Hok Hr) as [Hle Hone]. rewrite Hk in Hle, Hone.
    rewrite (proj2 (Z.eqb_neq (orders_at idx k) 0)) by lia. simpl.
    unfold removed_level. simpl.
    rewrite (proj2 (Z.eqb_neq (orders_at idx k) 0)) by lia.
    rewrite clamped_sub_le by lia. simpl. do 2 f_equal. lia.
  - rewrite rests_at_false by done. by rewrite Z.sub_0_r.
Qed.

End updates.

(** ** Replace is delete and add *)

Definition replace_delete (m : OrderReplaceMsg) : OrderDeleteMsg := {|
  od_stock_locate := or_stock_locate m; od_tracking_number := or_tracking_number m;
  od_timestamp := or_timestamp m; od_order_ref := or_original_order_ref m |}.

Definition replace_add (m : OrderReplaceMsg) (old : OrderRecord) : AddOrderMsg := {|
  ao_stock_locate := rec_stock_locate old; ao_tracking_number := or_tracking_number m;
  ao_timestamp := or_timestamp m; ao_order_ref := or_new_order_ref m;
  ao_side := rec_side old; ao_shares := or_shares m; ao_stock := "";
  ao_price := or_price m |}.

Lemma get_or_create_book_index loc f st :
  get_or_create_book loc (set_order_index f st) =
  ((get_or_create_book loc st).1, set_order_index f (get_or_create_book loc st).2).
Proof.
  unfold get_or_create_book. simpl.
  destruct (books st !! loc); [done|]. by destruct (instruments st !! loc).
Qed.

Lemma get_or_create_book_found loc bk st :
  books st !! loc = Some bk → get_or_create_book loc st = (bk, st).
Proof. intros E. unfold get_or_create_book. by rewrite E. Qed.

Lemma stamp_put loc ts bk st :
  stamp_book loc ts (put_book loc bk st) = put_book loc (set_timestamp ts bk) st.
Proof.
  unfold stamp_book. simpl. rewrite lookup_insert_eq. unfold put_book, set_books. simpl.
  by rewrite insert_insert_eq.
Qed.

Lemma put_put loc bk bk' st : put_book loc bk (put_book loc bk' st) = put_book loc bk st.
Proof. unfold put_book, set_books. simpl. by rewrite insert_insert_eq. Qed.

Lemma insert_refresh_timestamp ts ts' bk side p n :
  set_timestamp ts (refresh_top (insert_shares (set_timestamp ts' bk) side p n)) =
  set_timestamp ts (refresh_top (insert_shares bk side p n)).
Proof. unfold insert_shares. by destruct (is_bid side). Qed.

Lemma replace_is_delete_add m st old :
  order_index st !! or_original_order_ref m = Some old →
  handle_replace m st =
  put_order (or_new_order_ref m) (replaced_record m old)
    (handle_add (replace_add m old) (handle_delete (replace_delete m) st)).
Proof.
  intros E. unfold handle_replace, handle_delete. simpl. rewrite E.
  unfold erase_order. rewrite get_or_create_book_index.
  destruct (get_or_create_book (rec_stock_locate old) st) as [book st'] eqn:Eb.
  cbn [fst snd]. rewrite stamp_put.
  unfold handle_add, add_order_impl. simpl.
  erewrite get_or_create_book_found by (simpl; apply lookup_insert_eq).
  unfold put_order. unfold stamp_book. simpl.
  rewrite !lookup_insert_eq.
  unfold put_book, set_books, set_order_index. simpl.
  rewrite !insert_insert_eq, insert_refresh_timestamp. done.
Qed.

(** ** The engine refines the specification of the resting orders *)

Lemma reduction_orders ref n ts st :
  order_index (handle_executed (reduction ref n ts) st) = spec_reduce ref n (order_index st).
Proof.
  unfold spec_reduce. destruct (order_index st !! ref) as [r|] eqn:E.
  - by rewrite (reduction_index _ _ _ _ _ E).
  - unfold handle_executed. simpl. by rewrite E.
Qed.

Lemma handle_orders msg st : order_index (handle msg st) = spec_orders msg (order_index st).
Proof.
  destruct msg as [m|m|m|m|m|m|m|m|m]; cbn [handle spec_orders].
  - done.
  - unfold handle_trading_action. by destruct (instruments st !! _).
  - apply add_order_index.
  - apply add_order_index.
  - rewrite handle_executed_reduction. apply reduction_orders.
  - rewrite handle_executed_price_reduction. apply reduction_orders.
  - rewrite handle_cancel_reduction. apply reduction_orders.
  - apply delete_index.
  - destruct (order_index st !! or_original_order_ref m) as [old|] eqn:E.
    + rewrite (replace_is_delete_add _ _ _ E). unfold put_order, handle_add. simpl.
      rewrite add_order_index, delete_index. simpl. apply insert_insert_eq.
    + unfold handle_replace. by rewrite E.
Qed.

(** ** Preservation *)

Lemma orders_ok_insert idx ref r :
  orders_ok idx → rec_shares r ∈u32 → orders_ok (<[ref := r]> idx).
Proof. intros Hok Hr ref' r' [[_ <-]|[_ ?]]%lookup_insert_Some; [done|by eapply Hok]. Qed.

Lemma orders_ok_delete idx ref : orders_ok idx → orders_ok (delete ref idx).
Proof. intros Hok ref' r' [_ ?]%lookup_delete_Some. by eapply Hok. Qed.

Lemma orders_ok_reduce idx ref n :
  0 ≤ n → orders_ok idx → orders_ok (spec_reduce ref n idx).
Proof.
  intros Hn Hok. unfold spec_reduce. destruct (idx !! ref) as [r|] eqn:E; [|done].
  destruct (Z.leb_spec (rec_shares r) n); [by apply orders_ok_delete|].
  apply orders_ok_insert; [done|]. pose proof (Hok _ _ E). simpl. lia.
Qed.

Lemma add_preserves loc ref side n p ts mpid st :
  engine_inv st → has_room (order_index st) → n ∈u32 → order_index st !! ref = None →
  engine_inv (add_order_impl loc ref side n p ts mpid st).
Proof.
  intros [Hl Hb Ho] Hroom Hn Hf. split.
  - intros k. rewrite add_order_level, add_order_index, level_of_insert by done.
    rewrite Hl. done.
  - by apply add_order_books.
  - rewrite add_order_index. by apply orders_ok_insert.
Qed.

Lemma reduction_preserves ref n ts st :
  engine_inv st → has_room (order_index st) → 0 ≤ n →
  engine_inv (handle_executed (reduction ref n ts) st).
Proof.
  intros [Hl Hb Ho] Hroom Hn. split.
  - intros k. rewrite reduction_orders. unfold spec_reduce.
    destruct (order_index st !! ref) as [r|] eqn:E.
    + rewrite (reduction_level _ _ _ _ _ _ Hb E). pose proof (Ho _ _ E) as Hr.
      destruct (Z.leb_spec (rec_shares r) n) as [Hle|Hgt].
      * rewrite (level_of_delete _ _ r) by done.
        replace ((clamped_sub (rec_shares r) n).1) with 0
          by (unfold clamped_sub; destruct (Z.ltb_spec (rec_shares r) n); simpl; lia).
        rewrite Z.sub_0_r, u32_id by done. by rewrite Hl.
      * rewrite level_of_reduce by (done || lia). rewrite clamped_sub_le by lia. cbn [fst].
        rewrite (proj2 (Z.eqb_neq (rec_shares r - n) 0)) by lia.
        replace (rec_shares r - (rec_shares r - n)) with n by lia.
        rewrite u32_id by ulia. by rewrite Hl.
    + rewrite <- Hl. unfold handle_executed. simpl. rewrite E. by apply level_at_books.
  - by apply reduction_books.
  - rewrite reduction_orders. by apply orders_ok_reduce.
Qed.

Lemma delete_preserves m st :
  engine_inv st → has_room (order_index st) → engine_inv (handle_delete m st).
Proof.
  intros [Hl Hb Ho] Hroom. split.
  - intros k. rewrite delete_index. destruct (order_index st !! od_order_ref m) as [r|] eqn:E.
    + by rewrite (delete_level _ _ _ _ Hb E), (level_of_delete _ _ r), Hl.
    + rewrite delete_id by done. rewrite <- Hl. unfold handle_delete. rewrite E.
      by apply level_at_books.
  - by apply delete_books.
  - rewrite delete_index. by apply orders_ok_delete.
Qed.

(** Overwriting the record of a reference by one of the same slot and shares. *)
Lemma put_order_preserves ref r r' st :
  order_index st !! ref = Some r' → order_slot r = order_slot r' →
  rec_shares r = rec_shares r' → engine_inv st → engine_inv (put_order ref r st).
Proof.
  intros E Hslot Hsh [Hl Hb Ho]. split; simpl.
  - intros k. unfold put_order. rewrite level_at_index, Hl. unfold level_of, orders_at, shares_at.
    rewrite !(map_sum_replace _ _ ref r') by done. unfold rests_at. rewrite Hslot, Hsh.
    by rewrite !Z.sub_simpl_r.
  - done.
  - apply orders_ok_insert; [done|]. rewrite Hsh. by eapply Ho.
Qed.

Lemma has_room_delete idx ref : has_room idx → has_room (delete ref idx).
Proof.
  unfold has_room. intros. pose proof (map_size_delete ref idx) as E.
  rewrite E. destruct (idx !! ref); simpl; [lia|done].
Qed.

Lemma replace_preserves m st :
  engine_inv st → has_room (order_index st) → or_shares m ∈u32 →
  fresh_ref (order_index st) (OrderReplace m) → engine_inv (handle_replace m st).
Proof.
  intros Hinv Hroom Hn Hf. destruct (order_index st !! or_original_order_ref m) as [old|] eqn:E.
  - rewrite (replace_is_delete_add _ _ _ E). simpl in Hf.
    assert (order_index (handle_delete (replace_delete m) st) =
      delete (or_original_order_ref m) (order_index st)) as Hd by apply delete_index.
    eapply put_order_preserves.
    + unfold handle_add. rewrite add_order_index. apply lookup_insert_eq.
    + done.
    + done.
    + apply add_preserves; [by apply delete_preserves| | |].
      * rewrite Hd. by apply has_room_delete.
      * done.
      * by rewrite Hd.
  - unfold handle_replace. rewrite E. destruct Hinv as [Hl Hb Ho]. split; [|done..].
    intros k. simpl. rewrite <- Hl. by apply level_at_books.
Qed.

Lemma instruments_preserve f st :
  (∀ i loc, is_Some (i !! loc) → is_Some (f i !! loc)) →
  engine_inv st → engine_inv (set_instruments f st).
Proof.
  intros Hf [Hl Hb Ho]. split; [|intros loc bk Hbk|done].
  - intros k. rewrite <- Hl. by apply level_at_books.
  - destruct (Hb _ _ Hbk) as (?&?&?). split_and!; [done..|]. by apply Hf.
Qed.

(** Every handler preserves the invariant. *)
Lemma handle_inv msg st :
  engine_inv st → shares_in_range msg → fresh_ref (order_index st) msg →
  has_room (order_index st) → engine_inv (handle msg st).
Proof.
  intros Hinv Hn Hf Hroom.
  destruct msg as [m|m|m|m|m|m|m|m|m]; cbn [handle shares_in_range] in *.
  - apply instruments_preserve; [|done]. intros ins loc Hi. by apply insert_is_Some.
  - unfold handle_trading_action. destruct (instruments st !! _); [|done].
    apply instruments_preserve; [|done]. intros ins loc Hi. by apply insert_is_Some.
  - by apply add_preserves.
  - by apply add_preserves.
  - rewrite handle_executed_reduction. apply reduction_preserves; [done..|apply Hn].
  - rewrite handle_executed_price_reduction. apply reduction_preserves; [done..|apply Hn].
  - rewrite handle_cancel_reduction. apply reduction_preserves; [done..|apply Hn].
  - by apply delete_preserves.
  - by apply replace_preserves.
Qed.

Lemma count_message_inv st : engine_inv st → engine_inv (count_message st).
Proof.
  intros [Hl Hb Ho]. split; [|done..]. intros k. rewrite <- Hl. by apply level_at_books.
Qed.

Lemma Engine_init_inv : engine_inv Engine_init.
Proof.
  split.
  - intros [[loc b] p]. unfold level_at, level_of, orders_at. simpl.
    by rewrite lookup_empty, map_sum_empty.
  - intros loc bk Hb. simpl in Hb. by rewrite lookup_empty in Hb.
  - intros ref r Hr. simpl in Hr. by rewrite lookup_empty in Hr.
Qed.

(** ** Whatever the messages are

    Without the assumption on references the books may lose their orders, but
    they stay well-formed. *)

Definition engine_wf (st : Engine) : Prop := books_ok st ∧ orders_ok (order_index st).

Lemma spec_orders_ok msg idx :
  shares_in_range msg → orders_ok idx → orders_ok (spec_orders msg idx).
Proof.
  intros Hn Hok. destruct msg; simpl in *; try done;
    try (by apply orders_ok_insert); try (by apply orders_ok_reduce; [apply Hn|]);
    try (by apply orders_ok_delete).
  case_match; [|done]. apply orders_ok_insert; [by apply orders_ok_delete|done].
Qed.

Lemma replace_books m st : orders_ok (order_index st) → books_ok st → books_ok (handle_replace m st).
Proof.
  intros Hord Hok. destruct (order_index st !! or_original_order_ref m) as [old|] eqn:E.
  - rewrite (replace_is_delete_add _ _ _ E). apply books_ok_index, add_order_books.
    by apply delete_books.
  - unfold handle_replace. by rewrite E.
Qed.

Lemma books_ok_instruments f st :
  (∀ i loc, is_Some (i !! loc) → is_Some (f i !! loc)) →
  books_ok st → books_ok (set_instruments f st).
Proof.
  intros Hf Hb loc bk Hbk. destruct (Hb _ _ Hbk) as (?&?&?).
  split_and!; [done..|]. by apply Hf.
Qed.

Lemma handle_wf msg st : shares_in_range msg → engine_wf st → engine_wf (handle msg st).
Proof.
  intros Hn [Hb Ho]. split.
  2: { rewrite handle_orders. by apply spec_orders_ok. }
  destruct msg as [m|m|m|m|m|m|m|m|m]; cbn [handle].
  - apply books_ok_instruments; [|done]. intros ins loc Hi. by apply insert_is_Some.
  - unfold handle_trading_action. destruct (instruments st !! _); [|done].
    apply books_ok_instruments; [|done]. intros ins loc Hi. by apply insert_is_Some.
  - by apply add_order_books.
  - by apply add_order_books.
  - rewrite handle_executed_reduction. by apply reduction_books.
  - rewrite handle_executed_price_reduction. by apply reduction_books.
  - rewrite handle_cancel_reduction. by apply reduction_books.
  - by apply delete_books.
  - by apply replace_books.
Qed.
