(* ===== verification/EngineProperties.v ===== *)
(** What the book engine guarantees, over whole feeds and message by message. *)

From S2P Require Import Prelude ByteOrder Messages Parser WireFormat.
From S2P Require Import StdMap OrderBook BookEngine EngineLevels EngineInvariant.
From Stdlib Require Import Strings.Ascii.
From Stdlib Require Strings.String.

(** ** Vocabulary *)

(** [apply] without its last call, [maybe_publish_snapshot], on each message. *)
Definition run (msgs : list ParsedMessage) (st : Engine) : Engine :=
  fold_left (λ st msg, count_message (handle msg st)) msgs st.

Definition run_orders (msgs : list ParsedMessage) (idx : gmap Z OrderRecord)
  : gmap Z OrderRecord :=
  fold_left (λ idx msg, spec_orders msg idx) msgs idx.

(** A feed whose fields are in range and whose new orders come under fresh
    references. *)
Fixpoint feed_ok (idx : gmap Z OrderRecord) (msgs : list ParsedMessage) : Prop :=
  match msgs with
  | [] => True
  | msg :: msgs =>
      shares_in_range msg ∧ fresh_ref idx msg ∧ feed_ok (spec_orders msg idx) msgs
  end.

(** The order reference a message looks up, if it looks one up. *)
Definition looked_up (msg : ParsedMessage) : option Z :=
  match msg with
  | OrderExecuted m => Some (oe_order_ref m)
  | OrderExecutedPrice m => Some (op_order_ref m)
  | OrderCancel m => Some (oc_order_ref m)
  | OrderDelete m => Some (od_order_ref m)
  | OrderReplace m => Some (or_original_order_ref m)
  | _ => None
  end.

(** The shares a message takes from a resting order. *)
Definition reduction_of (msg : ParsedMessage) : option Z :=
  match msg with
  | OrderExecuted m => Some (oe_executed_shares m)
  | OrderExecutedPrice m => Some (op_executed_shares m)
  | OrderCancel m => Some (oc_cancelled_shares m)
  | _ => None
  end.

Definition timestamp_of (msg : ParsedMessage) : Z :=
  match msg with
  | StockDirectory m => sd_timestamp m
  | StockTradingAction m => ta_timestamp m
  | AddOrder m => ao_timestamp m
  | AddOrderMPID m => am_timestamp m
  | OrderExecuted m => oe_timestamp m
  | OrderExecutedPrice m => op_timestamp m
  | OrderCancel m => oc_timestamp m
  | OrderDelete m => od_timestamp m
  | OrderReplace m => or_timestamp m
  end.

(** The locate whose book a message changes: that of the order for every
    message but an add, whatever locate the message carries. *)
Definition touched (msg : ParsedMessage) (idx : gmap Z OrderRecord) : option Z :=
  match msg with
  | AddOrder m => Some (ao_stock_locate m)
  | AddOrderMPID m => Some (am_stock_locate m)
  | _ => ref ← looked_up msg; rec_stock_locate <$> idx !! ref
  end.

Definition unknown_ref (msg : ParsedMessage) (st : Engine) : bool :=
  match looked_up msg with
  | Some ref => bool_decide (get_order st ref = None)
  | None => false
  end.

Definition oversized (msg : ParsedMessage) (st : Engine) : bool :=
  match ref ← looked_up msg; get_order st ref, reduction_of msg with
  | Some r, Some n => rec_shares r <? n
  | _, _ => false
  end.

(** The instrument table a message leaves, at one locate. *)
Definition spec_instrument (msg : ParsedMessage) (st : Engine) (loc : Z)
  : option InstrumentInfo :=
  match msg with
  | StockDirectory m =>
      if decide (sd_stock_locate m = loc) then Some {|
        ii_stock_locate := loc; ii_symbol := sd_stock m;
        ii_trading_state := "T"%char; ii_round_lot_size := sd_round_lot_size m;
        ii_market_category := sd_market_category m;
        ii_financial_status := sd_financial_status m |}
      else get_instrument st loc
  | StockTradingAction m =>
      if decide (ta_stock_locate m = loc)
      then set_trading_state (ta_trading_state m) <$> get_instrument st loc
      else get_instrument st loc
  | _ =>
      match get_instrument st loc with
      | Some i => Some i
      | None =>
          if decide (touched msg (order_index st) = Some loc)
          then Some (placeholder loc) else None
      end
  end.

(** ** Runs *)

Lemma spec_orders_size msg idx :
  (size (spec_orders msg idx) ≤ S (size idx))%nat.
Proof.
  assert (∀ ref (idx : gmap Z OrderRecord), (size (delete ref idx) ≤ size idx)%nat) as Hd.
  { intros ref i. rewrite map_size_delete. destruct (i !! ref); simpl; lia. }
  assert (∀ ref r (idx : gmap Z OrderRecord),
    (size (<[ref := r]> idx) ≤ S (size idx))%nat) as Hi.
  { intros ref r i. rewrite map_size_insert. destruct (i !! ref); simpl; lia. }
  assert (∀ ref n, (size (spec_reduce ref n idx) ≤ S (size idx))%nat) as Hr.
  { intros ref n. unfold spec_reduce. destruct (idx !! ref); [|lia].
    case_match; [pose proof (Hd ref idx); lia|apply Hi]. }
  destruct msg; simpl; auto.
  destruct (idx !! _); [|lia]. etrans; [apply Hi|]. apply le_n_S, Hd.
Qed.

Lemma run_cons msg msgs st : run (msg :: msgs) st = run msgs (count_message (handle msg st)).
Proof. done. Qed.

Lemma run_order_index msgs st :
  order_index (run msgs st) = run_orders msgs (order_index st).
Proof.
  revert st. induction msgs as [|msg msgs IH]; intros st; [done|].
  rewrite run_cons, IH. simpl. by rewrite handle_orders.
Qed.

Lemma run_inv msgs st :
  engine_inv st → feed_ok (order_index st) msgs →
  Z.of_nat (size (order_index st) + length msgs) < 2 ^ 32 - 1 →
  engine_inv (run msgs st).
Proof.
  revert st. induction msgs as [|msg msgs IH]; intros st Hinv Hfeed Hroom; [done|].
  destruct Hfeed as (Hn & Hf & Hfeed). rewrite run_cons.
  simpl in Hroom. pose proof (spec_orders_size msg (order_index st)) as Hs.
  assert (has_room (order_index st)) as Hr by (unfold has_room; lia).
  apply IH; simpl; rewrite ?handle_orders; [|done|lia].
  apply count_message_inv. by apply handle_inv.
Qed.

Lemma run_wf msgs st :
  Forall shares_in_range msgs → engine_wf st → engine_wf (run msgs st).
Proof.
  intros Hn. revert st. induction Hn as [|msg msgs Hm Hn IH]; intros st Hwf; [done|].
  rewrite run_cons. apply IH. pose proof (handle_wf _ _ Hm Hwf) as Hw. apply Hw.
Qed.

(** ** Levels and resting orders *)

Lemma level_of_is_Some idx k :
  is_Some (level_of idx k) ↔ ∃ ref r, idx !! ref = Some r ∧ order_slot r = k.
Proof.
  unfold level_of. pose proof (orders_at_bounds idx k). split.
  - intros [l Hl]. destruct (Z.eqb_spec (orders_at idx k) 0); [done|].
    destruct (map_sum_pos_witness (λ r, if rests_at k r then 1 else 0) idx)
      as (ref & r & Hr & Hpos); [unfold orders_at in *; lia|].
    exists ref, r. split; [done|]. cbv beta in Hpos. unfold rests_at in Hpos.
    case_bool_decide; [done|lia].
  - intros (ref & r & Hr & <-).
    assert (1 ≤ orders_at idx (order_slot r)).
    { pose proof (map_sum_lookup_le
        (λ r', if rests_at (order_slot r) r' then 1 else 0) idx ref r) as Hle.
      cbv beta in Hle. rewrite rests_at_true in Hle by done. apply Hle; [|done].
      intros ? r' ?. destruct (rests_at _ r'); lia. }
    rewrite (proj2 (Z.eqb_neq _ _)) by lia. by eexists.
Qed.

(** Two well-formed books with the same locate and levels differ by their
    timestamps at most. *)
Lemma book_ext bk bk' :
  book_ok bk → book_ok bk' → ob_stock_locate bk = ob_stock_locate bk' →
  (∀ b p, om_find (side_ltb b) p (side_map b bk) = om_find (side_ltb b) p (side_map b bk')) →
  bk' = set_timestamp (ob_last_update_timestamp bk') bk.
Proof.
  intros Hok Hok' Hl Hf.
  assert (∀ b, side_map b bk = side_map b bk') as Hside.
  { intros b. destruct (Hok b) as [[Hs _] _], (Hok' b) as [[Hs' _] _].
    by apply (om_ext (side_ltb b)). }
  destruct (Hok true) as [_ Hb], (Hok false) as [_ Ha].
  destruct (Hok' true) as [_ Hb'], (Hok' false) as [_ Ha'].
  pose proof (Hside true) as Hst. pose proof (Hside false) as Hsf.
  destruct bk, bk'. simpl in *. unfold set_timestamp. simpl. congruence.
Qed.

Lemma same_orders_levels st st' k :
  engine_inv st → engine_inv st' → order_index st = order_index st' →
  level_at st k = level_at st' k.
Proof. intros [Hl _ _] [Hl' _ _] E. by rewrite Hl, Hl', E. Qed.

Lemma same_orders_books st st' loc bk bk' :
  engine_inv st → engine_inv st' → order_index st = order_index st' →
  get_book st loc = Some bk → get_book st' loc = Some bk' →
  bk' = set_timestamp (ob_last_update_timestamp bk') bk.
Proof.
  intros Hi Hi' E Hb Hb'. unfold get_book in *.
  destruct (inv_books _ Hi _ _ Hb) as (Hok & Hl & _).
  destruct (inv_books _ Hi' _ _ Hb') as (Hok' & Hl' & _).
  apply book_ext; [done..|congruence|]. intros b p.
  pose proof (same_orders_levels st st' (loc, b, p) Hi Hi' E) as Hk.
  unfold level_at in Hk. by rewrite Hb, Hb' in Hk.
Qed.

(** A book without a level is empty, its cached pointers included. *)
Lemma empty_book st loc bk :
  engine_inv st → get_book st loc = Some bk → (∀ b p, level_at st (loc, b, p) = None) →
  ob_bids bk = [] ∧ ob_asks bk = [] ∧ ob_best_bid bk = None ∧ ob_best_ask bk = None.
Proof.
  intros Hi Hb Hnone. destruct (inv_books _ Hi _ _ Hb) as (Hok & _ & _).
  assert (∀ b, side_map b bk = [] ∧ best b bk = None) as Hside.
  { intros b. destruct (Hok b) as [_ ->].
    assert (om_begin (side_map b bk) = None) as E; [|split; [by apply om_begin_None|done]].
    apply (om_begin_None_find (side_ltb b)). intros p. specialize (Hnone b p).
    unfold level_at, get_book in *. by rewrite Hb in Hnone. }
  destruct (Hside true) as [? ?], (Hside false) as [? ?]. done.
Qed.

Lemma spec_reduce_compose ref n1 n2 idx :
  0 ≤ n1 → 0 ≤ n2 →
  spec_reduce ref n2 (spec_reduce ref n1 idx) = spec_reduce ref (n1 + n2) idx.
Proof.
  intros H1 H2. unfold spec_reduce at 2 3. destruct (idx !! ref) as [r|] eqn:E.
  2: { unfold spec_reduce. by rewrite E. }
  destruct (Z.leb_spec (rec_shares r) n1) as [Hle|Hgt]; unfold spec_reduce.
  - rewrite lookup_delete_eq. by rewrite (proj2 (Z.leb_le _ _)) by lia.
  - rewrite lookup_insert_eq. simpl.
    destruct (Z.leb_spec (rec_shares r - n1) n2), (Z.leb_spec (rec_shares r) (n1 + n2));
      try lia.
    + apply delete_insert_eq.
    + rewrite insert_insert_eq. unfold set_rec_shares. simpl. do 2 f_equal. lia.
Qed.

(** ** The frame of a message *)

(** [st'] is [st] after a write to the book [loc], stamped [ts], which counts
    a corrupt message when [c]. *)
Record book_write (loc ts : Z) (c : bool) (st st' : Engine) : Prop := {
  bw_books : ∃ bk, books st' = <[loc := bk]> (books st) ∧ ob_last_update_timestamp bk = ts;
  bw_instruments :
    instruments st' =
    match books st !! loc, instruments st !! loc with
    | None, None => <[loc := placeholder loc]> (instruments st)
    | _, _ => instruments st
    end;
  bw_skipped : skipped_unknown_ref st' = skipped_unknown_ref st;
  bw_corrupt : corrupt_messages st' =
    if c then u64 (corrupt_messages st + 1) else corrupt_messages st;
  bw_processed : messages_processed st' = messages_processed st;
  bw_interval : snapshot_interval st' = snapshot_interval st;
  bw_complete : pipeline_complete st' = pipeline_complete st
}.

(** The shape the handlers share: create the book, write records, write the
    book, stamp it, write records again. *)
Lemma book_write_intro loc ts (c : bool) st book st' bk f g :
  get_or_create_book loc st = (book, st') →
  book_write loc ts c st
    (set_order_index g
       (stamp_book loc ts
          (put_book loc bk ((if c then count_corrupt else id) (set_order_index f st'))))).
Proof.
  unfold get_or_create_book. intros E.
  rewrite stamp_put.
  destruct (books st !! loc) eqn:Eb; [|destruct (instruments st !! loc) eqn:Ei];
    injection E as <- <-; (split; [exists (set_timestamp ts bk); split; [|done]|..]);
    destruct c; simpl; rewrite ?Eb, ?Ei, ?insert_insert_eq; done.
Qed.

Lemma set_order_index_id st : set_order_index id st = st.
Proof. by destruct st. Qed.

Lemma add_order_write loc ref side n p ts mpid st :
  book_write loc ts false st (add_order_impl loc ref side n p ts mpid st).
Proof.
  unfold add_order_impl. destruct (get_or_create_book loc st) as [book st'] eqn:E.
  pose proof (book_write_intro loc ts false st book st'
    (refresh_top (insert_shares book side p n)) id <[ref := added_record loc side n p mpid]> E) as H.
  rewrite stamp_put in H. revert H. unfold put_order, stamp_book. simpl.
  rewrite lookup_insert_eq. unfold put_book, set_books, set_order_index. simpl.
  by rewrite insert_insert_eq.
Qed.

Lemma reduction_write ref n ts st rec :
  order_index st !! ref = Some rec →
  book_write (rec_stock_locate rec) ts (rec_shares rec <? n) st
    (handle_executed (reduction ref n ts) st).
Proof.
  intros E. unfold handle_executed. simpl. rewrite E.
  destruct (get_or_create_book (rec_stock_locate rec) st) as [book st'] eqn:Eb.
  assert (∃ after, clamped_sub (rec_shares rec) n = (after, rec_shares rec <? n))
    as [after Ec].
  { unfold clamped_sub. destruct (rec_shares rec <? n); eauto. }
  rewrite Ec.
  pose proof (book_write_intro _ ts (rec_shares rec <? n) _ _ _
    (remove_shares book (rec_side rec) (rec_price rec) (u32 (rec_shares rec - after)) (after =? 0))
    <[ref := set_rec_shares after rec]> (if after =? 0 then delete ref else id) Eb) as H.
  destruct (after =? 0); [by destruct (rec_shares rec <? n)|].
  rewrite set_order_index_id in H. by destruct (rec_shares rec <? n).
Qed.

Lemma delete_write m st rec :
  order_index st !! od_order_ref m = Some rec →
  book_write (rec_stock_locate rec) (od_timestamp m) false st (handle_delete m st).
Proof.
  intros E. unfold handle_delete. rewrite E.
  destruct (get_or_create_book (rec_stock_locate rec) st) as [book st'] eqn:Eb.
  pose proof (book_write_intro _ (od_timestamp m) false _ _ _
    (remove_shares book (rec_side rec) (rec_price rec) (rec_shares rec) true)
    id (delete (od_order_ref m)) Eb) as H.
  by rewrite (set_order_index_id st') in H.
Qed.

Lemma replace_write m st old :
  order_index st !! or_original_order_ref m = Some old →
  book_write (rec_stock_locate old) (or_timestamp m) false st (handle_replace m st).
Proof.
  intros E. rewrite (replace_is_delete_add _ _ _ E).
  destruct (delete_write (replace_delete m) st old E) as [(bk&Hb&_) Hi Hs Hc Hp Hv Hm].
  destruct (add_order_write (rec_stock_locate old) (or_new_order_ref m) (rec_side old)
    (or_shares m) (or_price m) (or_timestamp m) "" (handle_delete (replace_delete m) st))
    as [(bk'&Hb'&Ht) Hi' Hs' Hc' Hp' Hv' Hm'].
  split; unfold handle_add; simpl in *; try congruence.
  - exists bk'. by rewrite Hb', Hb, insert_insert_eq.
  - by rewrite Hi', Hb, lookup_insert_eq, Hi.
Qed.

Lemma handle_write msg st loc :
  touched msg (order_index st) = Some loc →
  book_write loc (timestamp_of msg) (oversized msg st) st (handle msg st).
Proof.
  unfold oversized, get_order. intros H.
  destruct msg as [m|m|m|m|m|m|m|m|m]; cbn [touched looked_up mbind option_bind] in *;
    cbn [handle timestamp_of reduction_of]; simplify_eq.
  - apply add_order_write.
  - apply add_order_write.
  - apply fmap_Some in H as (r & Hr & ->). rewrite handle_executed_reduction, Hr.
    by apply reduction_write.
  - apply fmap_Some in H as (r & Hr & ->). rewrite handle_executed_price_reduction, Hr.
    by apply reduction_write.
  - apply fmap_Some in H as (r & Hr & ->). rewrite handle_cancel_reduction, Hr.
    by apply reduction_write.
  - apply fmap_Some in H as (r & Hr & ->). rewrite Hr. by apply delete_write.
  - apply fmap_Some in H as (r & Hr & ->). rewrite Hr. by apply replace_write.
Qed.

(** A message that touches no book. *)
Lemma handle_untouched msg st :
  touched msg (order_index st) = None →
  oversized msg st = false ∧
  if unknown_ref msg st then handle msg st = count_skipped st
  else ∃ f, handle msg st = set_instruments f st.
Proof.
  unfold oversized, unknown_ref, get_order. intros H.
  destruct msg as [m|m|m|m|m|m|m|m|m]; cbn [touched looked_up mbind option_bind] in *;
    cbn [handle reduction_of]; simplify_eq; try apply fmap_None in H; try rewrite H;
    try rewrite bool_decide_eq_true_2 by done.
  - by eauto.
  - split; [done|]. unfold handle_trading_action.
    destruct (instruments st !! _); [eauto|]. exists id. by destruct st.
  - unfold handle_executed. by rewrite H.
  - unfold handle_executed_price. by rewrite H.
  - unfold handle_cancel. by rewrite H.
  - unfold handle_delete. by rewrite H.
  - unfold handle_replace. by rewrite H.
Qed.

(** What a message counts as an error. *)
Lemma handle_errors msg st :
  (unknown_ref msg st = true → handle msg st = count_skipped st) ∧
  skipped_unknown_ref (handle msg st) =
    (if unknown_ref msg st then u64 (skipped_unknown_ref st + 1) else skipped_unknown_ref st) ∧
  corrupt_messages (handle msg st) =
    (if oversized msg st then u64 (corrupt_messages st + 1) else corrupt_messages st).
Proof.
  destruct (touched msg (order_index st)) as [loc|] eqn:E.
  - destruct (handle_write _ _ _ E) as [_ _ -> -> _ _ _].
    assert (unknown_ref msg st = false) as ->; [|done].
    unfold unknown_ref, get_order.
    destruct msg as [m|m|m|m|m|m|m|m|m]; try done; simpl in E;
      apply fmap_Some in E as (r & Hr & _); simpl; by rewrite Hr.
  - destruct (handle_untouched msg st E) as [-> H]. destruct (unknown_ref msg st).
    + by rewrite H.
    + by destruct H as [f ->].
Qed.

(** What a message never changes. *)
Lemma handle_config msg st :
  messages_processed (handle msg st) = messages_processed st ∧
  snapshot_interval (handle msg st) = snapshot_interval st ∧
  pipeline_complete (handle msg st) = pipeline_complete st.
Proof.
  destruct (touched msg (order_index st)) as [loc|] eqn:E.
  - by destruct (handle_write _ _ _ E) as [_ _ _ _ -> -> ->].
  - destruct (handle_untouched msg st E) as [_ H]. destruct (unknown_ref msg st).
    + by rewrite H.
    + by destruct H as [f ->].
Qed.

Lemma run_config msgs st :
  messages_processed st ∈u64 →
  messages_processed (run msgs st) =
    u64 (messages_processed st + Z.of_nat (length msgs)) ∧
  snapshot_interval (run msgs st) = snapshot_interval st ∧
  pipeline_complete (run msgs st) = pipeline_complete st.
Proof.
  revert st. induction msgs as [|msg msgs IH]; intros st Hm.
  { simpl. by rewrite Z.add_0_r, u64_id. }
  rewrite run_cons. destruct (handle_config msg st) as (E1 & E2 & E3).
  destruct (IH (count_message (handle msg st))) as (-> & -> & ->); [apply u64_range|].
  simpl. rewrite E1, E2, E3. split; [|done]. unfold u64.
  rewrite Z.add_mod_idemp_l by done. f_equal. lia.
Qed.

Lemma run_app msgs1 msgs2 st : run (msgs1 ++ msgs2) st = run msgs2 (run msgs1 st).
Proof. apply fold_left_app. Qed.

Lemma feed_ok_app msgs1 msgs2 idx :
  feed_ok idx (msgs1 ++ msgs2) ↔ feed_ok idx msgs1 ∧ feed_ok (run_orders msgs1 idx) msgs2.
Proof.
  revert idx. induction msgs1 as [|msg msgs IH]; intros idx; [by split; [|intros [_ ?]]|].
  cbn [app feed_ok]. rewrite IH. tauto.
Qed.

