(* ===== verification/EngineTheorems.v ===== *)
(** The theorems of the book engine: the books of every feed are the aggregate
    of the resting orders, and each message does what it should and nothing
    else. *)

From S2P Require Import Prelude ByteOrder Messages Parser WireFormat.
From S2P Require Import StdMap OrderBook BookEngine EngineLevels EngineInvariant.
From S2P Require Import EngineProperties.
From Stdlib Require Import Strings.Ascii.
From Stdlib Require Strings.String.

(** ** A sample feed *)

Definition sample_add (loc ref : Z) (side : ascii) (n p : Z) : AddOrderMsg := {|
  ao_stock_locate := loc; ao_tracking_number := 0; ao_timestamp := ref;
  ao_order_ref := ref; ao_side := side; ao_shares := n; ao_stock := "ABC";
  ao_price := mkPrice p |}.

Definition sample_delete (ref : Z) : OrderDeleteMsg := {|
  od_stock_locate := 0; od_tracking_number := 0; od_timestamp := 99; od_order_ref := ref |}.

Definition sample_execution (ref n : Z) : OrderExecutedMsg := {|
  oe_stock_locate := 0; oe_tracking_number := 0; oe_timestamp := 50;
  oe_order_ref := ref; oe_executed_shares := n; oe_match_number := 3 |}.

Definition sample_replace (ref ref' n p : Z) : OrderReplaceMsg := {|
  or_stock_locate := 0; or_tracking_number := 0; or_timestamp := 60;
  or_original_order_ref := ref; or_new_order_ref := ref'; or_shares := n;
  or_price := mkPrice p |}.

(** Two bids and an ask of locate 7; one bid is partly executed, the other is
    moved up. *)
Definition sample_feed : list ParsedMessage := [
  AddOrder (sample_add 7 1 "B"%char 100 5000);
  AddOrder (sample_add 7 2 "B"%char 300 5000);
  AddOrder (sample_add 7 3 "S"%char 200 6000);
  OrderExecuted (sample_execution 1 40);
  OrderReplace (sample_replace 2 4 250 5100)].

Definition sample_state : Engine := run sample_feed Engine_init.

(** The invariant, from construction on. *)
Lemma init_run_inv msgs :
  feed_ok ∅ msgs → Z.of_nat (length msgs) < 2 ^ 32 - 1 → engine_inv (run msgs Engine_init).
Proof.
  intros Hf Hl. apply run_inv; [apply Engine_init_inv|done|].
  change (order_index Engine_init) with (∅ : gmap Z OrderRecord).
  by rewrite map_size_empty.
Qed.

Lemma sample_feed_ok : feed_ok ∅ sample_feed.
Proof. vm_compute. repeat split; try done; congruence. Qed.

Lemma sample_inv : engine_inv sample_state.
Proof. by apply init_run_inv; [apply sample_feed_ok|]. Qed.

(** ** Feeds *)

(** C3: The books of a feed are its resting orders.  From the state after
    construction, over any feed whose new orders come under fresh references
    and that is shorter than [2^32 - 1] messages, every book is well-formed (both sides in
    the order of their comparators, best first, the cached pointers at the
    first level), a level exists exactly when an order rests at its price, and
    its totals are the sum of the shares and the number of those orders. *)
Theorem run_invariant msgs :
  feed_ok ∅ msgs → Z.of_nat (length msgs) < 2 ^ 32 - 1 →
  engine_inv (run msgs Engine_init).
Proof.
  apply init_run_inv.
Qed.

Lemma run_invariant_witness :
  feed_ok ∅ sample_feed ∧ engine_inv (run sample_feed Engine_init).
Proof. split; [apply sample_feed_ok|]. apply run_invariant; [apply sample_feed_ok|done]. Defined.

(** C8: The engine implements the specification of the resting orders: on any
    feed at all, with duplicate and unknown references included, the order
    index is the fold of [spec_orders]. *)
Theorem run_refines_orders msgs st :
  order_index (run msgs st) = run_orders msgs (order_index st).
Proof. apply run_order_index. Qed.

(** C24: On any feed at all, whatever references it carries, every book stays
    well-formed, filed under its locate, with a known instrument. *)
Theorem run_well_formed msgs :
  Forall shares_in_range msgs →
  books_ok (run msgs Engine_init) ∧ orders_ok (order_index (run msgs Engine_init)).
Proof.
  intros Hn. apply run_wf; [done|]. pose proof Engine_init_inv as [_ Hb Ho]. by split.
Qed.

Lemma run_well_formed_witness :
  books_ok (run [AddOrder (sample_add 7 1 "B"%char 100 5000);
    AddOrder (sample_add 8 1 "S"%char 100 5000)] Engine_init) ∧
  orders_ok (order_index (run [AddOrder (sample_add 7 1 "B"%char 100 5000);
    AddOrder (sample_add 8 1 "S"%char 100 5000)] Engine_init)).
Proof. apply run_well_formed. repeat constructor; vm_compute; done. Defined.

(** [p] is at least as good a price as [q] on its side. *)
Definition at_least_as_good (bid : bool) (p q : Price) : Prop :=
  if bid then raw q ≤ raw p else raw p ≤ raw q.

Lemma side_ltb_good bid p q : p = q ∨ side_ltb bid p q = true → at_least_as_good bid p q.
Proof.
  intros [->|H]; destruct bid; simpl in *; unfold price_gtb, price_ltb in *; lia.
Qed.

(** In a state that keeps the invariant the cached pointer of a side is its top. *)
Lemma top_of_inv st loc bk bid :
  engine_inv st → get_book st loc = Some bk →
  match best bid bk with
  | Some p =>
      (∃ ref r, get_order st ref = Some r ∧ order_slot r = (loc, bid, p)) ∧
      ∀ ref r, get_order st ref = Some r → rec_stock_locate r = loc →
        is_bid (rec_side r) = bid → at_least_as_good bid p (rec_price r)
  | None =>
      ∀ ref r, get_order st ref = Some r → rec_stock_locate r = loc →
        is_bid (rec_side r) ≠ bid
  end.
Proof.
  intros Hinv Hbk. destruct (inv_books _ Hinv _ _ Hbk) as (Hok & _ & _).
  destruct (Hok bid) as [[Hs _] Hbest]. rewrite Hbest.
  assert (∀ p, om_find (side_ltb bid) p (side_map bid bk) =
    level_of (order_index st) (loc, bid, p)) as Hlv.
  { intros p. rewrite <- (inv_levels _ Hinv). unfold level_at, get_book in *. by rewrite Hbk. }
  assert (∀ ref r, get_order st ref = Some r → rec_stock_locate r = loc →
    is_bid (rec_side r) = bid →
    is_Some (om_find (side_ltb bid) (rec_price r) (side_map bid bk))) as Hin.
  { intros ref r Hr Hloc Hb. rewrite Hlv. apply level_of_is_Some. exists ref, r.
    split; [done|]. unfold order_slot. by rewrite Hloc, Hb. }
  destruct (om_begin (side_map bid bk)) as [p|] eqn:E.
  - destruct (om_begin_first _ _ _ Hs E) as [[l Hp] Hmin]. split.
    + apply level_of_is_Some. rewrite <- Hlv, Hp. by eexists.
    + intros ref r Hr Hloc Hb. destruct (Hin _ _ Hr Hloc Hb) as [l' Hl'].
      apply side_ltb_good. destruct (Hmin _ _ Hl') as [->|?]; auto.
  - intros ref r Hr Hloc Hb. destruct (Hin _ _ Hr Hloc Hb) as [l Hl].
    apply (om_begin_None_find (side_ltb bid)) with (k := rec_price r) in E. congruence.
Qed.

(** C7: The cached top pointers are the top of the book: after any feed with fresh
    references, the best bid of every book is the highest price at which one of
    the orders that rest in it bids, the best ask the lowest at which one asks, and
    a side without a top has no resting order. Which orders rest is the
    specification's ([run_orders]). *)
Theorem top_of_book msgs loc bk bid :
  feed_ok ∅ msgs → Z.of_nat (length msgs) < 2 ^ 32 - 1 →
  get_book (run msgs Engine_init) loc = Some bk →
  match best bid bk with
  | Some p =>
      (∃ ref r, run_orders msgs ∅ !! ref = Some r ∧ order_slot r = (loc, bid, p)) ∧
      ∀ ref r, run_orders msgs ∅ !! ref = Some r → rec_stock_locate r = loc →
        is_bid (rec_side r) = bid → at_least_as_good bid p (rec_price r)
  | None =>
      ∀ ref r, run_orders msgs ∅ !! ref = Some r → rec_stock_locate r = loc →
        is_bid (rec_side r) ≠ bid
  end.
Proof.
  intros Hf Hl Hbk. pose proof (top_of_inv _ loc bk bid (init_run_inv msgs Hf Hl) Hbk) as Htop.
  unfold get_order in Htop. by rewrite run_order_index in Htop.
Qed.

Lemma top_of_book_witness :
  ∃ bk, get_book (run sample_feed Engine_init) 7 = Some bk ∧ best true bk = Some (mkPrice 5100) ∧
  ∀ ref r, run_orders sample_feed ∅ !! ref = Some r → rec_stock_locate r = 7 →
    is_bid (rec_side r) = true → at_least_as_good true (mkPrice 5100) (rec_price r).
Proof.
  pose (bk := default (new_book 7) (get_book sample_state 7)).
  assert (get_book (run sample_feed Engine_init) 7 = Some bk) as H by (vm_compute; reflexivity).
  exists bk. split; [exact H|split; [vm_compute; reflexivity|]].
  exact (proj2 (top_of_book sample_feed 7 bk true sample_feed_ok eq_refl H)).
Defined.

(** C25: Replace is delete and add: a replace of a known order does exactly what
    a delete of the original and an add of the new order on the original's side
    and locate do, except that the new record keeps the original's MPID. *)
Theorem replace_decomposes m st old :
  get_order st (or_original_order_ref m) = Some old →
  handle_replace m st =
  put_order (or_new_order_ref m) (replaced_record m old)
    (handle_add (replace_add m old) (handle_delete (replace_delete m) st)).
Proof. apply replace_is_delete_add. Qed.

Lemma replace_decomposes_witness :
  ∃ old, get_order sample_state 1 = Some old ∧
    handle_replace (sample_replace 1 9 10 5200) sample_state =
    put_order 9 (replaced_record (sample_replace 1 9 10 5200) old)
      (handle_add (replace_add (sample_replace 1 9 10 5200) old)
         (handle_delete (replace_delete (sample_replace 1 9 10 5200)) sample_state)).
Proof.
  eexists. split; [vm_compute; reflexivity|].
  apply replace_decomposes. vm_compute. reflexivity.
Defined.

(** C37: The books depend on the resting orders alone: two feeds with fresh
    references that leave the same orders, however they come to them, leave the
    same level at every price of every instrument; a book that both have is the same
    but for its timestamp, and one that only one of them has is empty. *)
Theorem books_determined msgs msgs' :
  feed_ok ∅ msgs → feed_ok ∅ msgs' →
  Z.of_nat (length msgs) < 2 ^ 32 - 1 → Z.of_nat (length msgs') < 2 ^ 32 - 1 →
  run_orders msgs ∅ = run_orders msgs' ∅ →
  let st := run msgs Engine_init in let st' := run msgs' Engine_init in
  (∀ k, level_at st k = level_at st' k) ∧
  ∀ loc bk, get_book st loc = Some bk →
    match get_book st' loc with
    | Some bk' => bk' = set_timestamp (ob_last_update_timestamp bk') bk
    | None => ob_bids bk = [] ∧ ob_asks bk = [] ∧ ob_best_bid bk = None ∧ ob_best_ask bk = None
    end.
Proof.
  intros Hf Hf' Hl Hl' E st st'.
  pose proof (init_run_inv msgs Hf Hl) as Hi. pose proof (init_run_inv msgs' Hf' Hl') as Hi'.
  assert (order_index st = order_index st') as Eo by (unfold st, st'; by rewrite !run_order_index).
  split; [intros k; by apply same_orders_levels|]. intros loc bk Hbk.
  destruct (get_book st' loc) as [bk'|] eqn:Hbk'; [by apply (same_orders_books st st' loc)|].
  apply (empty_book st loc bk Hi Hbk). intros b p.
  rewrite (same_orders_levels st st' _ Hi Hi' Eo). unfold level_at. unfold get_book in Hbk'.
  by rewrite Hbk'.
Qed.

(** The orders of [sample_state], entered directly. *)
Definition direct_feed : list ParsedMessage := [
  AddOrder (sample_add 7 4 "B"%char 250 5100);
  AddOrder (sample_add 7 3 "S"%char 200 6000);
  AddOrder (sample_add 7 1 "B"%char 60 5000)].

Lemma books_determined_witness :
  level_at (run sample_feed Engine_init) (7, true, mkPrice 5000) =
  level_at (run direct_feed Engine_init) (7, true, mkPrice 5000).
Proof.
  apply (books_determined sample_feed direct_feed);
    [apply sample_feed_ok| |done|done|vm_compute; reflexivity].
  vm_compute. repeat split; try done; congruence.
Defined.

(** An add under a fresh reference followed by its delete changes nothing:
    the orders are the same, every level is the same, and a book that existed
    is the same but for its timestamp. *)
Theorem add_delete_restores m d st :
  engine_inv st → Z.of_nat (size (order_index st)) + 1 < 2 ^ 32 - 1 → ao_shares m ∈u32 →
  get_order st (ao_order_ref m) = None → od_order_ref d = ao_order_ref m →
  let st' := handle_delete d (handle_add m st) in
  order_index st' = order_index st ∧ (∀ k, level_at st' k = level_at st k) ∧
  ∀ loc bk bk', get_book st loc = Some bk → get_book st' loc = Some bk' →
    bk' = set_timestamp (ob_last_update_timestamp bk') bk.
Proof.
  intros Hinv Hroom Hn Hf Hd st'.
  assert (has_room (order_index st)) as Hroom' by (unfold has_room; lia).
  assert (order_index (handle_add m st) = spec_orders (AddOrder m) (order_index st)) as Ha
    by apply (handle_orders (AddOrder m)).
  assert (order_index st' = order_index st) as E.
  { unfold st'. rewrite delete_index, Ha, Hd. simpl. by rewrite delete_insert_id. }
  assert (engine_inv st') as Hinv'.
  { apply delete_preserves; [by apply (handle_inv (AddOrder m))|].
    unfold has_room. rewrite Ha. pose proof (spec_orders_size (AddOrder m) (order_index st)). lia. }
  split; [done|split].
  - intros k. by apply same_orders_levels.
  - intros loc bk bk' Hb Hb'. by apply (same_orders_books st st' loc).
Qed.

Lemma add_delete_restores_witness :
  level_at (handle_delete (sample_delete 5)
    (handle_add (sample_add 7 5 "S"%char 10 5900) sample_state)) (7, false, mkPrice 5900) =
  level_at sample_state (7, false, mkPrice 5900).
Proof.
  apply (add_delete_restores (sample_add 7 5 "S"%char 10 5900) (sample_delete 5) sample_state
    sample_inv); vm_compute; [done|by split|done|done].
Defined.

(** Partial executions add up: two reductions of an order leave the orders
    and the levels that one reduction by the sum leaves. *)
Theorem executions_compose ref n1 n2 ts1 ts2 st :
  engine_inv st → has_room (order_index st) → 0 ≤ n1 → 0 ≤ n2 →
  let st1 := handle_executed (reduction ref n2 ts2) (handle_executed (reduction ref n1 ts1) st) in
  let st2 := handle_executed (reduction ref (n1 + n2) ts2) st in
  order_index st1 = order_index st2 ∧ ∀ k, level_at st1 k = level_at st2 k.
Proof.
  intros Hinv Hroom H1 H2 st1 st2.
  assert (order_index st1 = order_index st2) as E.
  { unfold st1, st2. by rewrite !reduction_orders, spec_reduce_compose. }
  split; [done|]. intros k. apply same_orders_levels; [|by apply reduction_preserves; [..|lia]|done].
  apply reduction_preserves; [by apply reduction_preserves| |done].
  rewrite reduction_orders. unfold spec_reduce.
  destruct (order_index st !! ref) as [r|] eqn:Er; [|done].
  case_match; [by apply has_room_delete|]. unfold has_room.
  rewrite map_size_insert_Some; [done|by eexists].
Qed.

Lemma executions_compose_witness :
  level_at (handle_executed (reduction 3 150 51) (handle_executed (reduction 3 50 50) sample_state))
    (7, false, mkPrice 6000) = None.
Proof.
  destruct (executions_compose 3 50 150 50 51 sample_state sample_inv
    ltac:(vm_compute; done) ltac:(lia) ltac:(lia)) as [_ H].
  rewrite H. vm_compute. reflexivity.
Defined.

(** ** Messages *)

(** C31: A message changes one book at most: that of its order's locate (of its
    own locate for an add), which it stamps with its timestamp; every other
    book is the one it was. *)
Theorem handle_isolated msg st loc :
  (touched msg (order_index st) ≠ Some loc →
    get_book (handle msg st) loc = get_book st loc) ∧
  (touched msg (order_index st) = Some loc →
    ∃ bk, get_book (handle msg st) loc = Some bk ∧
      ob_last_update_timestamp bk = timestamp_of msg).
Proof.
  unfold get_book. split; intros H.
  - destruct (touched msg (order_index st)) as [loc'|] eqn:E.
    + destruct (bw_books _ _ _ _ _ (handle_write _ _ _ E)) as (bk & -> & _).
      apply lookup_insert_ne. congruence.
    + destruct (handle_untouched msg st E) as [_ H']. destruct (unknown_ref msg st).
      * by rewrite H'.
      * by destruct H' as [f ->].
  - destruct (bw_books _ _ _ _ _ (handle_write _ _ _ H)) as (bk & -> & Ht).
    exists bk. by rewrite lookup_insert_eq.
Qed.

Lemma handle_isolated_witness :
  get_book (handle (OrderExecuted (sample_execution 1 10)) sample_state) 0 = None.
Proof.
  destruct (handle_isolated (OrderExecuted (sample_execution 1 10)) sample_state 0) as [H _].
  rewrite H; [reflexivity|]. vm_compute. congruence.
Defined.

(** C32: The error counters count errors: a message about a reference that is
    not resting changes the skipped counter, by one, and nothing else; an
    execution or cancel of more shares than the order has adds one to the
    corrupt counter; no other message changes either. *)
Theorem handle_counters msg st :
  (unknown_ref msg st = true → handle msg st = count_skipped st) ∧
  skipped_unknown_ref (handle msg st) =
    (if unknown_ref msg st then u64 (skipped_unknown_ref st + 1) else skipped_unknown_ref st) ∧
  corrupt_messages (handle msg st) =
    (if oversized msg st then u64 (corrupt_messages st + 1) else corrupt_messages st) ∧
  messages_processed (handle msg st) = messages_processed st ∧
  snapshot_interval (handle msg st) = snapshot_interval st ∧
  pipeline_complete (handle msg st) = pipeline_complete st.
Proof.
  destruct (handle_errors msg st) as (H1 & H2 & H3).
  split; [exact H1|split; [exact H2|split; [exact H3|apply handle_config]]].
Qed.

Lemma handle_counters_witness :
  unknown_ref (OrderDelete (sample_delete 77)) sample_state = true ∧
  handle (OrderDelete (sample_delete 77)) sample_state = count_skipped sample_state.
Proof.
  split; [vm_compute; reflexivity|].
  apply (handle_counters (OrderDelete (sample_delete 77)) sample_state). vm_compute. reflexivity.
Defined.

(** The instrument table: a directory message sets the instrument of its
    locate, with trading state T; a trading action changes the trading state
    of a known instrument; a first order at an unknown locate creates the
    placeholder; nothing else changes the table. *)
Theorem handle_instruments msg st loc :
  books_ok st → get_instrument (handle msg st) loc = spec_instrument msg st loc.
Proof.
  intros Hok. unfold get_instrument.
  destruct (touched msg (order_index st)) as [loc'|] eqn:E.
  - rewrite (bw_instruments _ _ _ _ _ (handle_write _ _ _ E)).
    assert (spec_instrument msg st loc =
      match instruments st !! loc with
      | Some i => Some i
      | None => if decide (loc' = loc) then Some (placeholder loc) else None
      end) as ->.
    { destruct msg; try done; unfold spec_instrument; rewrite E; unfold get_instrument;
        (destruct (instruments st !! loc); [done|]); repeat case_decide; congruence. }
    destruct (books st !! loc') as [bk|] eqn:Eb.
    + destruct (Hok _ _ Eb) as (_ & _ & [i Hi]).
      destruct (instruments st !! loc) eqn:El; [done|]. case_decide; congruence.
    + destruct (instruments st !! loc') as [i|] eqn:Ei.
      * destruct (instruments st !! loc) eqn:El; [done|]. case_decide; congruence.
      * rewrite lookup_insert. case_decide; [subst; by rewrite Ei|].
        by destruct (instruments st !! loc).
  - destruct (handle_untouched msg st E) as [_ H].
    destruct msg as [m|m|m|m|m|m|m|m|m]; cbn [handle unknown_ref] in *;
      try (unfold unknown_ref in H; simpl in E, H; apply fmap_None in E;
           unfold get_order in H; rewrite E in H; simpl in H; rewrite H;
           unfold spec_instrument, get_instrument; simpl; rewrite E; simpl;
           by destruct (instruments st !! loc)).
    + unfold handle_directory, spec_instrument. simpl. rewrite lookup_insert.
      case_decide; [by subst|done].
    + unfold handle_trading_action, spec_instrument, get_instrument.
      destruct (instruments st !! ta_stock_locate m) as [i|] eqn:Ei; simpl.
      * rewrite lookup_insert. case_decide; [subst; by rewrite Ei|done].
      * case_decide; [subst; by rewrite Ei|done].
    + done.
    + done.
Qed.

Lemma handle_instruments_witness :
  get_instrument (handle (AddOrder (sample_add 9 5 "B"%char 1 1)) sample_state) 9 =
  Some (placeholder 9).
Proof.
  rewrite (handle_instruments (AddOrder (sample_add 9 5 "B"%char 1 1)) sample_state 9
    (inv_books _ sample_inv)).
  vm_compute. reflexivity.
Defined.

(** A duplicate reference corrupts the books: an add under the reference
    of a resting order at another level overwrites its record, and the level the
    order was at keeps its shares and its count although no record is left that
    rests there for them. *)
Theorem duplicate_ref_phantom m st old :
  engine_inv st → get_order st (ao_order_ref m) = Some old →
  order_slot old ≠ (ao_stock_locate m, is_bid (ao_side m), ao_price m) →
  has_room (order_index st) →
  level_at (handle_add m st) (order_slot old) = level_at st (order_slot old) ∧
  ¬ engine_inv (handle_add m st).
Proof.
  intros Hinv Hold Hslot Hroom.
  assert (level_at (handle_add m st) (order_slot old) = level_at st (order_slot old)) as E.
  { unfold handle_add. rewrite add_order_level. by rewrite decide_False. }
  split; [done|]. intros Hinv'. rewrite (inv_levels _ Hinv), (inv_levels _ Hinv') in E.
  unfold handle_add in E. rewrite add_order_index in E.
  unfold level_of in E. pose proof (inv_orders _ Hinv) as Ho.
  destruct (shares_at_lookup _ _ _ Ho Hold) as [_ Hone].
  rewrite (proj2 (Z.eqb_neq (orders_at (order_index st) _) 0)) in E by lia.
  case_match; [done|]. injection E as _ E. revert E. unfold orders_at.
  erewrite (map_sum_replace _ _ (ao_order_ref m) old) by exact Hold.
  rewrite rests_at_true by done. rewrite rests_at_false by done. lia.
Qed.

Lemma duplicate_ref_phantom_witness :
  ∃ old, get_order sample_state 1 = Some old ∧
    ¬ engine_inv (handle_add (sample_add 8 1 "B"%char 5 100) sample_state).
Proof.
  eexists. split; [vm_compute; reflexivity|].
  eapply (duplicate_ref_phantom (sample_add 8 1 "B"%char 5 100) sample_state _ sample_inv);
    vm_compute; [reflexivity|congruence|done].
Defined.

(** ** Attributions *)

(** Neither a space nor a NUL. *)
Definition mpid_char (c : ascii) : bool := negb (Ascii.eqb c " " || Ascii.eqb c zero)%char.

(** The attribution of an order survives the fixed array of its record:
    what [mpid_view] shows of an added order is the attribution that was
    added, for one of at most four characters that does not end in padding;
    an order without one shows none. *)
Theorem mpid_round_trip m st s c :
  am_attribution m = s +:+ String c "" → (Strings.String.length s ≤ 3)%nat →
  mpid_char c = true →
  ∃ r, get_order (handle_add_mpid m st) (am_order_ref m) = Some r ∧
    mpid_view r = am_attribution m.
Proof.
  intros Ha Hs Hc. unfold get_order, handle_add_mpid. rewrite add_order_index, lookup_insert_eq.
  eexists. split; [done|]. rewrite Ha, decide_False by (by destruct s).
  unfold mpid_view. cbn [rec_mpid]. unfold set_mpid_from.
  destruct s as [|c1 [|c2 [|c3 [|]]]]; cbn [Strings.String.length] in Hs; try lia; simpl;
    unfold mpid_char in Hc; by destruct (Ascii.eqb c " " || Ascii.eqb c zero)%char.
Qed.

Lemma mpid_round_trip_witness :
  ∃ r, get_order (handle_add_mpid {| am_stock_locate := 7; am_tracking_number := 0;
      am_timestamp := 1; am_order_ref := 12; am_side := "B"; am_shares := 5;
      am_stock := "ABC"; am_price := mkPrice 100; am_attribution := "GSCO" |} Engine_init) 12
    = Some r ∧ mpid_view r = "GSCO".
Proof.
  apply (mpid_round_trip {| am_stock_locate := 7; am_tracking_number := 0;
      am_timestamp := 1; am_order_ref := 12; am_side := "B"; am_shares := 5;
      am_stock := "ABC"; am_price := mkPrice 100; am_attribution := "GSCO" |} Engine_init
      "GSC" "O"%char); [reflexivity|simpl; lia|reflexivity].
Defined.
