(* ===== verification/UdpFeedReader.v ===== *)
(** The MoldUDP64 feed reader of [src/udp_feed_reader.cpp].

    The socket calls are the operating system's.  [recvfrom] hands over one
    datagram per call, cut to the size of the buffer, or fails: what it does
    over the life of a reader is a list of [recv_event]s, and a call with no
    event left blocks.  The calls of the constructors are the parameters
    [sys_socket], [sys_bind], [sys_inet_pton] and [sys_setsockopt]. *)

From S2P Require Import Prelude ByteOrder.
From Stdlib Require Import Strings.Byte.

Definition MOLD_HEADER_LEN : nat := 20.
Definition MOLD_RECV_BUF : nat := 2048.
Definition MOLD_HEARTBEAT : Z := 65535.   (* 0xFFFF *)

Inductive recv_event :=
| Datagram (bs : list byte)
| RecvError.

Record UDPFeedReader := {
  sock : Z;
  expected_seq : Z;
  gaps_detected : Z;
  dropped_behind : Z;
  messages_received : Z;
  pending : list MessageBuffer;
  pending_idx : nat
}.

(** ** Constructors *)

Section constructors.
Context (sys_socket : Z) (sys_bind : Z → Z → Z).
Context (sys_inet_pton : string → Z * Z) (sys_add_membership : Z → Z * Z → Z).

Definition make_udp_socket : outcome Z :=
  if sys_socket <? 0 then Throw "UDPFeedReader: socket() failed" else Ret sys_socket.

Definition bind_socket (s port : Z) : outcome () :=
  if sys_bind s port <? 0 then Throw "UDPFeedReader: bind() failed" else Ret ().

(** [inet_pton] returns its status and the address it stores. *)
Definition join_multicast (s : Z) (group iface_ip : string) : outcome () :=
  let '(ok1, multiaddr) := sys_inet_pton group in
  if negb (ok1 =? 1) then
    Throw ("UDPFeedReader: invalid multicast group: " +:+ group)
  else
    let '(ok2, interface) := sys_inet_pton iface_ip in
    if negb (ok2 =? 1) then
      Throw ("UDPFeedReader: invalid interface IP: " +:+ iface_ip)
    else if sys_add_membership s (multiaddr, interface) <? 0 then
      Throw "UDPFeedReader: IP_ADD_MEMBERSHIP failed"
    else Ret ().

(** The in-class initialisers. *)
Definition reader_on (s : Z) : UDPFeedReader := {|
  sock := s; expected_seq := 1; gaps_detected := 0; dropped_behind := 0;
  messages_received := 0; pending := []; pending_idx := 0 |}.

Definition UDPFeedReader_multicast (group iface_ip : string) (port : Z)
  : outcome UDPFeedReader :=
  s ← make_udp_socket;
  _ ← bind_socket s port;
  _ ← join_multicast s group iface_ip;
  Ret (reader_on s).

Definition UDPFeedReader_test (port : Z) : outcome UDPFeedReader :=
  s ← make_udp_socket;
  _ ← bind_socket s port;
  Ret (reader_on s).

End constructors.

(** ** Writes *)

Definition set_seq (e g d : Z) (st : UDPFeedReader) : UDPFeedReader := {|
  sock := sock st; expected_seq := e; gaps_detected := g; dropped_behind := d;
  messages_received := messages_received st;
  pending := pending st; pending_idx := pending_idx st |}.

Definition set_pending (p : list MessageBuffer) (i : nat) (st : UDPFeedReader)
  : UDPFeedReader := {|
  sock := sock st; expected_seq := expected_seq st; gaps_detected := gaps_detected st;
  dropped_behind := dropped_behind st; messages_received := messages_received st;
  pending := p; pending_idx := i |}.

Definition count_received (st : UDPFeedReader) : UDPFeedReader := {|
  sock := sock st; expected_seq := expected_seq st; gaps_detected := gaps_detected st;
  dropped_behind := dropped_behind st;
  messages_received := u64 (messages_received st + 1);
  pending := pending st; pending_idx := pending_idx st |}.

(** [MessageBuffer(raw + offset, raw + offset + len)]: a read of the bytes. *)
Definition copy_range (raw : list byte) (offset len : nat) : outcome MessageBuffer :=
  if decide (offset + len ≤ length raw)%nat then Ret (slice raw offset len) else Undef.

(** ** [refill] *)

(** The loop over the message blocks, [k] of them left; [raw] is the part of
    the buffer that [recvfrom] wrote, [n] its length. *)
Fixpoint block_loop (raw : list byte) (n offset k : nat) (pending : list MessageBuffer)
  : outcome (list MessageBuffer) :=
  match k with
  | O => Ret pending
  | S k =>
      if decide (n < offset + 2)%nat then Ret pending
      else
        msg_len ← read_be16 raw offset;
        let offset := (offset + 2)%nat in
        if decide (n < offset + Z.to_nat msg_len)%nat then Ret pending
        else
          buf ← copy_range raw offset (Z.to_nat msg_len);
          block_loop raw n (offset + Z.to_nat msg_len) k (pending ++ [buf])
  end.

Definition refill (ev : recv_event) (st : UDPFeedReader) : outcome (bool * UDPFeedReader) :=
  match ev with
  | RecvError => Ret (negb (sock st <? 0), st)
  | Datagram bs =>
      let raw := take MOLD_RECV_BUF bs in
      let n := length raw in
      if decide (n < MOLD_HEADER_LEN)%nat then Ret (true, st)
      else
        seq ← read_be64 raw 10;
        msg_count ← read_be16 raw 18;
        if msg_count =? MOLD_HEARTBEAT then Ret (true, st)
        else if msg_count =? 0 then Ret (true, st)
        else if seq <? expected_seq st then
          Ret (true, set_seq (expected_seq st) (gaps_detected st)
                 (u64 (dropped_behind st + 1)) st)
        else
          let gaps :=
            if expected_seq st <? seq
            then u64 (gaps_detected st + (seq - expected_seq st)) else gaps_detected st in
          let st := set_seq (u64 (seq + msg_count)) gaps (dropped_behind st) st in
          pending' ← block_loop raw n MOLD_HEADER_LEN (Z.to_nat msg_count) (pending st);
          Ret (true, set_pending pending' (pending_idx st) st)
  end.

(** ** [next_message] *)

(** A call returns a message, returns [nullopt], or blocks in [recvfrom] for
    ever once the events are used up. *)
Inductive received :=
| Received (buf : MessageBuffer) (st : UDPFeedReader) (evs : list recv_event)
| Closed (st : UDPFeedReader)
| Blocked (st : UDPFeedReader).

(** [pending_[pending_idx_++]], moved from, and [++messages_received_]. *)
Definition pop_pending (st : UDPFeedReader) : option (MessageBuffer * UDPFeedReader) :=
  buf ← pending st !! pending_idx st;
  Some (buf, count_received
    (set_pending (<[pending_idx st := []]> (pending st)) (S (pending_idx st)) st)).

Fixpoint next_message (st : UDPFeedReader) (evs : list recv_event) : outcome received :=
  match pop_pending st with
  | Some (buf, st) => Ret (Received buf st evs)
  | None =>
      let st := set_pending [] 0 st in
      match evs with
      | [] => Ret (Blocked st)
      | ev :: evs =>
          '(more, st) ← refill ev st;
          if (more : bool) then next_message st evs else Ret (Closed st)
      end
  end.

(** [next_message] until it returns no message: the messages and the state at
    the end; [None] when the fuel is used up. *)
Fixpoint drain (fuel : nat) (st : UDPFeedReader) (evs : list recv_event)
  : outcome (option (list MessageBuffer * UDPFeedReader)) :=
  match fuel with
  | O => Ret None
  | S fuel =>
      r ← next_message st evs;
      match r with
      | Received buf st evs =>
          o ← drain fuel st evs;
          Ret ('(bufs, st) ← o; Some (buf :: bufs, st))
      | Closed st | Blocked st => Ret (Some ([], st))
      end
  end.

(** ** Reference: packets and sequence numbers *)

(** The complete blocks at the front of a byte string, [k] at most. *)
Fixpoint blocks_ref (k : nat) (rest : list byte) : list MessageBuffer :=
  match k, rest with
  | S k, a :: b :: body =>
      let len := Z.to_nat (be_value [a; b]) in
      if decide (len ≤ length body)%nat
      then take len body :: blocks_ref k (drop len body) else []
  | _, _ => []
  end.

(** A data packet: its sequence number, its message count, its messages. *)
Definition packet_ref (bs : list byte) : option (Z * Z * list MessageBuffer) :=
  let raw := take MOLD_RECV_BUF bs in
  if decide (length raw < MOLD_HEADER_LEN)%nat then None
  else
    let count := be_value (slice raw 18 2) in
    if decide (count = 0 ∨ count = MOLD_HEARTBEAT) then None
    else Some (be_value (slice raw 10 8), count,
               blocks_ref (Z.to_nat count) (drop MOLD_HEADER_LEN raw)).

(** What the reader keeps of the sequence. *)
Record SeqState := { ss_expected : Z; ss_gaps : Z; ss_dropped : Z }.

(** A packet ahead of the sequence opens a gap, one behind it is dropped. *)
Definition accept (s : SeqState) (bs : list byte) : SeqState * list MessageBuffer :=
  match packet_ref bs with
  | None => (s, [])
  | Some (seq, count, msgs) =>
      if seq <? ss_expected s then
        ({| ss_expected := ss_expected s; ss_gaps := ss_gaps s;
            ss_dropped := u64 (ss_dropped s + 1) |}, [])
      else
        ({| ss_expected := u64 (seq + count);
            ss_gaps :=
              if ss_expected s <? seq
              then u64 (ss_gaps s + (seq - ss_expected s)) else ss_gaps s;
            ss_dropped := ss_dropped s |}, msgs)
  end.

Fixpoint accept_all (s : SeqState) (evs : list recv_event) : SeqState * list MessageBuffer :=
  match evs with
  | [] => (s, [])
  | RecvError :: evs => accept_all s evs
  | Datagram bs :: evs =>
      let '(s, msgs) := accept s bs in
      let '(s, rest) := accept_all s evs in (s, msgs ++ rest)
  end.

Definition seq_state (st : UDPFeedReader) : SeqState := {|
  ss_expected := expected_seq st; ss_gaps := gaps_detected st;
  ss_dropped := dropped_behind st |}.

(** ** Wire format *)

Definition block (m : MessageBuffer) : list byte := be_bytes 2 (Z.of_nat (length m)) ++ m.

(** [session] is ten bytes. *)
Definition mold_packet (session : list byte) (seq : Z) (msgs : list MessageBuffer)
  : list byte :=
  session ++ be_bytes 8 seq ++ be_bytes 2 (Z.of_nat (length msgs)) ++ concat (block <$> msgs).

(** ** The reader refines the reference *)

Lemma slice_2 raw o : (o + 2 ≤ length raw)%nat →
  ∃ a b, slice raw o 2 = [a; b] ∧ drop o raw = a :: b :: drop (o + 2) raw.
Proof.
  intros Ho. destruct (lookup_lt_is_Some_2 raw o) as [a Ha]; [lia|].
  destruct (lookup_lt_is_Some_2 raw (o + 1)) as [b Hb]; [lia|].
  exists a, b. rewrite (slice_cons _ _ _ _ Ha), (slice_cons _ _ _ _ Hb), slice_0.
  split; [done|]. rewrite (drop_S _ _ _ Ha). f_equal.
  rewrite <- Nat.add_1_r, (drop_S _ _ _ Hb). do 2 f_equal. lia.
Qed.

Lemma block_loop_refines raw offset k p :
  block_loop raw (length raw) offset k p = Ret (p ++ blocks_ref k (drop offset raw)).
Proof.
  revert offset p. induction k as [|k IH]; intros offset p; cbn [block_loop].
  { by rewrite app_nil_r. }
  destruct (decide (length raw < offset + 2)%nat) as [Hlt|Hge].
  - replace (blocks_ref (S k) (drop offset raw)) with (@nil MessageBuffer);
      [by rewrite app_nil_r|].
    assert (length (drop offset raw) < 2)%nat by (rewrite length_drop; lia).
    destruct (drop offset raw) as [|a [|b l]]; simpl in *; done || lia.
  - rewrite read_be16_slice by lia.
    destruct (slice_2 raw offset) as (a & b & Hs & Hd); [lia|].
    rewrite Hs, Hd. cbn [mbind outcome_bind blocks_ref].
    rewrite length_drop. generalize (Z.to_nat (be_value [a; b])) as len. intros len.
    destruct (decide (length raw < offset + 2 + len)%nat).
    + rewrite decide_False by lia. by rewrite app_nil_r.
    + rewrite decide_True by lia. unfold copy_range. rewrite decide_True by lia.
      cbn [mbind outcome_bind]. rewrite IH, drop_drop, <- app_assoc. done.
Qed.

(** One [refill]: the sequence state and the queue move as the reference says;
    nothing else changes. *)
Lemma refill_refines bs st :
  refill (Datagram bs) st =
  let '(s, msgs) := accept (seq_state st) bs in
  Ret (true, set_pending (pending st ++ msgs) (pending_idx st)
    (set_seq (ss_expected s) (ss_gaps s) (ss_dropped s) st)).
Proof.
  assert (∀ st : UDPFeedReader, set_pending (pending st ++ []) (pending_idx st)
    (set_seq (expected_seq st) (gaps_detected st) (dropped_behind st) st) = st) as Hid.
  { intros []. unfold set_pending, set_seq. simpl. by rewrite app_nil_r. }
  unfold refill, accept, packet_ref. cbv zeta.
  destruct (decide (length (take MOLD_RECV_BUF bs) < MOLD_HEADER_LEN)%nat) as [Hl|Hl].
  { simpl. by rewrite Hid. }
  unfold MOLD_HEADER_LEN in Hl.
  rewrite read_be64_slice, read_be16_slice by lia. cbn [mbind outcome_bind].
  destruct (Z.eqb_spec (be_value (slice (take MOLD_RECV_BUF bs) 18 2)) MOLD_HEARTBEAT).
  { rewrite decide_True by auto. simpl. by rewrite Hid. }
  destruct (Z.eqb_spec (be_value (slice (take MOLD_RECV_BUF bs) 18 2)) 0).
  { rewrite decide_True by auto. simpl. by rewrite Hid. }
  rewrite decide_False by tauto. cbn [seq_state ss_expected ss_gaps ss_dropped].
  destruct (_ <? expected_seq st).
  - unfold set_pending, set_seq. simpl. rewrite app_nil_r. by destruct st.
  - rewrite block_loop_refines. simpl. done.
Qed.

Lemma pop_pending_Some st buf st' :
  pop_pending st = Some (buf, st') →
  drop (pending_idx st) (pending st) = buf :: drop (pending_idx st') (pending st') ∧
  seq_state st' = seq_state st ∧ sock st' = sock st ∧
  messages_received st' = u64 (messages_received st + 1).
Proof.
  unfold pop_pending. intros H.
  apply bind_Some in H as (b & Hb & [= <- <-]). simpl. split_and!; try done.
  rewrite (drop_S _ _ _ Hb). f_equal.
  by rewrite drop_insert_lt by lia.
Qed.

Lemma pop_pending_None st :
  pop_pending st = None → drop (pending_idx st) (pending st) = [].
Proof.
  unfold pop_pending. intros H. apply drop_ge. apply lookup_ge_None.
  by destruct (pending st !! pending_idx st).
Qed.

(** What the reader will still deliver, and where that leaves the sequence. *)
Definition outlook (st : UDPFeedReader) (evs : list recv_event)
  : SeqState * list MessageBuffer :=
  let '(s, msgs) := accept_all (seq_state st) evs in
  (s, drop (pending_idx st) (pending st) ++ msgs).

Lemma outlook_fresh s evs : outlook (reader_on s) evs = accept_all (seq_state (reader_on s)) evs.
Proof. unfold outlook. by destruct (accept_all (seq_state (reader_on s)) evs). Qed.

(** The next message is the first of the outlook. *)
Lemma next_message_outlook st evs :
  0 ≤ sock st →
  (∃ buf st' evs', next_message st evs = Ret (Received buf st' evs') ∧
    outlook st evs = ((outlook st' evs').1, buf :: (outlook st' evs').2) ∧
    sock st' = sock st ∧ messages_received st' = u64 (messages_received st + 1)) ∨
  (∃ st', next_message st evs = Ret (Blocked st') ∧
    outlook st evs = (seq_state st', []) ∧
    sock st' = sock st ∧ messages_received st' = messages_received st).
Proof.
  revert st. induction evs as [|ev evs IH]; intros st Hs; cbn [next_message];
    destruct (pop_pending st) as [[buf st']|] eqn:E.
  1, 3: left; exists buf, st'; apply pop_pending_Some in E as (Hd & Hss & Hsock & Hr);
    eexists; split; [done|]; unfold outlook; rewrite Hss, Hd; split_and!; [|done..].
  1, 2: by destruct (accept_all (seq_state st) _).
  - right. eexists. split; [done|]. apply pop_pending_None in E.
    unfold outlook. simpl. by rewrite E.
  - apply pop_pending_None in E. destruct ev as [bs|].
    + rewrite refill_refines. destruct (accept (seq_state (set_pending [] 0 st)) bs)
        as [s msgs] eqn:Ea. cbn [mbind outcome_bind].
      destruct (IH (set_pending msgs 0 (set_seq (ss_expected s) (ss_gaps s) (ss_dropped s)
        (set_pending [] 0 st))) Hs) as [(buf&st'&evs'&Hn&Ho&Hsock&Hr)|(st'&Hn&Ho&Hsock&Hr)];
        [left; exists buf, st', evs'|right; exists st'];
        (split; [exact Hn|split; [rewrite <- Ho|done]]);
        unfold outlook; cbn [accept_all]; rewrite E;
        change (seq_state st) with (seq_state (set_pending [] 0 st)); rewrite Ea;
        destruct s; by destruct (accept_all _ evs).
    + cbn [refill mbind outcome_bind]. change (sock (set_pending [] 0 st)) with (sock st).
      rewrite (proj2 (Z.ltb_ge _ _)) by done. cbn [negb].
      destruct (IH (set_pending [] 0 st) Hs)
        as [(buf&st'&evs'&Hn&Ho&Hsock&Hr)|(st'&Hn&Ho&Hsock&Hr)];
        [left; exists buf, st', evs'|right; exists st'];
        (split; [exact Hn|split; [rewrite <- Ho|done]]);
        unfold outlook; cbn [accept_all]; rewrite E;
        change (seq_state st) with (seq_state (set_pending [] 0 st));
        by destruct (accept_all _ evs).
Qed.

Lemma drain_outlook fuel st evs :
  0 ≤ sock st → messages_received st ∈u64 → (length (outlook st evs).2 < fuel)%nat →
  ∃ st', drain fuel st evs = Ret (Some ((outlook st evs).2, st')) ∧
    seq_state st' = (outlook st evs).1 ∧
    messages_received st' =
      u64 (messages_received st + Z.of_nat (length (outlook st evs).2)).
Proof.
  revert st evs. induction fuel as [|fuel IH]; intros st evs Hs Hm Hl; [lia|].
  cbn [drain]. destruct (next_message_outlook st evs Hs)
    as [(buf&st'&evs'&Hn&Ho&Hsock&Hr)|(st'&Hn&Ho&Hsock&Hr)]; rewrite Hn, Ho in *.
  - cbn [mbind outcome_bind snd length] in *. destruct (IH st' evs') as (st''&Hd&Hss&Hr').
    + lia.
    + rewrite Hr. apply u64_range.
    + lia.
    + rewrite Hd. exists st''. split; [done|split; [done|]]. rewrite Hr', Hr.
      unfold u64. rewrite Z.add_mod_idemp_l by done. f_equal. lia.
  - exists st'. split; [done|split; [done|]]. cbn [snd length]. rewrite Z.add_0_r, u64_id by done.
    done.
Qed.

(** ** The wire format *)

Lemma be_value_slice_app n v p q :
  0 ≤ v < 256 ^ Z.of_nat n → be_value (slice (p ++ be_bytes n v ++ q) (length p) n) = v.
Proof.
  intros Hv. rewrite slice_skip.
  rewrite take_app_length' by (symmetry; apply length_be_bytes).
  rewrite be_value_bytes. by apply Z.mod_small.
Qed.

Definition small_message (m : MessageBuffer) : Prop := Z.of_nat (length m) < 2 ^ 16.

Lemma length_block m : length (block m) = (2 + length m)%nat.
Proof. unfold block. by rewrite length_app, length_be_bytes. Qed.

(** The two bytes of a length prefix. *)
Lemma block_prefix m :
  small_message m → ∃ a b, block m = a :: b :: m ∧ Z.to_nat (be_value [a; b]) = length m.
Proof.
  intros Hm. unfold block. cbn [be_bytes app]. eexists _, _. split; [done|].
  change [byte_of (Z.of_nat (length m) / 256 ^ Z.of_nat 1); byte_of (Z.of_nat (length m) / 256 ^ Z.of_nat 0)]
    with (be_bytes 2 (Z.of_nat (length m))).
  rewrite be_value_bytes. unfold small_message in Hm.
  rewrite Z.mod_small by (change (256 ^ Z.of_nat 2) with (2 ^ 16); lia). lia.
Qed.

(** Blocks cut after [j] bytes: the blocks that are complete. *)
Lemma blocks_ref_prefix msgs j :
  Forall small_message msgs →
  ∃ got lost, msgs = got ++ lost ∧
    blocks_ref (length msgs) (take j (concat (block <$> msgs))) = got ∧
    (lost = [] ↔ (length (concat (block <$> msgs)) ≤ j)%nat).
Proof.
  intros Hs. revert j. induction Hs as [|m msgs Hm Hs IH]; intros j.
  { exists [], []. split; [done|split; [done|]]. simpl. split; [lia|done]. }
  destruct (block_prefix m Hm) as (a & b & Hb & Hv).
  cbn [fmap list_fmap concat length]. pose proof (length_block m) as Hlb.
  rewrite length_app, Hlb. rewrite Hb.
  destruct (decide (2 + length m ≤ j)%nat) as [Hj|Hj].
  - destruct (IH (j - (2 + length m))%nat) as (got & lost & -> & Hg & Hl).
    exists (m :: got), lost. split; [done|]. split; [|rewrite Hl; lia].
    destruct j as [|[|j]]; [lia..|]. cbn [take app blocks_ref].
    rewrite Hv, length_take, length_app, decide_True by lia.
    rewrite take_take, Nat.min_l by lia. rewrite take_app_length. f_equal.
    rewrite skipn_firstn_comm, drop_app_length.
    by replace (j - length m)%nat with (S (S j) - (2 + length m))%nat by lia.
  - exists [], (m :: msgs). split; [done|split; [|split; [done|lia]]].
    destruct j as [|[|j]]; [done..|]. cbn [take app blocks_ref].
    rewrite Hv, length_take. rewrite decide_False by lia. done.
Qed.

(** A packet of the protocol: what is sent of the messages [msgs], the first of
    them number [seq] of the session. *)
Definition packet_ok (session : list byte) (seq : Z) (msgs : list MessageBuffer) : Prop :=
  length session = 10%nat ∧ seq ∈u64 ∧ Forall small_message msgs ∧
  0 < Z.of_nat (length msgs) < MOLD_HEARTBEAT.

(** Such a packet as the reader sees it: its messages if it fits the buffer,
    else those in front of the cut. *)
Lemma packet_ref_mold session seq msgs :
  packet_ok session seq msgs →
  ∃ got lost, msgs = got ++ lost ∧
    packet_ref (mold_packet session seq msgs) = Some (seq, Z.of_nat (length msgs), got) ∧
    (lost = [] ↔ (length (mold_packet session seq msgs) ≤ MOLD_RECV_BUF)%nat).
Proof.
  intros (Hs & Hseq & Hm & Hn). unfold MOLD_HEARTBEAT in Hn.
  set (blocks := concat (block <$> msgs)).
  assert (take MOLD_RECV_BUF (mold_packet session seq msgs) =
    session ++ be_bytes 8 seq ++ be_bytes 2 (Z.of_nat (length msgs)) ++ take 2028 blocks) as Hraw.
  { unfold mold_packet. rewrite take_app, Hs, take_ge by (rewrite Hs; unfold MOLD_RECV_BUF; lia).
    rewrite take_app, length_be_bytes, take_ge
      by (rewrite length_be_bytes; unfold MOLD_RECV_BUF; lia).
    rewrite take_app, length_be_bytes, take_ge
      by (rewrite length_be_bytes; unfold MOLD_RECV_BUF; lia).
    done. }
  destruct (blocks_ref_prefix msgs 2028 Hm) as (got & lost & -> & Hg & Hl).
  exists got, lost. split; [done|]. split.
  - unfold packet_ref. rewrite Hraw.
    rewrite decide_False
      by (rewrite !length_app, !length_be_bytes, Hs; unfold MOLD_HEADER_LEN; lia).
    assert (be_value (slice (session ++ be_bytes 8 seq ++
      be_bytes 2 (Z.of_nat (length (got ++ lost))) ++ take 2028 blocks) 18 2) =
      Z.of_nat (length (got ++ lost))) as ->.
    { rewrite (app_assoc session). replace 18%nat with (length (session ++ be_bytes 8 seq))
        by (rewrite length_app, length_be_bytes, Hs; done).
      apply be_value_slice_app. lia. }
    rewrite decide_False by (unfold MOLD_HEARTBEAT; lia).
    assert (∀ q, be_value (slice (session ++ be_bytes 8 seq ++ q) 10 8) = seq) as Hv
      by (intros q; rewrite <- Hs; by apply be_value_slice_app).
    rewrite Hv.
    rewrite Nat2Z.id.
    assert (∀ k q, drop MOLD_HEADER_LEN (session ++ be_bytes 8 seq ++ be_bytes 2 k ++ q) = q)
      as Hd.
    { intros k q. unfold MOLD_HEADER_LEN. rewrite !drop_app, Hs, !length_be_bytes.
      rewrite !drop_ge by (rewrite ?length_be_bytes, ?Hs; lia). done. }
    rewrite Hd. unfold blocks. by rewrite Hg.
  - rewrite Hl. unfold mold_packet. rewrite !length_app, !length_be_bytes, Hs.
    fold blocks. unfold MOLD_RECV_BUF. lia.
Qed.

(** ** A session *)

Section session.
(** The messages of a session, in the order of their sequence numbers from 1. *)
Context (M : list MessageBuffer).

(** A datagram of the session: not a data packet, or one that carries [count]
    of its messages from index [start] on and fits the receive buffer. *)
Definition session_datagram (bs : list byte) : Prop :=
  packet_ref bs = None ∨
  ∃ session start count,
    bs = mold_packet session (Z.of_nat start + 1) (take count (drop start M)) ∧
    packet_ok session (Z.of_nat start + 1) (take count (drop start M)) ∧
    (start + count ≤ length M)%nat ∧ (length bs ≤ MOLD_RECV_BUF)%nat.

Definition session_event (ev : recv_event) : Prop :=
  match ev with RecvError => True | Datagram bs => session_datagram bs end.

(** From [e] messages on, the reader delivers [msgs] and ends at [e']. *)
Record progress (s s' : SeqState) (msgs : list MessageBuffer) (e e' : nat) : Prop := {
  pr_expected : ss_expected s' = Z.of_nat e' + 1;
  pr_order : (e ≤ e' ≤ length M)%nat;
  pr_sublist : msgs `sublist_of` take (e' - e) (drop e M);
  pr_count : Z.of_nat (length msgs) + (ss_gaps s' - ss_gaps s) = Z.of_nat (e' - e);
  pr_gaps : ss_gaps s ≤ ss_gaps s' ≤ Z.of_nat e';
  pr_lossless : ss_gaps s' = ss_gaps s → msgs = take (e' - e) (drop e M)
}.

Lemma progress_refl s e :
  ss_expected s = Z.of_nat e + 1 → (e ≤ length M)%nat → ss_gaps s ≤ Z.of_nat e →
  progress s s [] e e.
Proof. intros. split; rewrite ?Nat.sub_diag; simpl; try done; lia. Qed.

Lemma progress_trans s1 s2 s3 l1 l2 e1 e2 e3 :
  progress s1 s2 l1 e1 e2 → progress s2 s3 l2 e2 e3 → progress s1 s3 (l1 ++ l2) e1 e3.
Proof.
  intros [Ha1 Ho1 Hs1 Hc1 Hg1 Hl1] [Ha2 Ho2 Hs2 Hc2 Hg2 Hl2].
  assert (take (e3 - e1) (drop e1 M) =
    take (e2 - e1) (drop e1 M) ++ take (e3 - e2) (drop e2 M)) as Htake.
  { replace (e3 - e1)%nat with ((e2 - e1) + (e3 - e2))%nat by lia.
    rewrite <- take_take_drop, drop_drop. do 3 f_equal. lia. }
  split; [done|lia| | |lia|].
  - rewrite Htake. by apply sublist_app.
  - rewrite length_app. lia.
  - intros E. rewrite Htake, Hl1, Hl2 by lia. done.
Qed.

Lemma accept_progress s bs e :
  Z.of_nat (length M) + 1 < 2 ^ 64 →
  ss_expected s = Z.of_nat e + 1 → (e ≤ length M)%nat → 0 ≤ ss_gaps s ≤ Z.of_nat e →
  session_datagram bs →
  ∃ e', progress s (accept s bs).1 (accept s bs).2 e e'.
Proof.
  intros Hlen He Hle Hg [Hn|(session & start & count & -> & Hok & Hsc & Hfit)]; unfold accept.
  { rewrite Hn. exists e. cbn [fst snd]. apply progress_refl; [done|done|lia]. }
  destruct (packet_ref_mold _ _ _ Hok) as (got & lost & Hgl & -> & Hlost).
  apply Hlost in Hfit. subst lost. rewrite app_nil_r in Hgl. subst got.
  assert (length (take count (drop start M)) = count) as Hc
    by (rewrite length_take, length_drop; lia).
  rewrite Hc, He. destruct (Z.ltb_spec (Z.of_nat start + 1) (Z.of_nat e + 1)) as [Hlt|Hge].
  { exists e. cbn [fst snd]. destruct (progress_refl s e He Hle) as [? ? ? ? ? ?]; [lia|by split]. }
  exists (start + count)%nat.
  assert ((if Z.of_nat e + 1 <? Z.of_nat start + 1
    then u64 (ss_gaps s + (Z.of_nat start + 1 - (Z.of_nat e + 1))) else ss_gaps s) =
    ss_gaps s + Z.of_nat (start - e)) as Hgaps.
  { destruct (Z.ltb_spec (Z.of_nat e + 1) (Z.of_nat start + 1)); [rewrite u64_id|]; ulia. }
  rewrite Hgaps. cbn [fst snd].
  assert (take (start + count - e) (drop e M) =
    take (start - e) (drop e M) ++ take count (drop start M)) as Htake.
  { replace (start + count - e)%nat with ((start - e) + count)%nat by lia.
    rewrite <- take_take_drop, drop_drop. do 3 f_equal. lia. }
  split; cbn [ss_expected ss_gaps]; [rewrite u64_id by ulia; lia|lia| | |lia|].
  - rewrite Htake. by apply sublist_inserts_l.
  - rewrite Hc. lia.
  - intros E. rewrite Htake. by replace (start - e)%nat with 0%nat by lia.
Qed.

Lemma accept_all_progress evs s e :
  Z.of_nat (length M) + 1 < 2 ^ 64 →
  Forall session_event evs →
  ss_expected s = Z.of_nat e + 1 → (e ≤ length M)%nat → 0 ≤ ss_gaps s ≤ Z.of_nat e →
  ∃ e', progress s (accept_all s evs).1 (accept_all s evs).2 e e'.
Proof.
  intros Hlen Hev. revert s e. induction Hev as [|ev evs Hev _ IH]; intros s e He Hle Hg.
  { exists e. cbn [accept_all fst snd]. apply progress_refl; [done|done|lia]. }
  destruct ev as [bs|]; cbn [accept_all]; [|by apply IH].
  destruct (accept_progress s bs e Hlen He Hle Hg Hev) as [e1 H1].
  destruct (accept s bs) as [s1 m1]. cbn [fst snd] in H1.
  destruct (IH s1 e1) as [e2 H2]; [apply H1|apply H1| |].
  { pose proof (pr_gaps _ _ _ _ _ H1). lia. }
  destruct (accept_all s1 evs) as [s2 m2]. exists e2. by eapply progress_trans.
Qed.

End session.

(** ** Properties *)

(** C12: Exactly-once delivery, in order.  Over any arrival of a session's
    packets that fit the 2048-byte receive buffer (lost, duplicated, reordered, mixed
    with heartbeats and receive errors) a fresh reader delivers messages of the session in order and none
    twice; what it delivered and what it counts as gaps add up to the sequence
    it has seen; with no gap counted it has delivered every message so far; and
    it then waits for the next packet. *)
Theorem reader_delivery M evs s fuel :
  0 ≤ s → Z.of_nat (length M) + 1 < 2 ^ 64 → Forall (session_event M) evs →
  (length M < fuel)%nat →
  ∃ msgs st n, drain fuel (reader_on s) evs = Ret (Some (msgs, st)) ∧
    msgs `sublist_of` take n M ∧ expected_seq st = Z.of_nat n + 1 ∧ (n ≤ length M)%nat ∧
    messages_received st = Z.of_nat (length msgs) ∧
    messages_received st + gaps_detected st = Z.of_nat n ∧
    (gaps_detected st = 0 → msgs = take n M).
Proof.
  intros Hs Hlen Hev Hfuel.
  destruct (accept_all_progress M evs (seq_state (reader_on s)) 0) as [n Hp];
    [done|done|done|lia|done|].
  pose proof (outlook_fresh s evs) as Ho.
  pose proof (pr_count _ _ _ _ _ _ Hp) as Hc. pose proof (pr_gaps _ _ _ _ _ _ Hp) as Hg.
  pose proof (pr_order _ _ _ _ _ _ Hp) as Hn. simpl in Hc, Hg.
  destruct (drain_outlook fuel (reader_on s) evs) as (st & Hd & Hss & Hr);
    [done|done|rewrite Ho; lia|].
  rewrite Ho in *. exists (accept_all (seq_state (reader_on s)) evs).2, st, n.
  rewrite <- Hss in *. simpl in *. rewrite Nat.sub_0_r in *.
  assert (messages_received st = Z.of_nat (length (accept_all (seq_state (reader_on s)) evs).2))
    as Hr' by (rewrite Hr; simpl; apply u64_id; lia).
  destruct Hp as [He _ Hsub _ _ Hl]. simpl in *. rewrite Nat.sub_0_r in *.
  split_and!; [done|done|done|lia|done|lia|exact Hl].
Qed.

(** A session of three messages: the second packet comes before the first,
    which is then dropped as it is behind, a receive error and a runt come in
    between. *)
Definition sample_session : list MessageBuffer := [[x41; x01]; [x44]; [x58; x02; x03]].

Definition sample_events : list recv_event := [
  RecvError;
  Datagram (mold_packet (replicate 10 x53) 1 (take 1 sample_session));
  Datagram [x00];
  Datagram (mold_packet (replicate 10 x53) 3 (take 1 (drop 2 sample_session)));
  Datagram (mold_packet (replicate 10 x53) 2 (take 1 (drop 1 sample_session)))].

Lemma sample_session_events : Forall (session_event sample_session) sample_events.
Proof.
  assert (∀ k, (k < 3)%nat → session_event sample_session
    (Datagram (mold_packet (replicate 10 x53) (Z.of_nat k + 1)
       (take 1 (drop k sample_session))))) as H.
  { intros k Hk. right. exists (replicate 10 x53), k, 1%nat. split; [done|].
    destruct k as [|[|[|k]]]; [| | |lia];
      (split; [repeat split; try done; repeat constructor|vm_compute; lia]). }
  unfold sample_events. rewrite !Forall_cons. split_and!; [done| | | | |constructor].
  - apply (H 0%nat). lia.
  - by left.
  - apply (H 2%nat). lia.
  - apply (H 1%nat). lia.
Qed.

Lemma reader_delivery_witness :
  ∃ msgs st n, drain 4 (reader_on 5) sample_events = Ret (Some (msgs, st)) ∧
    msgs `sublist_of` take n sample_session ∧ expected_seq st = Z.of_nat n + 1.
Proof.
  destruct (reader_delivery sample_session sample_events 5 4) as (msgs & st & n & H1 & H2 & H3 & _);
    [lia|done|apply sample_session_events|simpl; lia|].
  exists msgs, st, n. by repeat split.
Defined.

(** The reader is total: on any datagrams at all, malformed ones included,
    [next_message] reads nothing outside what it received, throws nothing, and
    a reader on an open socket never reports a shutdown: it returns a message
    or waits for the next packet. *)
Theorem udp_next_message_total st evs :
  0 ≤ sock st →
  ∃ r, next_message st evs = Ret r ∧
    match r with
    | Received _ st' _ | Blocked st' => sock st' = sock st
    | Closed _ => False
    end.
Proof.
  intros Hs. destruct (next_message_outlook st evs Hs)
    as [(buf&st'&evs'&Hn&_&Hk&_)|(st'&Hn&_&Hk&_)]; eauto.
Qed.

Lemma udp_next_message_total_witness :
  ∃ r, next_message (reader_on 3) [Datagram (replicate 25 xff); RecvError] = Ret r ∧
    match r with
    | Received _ st' _ | Blocked st' => sock st' = sock (reader_on 3)
    | Closed _ => False
    end.
Proof. apply udp_next_message_total. simpl. lia. Defined.

(** A packet that does not fit the receive buffer loses messages without a
    trace: the reader delivers those in front of the cut only, but expects the
    sequence number after the whole packet and counts no gap. *)
Theorem oversized_packet_loss session msgs st :
  packet_ok session (expected_seq st) msgs →
  (MOLD_RECV_BUF < length (mold_packet session (expected_seq st) msgs))%nat →
  ∃ got lost st', msgs = got ++ lost ∧ lost ≠ [] ∧
    refill (Datagram (mold_packet session (expected_seq st) msgs)) st = Ret (true, st') ∧
    pending st' = pending st ++ got ∧
    expected_seq st' = u64 (expected_seq st + Z.of_nat (length msgs)) ∧
    gaps_detected st' = gaps_detected st.
Proof.
  intros Hok Hbig. destruct (packet_ref_mold _ _ _ Hok) as (got & lost & Hgl & Hp & Hl).
  assert (accept (seq_state st) (mold_packet session (expected_seq st) msgs) =
    ({| ss_expected := u64 (expected_seq st + Z.of_nat (length msgs));
        ss_gaps := gaps_detected st; ss_dropped := dropped_behind st |}, got)) as Ha.
  { unfold accept. rewrite Hp. simpl. by rewrite Z.ltb_irrefl. }
  exists got, lost. rewrite refill_refines, Ha. eexists. split; [done|split].
  { intros E. apply Hl in E. lia. }
  by split_and!.
Qed.

(** Three messages of 1000 bytes in one packet. *)
Definition big_messages : list MessageBuffer := replicate 3 (replicate 1000 x41).

Lemma oversized_packet_loss_witness :
  ∃ got lost st', big_messages = got ++ lost ∧ lost ≠ [] ∧
    refill (Datagram (mold_packet (replicate 10 x53) 1 big_messages)) (reader_on 3)
      = Ret (true, st') ∧
    pending st' = got ∧ expected_seq st' = 4 ∧ gaps_detected st' = 0.
Proof.
  destruct (oversized_packet_loss (replicate 10 x53) big_messages (reader_on 3))
    as (got & lost & st' & H1 & H2 & H3 & H4 & H5 & H6).
  - split; [done|split; [done|split; [|done]]].
    apply Forall_replicate. unfold small_message. rewrite length_replicate. lia.
  - apply Nat.ltb_lt. vm_compute. reflexivity.
  - exists got, lost, st'. split; [exact H1|split; [exact H2|]]. split; [exact H3|].
    split; [exact H4|]. split; [exact H5|exact H6].
Defined.

(** A constructor that returns gives a reader on an open socket at the
    start of the sequence; every failing socket call is an exception. *)
Theorem reader_constructed sys_socket sys_bind sys_pton sys_join group iface port :
  match UDPFeedReader_multicast sys_socket sys_bind sys_pton sys_join group iface port with
  | Ret st => st = reader_on sys_socket ∧ 0 ≤ sys_socket ∧ 0 ≤ sys_bind sys_socket port ∧
      (sys_pton group).1 = 1 ∧ (sys_pton iface).1 = 1 ∧
      0 ≤ sys_join sys_socket ((sys_pton group).2, (sys_pton iface).2)
  | Throw _ => sys_socket < 0 ∨ sys_bind sys_socket port < 0 ∨
      (sys_pton group).1 ≠ 1 ∨ (sys_pton iface).1 ≠ 1 ∨
      sys_join sys_socket ((sys_pton group).2, (sys_pton iface).2) < 0
  | Undef => False
  end.
Proof.
  unfold UDPFeedReader_multicast, make_udp_socket, bind_socket, join_multicast.
  destruct (Z.ltb_spec sys_socket 0); [by left|]. cbn [mbind outcome_bind].
  destruct (Z.ltb_spec (sys_bind sys_socket port) 0); [by right; left|].
  cbn [mbind outcome_bind]. destruct (sys_pton group) as [ok1 a1].
  destruct (sys_pton iface) as [ok2 a2]. simpl.
  destruct (Z.eqb_spec ok1 1); simpl; [|tauto].
  destruct (Z.eqb_spec ok2 1); simpl; [|tauto].
  destruct (Z.ltb_spec (sys_join sys_socket (a1, a2)) 0); simpl; [tauto|].
  by split_and!.
Qed.
