(* ===== verification/PriceLadder.v ===== *)
(** The three price ladders of [include/itch/price_ladder.h].

    They offer one interface, [Ladder]; the map-backed ladder is the reference
    that the sorted vector and, within its price band, the dense array refine.
    An access outside a container is [Undef]. *)

From S2P Require Import Prelude Messages StdMap OrderBook.
From Equations Require Import Equations.

#[local] Obligation Tactic := idtac.

Inductive Side := Bid | Ask.

(** [detail::CompareBest<S>::map_compare]: [std::greater] or [std::less]. *)
Definition map_compare (S : Side) : Price → Price → bool :=
  match S with Bid => price_gtb | Ask => price_ltb end.

#[export] Instance map_compare_order S : StrictTotal (map_compare S).
Proof. destruct S; apply _. Qed.

(** The common interface; [ladder_for_each] is what [for_each] visits, in
    order. *)
Class Ladder (L : Type) := {
  ladder_add : Price → Z → L → outcome L;
  ladder_remove : Price → Z → bool → L → outcome L;
  ladder_best : L → outcome (option PriceLevel);
  ladder_size : L → Z;
  ladder_for_each : L → outcome (list PriceLevel)
}.

Inductive ladder_op :=
| AddShares (p : Price) (shares : Z)
| RemoveShares (p : Price) (shares : Z) (full_removal : bool).

Definition ladder_step {L} `{Ladder L} (op : ladder_op) (l : L) : outcome L :=
  match op with
  | AddShares p n => ladder_add p n l
  | RemoveShares p n full => ladder_remove p n full l
  end.

Fixpoint ladder_run {L} `{Ladder L} (ops : list ladder_op) (l : L) : outcome L :=
  match ops with
  | [] => Ret l
  | op :: ops => l ← ladder_step op l; ladder_run ops l
  end.

(** What a client sees of a ladder. *)
Definition observe {L} `{Ladder L} (l : L)
  : outcome (option PriceLevel * Z * list PriceLevel) :=
  b ← ladder_best l; ls ← ladder_for_each l; Ret (b, ladder_size l, ls).

(** The arithmetic on a level: [total_shares += shares; ++order_count], and
    [total_shares -= shares; if (full_removal) --order_count]. *)
Definition level_add (n : Z) (l : PriceLevel) : PriceLevel :=
  mkLevel (lvl_price l) (u64 (lvl_total_shares l + n)) (u32 (lvl_order_count l + 1)).

Definition level_sub (n : Z) (full : bool) (l : PriceLevel) : PriceLevel :=
  mkLevel (lvl_price l) (u64 (lvl_total_shares l - n))
    (if full then u32 (lvl_order_count l - 1) else lvl_order_count l).

Definition set_lvl_price (p : Price) (l : PriceLevel) : PriceLevel :=
  mkLevel p (lvl_total_shares l) (lvl_order_count l).

(** ** [MapLadder] *)

Record MapLadder (S : Side) := { ml_levels : list (Price * PriceLevel) }.
Arguments ml_levels {S} m.

Section map_ladder.
Context {S : Side}.

Definition MapLadder_init : MapLadder S := {| ml_levels := [] |}.

Definition map_add_shares (p : Price) (shares : Z) (m : MapLadder S) : outcome (MapLadder S) :=
  let lvl := default PriceLevel_init (om_find (map_compare S) p (ml_levels m)) in
  Ret {| ml_levels :=
    om_set (map_compare S) p (level_add shares (set_lvl_price p lvl)) (ml_levels m) |}.

Definition map_remove_shares (p : Price) (shares : Z) (full_removal : bool)
    (m : MapLadder S) : outcome (MapLadder S) :=
  match om_find (map_compare S) p (ml_levels m) with
  | None => Ret m
  | Some lvl =>
      let lvl := level_sub shares full_removal lvl in
      Ret {| ml_levels :=
        if lvl_order_count lvl =? 0 then om_erase (map_compare S) p (ml_levels m)
        else om_set (map_compare S) p lvl (ml_levels m) |}
  end.

Definition map_best (m : MapLadder S) : outcome (option PriceLevel) :=
  Ret (snd <$> head (ml_levels m)).

Definition map_size (m : MapLadder S) : Z := Z.of_nat (length (ml_levels m)).

Definition map_for_each (m : MapLadder S) : outcome (list PriceLevel) :=
  Ret (snd <$> ml_levels m).

#[export] Instance MapLadder_ladder : Ladder (MapLadder S) := {|
  ladder_add := map_add_shares; ladder_remove := map_remove_shares;
  ladder_best := map_best; ladder_size := map_size; ladder_for_each := map_for_each |}.

End map_ladder.

(** ** [FlatLadder] *)

(** [std::lower_bound]: [first] and [len] of the range that is left. *)
Equations? lower_bound_loop {A} (comp : A → bool) (l : list A) (first len : nat)
  : outcome nat by wf len lt :=
  lower_bound_loop comp l first 0 := Ret first;
  lower_bound_loop comp l first (S n) with l !! (first + Nat.div (S n) 2)%nat => {
  | None => Undef;
  | Some x =>
      if comp x
      then lower_bound_loop comp l (first + Nat.div (S n) 2 + 1) (S n - Nat.div (S n) 2 - 1)
      else lower_bound_loop comp l first (Nat.div (S n) 2) }.
Proof.
  - pose proof (Nat.Div0.div_le_upper_bound (S n) 2 (S n)). lia.
  - apply Nat.div_lt; lia.
Qed.

Definition lower_bound {A} (comp : A → bool) (l : list A) : outcome nat :=
  lower_bound_loop comp l 0 (length l).

Record FlatLadder (S : Side) := { fl_levels : list PriceLevel }.
Arguments fl_levels {S} f.

Section flat_ladder.
Context {S : Side}.

Definition FlatLadder_init : FlatLadder S := {| fl_levels := [] |}.

Definition better (a b : Price) : bool :=
  match S with Bid => raw b <? raw a | Ask => raw a <? raw b end.

Definition flat_position (p : Price) (f : FlatLadder S) : outcome nat :=
  lower_bound (λ lvl, better (lvl_price lvl) p) (fl_levels f).

Definition flat_add_shares (p : Price) (shares : Z) (f : FlatLadder S)
  : outcome (FlatLadder S) :=
  it ← flat_position p f;
  let levels := fl_levels f in
  let nl := mkLevel p shares 1 in
  Ret {| fl_levels :=
    match levels !! it with
    | Some lvl =>
        if decide (lvl_price lvl = p) then <[it := level_add shares lvl]> levels
        else take it levels ++ nl :: drop it levels
    | None => take it levels ++ nl :: drop it levels
    end |}.

Definition flat_remove_shares (p : Price) (shares : Z) (full_removal : bool)
    (f : FlatLadder S) : outcome (FlatLadder S) :=
  it ← flat_position p f;
  let levels := fl_levels f in
  match levels !! it with
  | None => Ret f
  | Some lvl =>
      if decide (lvl_price lvl ≠ p) then Ret f
      else
        let lvl := level_sub shares full_removal lvl in
        Ret {| fl_levels :=
          if lvl_order_count lvl =? 0 then delete it levels else <[it := lvl]> levels |}
  end.

Definition flat_best (f : FlatLadder S) : outcome (option PriceLevel) :=
  Ret (head (fl_levels f)).

Definition flat_size (f : FlatLadder S) : Z := Z.of_nat (length (fl_levels f)).

Definition flat_for_each (f : FlatLadder S) : outcome (list PriceLevel) := Ret (fl_levels f).

#[export] Instance FlatLadder_ladder : Ladder (FlatLadder S) := {|
  ladder_add := flat_add_shares; ladder_remove := flat_remove_shares;
  ladder_best := flat_best; ladder_size := flat_size; ladder_for_each := flat_for_each |}.

End flat_ladder.
