(* ===== verification/LadderRefinement.v ===== *)
(** The sorted vector refines the map. *)

From S2P Require Import Prelude Messages StdMap OrderBook PriceLadder.
From Equations Require Import Equations.

(** ** Binary search *)

(** The number of leading elements that satisfy [comp]. *)
Fixpoint partition_point {A} (comp : A → bool) (l : list A) : nat :=
  match l with
  | [] => 0
  | x :: l => if comp x then S (partition_point comp l) else 0
  end.

(** [comp] holds of a prefix of [l] and of nothing after it. *)
Definition partitioned {A} (comp : A → bool) (l : list A) : Prop :=
  ∀ i j x y, (i < j)%nat → l !! i = Some x → l !! j = Some y → comp y = true → comp x = true.

Lemma partition_point_le {A} (comp : A → bool) l : (partition_point comp l ≤ length l)%nat.
Proof. induction l as [|x l IH]; simpl; [lia|]. destruct (comp x); lia. Qed.

Lemma partition_point_true {A} (comp : A → bool) l i x :
  (i < partition_point comp l)%nat → l !! i = Some x → comp x = true.
Proof.
  revert i. induction l as [|y l IH]; intros i; simpl; [lia|].
  destruct (comp y) eqn:E; [|lia]. destruct i as [|i]; simpl; [congruence|].
  intros. eapply IH; [|done]. lia.
Qed.

Lemma partition_point_false {A} (comp : A → bool) l i x :
  partitioned comp l → (partition_point comp l ≤ i)%nat → l !! i = Some x → comp x = false.
Proof.
  intros Hp Hi Hx. destruct (comp x) eqn:Ex; [|done]. exfalso.
  assert (∃ y, l !! partition_point comp l = Some y ∧ comp y = false) as (y & Hy & Ey).
  { assert (partition_point comp l < length l)%nat as Hl.
    { apply lookup_lt_Some in Hx. lia. }
    clear Hp Hi Hx. revert Hl. induction l as [|z l IH]; simpl; [lia|]. intros Hl.
    destruct (comp z) eqn:Ez; [|by exists z]. apply IH. lia. }
  destruct (decide (partition_point comp l = i)) as [<-|]; [congruence|].
  assert (comp y = true) by (eapply (Hp _ i); [|done..]; lia). congruence.
Qed.

Lemma lower_bound_loop_spec {A} (comp : A → bool) l first len :
  partitioned comp l → (first + len ≤ length l)%nat →
  (first ≤ partition_point comp l ≤ first + len)%nat →
  lower_bound_loop comp l first len = Ret (partition_point comp l).
Proof.
  intros Hp. funelim (lower_bound_loop comp l first len); intros Hlen Hk.
  - f_equal. lia.
  - pose proof (Nat.div_lt (S n) 2 ltac:(lia) ltac:(lia)) as Hhalf.
    destruct (comp x) eqn:Ex.
    + apply H; [done|lia|]. split; [|lia].
      destruct (decide (first + S n / 2 < partition_point comp l)%nat); [lia|].
      rewrite (partition_point_false comp l (first + S n / 2) x) in Ex; [done|done|lia|done].
    + apply H0; [done|lia|]. split; [lia|].
      destruct (decide (first + S n / 2 < partition_point comp l)%nat) as [Hlt|]; [|lia].
      rewrite (partition_point_true comp l (first + S n / 2) x) in Ex; done.
  - exfalso. pose proof (Nat.div_lt (S n) 2 ltac:(lia) ltac:(lia)).
    apply lookup_ge_None in Heq. lia.
Qed.

Lemma lower_bound_spec {A} (comp : A → bool) l :
  partitioned comp l → lower_bound comp l = Ret (partition_point comp l).
Proof.
  intros Hp. apply lower_bound_loop_spec; [done|lia|].
  pose proof (partition_point_le comp l). lia.
Qed.

(** ** Positions in an ordered map *)

Section positions.
Context {K V : Type} (ltb : K → K → bool) `{!StrictTotal ltb}.
Implicit Types (m : list (K * V)) (k : K) (v : V).

Definition om_position k m : nat := partition_point (λ kv, ltb kv.1 k) m.

Lemma om_find_position k m :
  om_find ltb k m =
  match m !! om_position k m with
  | Some (k', v) => if ltb k k' then None else Some v
  | None => None
  end.
Proof.
  unfold om_position. induction m as [|[k' v'] m IH]; [done|]. simpl.
  destruct (ltb k' k) eqn:E; [done|]. done.
Qed.

Lemma om_set_position k v m :
  om_set ltb k v m =
  match om_find ltb k m with
  | Some _ => <[om_position k m := (k, v)]> m
  | None => take (om_position k m) m ++ (k, v) :: drop (om_position k m) m
  end.
Proof.
  unfold om_position. induction m as [|[k' v'] m IH]; [done|]. simpl.
  destruct (ltb k' k) eqn:E.
  - rewrite IH. by destruct (om_find ltb k m).
  - by destruct (ltb k k').
Qed.

Lemma om_erase_position k m :
  om_erase ltb k m =
  match om_find ltb k m with Some _ => delete (om_position k m) m | None => m end.
Proof.
  unfold om_position. induction m as [|[k' v'] m IH]; [done|]. simpl.
  destruct (ltb k' k) eqn:E.
  - rewrite IH. by destruct (om_find ltb k m).
  - by destruct (ltb k k').
Qed.

Lemma om_find_position_eq k m v :
  om_find ltb k m = Some v → m !! om_position k m = Some (k, v).
Proof.
  rewrite om_find_position. destruct (m !! om_position k m) as [[k' v']|] eqn:E; [|done].
  destruct (ltb k k') eqn:E1; [done|]. intros [= ->].
  assert (ltb k' k = false) as E2.
  { clear E1. unfold om_position in E. revert E.
    induction m as [|[k0 v0] m IH]; [done|]. simpl.
    destruct (ltb k0 k) eqn:E0; [done|]. simpl. congruence. }
  by rewrite (ltb_total _ _ E1 E2).
Qed.

Lemma om_sorted_partitioned k m : om_sorted ltb m → partitioned (λ kv, ltb kv.1 k) m.
Proof.
  intros Hs i j x y Hij Hi Hj Hy.
  assert (ltb x.1 y.1 = true) as Hxy.
  { revert i j Hij Hi Hj. induction Hs as [|a m Hs IH Hf]; intros i j Hij Hi Hj; [done|].
    destruct j as [|j]; [lia|]. destruct i as [|i]; simpl in *.
    - injection Hi as <-. rewrite Forall_forall in Hf. apply Hf.
      by eapply list_elem_of_lookup_2.
    - eapply IH; [|done..]. lia. }
  by eapply ltb_trans.
Qed.

Lemma om_set_length k v m :
  length (om_set ltb k v m) =
  match om_find ltb k m with Some _ => length m | None => S (length m) end.
Proof.
  induction m as [|[k' v'] m IH]; [done|]. simpl.
  destruct (ltb k' k); simpl; [rewrite IH; by destruct (om_find ltb k m)|].
  by destruct (ltb k k').
Qed.

Lemma om_erase_length k m :
  length (om_erase ltb k m) =
  match om_find ltb k m with Some _ => Nat.pred (length m) | None => length m end.
Proof.
  induction m as [|[k' v'] m IH]; [done|]. simpl.
  destruct (ltb k' k); simpl.
  - rewrite IH. destruct (om_find ltb k m) eqn:E; [|done]. by destruct m.
  - by destruct (ltb k k').
Qed.

Lemma om_begin_set k v m :
  om_begin (om_set ltb k v m) =
  match om_begin m with
  | Some k0 => Some (if ltb k0 k then k0 else k)
  | None => Some k
  end.
Proof.
  destruct m as [|[k0 v0] m]; [done|]. simpl.
  destruct (ltb k0 k) eqn:E; [done|]. by destruct (ltb k k0).
Qed.

Lemma om_begin_erase k m :
  om_begin m ≠ Some k → om_begin (om_erase ltb k m) = om_begin m.
Proof.
  destruct m as [|[k0 v0] m]; [done|]. simpl. intros Hne.
  destruct (ltb k0 k) eqn:E; [done|]. destruct (ltb k k0) eqn:E'; [done|].
  destruct Hne. unfold om_begin. simpl. by rewrite (ltb_total _ _ E E').
Qed.

Lemma om_keys_NoDup m : om_sorted ltb m → NoDup m.*1.
Proof.
  unfold om_sorted. induction 1 as [|[k v] m Hs IH Hf]; [constructor|].
  cbn. constructor; [|done]. intros ([k' v'] & -> & Hin)%list_elem_of_fmap.
  rewrite Forall_forall in Hf. apply Hf in Hin. simpl in Hin. by rewrite ltb_irrefl in Hin.
Qed.

End positions.

(** ** [FlatLadder] refines [MapLadder] *)

Section flat.
Context {S : Side}.
Implicit Types (m : MapLadder S) (f : FlatLadder S).

(** The map is in order, its levels under their own prices; the vector holds
    the levels of the map. *)
Record flat_map (m : MapLadder S) (f : FlatLadder S) : Prop := {
  fm_sorted : om_sorted (map_compare S) (ml_levels m);
  fm_prices : Forall (λ kv, lvl_price kv.2 = kv.1) (ml_levels m);
  fm_levels : fl_levels f = (ml_levels m).*2
}.

Lemma better_compare a b : @better S a b = map_compare S a b.
Proof. by destruct S. Qed.

Lemma partition_point_fmap {A B} (g : A → B) (comp : B → bool) (l : list A) :
  partition_point comp (g <$> l) = partition_point (comp ∘ g) l.
Proof. induction l as [|x l IH]; [done|]. cbn. unfold compose in *. by rewrite <- IH. Qed.

Lemma partition_point_ext {A} (comp comp' : A → bool) (l : list A) :
  Forall (λ x, comp x = comp' x) l → partition_point comp l = partition_point comp' l.
Proof. induction 1 as [|x l Hx _ IH]; [done|]. simpl. by rewrite Hx, IH. Qed.

Lemma flat_position_spec p m f :
  flat_map m f → flat_position p f = Ret (om_position (map_compare S) p (ml_levels m)).
Proof.
  intros [Hs Hp Hf]. unfold flat_position. rewrite Hf.
  assert (Forall (λ kv, @better S (lvl_price kv.2) p = map_compare S kv.1 p) (ml_levels m)) as Hc.
  { eapply Forall_impl; [exact Hp|]. intros [k v] Hk. simpl in *. by rewrite Hk, better_compare. }
  rewrite lower_bound_spec.
  - f_equal. rewrite partition_point_fmap. by apply partition_point_ext.
  - intros i j x y Hij Hi Hj Hy. rewrite !list_lookup_fmap in *.
    destruct (ml_levels m !! i) as [a|] eqn:Ea; [|done].
    destruct (ml_levels m !! j) as [b|] eqn:Eb; [|done]. simpl in *. injection Hi as <-. injection Hj as <-.
    rewrite Forall_forall in Hc.
    rewrite Hc in * by (by eapply list_elem_of_lookup_2).
    by apply (om_sorted_partitioned (map_compare S) p (ml_levels m) Hs i j a b).
Qed.

(** What the vector finds at the position of a price. *)
Lemma flat_lookup p m f :
  flat_map m f →
  om_find (map_compare S) p (ml_levels m) =
  match fl_levels f !! om_position (map_compare S) p (ml_levels m) with
  | Some lvl => if decide (lvl_price lvl = p) then Some lvl else None
  | None => None
  end.
Proof.
  intros [Hs Hp Hf]. rewrite Hf, list_lookup_fmap, om_find_position.
  destruct (ml_levels m !! _) as [[k v]|] eqn:E; [|done]. simpl.
  rewrite Forall_forall in Hp. specialize (Hp _ (list_elem_of_lookup_2 _ _ _ E)).
  simpl in Hp. case_decide as Hd.
  - rewrite <- Hd, Hp. by rewrite (ltb_irrefl (ltb := map_compare S)).
  - destruct (map_compare S p k) eqn:Ec; [done|exfalso]. apply Hd. rewrite Hp.
    pose proof (om_find_position (map_compare S) p (ml_levels m)) as Hfind.
    rewrite E, Ec in Hfind. apply (om_find_position_eq _) in Hfind. congruence.
Qed.

Lemma set_prices p (l : PriceLevel) (ms : list (Price * PriceLevel)) :
  lvl_price l = p → Forall (λ kv, lvl_price kv.2 = kv.1) ms →
  Forall (λ kv, lvl_price kv.2 = kv.1) (om_set (map_compare S) p l ms).
Proof.
  intros Hl Hp. rewrite Forall_forall in *. intros [k v] Hin.
  apply (om_set_elem (map_compare S)) in Hin as [[-> ->]|Hin]; [done|].
  by apply (Hp (k, v)).
Qed.

Lemma flat_add_refines p n m f :
  n ∈u32 → flat_map m f →
  ∃ m' f', map_add_shares p n m = Ret m' ∧ flat_add_shares p n f = Ret f' ∧ flat_map m' f'.
Proof.
  intros Hn Hm. pose proof (flat_lookup p m f Hm) as Hfind.
  unfold map_add_shares, flat_add_shares. rewrite (flat_position_spec p m f Hm).
  cbn [mbind outcome_bind]. eexists _, _. split; [done|split; [done|]].
  destruct Hm as [Hs Hp Hf].
  set (pos := om_position (map_compare S) p (ml_levels m)) in *.
  assert (fl_levels f !! pos = None ∨ ∃ l, fl_levels f !! pos = Some l) as Hcase
    by (destruct (fl_levels f !! pos); eauto).
  split; cbn [ml_levels fl_levels].
  - apply om_set_sorted; [apply _|done].
  - by apply set_prices.
  - rewrite om_set_position. fold pos. rewrite Hfind.
    destruct (fl_levels f !! pos) as [l|] eqn:E.
    + case_decide as Hd; cbn [default from_option].
      * rewrite list_fmap_insert, Hf. f_equal. destruct l. by simpl in *; subst.
      * rewrite fmap_app, fmap_cons, fmap_take, fmap_drop, Hf. do 2 f_equal.
        unfold level_add. simpl. by rewrite u64_id, u32_id by ulia.
    + rewrite fmap_app, fmap_cons, fmap_take, fmap_drop, Hf. do 2 f_equal.
      unfold level_add. simpl. by rewrite u64_id, u32_id by ulia.
Qed.

Lemma flat_remove_refines p n full m f :
  flat_map m f →
  ∃ m' f', map_remove_shares p n full m = Ret m' ∧ flat_remove_shares p n full f = Ret f' ∧
    flat_map m' f'.
Proof.
  intros Hm. pose proof (flat_lookup p m f Hm) as Hfind.
  unfold map_remove_shares, flat_remove_shares. rewrite (flat_position_spec p m f Hm).
  cbn [mbind outcome_bind]. pose proof Hm as [Hs Hp Hf]. rewrite Hfind.
  destruct (fl_levels f !! _) as [l|] eqn:E; [|by exists m, f].
  destruct (decide (lvl_price l = p)) as [Hd|Hd]; [|rewrite decide_True by done; by exists m, f].
  rewrite decide_False by tauto.
  eexists _, _. split; [done|split; [done|]].
  destruct (_ =? 0); split; cbn [ml_levels fl_levels].
  - apply om_erase_sorted; [apply _|done].
  - rewrite Forall_forall in *. intros [k v] Hin.
    apply (om_erase_elem (map_compare S)) in Hin. by apply (Hp (k, v)).
  - rewrite om_erase_position, Hfind, list_fmap_delete, Hf. done.
  - apply om_set_sorted; [apply _|done].
  - by apply set_prices.
  - rewrite om_set_position, Hfind, list_fmap_insert, Hf. done.
Qed.

Lemma flat_observe m f : flat_map m f → observe f = observe m.
Proof.
  intros [_ _ Hf]. unfold observe. simpl. unfold flat_size, map_size.
  rewrite Hf, length_fmap. by destruct (ml_levels m) as [|[??]?].
Qed.

Definition op_in_range (op : ladder_op) : Prop :=
  match op with AddShares _ n => n ∈u32 | RemoveShares _ _ _ => True end.

Lemma flat_step_refines op m f :
  op_in_range op → flat_map m f →
  ∃ m' f', ladder_step op m = Ret m' ∧ ladder_step op f = Ret f' ∧ flat_map m' f'.
Proof. destruct op; intros Hn Hm; [by apply flat_add_refines|by apply flat_remove_refines]. Qed.

Lemma flat_run_refines ops m f :
  Forall op_in_range ops → flat_map m f →
  ∃ m' f', ladder_run ops m = Ret m' ∧ ladder_run ops f = Ret f' ∧ flat_map m' f'.
Proof.
  intros Hn. revert m f. induction Hn as [|op ops Hop Hn IH]; intros m f Hm; [by exists m, f|].
  destruct (flat_step_refines op m f Hop Hm) as (m1 & f1 & E1 & E2 & Hm1).
  simpl. rewrite E1, E2. by apply IH.
Qed.

End flat.
