(* ===== verification/ArrayLadder.v ===== *)
(** The dense-array ladder of [include/itch/price_ladder.h], and its refinement
    of the map-backed ladder within its price band.

    [SLOTS] and [TICK] are the template parameters.  An array index is a [nat];
    the sentinel [SLOTS] stands for an empty ladder.  A loop over indices is a
    traversal of the list of the indices it visits. *)

From S2P Require Import Prelude Messages StdMap OrderBook PriceLadder LadderRefinement.

Record ArrayLadder (S : Side) (SLOTS : nat) (TICK : Z) := mkArrayLadder {
  base_raw : Z;
  best_idx : nat;
  nonempty_count : Z;
  al_levels : list PriceLevel
}.
Arguments mkArrayLadder {S SLOTS TICK} base_raw best_idx nonempty_count al_levels.
Arguments base_raw {S SLOTS TICK} a.
Arguments best_idx {S SLOTS TICK} a.
Arguments nonempty_count {S SLOTS TICK} a.
Arguments al_levels {S SLOTS TICK} a.

Section array_ladder.
Context {S : Side} {SLOTS : nat} {TICK : Z}.
Local Notation ladder := (ArrayLadder S SLOTS TICK).
Implicit Types (a : ladder).

Definition ArrayLadder_init (base : Z) : ladder :=
  mkArrayLadder base SLOTS 0 (replicate SLOTS PriceLevel_init).

Definition set_base (base : Z) a : ladder :=
  mkArrayLadder base (best_idx a) (nonempty_count a) (al_levels a).

Definition set_best (i : nat) a : ladder :=
  mkArrayLadder (base_raw a) i (nonempty_count a) (al_levels a).

Definition set_nonempty (n : Z) a : ladder :=
  mkArrayLadder (base_raw a) (best_idx a) n (al_levels a).

Definition set_level (i : nat) (l : PriceLevel) a : ladder :=
  mkArrayLadder (base_raw a) (best_idx a) (nonempty_count a) (<[i := l]> (al_levels a)).

Definition idx_of (p : Price) a : nat :=
  if raw p <? base_raw a then SLOTS else Z.to_nat ((raw p - base_raw a) / TICK).

Definition update_best_after_add (i : nat) a : ladder :=
  if nonempty_count a =? 1 then set_best i a
  else
    match S with
    | Bid => if (best_idx a <? i)%nat then set_best i a else a
    | Ask => if (i <? best_idx a)%nat then set_best i a else a
    end.

(** The indices the loop of [advance_best_from] visits after [i], and those the
    loop of [for_each] visits from [i] on. *)
Definition indices_after (i : nat) : list nat :=
  match S with Bid => reverse (seq 0 i) | Ask => seq (i + 1) (SLOTS - (i + 1)) end.

Definition indices_from (i : nat) : list nat :=
  match S with Bid => reverse (seq 0 (i + 1)) | Ask => seq i (SLOTS - i) end.

(** The first index with a nonempty level. *)
Fixpoint first_nonempty (levels : list PriceLevel) (ixs : list nat) : outcome (option nat) :=
  match ixs with
  | [] => Ret None
  | i :: ixs =>
      lvl ← deref (levels !! i);
      if 0 <? lvl_order_count lvl then Ret (Some i) else first_nonempty levels ixs
  end.

Definition advance_best_from (i : nat) a : outcome ladder :=
  if nonempty_count a =? 0 then Ret (set_best SLOTS a)
  else
    o ← first_nonempty (al_levels a) (indices_after i);
    Ret (set_best (default SLOTS o) a).

Definition array_add_shares (p : Price) (shares : Z) a : outcome ladder :=
  let i := idx_of p a in
  if (SLOTS <=? i)%nat then Ret a
  else
    lvl ← deref (al_levels a !! i);
    let '(a, lvl) :=
      if lvl_order_count lvl =? 0 then
        (update_best_after_add i (set_nonempty (u32 (nonempty_count a + 1)) a),
         set_lvl_price p lvl)
      else (a, lvl) in
    Ret (set_level i (level_add shares lvl) a).

Definition array_remove_shares (p : Price) (shares : Z) (full_removal : bool) a
  : outcome ladder :=
  let i := idx_of p a in
  if (SLOTS <=? i)%nat then Ret a
  else
    lvl ← deref (al_levels a !! i);
    if lvl_order_count lvl =? 0 then Ret a
    else
      let lvl := level_sub shares full_removal lvl in
      let a := set_level i lvl a in
      if lvl_order_count lvl =? 0 then
        let a := set_nonempty (u32 (nonempty_count a - 1)) a in
        if (i =? best_idx a)%nat then advance_best_from i a else Ret a
      else Ret a.

Definition array_best a : outcome (option PriceLevel) :=
  if nonempty_count a =? 0 then Ret None
  else lvl ← deref (al_levels a !! best_idx a); Ret (Some lvl).

Fixpoint visit (levels : list PriceLevel) (ixs : list nat) : outcome (list PriceLevel) :=
  match ixs with
  | [] => Ret []
  | i :: ixs =>
      lvl ← deref (levels !! i);
      rest ← visit levels ixs;
      Ret (if 0 <? lvl_order_count lvl then lvl :: rest else rest)
  end.

Definition array_for_each a : outcome (list PriceLevel) :=
  if nonempty_count a =? 0 then Ret []
  else visit (al_levels a) (indices_from (best_idx a)).

#[export] Instance ArrayLadder_ladder : Ladder ladder := {|
  ladder_add := array_add_shares; ladder_remove := array_remove_shares;
  ladder_best := array_best; ladder_size := nonempty_count;
  ladder_for_each := array_for_each |}.

End array_ladder.

(** ** Refinement of [MapLadder] in the band *)

Section refinement.
Context {S : Side} {SLOTS : nat} {TICK : Z} (HTICK : 0 < TICK) (HSLOTS : Z.of_nat SLOTS < 2 ^ 32).
Local Notation ladder := (ArrayLadder S SLOTS TICK).
Implicit Types (a : ladder) (m : MapLadder S) (i j : nat) (p : Price).
Local Notation find p m := (om_find (map_compare S) p (ml_levels m)).

Definition price_at (base : Z) (i : nat) : Price := mkPrice (base + Z.of_nat i * TICK).

(** [i] is in front of [j]. *)
Definition in_front (i j : nat) : Prop := match S with Bid => j < i | Ask => i < j end%nat.

Lemma compare_price_at base i j :
  map_compare S (price_at base i) (price_at base j) = true ↔ in_front i j.
Proof.
  unfold in_front. destruct S; simpl; unfold price_gtb, price_ltb; simpl;
    rewrite Z.ltb_lt; nia.
Qed.

Lemma price_at_inj base i j : price_at base i = price_at base j → i = j.
Proof. intros [= H]. nia. Qed.

Lemma idx_of_price_at a i : (i < SLOTS)%nat → idx_of (price_at (base_raw a) i) a = i.
Proof.
  intros Hi. unfold idx_of, price_at. simpl.
  rewrite (proj2 (Z.ltb_ge _ _)) by nia.
  replace (base_raw a + Z.of_nat i * TICK - base_raw a) with (Z.of_nat i * TICK) by lia.
  rewrite Z.div_mul by lia. lia.
Qed.

(** What slot [i] says about the map. *)
Definition slot_ok (base : Z) (m : MapLadder S) (i : nat) (l : PriceLevel) : Prop :=
  lvl_order_count l ∈u32 ∧
  if lvl_order_count l =? 0
  then lvl_total_shares l = 0 ∧ find (price_at base i) m = None
  else lvl_price l = price_at base i ∧ find (price_at base i) m = Some l.

Record array_slots (m : MapLadder S) (a : ladder) : Prop := {
  am_sorted : om_sorted (map_compare S) (ml_levels m);
  am_length : length (al_levels a) = SLOTS;
  am_slots i l : al_levels a !! i = Some l → slot_ok (base_raw a) m i l;
  am_band p l : find p m = Some l → ∃ i, (i < SLOTS)%nat ∧ p = price_at (base_raw a) i
}.

(** The array holds the levels of the map, and keeps its size and its best. *)
Record array_map (m : MapLadder S) (a : ladder) : Prop := {
  am_shape :> array_slots m a;
  am_count : nonempty_count a = Z.of_nat (length (ml_levels m));
  am_best p : om_begin (ml_levels m) = Some p → p = price_at (base_raw a) (best_idx a)
}.

(** *** Indices *)

Lemma elem_of_indices_after i j :
  (i < SLOTS)%nat → j ∈ @indices_after S SLOTS i ↔ (j < SLOTS)%nat ∧ in_front i j.
Proof.
  intros Hi. unfold indices_after, in_front. destruct S.
  - rewrite elem_of_reverse, elem_of_seq. lia.
  - rewrite elem_of_seq. lia.
Qed.

Lemma elem_of_indices_from i j :
  (i < SLOTS)%nat → j ∈ @indices_from S SLOTS i ↔ (j < SLOTS)%nat ∧ (i = j ∨ in_front i j).
Proof.
  intros Hi. unfold indices_from, in_front. destruct S.
  - rewrite elem_of_reverse, elem_of_seq. lia.
  - rewrite elem_of_seq. lia.
Qed.

Lemma seq_sorted k n : StronglySorted lt (seq k n).
Proof.
  revert k. induction n as [|n IH]; intros k; simpl; constructor; [apply IH|].
  apply Forall_forall. intros x Hx%elem_of_seq. lia.
Qed.

Lemma reverse_seq_sorted n : StronglySorted (λ i j, j < i)%nat (reverse (seq 0 n)).
Proof.
  induction n as [|n IH]; [constructor|].
  rewrite seq_S, reverse_app. simpl. constructor; [done|].
  apply Forall_forall. intros x. rewrite elem_of_reverse, elem_of_seq. lia.
Qed.

Lemma indices_sorted i :
  StronglySorted in_front (@indices_after S SLOTS i) ∧
  StronglySorted in_front (@indices_from S SLOTS i).
Proof.
  unfold in_front, indices_after, indices_from.
  destruct S; split; solve [apply reverse_seq_sorted|apply seq_sorted].
Qed.

Lemma first_nonempty_spec levels ixs :
  StronglySorted in_front ixs → (∀ j, j ∈ ixs → is_Some (levels !! j)) →
  ∃ o, first_nonempty levels ixs = Ret o ∧
    match o with
    | Some j => j ∈ ixs ∧ (∃ l, levels !! j = Some l ∧ 0 < lvl_order_count l) ∧
        ∀ x l, x ∈ ixs → levels !! x = Some l → 0 < lvl_order_count l → x = j ∨ in_front j x
    | None => ∀ x l, x ∈ ixs → levels !! x = Some l → ¬ 0 < lvl_order_count l
    end.
Proof.
  intros Hs Hl. induction Hs as [|i ixs Hs IH Hf]; simpl.
  { eexists. split; [done|]. by intros x l ?%not_elem_of_nil. }
  destruct (Hl i) as [l Hi]; [apply elem_of_cons; by left|]. rewrite Hi. simpl.
  destruct (Z.ltb_spec 0 (lvl_order_count l)) as [Hc|Hc].
  - eexists. split; [done|]. simpl. split; [apply elem_of_cons; by left|]. split; [eauto|].
    intros x lx [->|Hx]%elem_of_cons _ _; [by left|right].
    rewrite Forall_forall in Hf. by apply Hf.
  - destruct IH as (o & Ho & Hspec); [intros j Hj; apply Hl, elem_of_cons; by right|].
    exists o. split; [done|]. destruct o as [j|].
    + destruct Hspec as (Hin & Hex & Hmin).
      split; [apply elem_of_cons; by right|]. split; [done|].
      intros x lx [->|Hx]%elem_of_cons Hlx Hcx; [|by eapply Hmin].
      rewrite Hi in Hlx. injection Hlx as <-. lia.
    + intros x lx [->|Hx]%elem_of_cons Hlx; [|by apply (Hspec x)].
      rewrite Hi in Hlx. injection Hlx as <-. lia.
Qed.

(** *** The relation *)

Lemma slot_lookup m a i :
  array_slots m a → (i < SLOTS)%nat →
  ∃ l, al_levels a !! i = Some l ∧ slot_ok (base_raw a) m i l.
Proof.
  intros Hm Hi. destruct (lookup_lt_is_Some_2 (al_levels a) i) as [l Hl];
    [by rewrite (am_length _ _ Hm)|].
  exists l. split; [done|]. by apply (am_slots _ _ Hm).
Qed.

(** A level of the map is in its slot. *)
Lemma find_slot m a p l :
  array_slots m a → find p m = Some l →
  ∃ i, (i < SLOTS)%nat ∧ p = price_at (base_raw a) i ∧ al_levels a !! i = Some l ∧
    0 < lvl_order_count l.
Proof.
  intros Hm Hp. destruct (am_band _ _ Hm _ _ Hp) as (i & Hi & ->).
  destruct (slot_lookup m a i Hm Hi) as (l' & Hl' & Hc & Hok). exists i.
  destruct (Z.eqb_spec (lvl_order_count l') 0) as [E|E].
  - destruct Hok. congruence.
  - destruct Hok as [_ Hf]. rewrite Hp in Hf. injection Hf as <-. split_and!; try done. lia.
Qed.

(** A nonempty slot is a level of the map. *)
Lemma slot_find m a i l :
  array_slots m a → al_levels a !! i = Some l → 0 < lvl_order_count l →
  find (price_at (base_raw a) i) m = Some l.
Proof.
  intros Hm Hl Hc. destruct (am_slots _ _ Hm _ _ Hl) as [_ Hok].
  rewrite (proj2 (Z.eqb_neq _ _)) in Hok by lia. apply Hok.
Qed.

Lemma slot_index_lt m a i l : array_slots m a → al_levels a !! i = Some l → (i < SLOTS)%nat.
Proof. intros Hm Hl%lookup_lt_Some. by rewrite (am_length _ _ Hm) in Hl. Qed.

Lemma banded_length base (ms : list (Price * PriceLevel)) :
  om_sorted (map_compare S) ms →
  (∀ p l, om_find (map_compare S) p ms = Some l →
    ∃ i, (i < SLOTS)%nat ∧ p = price_at base i) →
  (length ms ≤ SLOTS)%nat.
Proof.
  intros Hs Hb. rewrite <- (length_fmap fst ms).
  rewrite <- (length_seq SLOTS 0), <- (length_fmap (price_at base) (seq 0 SLOTS)).
  apply submseteq_length, NoDup_submseteq; [by apply (om_keys_NoDup (map_compare S))|].
  intros p ([k l] & -> & Hin)%list_elem_of_fmap.
  apply (om_elem_find (map_compare S)) in Hin; [|done].
  destruct (Hb _ _ Hin) as (i & Hi & Hk). apply list_elem_of_fmap. exists i.
  split; [done|]. apply elem_of_seq. lia.
Qed.

(** Changing one slot, and the map at its price. *)
Lemma slots_update m m' a i l' :
  array_slots m a → slot_ok (base_raw a) m' i l' →
  (∀ p, p ≠ price_at (base_raw a) i → find p m' = find p m) →
  ∀ j l, <[i := l']> (al_levels a) !! j = Some l → slot_ok (base_raw a) m' j l.
Proof.
  intros Hm Hok Hf j l [(-> & <- & _)|[Hne Hl]]%list_lookup_insert_Some; [done|].
  destruct (am_slots _ _ Hm _ _ Hl) as [Hc Hs]. split; [done|].
  rewrite Hf; [done|]. by intros ->%price_at_inj.
Qed.

Lemma band_update m m' a i :
  array_slots m a → (i < SLOTS)%nat →
  (∀ p, p ≠ price_at (base_raw a) i → find p m' = find p m) →
  ∀ p l, find p m' = Some l → ∃ j, (j < SLOTS)%nat ∧ p = price_at (base_raw a) j.
Proof.
  intros Hm Hi Hf p l Hp. destruct (decide (p = price_at (base_raw a) i)) as [->|Hne]; [eauto|].
  rewrite Hf in Hp by done. by eapply am_band.
Qed.

(** *** Adding *)

Lemma update_best_spec i a :
  base_raw (update_best_after_add i a) = base_raw a ∧
  nonempty_count (update_best_after_add i a) = nonempty_count a ∧
  al_levels (update_best_after_add i a) = al_levels a ∧
  best_idx (update_best_after_add i a) =
    if nonempty_count a =? 1 then i
    else if map_compare S (price_at (base_raw a) (best_idx a)) (price_at (base_raw a) i)
    then best_idx a else i.
Proof.
  unfold update_best_after_add. destruct (nonempty_count a =? 1); [done|].
  destruct S; simpl; unfold price_gtb, price_ltb; simpl.
  - destruct (Nat.ltb_spec (best_idx a) i), (Z.ltb_spec (base_raw a + Z.of_nat i * TICK)
      (base_raw a + Z.of_nat (best_idx a) * TICK)); simpl; split_and!; try done; nia.
  - destruct (Nat.ltb_spec i (best_idx a)), (Z.ltb_spec (base_raw a + Z.of_nat (best_idx a) * TICK)
      (base_raw a + Z.of_nat i * TICK)); simpl; split_and!; try done; nia.
Qed.

(** Writing back a level that stays. *)
Lemma array_write_refines m a i l l' :
  array_map m a → (i < SLOTS)%nat → find (price_at (base_raw a) i) m = Some l →
  lvl_price l' = price_at (base_raw a) i → 0 < lvl_order_count l' < 2 ^ 32 →
  array_map {| ml_levels := om_set (map_compare S) (price_at (base_raw a) i) l' (ml_levels m) |}
    (set_level i l' a).
Proof.
  intros Hm Hi Hf Hp Hc. set (p := price_at (base_raw a) i) in *.
  set (m' := {| ml_levels := om_set (map_compare S) p l' (ml_levels m) |} : MapLadder S).
  assert (∀ q, q ≠ p → find q m' = find q m) as Hne by (intros; by apply om_find_set_ne; [apply _|]).
  assert (slot_ok (base_raw a) m' i l') as Hslot.
  { split; [lia|]. rewrite (proj2 (Z.eqb_neq _ _)) by lia.
    split; [done|]. by apply om_find_set_eq; apply _. }
  split; [split|..].
  - apply om_set_sorted; [apply _|apply (am_sorted _ _ Hm)].
  - simpl. by rewrite length_insert, (am_length _ _ Hm).
  - exact (slots_update m m' a i l' Hm Hslot Hne).
  - exact (band_update m m' a i Hm Hi Hne).
  - simpl. by rewrite om_set_length, Hf, (am_count _ _ Hm).
  - intros q. simpl. rewrite om_begin_set.
    destruct (om_begin (ml_levels m)) as [k0|] eqn:E0.
    + destruct (om_begin_first (map_compare S) _ _ (am_sorted _ _ Hm) E0) as [_ Hfirst].
      intros Hq. apply (inj Some) in Hq. rewrite <- Hq. destruct (Hfirst _ _ Hf) as [E|Hlt].
      * rewrite E, ltb_irrefl. by apply (am_best _ _ Hm).
      * rewrite Hlt. by apply (am_best _ _ Hm).
    + apply (om_begin_None_find (map_compare S)) with (k := p) in E0. congruence.
Qed.

(** Writing a level that is new. *)
Lemma array_new_refines m a i l' :
  array_map m a → (i < SLOTS)%nat → find (price_at (base_raw a) i) m = None →
  lvl_price l' = price_at (base_raw a) i → 0 < lvl_order_count l' < 2 ^ 32 →
  array_map {| ml_levels := om_set (map_compare S) (price_at (base_raw a) i) l' (ml_levels m) |}
    (set_level i l' (update_best_after_add i (set_nonempty (u32 (nonempty_count a + 1)) a))).
Proof.
  intros Hm Hi Hf Hp Hc. set (p := price_at (base_raw a) i) in *.
  set (m' := {| ml_levels := om_set (map_compare S) p l' (ml_levels m) |} : MapLadder S).
  assert (∀ q, q ≠ p → find q m' = find q m) as Hne by (intros; by apply om_find_set_ne; [apply _|]).
  assert (slot_ok (base_raw a) m' i l') as Hslot.
  { split; [lia|]. rewrite (proj2 (Z.eqb_neq _ _)) by lia.
    split; [done|]. by apply om_find_set_eq; apply _. }
  assert (om_sorted (map_compare S) (ml_levels m')) as Hs'
    by (apply om_set_sorted; [apply _|apply (am_sorted _ _ Hm)]).
  pose proof (band_update m m' a i Hm Hi Hne) as Hband.
  pose proof (slots_update m m' a i l' Hm Hslot Hne) as Hslots.
  pose proof (banded_length (base_raw a) (ml_levels m') Hs' Hband) as Hlen.
  assert (length (ml_levels m') = Datatypes.S (length (ml_levels m))) as Hlen'
    by (simpl; by rewrite om_set_length, Hf).
  rewrite (am_count _ _ Hm), u32_id by lia.
  destruct (update_best_spec i (set_nonempty (Z.of_nat (length (ml_levels m)) + 1) a))
    as (Hu1 & Hu2 & Hu3 & Hu4).
  cbn [set_nonempty base_raw best_idx nonempty_count al_levels] in Hu1, Hu2, Hu3, Hu4.
  split; [split|..]; cbn [set_level base_raw best_idx nonempty_count al_levels];
    rewrite ?Hu1, ?Hu2, ?Hu3, ?Hu4.
  - done.
  - by rewrite length_insert, (am_length _ _ Hm).
  - done.
  - done.
  - rewrite Hlen'. lia.
  - intros q. unfold m'. cbn [ml_levels]. rewrite om_begin_set.
    destruct (om_begin (ml_levels m)) as [k0|] eqn:E0; intros Hq; apply (inj Some) in Hq;
      rewrite <- Hq.
    + rewrite (am_best _ _ Hm _ E0). fold p.
      assert (ml_levels m ≠ []) by (intros E; by rewrite E in E0).
      rewrite (proj2 (Z.eqb_neq _ _)) by (destruct (ml_levels m); simpl; done || lia).
      by destruct (map_compare S (price_at _ _) p).
    + apply om_begin_None in E0. by rewrite E0.
Qed.

(** What the add of a slot makes of the array, the map's level at hand. *)
Lemma array_add_unfold m a i n :
  array_slots m a → (i < SLOTS)%nat →
  let p := price_at (base_raw a) i in
  array_add_shares p n a =
  Ret (set_level i (level_add n (set_lvl_price p (default PriceLevel_init (find p m))))
    (match find p m with
     | Some _ => a
     | None => update_best_after_add i (set_nonempty (u32 (nonempty_count a + 1)) a)
     end)).
Proof.
  intros Hm Hi. cbv zeta. unfold array_add_shares. rewrite idx_of_price_at by done.
  rewrite (proj2 (Nat.leb_gt _ _)) by done.
  destruct (slot_lookup m a i Hm Hi) as (l & Hl & Hc & Hok). rewrite Hl.
  cbn [deref mbind outcome_bind].
  destruct (lvl_order_count l =? 0) eqn:E.
  - destruct Hok as [Ht ->]. destruct l as [lp lt lc]. simpl in *.
    apply Z.eqb_eq in E. by subst.
  - destruct Hok as [Hp ->]. destruct l as [lp lt lc]. simpl in *. by subst.
Qed.

Definition in_band (base : Z) (p : Price) : Prop := ∃ i, (i < SLOTS)%nat ∧ p = price_at base i.

Lemma array_add_refines p n m a :
  array_map m a → in_band (base_raw a) p →
  lvl_order_count (default PriceLevel_init (find p m)) + 1 < 2 ^ 32 →
  ∃ m' a', map_add_shares p n m = Ret m' ∧ array_add_shares p n a = Ret a' ∧
    array_map m' a' ∧ base_raw a' = base_raw a.
Proof.
  intros Hm (i & Hi & ->) Hcount. rewrite (array_add_unfold m a i n Hm Hi).
  eexists _, _. split; [done|split; [done|]].
  assert (0 ≤ lvl_order_count (default PriceLevel_init (find (price_at (base_raw a) i) m))).
  { destruct (find (price_at (base_raw a) i) m) as [l|] eqn:E; [|done].
    apply (find_slot _ _ _ _ Hm) in E as (?&_&_&_&?). simpl. lia. }
  destruct (find (price_at (base_raw a) i) m) as [l|] eqn:E; cbn [default from_option] in *.
  - split; [|done]. apply (array_write_refines m a i l); [done..|].
    cbn [level_add set_lvl_price lvl_order_count]. rewrite u32_id by lia. lia.
  - split; [by apply array_new_refines|].
    apply (update_best_spec i (set_nonempty (u32 (nonempty_count a + 1)) a)).
Qed.

(** *** Removing *)

(** The scan after a slot whose price was in front of every level that is left
    finds the best of them. *)
Lemma advance_finds_best m a i :
  array_slots m a → (i < SLOTS)%nat →
  (∀ q l, find q m = Some l → map_compare S (price_at (base_raw a) i) q = true) →
  ∃ o, first_nonempty (al_levels a) (indices_after (SLOTS := SLOTS) (S := S) i) = Ret o ∧
    ∀ q, om_begin (ml_levels m) = Some q → q = price_at (base_raw a) (default SLOTS o).
Proof.
  intros Hm Hi Hfront.
  destruct (first_nonempty_spec (al_levels a) (indices_after (SLOTS := SLOTS) (S := S) i))
    as (o & Ho & Hspec).
  { apply indices_sorted. }
  { intros j Hj%elem_of_indices_after; [|done]. apply lookup_lt_is_Some_2.
    rewrite (am_length _ _ Hm). apply Hj. }
  exists o. split; [done|]. intros q Hq.
  destruct (om_begin_first (map_compare S) _ _ (am_sorted _ _ Hm) Hq) as [[l Hl] Hmin].
  assert (∀ x lx, find x m = Some lx → ∃ j, j ∈ indices_after (SLOTS := SLOTS) (S := S) i ∧
    x = price_at (base_raw a) j ∧ al_levels a !! j = Some lx ∧ 0 < lvl_order_count lx) as Hin.
  { intros x lx Hx. destruct (find_slot _ _ _ _ Hm Hx) as (j & Hj & -> & Hlj & Hc).
    exists j. split; [|done]. apply elem_of_indices_after; [done|]. split; [done|].
    apply (compare_price_at (base_raw a)). by eapply Hfront. }
  destruct (Hin _ _ Hl) as (j & Hj & -> & Hlj & Hc). destruct o as [k|]; simpl.
  - destruct Hspec as (Hk & (lk & Hlk & Hck) & Hfirst).
    destruct (Hfirst _ _ Hj Hlj Hc) as [->|Hkj]; [done|].
    pose proof (slot_find _ _ _ _ Hm Hlk Hck) as Hfk.
    destruct (Hmin _ _ Hfk) as [E|Hlt]; [by rewrite E|exfalso].
    apply (compare_price_at (base_raw a)) in Hkj.
    by rewrite (ltb_asym (map_compare S) _ _ Hkj) in Hlt.
  - by destruct (Hspec _ _ Hj Hlj).
Qed.

(** A removal the client accounts for: the last order of a level takes what is
    left of its shares. *)
Definition clean_removal (l : PriceLevel) : Prop :=
  lvl_order_count l = 0 → lvl_total_shares l = 0.

Lemma level_sub_count n full l :
  0 < lvl_order_count l < 2 ^ 32 → lvl_order_count (level_sub n full l) ∈u32.
Proof. intros. simpl. destruct full; [apply u32_range|lia]. Qed.

(** Erasing a level that is used up. *)
Lemma array_erase_refines m a i l l' :
  array_map m a → (i < SLOTS)%nat → find (price_at (base_raw a) i) m = Some l →
  lvl_order_count l' = 0 → lvl_total_shares l' = 0 →
  let a1 := set_nonempty (u32 (nonempty_count a - 1)) (set_level i l' a) in
  ∃ a', (if (i =? best_idx a)%nat then advance_best_from i a1 else Ret a1) = Ret a' ∧
    array_map {| ml_levels := om_erase (map_compare S) (price_at (base_raw a) i) (ml_levels m) |} a' ∧
    base_raw a' = base_raw a.
Proof.
  intros Hm Hi Hf Hc Ht a1. set (p := price_at (base_raw a) i) in *.
  set (m' := {| ml_levels := om_erase (map_compare S) p (ml_levels m) |} : MapLadder S).
  pose proof (am_sorted _ _ Hm) as Hs.
  assert (∀ q, q ≠ p → find q m' = find q m) as Hne
    by (intros; by apply om_find_erase_ne; [apply _|..]).
  assert (find p m' = None) as Hgone by (by apply om_find_erase_eq; [apply _|]).
  assert (slot_ok (base_raw a) m' i l') as Hslot by (split; [lia|by rewrite Hc]).
  assert (length (ml_levels m') = Nat.pred (length (ml_levels m))) as Hlen'
    by (simpl; by rewrite om_erase_length, Hf).
  pose proof (banded_length (base_raw a) _ Hs (am_band _ _ Hm)) as Hlen.
  assert (ml_levels m ≠ []) as Hnil by (intros E; by rewrite E in Hf).
  assert (array_slots m' a1) as Hm1.
  { split.
    - apply om_erase_sorted; [apply _|done].
    - simpl. by rewrite length_insert, (am_length _ _ Hm).
    - exact (slots_update m m' a i l' Hm Hslot Hne).
    - exact (band_update m m' a i Hm Hi Hne). }
  assert (nonempty_count a1 = Z.of_nat (length (ml_levels m'))) as Hcnt.
  { simpl nonempty_count. rewrite Hlen', (am_count _ _ Hm).
    destruct (ml_levels m) as [|x ms]; [done|]. simpl length in *. rewrite u32_id; lia. }
  destruct (Nat.eqb_spec i (best_idx a)) as [Hb|Hb].
  - unfold advance_best_from. rewrite Hcnt.
    destruct (Z.eqb_spec (Z.of_nat (length (ml_levels m'))) 0) as [E|E].
    + eexists. split; [done|]. split; [|done]. split; [by destruct Hm1|done|].
      intros q Hq. destruct (ml_levels m'); simpl in *; [done|lia].
    + destruct (advance_finds_best m' a1 i Hm1 Hi) as (o & Ho & Hbest).
      { intros q lq Hq. destruct (decide (q = p)) as [->|Hqp]; [congruence|].
        rewrite Hne in Hq by done. destruct (om_begin (ml_levels m)) as [k0|] eqn:E0.
        - pose proof (am_best _ _ Hm _ E0) as Hk0. rewrite <- Hb in Hk0. fold p in Hk0. subst k0.
          destruct (om_begin_first (map_compare S) _ _ Hs E0) as [_ Hmin].
          by destruct (Hmin _ _ Hq).
        - by apply om_begin_None in E0. }
      rewrite Ho. eexists. split; [done|]. split; [|done].
      split; [by destruct Hm1|done|done].
  - eexists. split; [done|]. split; [|done]. split; [done|done|].
    intros q Hq. simpl in Hq. rewrite om_begin_erase in Hq.
    + by apply (am_best _ _ Hm).
    + apply _.
    + intros E0. apply (am_best _ _ Hm) in E0. apply Hb. by eapply price_at_inj.
Qed.

Lemma array_remove_refines p n full m a :
  array_map m a → in_band (base_raw a) p →
  (∀ l, find p m = Some l → clean_removal (level_sub n full l)) →
  ∃ m' a', map_remove_shares p n full m = Ret m' ∧ array_remove_shares p n full a = Ret a' ∧
    array_map m' a' ∧ base_raw a' = base_raw a.
Proof.
  intros Hm (i & Hi & ->) Hclean. unfold map_remove_shares, array_remove_shares.
  rewrite idx_of_price_at by done. rewrite (proj2 (Nat.leb_gt _ _)) by done.
  destruct (slot_lookup m a i Hm Hi) as (l & Hl & Hc & Hok). rewrite Hl.
  cbn [deref mbind outcome_bind].
  destruct (Z.eqb_spec (lvl_order_count l) 0) as [E|E].
  { destruct Hok as [_ ->]. by exists m, a. }
  destruct Hok as [Hp Hf]. rewrite Hf. specialize (Hclean _ Hf).
  pose proof (level_sub_count n full l ltac:(lia)) as Hrange.
  destruct (Z.eqb_spec (lvl_order_count (level_sub n full l)) 0) as [E'|E'].
  - destruct (array_erase_refines m a i l (level_sub n full l) Hm Hi Hf E' (Hclean E'))
      as (a' & Ha' & Hm' & Hb').
    eexists _, a'. split; [done|]. split; [exact Ha'|done].
  - eexists _, _. split; [done|split; [done|]]. split; [|done].
    apply (array_write_refines m a i l); [done..|lia].
Qed.
(** *** Iteration *)

(** The nonempty levels at the given indices, under their prices. *)
Definition visited (base : Z) (levels : list PriceLevel) (ixs : list nat)
  : list (Price * PriceLevel) :=
  omap (λ i, l ← levels !! i; guard (0 < lvl_order_count l);; Some (price_at base i, l)) ixs.

Lemma visit_visited base levels ixs :
  (∀ j, j ∈ ixs → is_Some (levels !! j)) →
  visit levels ixs = Ret (visited base levels ixs).*2.
Proof.
  intros Hl. induction ixs as [|i ixs IH]; [done|]. simpl.
  destruct (Hl i) as [l Hi]; [apply elem_of_cons; by left|]. rewrite Hi. simpl.
  rewrite IH by (intros j Hj; apply Hl, elem_of_cons; by right). simpl.
  destruct (Z.ltb_spec 0 (lvl_order_count l)); case_guard; done || lia.
Qed.

Lemma elem_of_visited base levels ixs p l :
  (p, l) ∈ visited base levels ixs ↔
  ∃ i, i ∈ ixs ∧ levels !! i = Some l ∧ 0 < lvl_order_count l ∧ p = price_at base i.
Proof.
  unfold visited. rewrite list_elem_of_omap. split.
  - intros (i & Hi & H). apply bind_Some in H as (l' & Hl' & H). exists i.
    case_guard; [|done]. simpl in H. by simplify_eq.
  - intros (i & Hi & Hl & Hc & ->). exists i. split; [done|]. rewrite Hl. simpl.
    by case_guard.
Qed.

Lemma visited_sorted base levels ixs :
  StronglySorted in_front ixs → om_sorted (map_compare S) (visited base levels ixs).
Proof.
  unfold om_sorted. induction 1 as [|i ixs Hs IH Hf]; [constructor|]. simpl.
  destruct (levels !! i) as [l|] eqn:Hi; simpl; [|done]. case_guard; simpl; [|done].
  constructor; [done|]. apply Forall_forall. intros [p l'] Hin.
  apply elem_of_visited in Hin as (j & Hj & _ & _ & ->). rewrite Forall_forall in Hf.
  apply compare_price_at. by apply Hf.
Qed.

(** From the best slot on, the array holds the map. *)
Lemma visited_map m a :
  array_map m a → ml_levels m ≠ [] →
  (best_idx a < SLOTS)%nat ∧
  visited (base_raw a) (al_levels a) (indices_from (SLOTS := SLOTS) (S := S) (best_idx a)) =
  ml_levels m.
Proof.
  intros Hm Hne. destruct (om_begin (ml_levels m)) as [k0|] eqn:E0;
    [|by apply om_begin_None in E0].
  pose proof (am_best _ _ Hm _ E0) as ->. pose proof (am_sorted _ _ Hm) as Hs.
  destruct (om_begin_first (map_compare S) _ _ Hs E0) as [[l0 Hl0] Hmin].
  destruct (find_slot _ _ _ _ Hm Hl0) as (b & Hb & E%price_at_inj & _). subst b.
  clear E0. split; [done|]. apply (om_ext (map_compare S)); [apply visited_sorted, (proj2 (indices_sorted _))|done|].
  intros p. apply option_eq. intros l. split; intros Hp.
  - apply om_find_elem in Hp; [|apply _].
    apply elem_of_visited in Hp as (i & _ & Hl & Hc & ->). exact (slot_find _ _ _ _ Hm Hl Hc).
  - apply (om_elem_find (map_compare S)); [apply visited_sorted, (proj2 (indices_sorted _))|].
    destruct (find_slot _ _ _ _ Hm Hp) as (i & Hi & -> & Hl & Hc).
    apply elem_of_visited. exists i. split; [|done]. apply elem_of_indices_from; [done|].
    split; [done|]. destruct (Hmin _ _ Hp) as [E|Hlt].
    + left. symmetry. by apply (price_at_inj (base_raw a)).
    + right. by apply (compare_price_at (base_raw a)).
Qed.

Lemma array_observe m a : array_map m a → observe a = observe m.
Proof.
  intros Hm. unfold observe. simpl. unfold array_best, array_for_each, map_size.
  rewrite (am_count _ _ Hm).
  destruct (Z.eqb_spec (Z.of_nat (length (ml_levels m))) 0) as [E|E].
  { by destruct (ml_levels m). }
  assert (ml_levels m ≠ []) as Hne by (intros E'; apply E; by rewrite E').
  destruct (visited_map m a Hm Hne) as [Hb Hv].
  destruct (ml_levels m) as [|[k0 l0] ms] eqn:Em; [done|].
  assert (om_begin (ml_levels m) = Some k0) as E0 by (by rewrite Em).
  pose proof (am_best _ _ Hm _ E0) as ->.
  assert (find (price_at (base_raw a) (best_idx a)) m = Some l0) as Hl0.
  { rewrite Em. simpl. by rewrite ltb_irrefl. }
  destruct (find_slot _ _ _ _ Hm Hl0) as (b & _ & E1%price_at_inj & Hlb & _). subst b.
  rewrite Hlb. simpl. rewrite (visit_visited (base_raw a)), Hv; [done|].
  intros j Hj%elem_of_indices_from; [|done]. apply lookup_lt_is_Some_2.
  rewrite (am_length _ _ Hm). apply Hj.
Qed.

(** *** Runs *)

(** What the array asks of its client, stated on the map it stands for: prices
    in the band, order counts below [2^32], removals accounted for. *)
Definition op_clean (base : Z) (m : MapLadder S) (op : ladder_op) : Prop :=
  match op with
  | AddShares p n =>
      in_band base p ∧ lvl_order_count (default PriceLevel_init (find p m)) + 1 < 2 ^ 32
  | RemoveShares p n full =>
      in_band base p ∧ ∀ l, find p m = Some l → clean_removal (level_sub n full l)
  end.

Fixpoint ops_clean (base : Z) (m : MapLadder S) (ops : list ladder_op) : Prop :=
  match ops with
  | [] => True
  | op :: ops =>
      op_clean base m op ∧
      match ladder_step op m with Ret m' => ops_clean base m' ops | _ => False end
  end.

Lemma array_step_refines op m a :
  array_map m a → op_clean (base_raw a) m op →
  ∃ m' a', ladder_step op m = Ret m' ∧ ladder_step op a = Ret a' ∧
    array_map m' a' ∧ base_raw a' = base_raw a.
Proof.
  intros Hm Hop. destruct op as [p n|p n full]; destruct Hop as [Hb Hc];
    [by apply array_add_refines|by apply array_remove_refines].
Qed.

Lemma array_run_refines ops m a :
  array_map m a → ops_clean (base_raw a) m ops →
  ∃ m' a', ladder_run ops m = Ret m' ∧ ladder_run ops a = Ret a' ∧ array_map m' a'.
Proof.
  revert m a. induction ops as [|op ops IH]; intros m a Hm Hops; [by exists m, a|].
  destruct Hops as [Hop Hops].
  destruct (array_step_refines op m a Hm Hop) as (m1 & a1 & E1 & E2 & Hm1 & Hb1).
  simpl. rewrite E1 in *. rewrite E2. rewrite <- Hb1 in Hops. by apply IH.
Qed.

Lemma array_init_map base : array_map MapLadder_init (ArrayLadder_init base).
Proof.
  split; [split|..]; simpl; try done.
  - constructor.
  - apply length_replicate.
  - intros i l [-> _]%lookup_replicate. split; [done|]. by split.
Qed.
End refinement.
