(* ===== verification/LadderTheorems.v ===== *)
(** The theorems of the price ladders: what the interface promises, the two
    refinements, and where the ladders part from the engine and each other. *)

From S2P Require Import Prelude Messages StdMap OrderBook PriceLadder LadderRefinement.
From S2P Require Import ArrayLadder.

(** A busy bid side: levels added out of order, one merged, one removed, one
    reduced, a removal that misses. *)
Definition sample_ops : list ladder_op := [
  AddShares (mkPrice 10300) 10; AddShares (mkPrice 10100) 20; AddShares (mkPrice 10200) 30;
  AddShares (mkPrice 10100) 5; RemoveShares (mkPrice 10300) 10 true;
  RemoveShares (mkPrice 10200) 7 false; RemoveShares (mkPrice 10000) 1 true].

(** ** The interface *)

Lemma map_sorted_step {S} op (m : MapLadder S) :
  om_sorted (map_compare S) (ml_levels m) → Forall (λ kv, lvl_price kv.2 = kv.1) (ml_levels m) →
  ∃ m', ladder_step op m = Ret m' ∧
    om_sorted (map_compare S) (ml_levels m') ∧ Forall (λ kv, lvl_price kv.2 = kv.1) (ml_levels m').
Proof.
  intros Hs Hp. assert (flat_map m {| fl_levels := (ml_levels m).*2 |}) as Hf by done.
  destruct op as [p n|p n full]; simpl.
  - eexists. split; [done|]. split; [apply om_set_sorted; [apply _|done]|by apply set_prices].
  - destruct (flat_remove_refines p n full m _ Hf) as (m' & f' & -> & _ & [Hs' Hp' _]). eauto.
Qed.

Lemma map_sorted_run {S} ops (m : MapLadder S) :
  om_sorted (map_compare S) (ml_levels m) → Forall (λ kv, lvl_price kv.2 = kv.1) (ml_levels m) →
  ∃ m', ladder_run ops m = Ret m' ∧
    om_sorted (map_compare S) (ml_levels m') ∧ Forall (λ kv, lvl_price kv.2 = kv.1) (ml_levels m').
Proof.
  revert m. induction ops as [|op ops IH]; intros m Hs Hp; [by exists m|].
  destruct (map_sorted_step op m Hs Hp) as (m1 & E & Hs1 & Hp1). simpl. rewrite E. by apply IH.
Qed.

(** The map-backed ladder keeps its contract over any operations: the
    levels are visited best first with no price twice, [best] is the first of
    them, [size] their number. *)
Theorem ladder_contract S ops :
  ∃ (m : MapLadder S) ls, ladder_run ops MapLadder_init = Ret m ∧
    observe m = Ret (head ls, Z.of_nat (length ls), ls) ∧
    StronglySorted (λ a b, map_compare S (lvl_price a) (lvl_price b) = true) ls.
Proof.
  destruct (map_sorted_run (S := S) ops MapLadder_init) as (m & E & Hs & Hp);
    [constructor..|].
  exists m, (ml_levels m).*2. split; [done|]. split.
  - unfold observe. simpl. unfold map_size. rewrite length_fmap.
    by destruct (ml_levels m) as [|[??]?].
  - revert Hs Hp. unfold om_sorted. generalize (ml_levels m) as l. intros l Hs Hp.
    induction Hs as [|[k v] l Hs IH Hf]; [constructor|].
    apply Forall_cons in Hp as [Hv Hp]. cbn. constructor; [by apply IH|].
    rewrite Forall_fmap. rewrite Forall_forall in *. intros [k' v'] Hin. simpl in *.
    pose proof (Hp _ Hin) as Hp'. simpl in Hp'. rewrite Hv, Hp'. by apply (Hf (k', v')).
Qed.

(** ** Refinements *)

(** C22: The sorted vector implements the map: over any operations with 32-bit
    shares the two ladders show the same best level, size and levels in the
    same order, and no search leaves the vector. *)
Theorem flat_refines_map S ops :
  Forall op_in_range ops →
  ∃ (m : MapLadder S) (f : FlatLadder S),
    ladder_run ops MapLadder_init = Ret m ∧ ladder_run ops FlatLadder_init = Ret f ∧
    observe f = observe m.
Proof.
  intros Hn. destruct (flat_run_refines (S := S) ops MapLadder_init FlatLadder_init Hn)
    as (m & f & E1 & E2 & Hm).
  - split; [constructor|constructor|done].
  - exists m, f. split_and!; [done|done|by apply flat_observe].
Qed.

Lemma flat_refines_map_witness :
  ∃ (m : MapLadder Bid) (f : FlatLadder Bid),
    ladder_run sample_ops MapLadder_init = Ret m ∧ ladder_run sample_ops FlatLadder_init = Ret f ∧
    observe f = observe m.
Proof. apply flat_refines_map. repeat constructor; lia. Defined.

(** C23: The dense array implements the map in its band: over operations at
    prices of its grid, with order counts below [2^32], where the last removal
    of a level takes what is left of it, the two ladders show the same, and no
    access leaves the array. *)
Theorem array_refines_map S SLOTS TICK base ops :
  0 < TICK → Z.of_nat SLOTS < 2 ^ 32 →
  ops_clean (SLOTS := SLOTS) (TICK := TICK) base (MapLadder_init (S := S)) ops →
  ∃ (m : MapLadder S) (a : ArrayLadder S SLOTS TICK),
    ladder_run ops MapLadder_init = Ret m ∧
    ladder_run ops (ArrayLadder_init base) = Ret a ∧ observe a = observe m.
Proof.
  intros HT HS Hops.
  destruct (array_run_refines HT HS ops MapLadder_init (ArrayLadder_init base)
    (array_init_map base) Hops) as (m & a & E1 & E2 & Hm).
  exists m, a. split_and!; [done|done|by apply (array_observe HT)].
Qed.

Lemma array_refines_map_witness :
  ∃ (m : MapLadder Bid) (a : ArrayLadder Bid 8 100),
    ladder_run sample_ops MapLadder_init = Ret m ∧
    ladder_run sample_ops (ArrayLadder_init 10000) = Ret a ∧ observe a = observe m.
Proof.
  apply array_refines_map; [lia|done|].
  assert (∀ k, (k < 8)%nat → in_band (SLOTS := 8) (TICK := 100) 10000
    (mkPrice (10000 + Z.of_nat k * 100))) as Hb by (intros k Hk; by exists k).
  unfold sample_ops. simpl.
  repeat split; try (apply (Hb 0%nat); lia); try (apply (Hb 1%nat); lia);
    try (apply (Hb 2%nat); lia); try (apply (Hb 3%nat); lia).
  - by intros l [= <-].
  - by intros l [= <-].
  - done.
Defined.

(** ** Divergences *)

(** The array forgets to clear a level it empties: when the last removal of a level takes
    [n] of its [t] shares with [n < t], the map starts the level afresh at the
    next add and the array resumes from the [t - n] shares that were left. *)
Theorem array_stale_total t n k :
  0 ≤ n < t → t ∈u32 → k ∈u32 →
  let p := mkPrice 10100 in
  let ops := [AddShares p t; RemoveShares p n true; AddShares p k] in
  ∃ (m : MapLadder Bid) (a : ArrayLadder Bid 8 100),
    ladder_run ops MapLadder_init = Ret m ∧
    ladder_run ops (ArrayLadder_init 10000) = Ret a ∧
    ladder_best m = Ret (Some (mkLevel p k 1)) ∧
    ladder_best a = Ret (Some (mkLevel p (t - n + k) 1)).
Proof.
  intros Hn Ht Hk p ops. unfold ops. cbn. eexists _, _. split; [done|split; [done|]]. cbn.
  unfold level_add, level_sub. cbn.
  rewrite !Z.add_0_l, (u64_id t), (u64_id k), (u64_id (t - n)), (u64_id (t - n + k)) by ulia.
  done.
Qed.

Lemma array_stale_total_witness :
  ∃ (m : MapLadder Bid) (a : ArrayLadder Bid 8 100),
    ladder_best m = Ret (Some (mkLevel (mkPrice 10100) 7 1)) ∧
    ladder_best a = Ret (Some (mkLevel (mkPrice 10100) 13 1)).
Proof.
  destruct (array_stale_total 10 4 7) as (m & a & _ & _ & H1 & H2); [lia|lia|lia|].
  by exists m, a.
Defined.

(** The engine's own operation on one side of a book. *)
Definition engine_op (bid : bool) (op : ladder_op) (side : list (Price * PriceLevel))
  : list (Price * PriceLevel) :=
  match op with
  | AddShares p n => insert_level (side_ltb bid) p n side
  | RemoveShares p n full => remove_level (side_ltb bid) p n full side
  end.

Definition side_of (bid : bool) : Side := if bid then Bid else Ask.

Lemma side_of_compare bid : map_compare (side_of bid) = side_ltb bid.
Proof. by destruct bid. Qed.

(** A removal takes no more than its level has. *)
Definition op_accounted (bid : bool) (side : list (Price * PriceLevel)) (op : ladder_op) : Prop :=
  match op with
  | AddShares _ _ => True
  | RemoveShares p n _ => ∀ l, om_find (side_ltb bid) p side = Some l →
      n ≤ lvl_total_shares l
  end.

(** The engine's side maps are [MapLadder]s as long as no removal takes
    more shares than its level has; on one that does they part: the engine
    clamps the level's total to zero, [MapLadder] wraps it around. *)
Theorem engine_side_is_map_ladder bid op side :
  side_ok bid side → (∀ p n full, op = RemoveShares p n full → n ∈u32) →
  let step := ladder_step (L := MapLadder (side_of bid)) op {| ml_levels := side |} in
  (op_accounted bid side op → step = Ret {| ml_levels := engine_op bid op side |}) ∧
  (∀ p n l, op = RemoveShares p n false → om_find (side_ltb bid) p side = Some l →
    lvl_order_count l ≠ 0 → lvl_total_shares l < n →
    om_find (side_ltb bid) p (engine_op bid op side) = Some (mkLevel p 0 (lvl_order_count l)) ∧
    ∃ m, step = Ret m ∧ om_find (side_ltb bid) p (ml_levels m) =
      Some (mkLevel p (2 ^ 64 + lvl_total_shares l - n) (lvl_order_count l))).
Proof.
  intros [Hs Hl] Hn step. unfold step. split.
  - intros Hacc. destruct op as [p n|p n full]; simpl.
    + unfold map_add_shares, insert_level. cbn [ml_levels]. by rewrite side_of_compare.
    + unfold map_remove_shares, remove_level. cbn [ml_levels]. rewrite side_of_compare.
      destruct (om_find (side_ltb bid) p side) as [l|] eqn:E; [|done].
      destruct (Hl _ _ E) as (_ & Ht & _). specialize (Hacc _ E). specialize (Hn _ _ _ eq_refl).
      unfold level_sub. rewrite clamped_sub_le, u64_id by lia. cbn [fst lvl_order_count].
      by destruct (_ =? 0).
  - intros p n l -> Hp Hc Hlt. specialize (Hn _ _ _ eq_refl).
    destruct (Hl _ _ Hp) as (Hlp & Ht & _). simpl. split.
    + rewrite find_remove_level by done. rewrite decide_True, Hp by done. simpl.
      unfold removed_level. rewrite (proj2 (Z.eqb_neq _ _)) by done.
      by rewrite clamped_sub_gt, Hlp.
    + unfold map_remove_shares. cbn [ml_levels]. rewrite side_of_compare, Hp.
      eexists. split; [done|]. cbn [ml_levels level_sub lvl_order_count].
      rewrite (proj2 (Z.eqb_neq _ _)) by done. rewrite om_find_set_eq by apply _.
      unfold level_sub. rewrite Hlp. do 2 f_equal. ulia.
Qed.

Lemma engine_side_is_map_ladder_witness :
  om_find price_gtb (mkPrice 100)
    (engine_op true (RemoveShares (mkPrice 100) 50 false)
       (insert_level price_gtb (mkPrice 100) 40 [])) = Some (mkLevel (mkPrice 100) 0 1).
Proof.
  destruct (engine_side_is_map_ladder true (RemoveShares (mkPrice 100) 50 false)
    (insert_level price_gtb (mkPrice 100) 40 [])) as [_ H].
  - apply (insert_level_ok true). split; [constructor|done].
  - intros p n full [= <- <- <-]. lia.
  - apply (H (mkPrice 100) 50 (mkLevel (mkPrice 100) 40 1));
      [reflexivity|vm_compute; reflexivity|simpl; lia|simpl; lia].
Defined.
