(* ===== verification/Double.v ===== *)
(** IEEE 754 double precision, as far as the program uses it: prices on their
    way to JSON ([include/itch/price.h], [src/rest_server.cpp]).

    The arithmetic is the Standard Library's [SpecFloat] at binary64. *)

From S2P Require Import Prelude Messages.
From Stdlib Require Export Floats.SpecFloat.

Definition prec : Z := 53.
Definition emax : Z := 1024.

Definition double : Type := spec_float.

(** The conversion of a [uint32_t] or [int32_t], which is exact. *)
Definition double_of_Z (z : Z) : double := binary_normalize prec emax z 0 false.

Definition double_mul : double → double → double := SFmul prec emax.
Definition double_add : double → double → double := SFadd prec emax.
Definition double_div : double → double → double := SFdiv prec emax.

(** The literals [10000.0] and [0.5]. *)
Definition double_10000 : double := double_of_Z 10000.
Definition double_half : double := double_div (double_of_Z 1) (double_of_Z 2).

(** The value rounded toward zero. *)
Definition double_trunc (f : double) : option Z :=
  match f with
  | S754_zero _ => Some 0
  | S754_finite s m e =>
      let n := if 0 <=? e then Z.pos m * 2 ^ e else Z.pos m / 2 ^ (- e) in
      Some (if s then - n else n)
  | _ => None
  end.

(** [static_cast<int32_t>(f)]: undefined when the truncated value does not fit. *)
Definition int32_of_double (f : double) : outcome Z :=
  match double_trunc f with
  | Some n => if (- 2 ^ 31 <=? n) && (n <? 2 ^ 31) then Ret n else Undef
  | None => Undef
  end.

(** [Price::to_double]: [raw / 10000.0]. *)
Definition to_double (p : Price) : double := double_div (double_of_Z (raw p)) double_10000.

(** [static_cast<int32_t>(price * 10000.0 + 0.5)]: the ticks of a price. *)
Definition ticks_of (price : double) : outcome Z :=
  int32_of_double (double_add (double_mul price double_10000) double_half).
