(* ===== verification/DoubleFacts.v ===== *)
(** Rounding of the double-precision operations on prices: a price survives
    the way to a double and back.

    A finite double [m * 2 ^ e] is compared as the integer
    [m * 2 ^ (e + 120)] ([fixed]); no exponent of a price is below [-120]. *)

From S2P Require Import Prelude Messages Double.

(** ** Shifting with round and sticky bits *)

(** The record stands for the rational [N / D]: its integral part, and whether
    the rest is zero, below, at or above one half. *)
Definition stands_for (r : shr_record) (N D : Z) : Prop :=
  0 < D ∧ 0 ≤ shr_m r ∧
  let rest := N - shr_m r * D in
  match shr_r r, shr_s r with
  | false, false => rest = 0
  | false, true => 0 < 2 * rest < D
  | true, false => 2 * rest = D
  | true, true => D < 2 * rest < 2 * D
  end.

Lemma shr_1_stands r N D : stands_for r N D → stands_for (shr_1 r) N (2 * D).
Proof.
  intros (HD & Hm & Hr). destruct r as [m rd st]. cbn [shr_m shr_r shr_s] in *.
  destruct m as [|[p|p|]|p]; [| | | |lia]; split_and!; cbn [shr_1 shr_m shr_r shr_s];
    try lia; destruct rd, st; cbn [orb]; lia.
Qed.

Lemma iter_shr_stands p r N D :
  stands_for r N D → stands_for (iter_pos shr_1 p r) N (2 ^ Z.pos p * D).
Proof.
  revert r D. induction p as [p IH|p IH|]; intros r D H; simpl.
  - replace (2 ^ Z.pos p~1 * D) with (2 ^ Z.pos p * (2 ^ Z.pos p * (2 * D))).
    { by apply IH, IH, shr_1_stands. }
    replace (Z.pos p~1) with (Z.pos p + Z.pos p + 1) by lia.
    rewrite !Z.pow_add_r by lia. ring.
  - replace (2 ^ Z.pos p~0 * D) with (2 ^ Z.pos p * (2 ^ Z.pos p * D)).
    { by apply IH, IH. }
    replace (Z.pos p~0) with (Z.pos p + Z.pos p) by lia.
    rewrite !Z.pow_add_r by lia. ring.
  - by apply shr_1_stands.
Qed.

Lemma shr_stands r e n N D :
  0 ≤ n → stands_for r N D →
  ∃ r', shr r e n = (r', e + n) ∧ stands_for r' N (2 ^ n * D).
Proof.
  intros Hn H. destruct n as [|p|p]; [| |lia]; simpl shr.
  - exists r. rewrite Z.add_0_r, Z.pow_0_r, Z.mul_1_l. done.
  - eexists. split; [done|]. by apply iter_shr_stands.
Qed.

Lemma round_stands r N D :
  stands_for r N D →
  2 * Z.abs (round_nearest_even (shr_m r) (loc_of_shr_record r) * D - N) ≤ D ∧
  shr_m r ≤ round_nearest_even (shr_m r) (loc_of_shr_record r) ≤ shr_m r + 1.
Proof.
  intros (HD & Hm & Hr). destruct r as [m rd st]. cbn [shr_m shr_r shr_s] in *.
  destruct rd, st; cbn [loc_of_shr_record round_nearest_even]; [lia| |lia|lia].
  destruct (Z.even m); lia.
Qed.

Lemma new_location_stands m n :
  0 < n → 0 ≤ m →
  stands_for (shr_record_of_loc (m / n) (new_location n (m mod n))) m n.
Proof.
  intros Hn Hm. pose proof (Z.div_mod m n ltac:(lia)) as E.
  pose proof (Z.mod_pos_bound m n Hn) as Hr.
  assert (0 ≤ m / n) by (apply Z.div_pos; lia).
  unfold new_location. revert E Hr H. generalize (m / n) as q, (m mod n) as r. intros q r E Hr H.
  rewrite Z.mul_comm in E. change IntDef.Z.even with Z.even. destruct (Z.even n) eqn:Ev.
  - unfold new_location_even. destruct (Z.eqb_spec r 0) as [E0|E0].
    { unfold stands_for. cbn [shr_record_of_loc shr_m shr_r shr_s]. lia. }
    change IntDef.Z.compare with Z.compare. unfold stands_for.
    destruct (Z.compare_spec (2 * r) n); cbn [shr_record_of_loc shr_m shr_r shr_s]; lia.
  - unfold new_location_odd. destruct (Z.eqb_spec r 0) as [E0|E0].
    { unfold stands_for. cbn [shr_record_of_loc shr_m shr_r shr_s]. lia. }
    assert (Z.odd n = true) as [k Hk]%Z.odd_spec by (by rewrite <- Z.negb_even, Ev).
    change IntDef.Z.compare with Z.compare. unfold stands_for.
    destruct (Z.compare_spec (2 * r + 1) n); cbn [shr_record_of_loc shr_m shr_r shr_s]; lia.
Qed.

(** ** Digits *)

Lemma digits2_pos_bounds p : 2 ^ (Z.pos (digits2_pos p) - 1) ≤ Z.pos p < 2 ^ Z.pos (digits2_pos p).
Proof.
  induction p as [p IH|p IH|]; cbn [digits2_pos]; [| |done].
  - rewrite Pos2Z.inj_succ. replace (Z.succ (Z.pos (digits2_pos p)) - 1)
      with (Z.succ (Z.pos (digits2_pos p) - 1)) by lia.
    rewrite !Z.pow_succ_r by lia. lia.
  - rewrite Pos2Z.inj_succ. replace (Z.succ (Z.pos (digits2_pos p)) - 1)
      with (Z.succ (Z.pos (digits2_pos p) - 1)) by lia.
    rewrite !Z.pow_succ_r by lia. lia.
Qed.

Lemma Zdigits2_unique m n : 0 ≤ n → 2 ^ n ≤ m < 2 ^ (n + 1) → Zdigits2 m = n + 1.
Proof.
  intros Hn Hm. assert (0 < 2 ^ n) by (apply Z.pow_pos_nonneg; lia).
  destruct m as [|p|p]; [lia| |lia]. simpl. pose proof (digits2_pos_bounds p) as Hb.
  destruct (Z.lt_trichotomy (Z.pos (digits2_pos p)) (n + 1)) as [Hlt|[E|Hgt]]; [|done|].
  - assert (2 ^ Z.pos (digits2_pos p) ≤ 2 ^ n) by (apply Z.pow_le_mono_r; lia). lia.
  - assert (2 ^ (n + 1) ≤ 2 ^ (Z.pos (digits2_pos p) - 1)) by (apply Z.pow_le_mono_r; lia). lia.
Qed.

Lemma Zdigits2_bounds m :
  0 < m → 2 ^ (Zdigits2 m - 1) ≤ m < 2 ^ Zdigits2 m ∧ 1 ≤ Zdigits2 m.
Proof.
  intros Hm. destruct m as [|p|p]; [lia| |lia]. simpl. split; [apply digits2_pos_bounds|lia].
Qed.

(** ** Rounding *)

(** The value of a finite double, scaled by [2 ^ 120]. *)
Definition fixed (m e : Z) : Z := m * 2 ^ (e + 120).

Lemma stands_bounds r N D : stands_for r N D → shr_m r * D ≤ N < (shr_m r + 1) * D.
Proof. intros (HD & Hm & Hr). cbv zeta in Hr. destruct (shr_r r), (shr_s r); lia. Qed.

Lemma shr_m_of_loc m l : shr_m (shr_record_of_loc m l) = m.
Proof. by destruct l as [|[]]. Qed.

Lemma fexp_normal d e : -1000 ≤ e → 53 ≤ d → fexp prec emax (d + e) = e + (d - 53).
Proof. intros. unfold fexp, emin, prec, emax. lia. Qed.

(** Rounding a normalised integral part again changes its form only. *)
Lemma renormalise k e :
  2 ^ 52 ≤ k ≤ 2 ^ 53 → -1000 ≤ e →
  ∃ r e', shr_fexp prec emax k e loc_Exact = (r, e') ∧
    2 ^ 52 ≤ shr_m r < 2 ^ 53 ∧ e ≤ e' ≤ e + 1 ∧ shr_m r * 2 ^ (e' - e) = k.
Proof.
  intros Hk He. unfold shr_fexp. destruct (Z.eq_dec k (2 ^ 53)) as [->|Hne].
  - change (Zdigits2 (2 ^ 53)) with 54. rewrite fexp_normal by lia.
    replace (e + (54 - 53) - e) with 1 by lia.
    eexists _, (e + 1). split; [reflexivity|]. replace (e + 1 - e) with 1 by lia.
    vm_compute shr_m. repeat split; try lia; done.
  - rewrite (Zdigits2_unique k 52) by (change (2 ^ (52 + 1)) with (2 ^ 53); lia). rewrite fexp_normal by lia.
    replace (e + (52 + 1 - 53) - e) with 0 by lia.
    eexists _, e. split; [reflexivity|]. rewrite Z.sub_diag. simpl shr_m. lia.
Qed.

Lemma round_aux_spec mx ex lx N D :
  stands_for (shr_record_of_loc mx lx) N D → 2 ^ 52 ≤ mx → -120 ≤ ex → Zdigits2 mx + ex ≤ 900 →
  ∃ m e, binary_round_aux prec emax false mx ex lx = S754_finite false m e ∧
    2 ^ 52 ≤ Z.pos m < 2 ^ 53 ∧ ex ≤ e ≤ 900 ∧
    2 ^ 53 * Z.abs (fixed (Z.pos m) e * D - N * 2 ^ (ex + 120)) ≤ N * 2 ^ (ex + 120).
Proof.
  intros Hst Hmx Hex Hbig. destruct (Zdigits2_bounds mx ltac:(lia)) as [Hd Hd1].
  set (d := Zdigits2 mx) in *.
  assert (53 ≤ d) as Hd53.
  { destruct (Z.le_gt_cases 53 d) as [|Hlt]; [done|exfalso].
    assert (2 ^ d ≤ 2 ^ 52) by (apply Z.pow_le_mono_r; lia). lia. }
  set (n := d - 53) in *.
  assert (2 ^ (d - 1) = 2 ^ 52 * 2 ^ n) as E1 by (rewrite <- Z.pow_add_r by lia; f_equal; lia).
  assert (2 ^ d = 2 ^ 53 * 2 ^ n) as E2 by (rewrite <- Z.pow_add_r by lia; f_equal; lia).
  assert (0 < 2 ^ n) as Hn0 by (apply Z.pow_pos_nonneg; lia).
  pose proof (stands_bounds _ _ _ Hst) as HN. rewrite shr_m_of_loc in HN.
  assert (0 < D) as HD by apply Hst.
  unfold binary_round_aux. unfold shr_fexp at 1. fold d. rewrite fexp_normal by lia.
  replace (ex + (d - 53) - ex) with n by lia.
  destruct (shr_stands _ ex n _ _ ltac:(lia) Hst) as (r' & -> & Hr').
  set (P := 2 ^ n * D) in *.
  assert (0 < P) as HP by (unfold P; nia).
  assert (2 ^ 52 * P ≤ N < 2 ^ 53 * P) as HNP by (unfold P; nia).
  pose proof (stands_bounds _ _ _ Hr') as Hm'.
  assert (2 ^ 52 ≤ shr_m r' < 2 ^ 53) as Hr52 by nia.
  destruct (round_stands _ _ _ Hr') as [Hk Hkm].
  set (k := round_nearest_even (shr_m r') (loc_of_shr_record r')) in *.
  destruct (renormalise k (ex + n)) as (r'' & e'' & -> & Hr''52 & He'' & Hkeq); [lia|lia|].
  destruct (shr_m r'') as [|p|p] eqn:Ep; [lia| |lia].
  rewrite (proj2 (Z.leb_le e'' (emax - prec))) by (unfold emax, prec; lia).
  exists p, e''. split; [done|split; [done|split; [lia|]]].
  assert (fixed (Z.pos p) e'' * D = k * P * 2 ^ (ex + 120)) as ->.
  { unfold fixed, P. replace (e'' + 120) with ((e'' - (ex + n)) + n + (ex + 120)) by lia.
    rewrite !Z.pow_add_r by lia. rewrite <- Hkeq. ring. }
  assert (0 < 2 ^ (ex + 120)) as HW by (apply Z.pow_pos_nonneg; lia).
  rewrite <- Z.mul_sub_distr_r, Z.abs_mul, (Z.abs_eq (2 ^ (ex + 120))) by lia.
  rewrite Z.mul_assoc. apply Z.mul_le_mono_nonneg_r; [lia|].
  change (2 ^ 53) with (2 * 2 ^ 52). nia.
Qed.

(** ** Operations on prices *)

Lemma iter_xO m d : Z.pos (PosDef.Pos.iter xO m d) = Z.pos m * 2 ^ Z.pos d.
Proof.
  change (PosDef.Pos.iter xO m d) with (Pos.iter xO m d).
  revert d. apply Pos.peano_ind; [simpl; lia|]. intros d IH.
  rewrite Pos.iter_succ, Pos2Z.inj_succ, Z.pow_succ_r by lia. lia.
Qed.

Lemma shl_align_spec m e e' :
  ∃ p, shl_align m e e' = (p, Z.min e e') ∧ Z.pos p = Z.pos m * 2 ^ (e - Z.min e e').
Proof.
  unfold shl_align. destruct (e' - e) as [|d|d] eqn:E.
  - exists m. rewrite Z.min_l by lia. by rewrite Z.sub_diag, Z.mul_1_r.
  - exists m. rewrite Z.min_l by lia. by rewrite Z.sub_diag, Z.mul_1_r.
  - eexists. rewrite Z.min_r by lia. split; [done|]. rewrite iter_xO. do 2 f_equal. lia.
Qed.

Lemma stands_exact m : 0 ≤ m → stands_for (shr_record_of_loc m loc_Exact) m 1.
Proof. intros. unfold stands_for. cbn [shr_record_of_loc shr_m shr_r shr_s]. lia. Qed.

Lemma Zdigits2_le m n : 0 ≤ n → 0 < m < 2 ^ n → Zdigits2 m ≤ n.
Proof.
  intros Hn Hm. destruct (Zdigits2_bounds m ltac:(lia)) as [Hd Hd1].
  destruct (Z.le_gt_cases (Zdigits2 m) n) as [|Hgt]; [done|exfalso].
  assert (2 ^ n ≤ 2 ^ (Zdigits2 m - 1)) by (apply Z.pow_le_mono_r; lia). lia.
Qed.

(** A finite positive double with a full significand, of value [v / 2 ^ 120]. *)
Definition is_double (f : double) (v : Z) : Prop :=
  ∃ m e, f = S754_finite false m e ∧ 2 ^ 52 ≤ Z.pos m < 2 ^ 53 ∧ -120 ≤ e ≤ 900 ∧
    fixed (Z.pos m) e = v.

Lemma binary_round_spec p ez :
  -66 ≤ ez ≤ 0 → 0 < Z.pos p < 2 ^ 800 → (Z.pos p < 2 ^ 52 → -20 ≤ ez) →
  ∃ v, is_double (binary_round prec emax false p ez) v ∧
    2 ^ 53 * Z.abs (v - Z.pos p * 2 ^ (ez + 120)) ≤ Z.pos p * 2 ^ (ez + 120).
Proof.
  intros Hez Hp Hsmall. unfold binary_round.
  destruct (shl_align_spec p ez (fexp prec emax (Z.pos (digits2_pos p) + ez))) as (q & -> & Hq).
  pose proof (digits2_pos_bounds p) as Hd.
  assert (Z.pos (digits2_pos p) ≤ 800) as Hdle by (apply (Zdigits2_le (Z.pos p)); lia).
  assert (fexp prec emax (Z.pos (digits2_pos p) + ez) = ez + (Z.pos (digits2_pos p) - 53)) as Hf
    by (unfold fexp, emin, prec, emax; lia).
  rewrite Hf in *. set (d := Z.pos (digits2_pos p)) in *. set (ex := Z.min ez _) in *.
  assert (2 ^ 52 ≤ Z.pos q ∧ Zdigits2 (Z.pos q) + ex ≤ 850 ∧ -100 ≤ ex) as (Hq1 & Hq2 & Hex).
  { rewrite Hq. destruct (Z.le_gt_cases 53 d) as [Hd53|Hd53].
    - replace ex with ez by lia. rewrite Z.sub_diag, Z.mul_1_r.
      assert (2 ^ 52 ≤ 2 ^ (d - 1)) by (apply Z.pow_le_mono_r; lia).
      split; [lia|]. split; [|lia]. fold (Zdigits2 (Z.pos p)). simpl Zdigits2. fold d. lia.
    - replace ex with (ez + (d - 53)) by lia. replace (ez - (ez + (d - 53))) with (53 - d) by lia.
      assert (2 ^ 52 = 2 ^ (d - 1) * 2 ^ (53 - d)) as E
        by (rewrite <- Z.pow_add_r by lia; f_equal; lia).
      assert (2 ^ 53 = 2 ^ d * 2 ^ (53 - d)) as E'
        by (rewrite <- Z.pow_add_r by lia; f_equal; lia).
      assert (0 < 2 ^ (53 - d)) by (apply Z.pow_pos_nonneg; lia).
      assert (2 ^ d ≤ 2 ^ 52) by (apply Z.pow_le_mono_r; lia).
      assert (-20 ≤ ez) by (apply Hsmall; lia). assert (1 ≤ d) by (unfold d; lia).
      split; [nia|]. assert (Zdigits2 (Z.pos p * 2 ^ (53 - d)) ≤ 53) by (apply Zdigits2_le; nia).
      lia. }
  destruct (round_aux_spec (Z.pos q) ex loc_Exact (Z.pos q) 1) as (m & e & -> & Hm & He & Herr);
    [by apply stands_exact|lia|lia|lia|].
  exists (fixed (Z.pos m) e). split.
  { exists m, e. split_and!; try done; try lia. }
  rewrite Z.mul_1_r in Herr.
  assert (Z.pos q * 2 ^ (ex + 120) = Z.pos p * 2 ^ (ez + 120)) as E; [|by rewrite <- E].
  rewrite Hq, <- Z.mul_assoc, <- Z.pow_add_r by lia. do 2 f_equal. lia.
Qed.

(** The exponent of a double from its value. *)
Lemma exponent_bounds m e v a b :
  2 ^ 52 ≤ m < 2 ^ 53 → -120 ≤ e → fixed m e = v → 0 ≤ a → 0 ≤ b → 2 ^ a ≤ v < 2 ^ b →
  a - 173 < e < b - 172.
Proof.
  unfold fixed. intros Hm He Hv Ha Hb Hab. split.
  - destruct (Z.lt_ge_cases (a - 173) e) as [|Hge]; [done|exfalso].
    assert (2 ^ 53 * 2 ^ (e + 120) = 2 ^ (e + 173)) as E
      by (rewrite <- Z.pow_add_r by lia; f_equal; lia).
    assert (2 ^ (e + 173) ≤ 2 ^ a) by (apply Z.pow_le_mono_r; lia).
    assert (0 < 2 ^ (e + 120)) by (apply Z.pow_pos_nonneg; lia). nia.
  - destruct (Z.lt_ge_cases e (b - 172)) as [|Hge]; [done|exfalso].
    assert (2 ^ 52 * 2 ^ (e + 120) = 2 ^ (e + 172)) as E
      by (rewrite <- Z.pow_add_r by lia; f_equal; lia).
    assert (2 ^ b ≤ 2 ^ (e + 172)) by (apply Z.pow_le_mono_r; lia).
    assert (0 < 2 ^ (e + 120)) by (apply Z.pow_pos_nonneg; lia). nia.
Qed.


Lemma double_of_Z_spec r :
  0 < r < 2 ^ 32 →
  ∃ v, is_double (double_of_Z r) v ∧ 2 ^ 53 * Z.abs (v - r * 2 ^ 120) ≤ r * 2 ^ 120.
Proof.
  intros Hr. destruct r as [|p|p]; [lia| |lia].
  unfold double_of_Z, binary_normalize. apply (binary_round_spec p 0); [lia| |lia].
  split; [lia|]. etrans; [apply Hr|]. by vm_compute.
Qed.

Lemma double_div_spec x v :
  is_double x v → 2 ^ 119 ≤ v < 2 ^ 160 →
  ∃ w, is_double (double_div x double_10000) w ∧ 2 ^ 53 * Z.abs (w * 10000 - v) ≤ v.
Proof.
  intros (m & e & -> & Hm & He & Hv) Hv'.
  destruct (exponent_bounds (Z.pos m) e v 119 160 Hm ltac:(lia) Hv ltac:(lia) ltac:(lia) Hv') as [He1 He2].
  set (M := 5497558138880000%positive).
  change double_10000 with (S754_finite false M (-39)).
  unfold double_div, SFdiv, SFdiv_core_binary.
  rewrite (Zdigits2_unique (Z.pos m) 52) by (change (2 ^ (52 + 1)) with (2 ^ 53); lia).
  change (Zdigits2 (Z.pos M)) with 53. cbv zeta.
  assert (Z.min (fexp prec emax (52 + 1 + e - (53 + -39))) (e - -39) = e - 14) as ->
    by (unfold fexp, emin, prec, emax; lia).
  replace (e - -39 - (e - 14)) with 53 by lia. cbv iota.
  set (a := Z.shiftl (Z.pos m) 53).
  assert (a = Z.pos m * 2 ^ 53) as Ha by (apply Z.shiftl_mul_pow2; lia).
  assert (IntDef.Z.div_eucl a (Z.pos M) = (a / Z.pos M, a mod Z.pos M)) as ->.
  { unfold Z.div, Z.modulo. change IntDef.Z.div_eucl with Z.div_eucl.
    by destruct (Z.div_eucl a (Z.pos M)). }
  assert (2 ^ 52 ≤ a / Z.pos M < 2 ^ 54) as Hq.
  { change (2 ^ 52) with 4503599627370496 in *. change (2 ^ 53) with 9007199254740992 in *.
    change (2 ^ 54) with 18014398509481984. unfold M. split.
    - apply Z.div_le_lower_bound; lia.
    - apply Z.div_lt_upper_bound; lia. }
  pose proof (Zdigits2_le (a / Z.pos M) 54 ltac:(lia) ltac:(lia)) as Hdig.
  cbn [xorb].
  destruct (round_aux_spec (a / Z.pos M) (e - 14) (new_location (Z.pos M) (a mod Z.pos M)) a (Z.pos M))
    as (m' & e' & E & Hm' & He' & Herr); [apply new_location_stands; lia|lia|lia|lia|].
  rewrite E. exists (fixed (Z.pos m') e'). split.
  { exists m', e'. split_and!; done || lia. }
  assert (a * 2 ^ (e - 14 + 120) = v * 2 ^ 39) as Hav.
  { rewrite Ha, <- Hv. unfold fixed. rewrite <- !Z.mul_assoc, <- !Z.pow_add_r by lia.
    do 2 f_equal. lia. }
  rewrite Hav in Herr. change (Z.pos M) with (10000 * 2 ^ 39) in Herr.
  change (2 ^ 39) with 549755813888 in Herr. lia.
Qed.

Lemma double_mul_spec x v :
  is_double x v → 2 ^ 100 ≤ v < 2 ^ 160 →
  ∃ w, is_double (double_mul x double_10000) w ∧
    2 ^ 53 * Z.abs (w - v * 10000) ≤ v * 10000.
Proof.
  intros (m & e & -> & Hm & He & Hv) Hv'.
  destruct (exponent_bounds (Z.pos m) e v 100 160 Hm ltac:(lia) Hv ltac:(lia) ltac:(lia) Hv')
    as [He1 He2].
  set (M := 5497558138880000%positive).
  change double_10000 with (S754_finite false M (-39)).
  unfold double_mul, SFmul. cbn [xorb].
  assert (2 ^ 104 ≤ Z.pos (m * M) < 2 ^ 106) as Hq.
  { rewrite Pos2Z.inj_mul. unfold M. change (2 ^ 52) with 4503599627370496 in *.
    change (2 ^ 53) with 9007199254740992 in *.
    change (2 ^ 104) with 20282409603651670423947251286016.
    change (2 ^ 106) with 81129638414606681695789005144064. lia. }
  assert (2 ^ 52 ≤ 2 ^ 104) by (apply Z.pow_le_mono_r; lia).
  pose proof (Zdigits2_le (Z.pos (m * M)) 106 ltac:(lia) ltac:(lia)) as Hdig.
  destruct (round_aux_spec (Z.pos (m * M)) (e + -39) loc_Exact (Z.pos (m * M)) 1)
    as (m' & e' & E & Hm' & He' & Herr); [by apply stands_exact|lia|lia|lia|].
  change (m * M)%positive with (PosDef.Pos.mul m M) in E. rewrite E.
  exists (fixed (Z.pos m') e'). split.
  { exists m', e'. split_and!; done || lia. }
  assert (Z.pos (m * M) * 2 ^ (e + -39 + 120) = v * 10000) as Hmv.
  { rewrite Pos2Z.inj_mul, <- Hv. unfold fixed.
    change (Z.pos M) with (10000 * 2 ^ 39).
    replace (e + 120) with (e + -39 + 120 + 39) by lia. rewrite (Z.pow_add_r 2 _ 39) by lia. ring. }
  rewrite Hmv in Herr. lia.
Qed.

Lemma double_add_half_spec x v :
  is_double x v → 2 ^ 117 ≤ v < 2 ^ 160 →
  ∃ w, is_double (double_add x double_half) w ∧
    2 ^ 53 * Z.abs (w - (v + 2 ^ 119)) ≤ v + 2 ^ 119.
Proof.
  intros (m & e & -> & Hm & He & Hv) Hv'.
  destruct (exponent_bounds (Z.pos m) e v 117 160 Hm ltac:(lia) Hv ltac:(lia) ltac:(lia) Hv')
    as [He1 He2].
  set (H := 4503599627370496%positive).
  change double_half with (S754_finite false H (-53)).
  unfold double_add, SFadd. cbv zeta. change IntDef.Z.min with Z.min.
  destruct (shl_align_spec m e (Z.min e (-53))) as (p & -> & Hp).
  destruct (shl_align_spec H (-53) (Z.min e (-53))) as (q & -> & Hq). cbn [fst cond_Zopp].
  replace (Z.min e (Z.min e (-53))) with (Z.min e (-53)) in * by lia.
  replace (Z.min (-53) (Z.min e (-53))) with (Z.min e (-53)) in * by lia.
  set (ez := Z.min e (-53)) in *.
  assert (0 < 2 ^ (e - ez) ≤ 2 ^ 80) as Hp1
    by (split; [apply Z.pow_pos_nonneg|apply Z.pow_le_mono_r]; lia).
  assert (0 < 2 ^ (-53 - ez) ≤ 2 ^ 80) as Hq1
    by (split; [apply Z.pow_pos_nonneg|apply Z.pow_le_mono_r]; lia).
  change (Z.pos p + Z.pos q) with (Z.pos (p + q)). unfold binary_normalize.
  destruct (binary_round_spec (p + q) ez) as (w & Hw & Herr).
  - lia.
  - split; [lia|]. rewrite Pos2Z.inj_add, Hp, Hq.
    change (Z.pos H) with (2 ^ 52). apply (Z.lt_le_trans _ (2 ^ 53 * 2 ^ 80 + 2 ^ 52 * 2 ^ 80)); [nia|].
    by vm_compute.
  - rewrite Pos2Z.inj_add, Hp, Hq. change (Z.pos H) with (2 ^ 52). nia.
  - exists w. split; [exact Hw|].
    assert (Z.pos (p + q) * 2 ^ (ez + 120) = v + 2 ^ 119) as E; [|by rewrite <- E].
    rewrite Pos2Z.inj_add, Hp, Hq, Z.mul_add_distr_r, <- !Z.mul_assoc, <- !Z.pow_add_r by lia.
    rewrite <- Hv. unfold fixed. f_equal; [do 2 f_equal; lia|].
    change (Z.pos H) with (2 ^ 52). rewrite <- Z.pow_add_r by lia. f_equal. lia.
Qed.

Lemma double_trunc_spec f v : is_double f v → double_trunc f = Some (v / 2 ^ 120).
Proof.
  intros (m & e & -> & Hm & He & <-). unfold double_trunc, fixed. f_equal.
  destruct (Z.leb_spec 0 e).
  - rewrite Z.pow_add_r, Z.mul_assoc by lia. by rewrite Z.div_mul.
  - replace (2 ^ 120) with (2 ^ (- e) * 2 ^ (e + 120)) by (rewrite <- Z.pow_add_r by lia; f_equal; lia).
    rewrite Z.div_mul_cancel_r; [done| |]; apply Z.pow_nonzero; lia.
Qed.

(** A price of [r] ticks, to a double and back. *)
Lemma trunc_of_price r :
  0 ≤ r < 2 ^ 32 →
  double_trunc (double_add (double_mul (to_double (mkPrice r)) double_10000) double_half)
    = Some r.
Proof.
  intros Hr. destruct (Z.eq_dec r 0) as [->|Hne]; [by vm_compute|].
  unfold to_double. cbn [raw].
  change (2 ^ 32) with 4294967296 in *.
  destruct (double_of_Z_spec r ltac:(lia)) as (v0 & H0 & E0).
  change (2 ^ 53) with 9007199254740992 in *.
  change (2 ^ 120) with 1329227995784915872903807060280344576 in *.
  destruct (double_div_spec _ v0 H0) as (v1 & H1 & E1).
  { change (2 ^ 119) with 664613997892457936451903530140172288.
    change (2 ^ 160) with 1461501637330902918203684832716283019655932542976. lia. }
  destruct (double_mul_spec _ v1 H1) as (v2 & H2 & E2).
  { change (2 ^ 100) with 1267650600228229401496703205376.
    change (2 ^ 160) with 1461501637330902918203684832716283019655932542976. lia. }
  destruct (double_add_half_spec _ v2 H2) as (v3 & H3 & E3).
  { change (2 ^ 117) with 166153499473114484112975882535043072.
    change (2 ^ 160) with 1461501637330902918203684832716283019655932542976. lia. }
  change (2 ^ 119) with 664613997892457936451903530140172288 in *.
  change (2 ^ 53) with 9007199254740992 in *.
  rewrite (double_trunc_spec _ _ H3). f_equal.
  change (2 ^ 120) with 1329227995784915872903807060280344576.
  symmetry. apply (Z.div_unique_pos _ _ _ (v3 - r * 1329227995784915872903807060280344576)); lia.
Qed.

Lemma ticks_of_spec p :
  raw p ∈u32 → ticks_of (to_double p) = if raw p <? 2 ^ 31 then Ret (raw p) else Undef.
Proof.
  intros Hp. unfold ticks_of, int32_of_double. destruct p as [r]. cbn [raw] in *.
  rewrite trunc_of_price by done. rewrite (proj2 (Z.leb_le (- 2 ^ 31) r)) by lia. done.
Qed.

(** C21: A price survives its conversion to a double and back: the tick
    conversion of the top-of-book route recovers the ticks of every price below
    [2^31] (214748.3648 dollars) exactly, in spite of three roundings; for a
    price from [2^31] on the cast to [int32_t] is undefined behaviour. *)
Theorem ticks_of_price p :
  raw p ∈u32 → ticks_of (to_double p) = if raw p <? 2 ^ 31 then Ret (raw p) else Undef.
Proof. apply ticks_of_spec. Qed.

Lemma ticks_of_price_witness : ticks_of (to_double (mkPrice 1234567)) = Ret 1234567.
Proof. apply (ticks_of_price (mkPrice 1234567)). simpl. lia. Defined.

(** Distinct prices have distinct doubles. *)
Lemma to_double_inj p q : raw p ∈u32 → raw q ∈u32 → to_double p = to_double q → p = q.
Proof.
  intros Hp Hq E. destruct p as [r], q as [s]. cbn [raw] in *.
  pose proof (trunc_of_price r Hp) as H1. pose proof (trunc_of_price s Hq) as H2. congruence.
Qed.
