(* ===== verification/Snapshot.v ===== *)
(** Snapshots of the engine and their publication ([build_snapshot],
    [maybe_publish_snapshot], [set_pipeline_complete] and [apply] of
    [src/book_engine.cpp], [src/snapshot_publisher.cpp],
    [include/itch/snapshot.h]).

    The order in which an unordered map is traversed is not specified: it is a
    parameter, any function that lists a map ([MapOrder]).  The wall clock is an
    argument.  The publisher's atomic pointer is the snapshot last stored. *)

From S2P Require Import Prelude Messages StdMap OrderBook BookEngine Double.
From stdpp Require Import pretty.
From Stdlib Require Import Strings.Ascii.
From Stdlib Require Strings.String.

#[local] Open Scope Z_scope.

Record PriceLevelSnapshot := {
  pls_price : double;
  pls_total_shares : Z;
  pls_order_count : Z
}.

Record OrderBookSnapshot := {
  obs_symbol : string;
  obs_trading_state : ascii;
  obs_bids : list PriceLevelSnapshot;
  obs_asks : list PriceLevelSnapshot;
  obs_last_update_timestamp : Z;
  obs_stock_locate : Z;
  obs_round_lot_size : Z;
  obs_market_category : ascii
}.

Record SystemSnapshot := {
  ss_books : gmap string OrderBookSnapshot;
  ss_symbol_index : gmap string string;
  ss_messages_processed : Z;
  ss_snapshot_timestamp : Z;
  ss_pipeline_complete : bool
}.

(** [std::tolower] in the C locale, on one character and on a string. *)
Definition tolower (c : ascii) : ascii :=
  let n := Ascii.nat_of_ascii c in
  if (65 <=? n)%nat && (n <=? 90)%nat then Ascii.ascii_of_nat (n + 32) else c.

Definition to_lower (s : string) : string :=
  Strings.String.string_of_list_ascii (tolower <$> Strings.String.list_ascii_of_string s).

(** The traversal orders of the unordered maps. *)
Class MapOrder := {
  list_books : gmap Z OrderBook → list (Z * OrderBook);
  list_instruments : gmap Z InstrumentInfo → list (Z * InstrumentInfo);
  list_snapshots : gmap string OrderBookSnapshot → list (string * OrderBookSnapshot);
  list_books_perm m : list_books m ≡ₚ map_to_list m;
  list_instruments_perm m : list_instruments m ≡ₚ map_to_list m;
  list_snapshots_perm m : list_snapshots m ≡ₚ map_to_list m
}.

(** One order, for concrete runs. *)
#[export] Program Instance default_order : MapOrder := {|
  list_books := map_to_list; list_instruments := map_to_list; list_snapshots := map_to_list |}.
Solve All Obligations with done.

Section snapshot.
Context `{MapOrder}.

Definition snapshot_level (kv : Price * PriceLevel) : PriceLevelSnapshot := {|
  pls_price := to_double kv.1;
  pls_total_shares := lvl_total_shares kv.2;
  pls_order_count := lvl_order_count kv.2 |}.

Definition book_snapshot (info : InstrumentInfo) (book : OrderBook) : OrderBookSnapshot := {|
  obs_symbol := ii_symbol info;
  obs_trading_state := ii_trading_state info;
  obs_bids := snapshot_level <$> ob_bids book;
  obs_asks := snapshot_level <$> ob_asks book;
  obs_last_update_timestamp := ob_last_update_timestamp book;
  obs_stock_locate := ii_stock_locate info;
  obs_round_lot_size := ii_round_lot_size info;
  obs_market_category := ii_market_category info |}.

Definition empty_snapshot (info : InstrumentInfo) : OrderBookSnapshot := {|
  obs_symbol := ii_symbol info;
  obs_trading_state := ii_trading_state info;
  obs_bids := []; obs_asks := [];
  obs_last_update_timestamp := 0;
  obs_stock_locate := ii_stock_locate info;
  obs_round_lot_size := ii_round_lot_size info;
  obs_market_category := ii_market_category info |}.

(** The loop over [books_]. *)
Definition add_book (instruments : gmap Z InstrumentInfo)
    (acc : gmap string OrderBookSnapshot) (kv : Z * OrderBook)
  : gmap string OrderBookSnapshot :=
  match instruments !! kv.1 with
  | None => acc
  | Some info => <[ii_symbol info := book_snapshot info kv.2]> acc
  end.

(** The loop over [instruments_]. *)
Definition add_instrument (acc : gmap string OrderBookSnapshot) (kv : Z * InstrumentInfo)
  : gmap string OrderBookSnapshot :=
  match acc !! ii_symbol kv.2 with
  | Some _ => acc
  | None => <[ii_symbol kv.2 := empty_snapshot kv.2]> acc
  end.

(** The loop over [snap->books]. *)
Definition add_symbol (acc : gmap string string) (kv : string * OrderBookSnapshot)
  : gmap string string :=
  <[to_lower kv.1 := kv.1]> acc.

Definition build_snapshot (now : Z) (st : Engine) : SystemSnapshot :=
  let books' := foldl (add_book (instruments st)) ∅ (list_books (books st)) in
  let books' := foldl add_instrument books' (list_instruments (instruments st)) in
  {| ss_books := books';
     ss_symbol_index := foldl add_symbol ∅ (list_snapshots books');
     ss_messages_processed := messages_processed st;
     ss_snapshot_timestamp := now;
     ss_pipeline_complete := pipeline_complete st |}.

(** ** Publication *)

(** The engine and its publisher. *)
Record System := {
  sys_engine : Engine;
  sys_published : option SystemSnapshot   (* nullptr before the first *)
}.

Definition System_init : System := {| sys_engine := Engine_init; sys_published := None |}.

Definition publish (snap : SystemSnapshot) (s : System) : System := {|
  sys_engine := sys_engine s; sys_published := Some snap |}.

Definition current (s : System) : option SystemSnapshot := sys_published s.

(** [messages_processed_ % snapshot_interval_]: a zero interval is undefined. *)
Definition maybe_publish_snapshot (now : Z) (s : System) : outcome System :=
  let st := sys_engine s in
  if snapshot_interval st =? 0 then Undef
  else if messages_processed st mod snapshot_interval st =? 0
  then Ret (publish (build_snapshot now st) s)
  else Ret s.

Definition apply (now : Z) (msg : ParsedMessage) (s : System) : outcome System :=
  let st := count_message (handle msg (sys_engine s)) in
  maybe_publish_snapshot now {| sys_engine := st; sys_published := sys_published s |}.

Definition set_pipeline_complete (now : Z) (s : System) : System :=
  let st := mark_complete (sys_engine s) in
  publish (build_snapshot now st) {| sys_engine := st; sys_published := sys_published s |}.

End snapshot.

(** The lines [log_summary] writes on [std::cerr]. *)
Definition log_summary (st : Engine) : list string :=
  (if 0 <? skipped_unknown_ref st then
     ["[WARN] " +:+ pretty (skipped_unknown_ref st) +:+
      " message(s) skipped: unknown order reference"] else []) ++
  (if 0 <? corrupt_messages st then
     ["[WARN] " +:+ pretty (corrupt_messages st) +:+
      " oversized execute/cancel message(s): rec.shares clamped to zero"] else []).
