(* ===== verification/SnapshotTheorems.v ===== *)
(** What a snapshot shows of the engine, for every traversal order of the
    unordered maps, and when snapshots are published. *)

From S2P Require Import Prelude Messages StdMap OrderBook BookEngine EngineLevels.
From S2P Require Import EngineInvariant EngineProperties Double DoubleFacts Snapshot.
From Stdlib Require Import Strings.Ascii.
From Stdlib Require Strings.String.

Section facts.
Context `{MapOrder}.
Implicit Types (st : Engine) (acc : gmap string OrderBookSnapshot) (sym : string).

(** ** The loops *)

Lemma add_books_origin ins l acc sym s :
  foldl (add_book ins) acc l !! sym = Some s →
  acc !! sym = Some s ∨
  ∃ loc bk info, (loc, bk) ∈ l ∧ ins !! loc = Some info ∧ ii_symbol info = sym ∧
    s = book_snapshot info bk.
Proof.
  revert acc. induction l as [|[loc bk] l IH]; intros acc; simpl; [by left|].
  intros [Ha|(loc' & bk' & info & Hin & ?)]%IH.
  - unfold add_book in Ha. simpl in Ha. destruct (ins !! loc) as [info|] eqn:E; [|by left].
    apply lookup_insert_Some in Ha as [[<- <-]|[_ Ha]]; [|by left].
    right. exists loc, bk, info. split; [apply elem_of_cons; by left|done].
  - right. exists loc', bk', info. split; [apply elem_of_cons; by right|done].
Qed.

Lemma add_books_keep ins l acc sym :
  is_Some (acc !! sym) → is_Some (foldl (add_book ins) acc l !! sym).
Proof.
  revert acc. induction l as [|[loc bk] l IH]; intros acc Ha; simpl; [done|].
  apply IH. unfold add_book. simpl. destruct (ins !! loc); [by apply insert_is_Some|done].
Qed.

Lemma add_books_present ins l acc loc bk info :
  (loc, bk) ∈ l → ins !! loc = Some info →
  is_Some (foldl (add_book ins) acc l !! ii_symbol info).
Proof.
  revert acc. induction l as [|[loc' bk'] l IH]; intros acc Hin Hi.
  { by apply not_elem_of_nil in Hin. }
  apply elem_of_cons in Hin as [[= <- <-]|Hin]; simpl.
  - apply add_books_keep. unfold add_book. simpl. rewrite Hi, lookup_insert_eq. by eexists.
  - by apply IH.
Qed.

Lemma add_instruments_spec l acc sym :
  (∀ s, acc !! sym = Some s → foldl add_instrument acc l !! sym = Some s) ∧
  (acc !! sym = None → ∀ s, foldl add_instrument acc l !! sym = Some s →
    ∃ loc info, (loc, info) ∈ l ∧ ii_symbol info = sym ∧ s = empty_snapshot info).
Proof.
  revert acc. induction l as [|[loc info] l IH]; intros acc; simpl.
  { split; [done|]. intros -> s. done. }
  destruct (IH (add_instrument acc (loc, info))) as [IH1 IH2]. split.
  - intros s Hs. apply IH1. unfold add_instrument. simpl.
    destruct (acc !! ii_symbol info) eqn:E; [done|].
    rewrite lookup_insert_ne; [done|]. intros Heq. rewrite Heq in E. congruence.
  - intros Hn s Hs. unfold add_instrument in *. simpl in *.
    destruct (acc !! ii_symbol info) as [s0|] eqn:E.
    + destruct (IH2 Hn s Hs) as (loc' & info' & Hin & ?). exists loc', info'.
      split; [apply elem_of_cons; by right|done].
    + destruct (decide (ii_symbol info = sym)) as [<-|Hne].
      * rewrite (IH1 (empty_snapshot info)) in Hs by apply lookup_insert_eq.
        injection Hs as <-. exists loc, info. split; [apply elem_of_cons; by left|done].
      * destruct (IH2 ltac:(by rewrite lookup_insert_ne) s Hs) as (loc' & info' & Hin & ?).
        exists loc', info'. split; [apply elem_of_cons; by right|done].
Qed.

Lemma add_instruments_present l acc loc info :
  (loc, info) ∈ l → is_Some (foldl add_instrument acc l !! ii_symbol info).
Proof.
  revert acc. induction l as [|[loc' info'] l IH]; intros acc Hin.
  { by apply not_elem_of_nil in Hin. }
  apply elem_of_cons in Hin as [[= <- <-]|Hin]; simpl; [|by apply IH].
  assert (is_Some (add_instrument acc (loc, info) !! ii_symbol info)) as [s Hs].
  { unfold add_instrument. simpl. destruct (acc !! ii_symbol info) eqn:E; [by eexists|].
    rewrite lookup_insert_eq. by eexists. }
  exists s. by apply add_instruments_spec.
Qed.

Lemma elem_of_list_books st loc bk : (loc, bk) ∈ list_books (books st) ↔ books st !! loc = Some bk.
Proof. rewrite list_books_perm. apply elem_of_map_to_list. Qed.

Lemma elem_of_list_instruments st loc info :
  (loc, info) ∈ list_instruments (instruments st) ↔ instruments st !! loc = Some info.
Proof. rewrite list_instruments_perm. apply elem_of_map_to_list. Qed.

(** ** The books of a snapshot *)

(** The view of one instrument. *)
Definition instrument_view (st : Engine) (loc : Z) (info : InstrumentInfo) : OrderBookSnapshot :=
  match get_book st loc with
  | Some bk => book_snapshot info bk
  | None => empty_snapshot info
  end.

(** No two instruments share a symbol. *)
Definition symbols_distinct (st : Engine) : Prop :=
  ∀ loc loc' info info', get_instrument st loc = Some info → get_instrument st loc' = Some info' →
    ii_symbol info = ii_symbol info' → loc = loc'.

(** An entry of the snapshot is the book or the empty view of an instrument. *)
Lemma snapshot_entry now st sym s :
  ss_books (build_snapshot now st) !! sym = Some s →
  ∃ loc info, get_instrument st loc = Some info ∧ ii_symbol info = sym ∧
    ((∃ bk, get_book st loc = Some bk ∧ s = book_snapshot info bk) ∨
     (s = empty_snapshot info ∧
      foldl (add_book (instruments st)) ∅ (list_books (books st)) !! sym = None)).
Proof.
  unfold build_snapshot, get_book, get_instrument. cbn [ss_books]. intros Hs.
  set (acc := foldl (add_book (instruments st)) ∅ (list_books (books st))) in *.
  destruct (acc !! sym) as [s0|] eqn:E.
  - destruct (add_instruments_spec (list_instruments (instruments st)) acc sym) as [H1 _].
    rewrite (H1 _ E) in Hs. injection Hs as <-.
    apply add_books_origin in E as [E|(loc & bk & info & Hin & Hi & Hsym & ->)].
    { by rewrite lookup_empty in E. }
    apply elem_of_list_books in Hin. exists loc, info. split_and!; [done|done|]. left. eauto.
  - destruct (add_instruments_spec (list_instruments (instruments st)) acc sym) as [_ H2].
    destruct (H2 E _ Hs) as (loc & info & Hin & Hsym & ->).
    apply elem_of_list_instruments in Hin. exists loc, info. split_and!; [done|done|]. by right.
Qed.

Lemma snapshot_present now st loc info :
  get_instrument st loc = Some info →
  is_Some (ss_books (build_snapshot now st) !! ii_symbol info).
Proof.
  intros Hi. unfold build_snapshot. cbn [ss_books].
  apply (add_instruments_present _ _ loc). by apply elem_of_list_instruments.
Qed.

Lemma snapshot_view now st loc info :
  symbols_distinct st → get_instrument st loc = Some info →
  ss_books (build_snapshot now st) !! ii_symbol info = Some (instrument_view st loc info).
Proof.
  intros Hd Hi. destruct (snapshot_present now st loc info Hi) as [s Hs]. rewrite Hs.
  destruct (snapshot_entry _ _ _ _ Hs) as (loc' & info' & Hi' & Hsym & Hcase).
  assert (loc' = loc) as -> by (by eapply Hd). rewrite Hi in Hi'. injection Hi' as <-.
  unfold instrument_view. destruct Hcase as [(bk & Hbk & ->)|[-> Hnone]]; [by rewrite Hbk|].
  destruct (get_book st loc) as [bk|] eqn:Hbk; [exfalso|done].
  destruct (add_books_present (instruments st) (list_books (books st)) ∅ loc bk info) as [s Hs'].
  - by apply elem_of_list_books.
  - done.
  - congruence.
Qed.

(** ** The symbol index *)

Lemma add_symbols_spec l (acc : gmap string string) k sym :
  foldl add_symbol acc l !! k = Some sym →
  acc !! k = Some sym ∨ (sym ∈ l.*1 ∧ to_lower sym = k).
Proof.
  revert acc. induction l as [|[sym' s'] l IH]; intros acc; simpl; [by left|].
  intros [Ha|[Hin Hk]]%IH.
  - unfold add_symbol in Ha. simpl in Ha.
    apply lookup_insert_Some in Ha as [[<- <-]|[_ Ha]]; [right|by left].
    split; [apply elem_of_cons; by left|done].
  - right. split; [apply elem_of_cons; by right|done].
Qed.

Lemma add_symbols_present l (acc : gmap string string) sym :
  sym ∈ l.*1 ∨ is_Some (acc !! to_lower sym) → is_Some (foldl add_symbol acc l !! to_lower sym).
Proof.
  revert acc. induction l as [|[sym' s'] l IH]; intros acc Hin; simpl.
  { destruct Hin as [Hin|?]; [by apply not_elem_of_nil in Hin|done]. }
  apply IH. destruct Hin as [[->|Hin]%elem_of_cons|Ha]; [right|by left|right].
  - unfold add_symbol. simpl. rewrite lookup_insert_eq. by eexists.
  - unfold add_symbol. simpl. by apply insert_is_Some.
Qed.

Lemma elem_of_snapshot_symbols (m : gmap string OrderBookSnapshot) sym :
  sym ∈ (list_snapshots m).*1 ↔ is_Some (m !! sym).
Proof.
  rewrite list_elem_of_fmap. split.
  - intros ([k s] & -> & Hin). rewrite list_snapshots_perm in Hin.
    apply elem_of_map_to_list in Hin. by eexists.
  - intros [s Hs]. exists (sym, s). split; [done|]. rewrite list_snapshots_perm.
    by apply elem_of_map_to_list.
Qed.

Lemma index_sound now st k sym :
  ss_symbol_index (build_snapshot now st) !! k = Some sym →
  is_Some (ss_books (build_snapshot now st) !! sym) ∧ to_lower sym = k.
Proof.
  intros [E|[Hin Hk]]%add_symbols_spec; [by rewrite lookup_empty in E|].
  split; [|done]. by apply elem_of_snapshot_symbols.
Qed.

Lemma index_complete now st sym :
  is_Some (ss_books (build_snapshot now st) !! sym) →
  is_Some (ss_symbol_index (build_snapshot now st) !! to_lower sym).
Proof. intros Hs. apply add_symbols_present. left. by apply elem_of_snapshot_symbols. Qed.

End facts.

(** ** Publication *)

(** The messages of a run, the [i]-th applied at time [now i]. *)
Fixpoint run_system `{MapOrder} (now : nat → Z) (i : nat) (msgs : list ParsedMessage)
    (s : System) : outcome System :=
  match msgs with
  | [] => Ret s
  | msg :: msgs => s ← apply (now i) msg s; run_system now (S i) msgs s
  end.

(** The engine as [main] configures it. *)
Definition configured (interval : Z) : Engine := set_snapshot_interval interval Engine_init.

Lemma configured_inv interval : engine_inv (configured interval).
Proof.
  destruct Engine_init_inv as [Hl Hb Ho]. split; [|done..].
  intros k. etrans; [|apply (Hl k)]. by apply level_at_books.
Qed.

Section publication.
Context `{MapOrder} (now : nat → Z) (k : Z) (Hk : 0 < k).

(** The snapshot that is current after [n] messages of a feed. *)
Definition published_after (msgs : list ParsedMessage) (n : nat) : option SystemSnapshot :=
  let j := Z.to_nat (Z.of_nat n / k * k) in
  if decide (j = 0%nat) then None
  else Some (build_snapshot (now j) (run (take j msgs) (configured k))).

Lemma last_multiple n : 0 ≤ n → n / k * k ≤ n < n / k * k + k.
Proof.
  intros. pose proof (Z.div_mod n k ltac:(lia)) as E. pose proof (Z.mod_pos_bound n k Hk).
  rewrite Z.mul_comm in E. lia.
Qed.

Lemma published_step msgs n :
  published_after msgs (S n) =
  if decide (Z.of_nat (S n) mod k = 0)
  then Some (build_snapshot (now (S n)) (run (take (S n) msgs) (configured k)))
  else published_after msgs n.
Proof.
  unfold published_after. pose proof (Z.div_mod (Z.of_nat (S n)) k ltac:(lia)) as E.
  rewrite Z.mul_comm in E.
  pose proof (last_multiple (Z.of_nat n) ltac:(lia)) as Hn.
  destruct (decide (Z.of_nat (S n) mod k = 0)) as [Hm|Hm].
  - rewrite Hm, Z.add_0_r in E. rewrite <- E, Nat2Z.id. by rewrite decide_False.
  - assert (Z.of_nat n / k = Z.of_nat (S n) / k) as ->; [|done]. symmetry.
    pose proof (Z.mod_pos_bound (Z.of_nat (S n)) k Hk).
    apply (Z.div_unique_pos _ _ _ (Z.of_nat (S n) mod k - 1)); [lia|].
    rewrite Z.mul_comm. lia.
Qed.

(** After [n] messages of the feed the engine has run them, and the snapshot
    of the last multiple of the interval is current. *)
Lemma run_system_spec msgs done_ todo s :
  msgs = done_ ++ todo → Z.of_nat (length msgs) < 2 ^ 64 →
  sys_engine s = run done_ (configured k) →
  sys_published s = published_after msgs (length done_) →
  ∃ s', run_system now (S (length done_)) todo s = Ret s' ∧
    sys_engine s' = run msgs (configured k) ∧
    sys_published s' = published_after msgs (length msgs).
Proof.
  revert done_ s. induction todo as [|msg todo IH]; intros done_ s Hmsgs Hlen He Hp.
  { rewrite app_nil_r in Hmsgs. subst. by exists s. }
  assert (take (S (length done_)) msgs = done_ ++ [msg]) as Htake.
  { rewrite Hmsgs. change (msg :: todo) with ([msg] ++ todo). rewrite app_assoc.
    apply take_app_length'. rewrite length_app. simpl. lia. }
  assert (run (done_ ++ [msg]) (configured k) = count_message (handle msg (sys_engine s))) as Hrun
    by (by rewrite run_app, He).
  pose proof (run_config (done_ ++ [msg]) (configured k) ltac:(done)) as (Hmp & Hsi & _).
  rewrite Hrun in Hmp, Hsi. simpl in Hsi.
  assert (messages_processed (count_message (handle msg (sys_engine s))) =
    Z.of_nat (S (length done_))) as Hcount.
  { rewrite Hmp. rewrite length_app. simpl. rewrite u64_id; [lia|].
    rewrite Hmsgs, length_app in Hlen. simpl in Hlen. lia. }
  simpl run_system. unfold apply, maybe_publish_snapshot. cbn [sys_engine].
  rewrite Hcount. simpl snapshot_interval. rewrite Hsi.
  rewrite (proj2 (Z.eqb_neq k 0)) by lia.
  pose proof (published_step msgs (length done_)) as Hstep. rewrite Htake, Hrun in Hstep.
  assert (length (done_ ++ [msg]) = S (length done_)) as Hlen1
    by (rewrite length_app; simpl; lia).
  assert (msgs = (done_ ++ [msg]) ++ todo) as Hmsgs' by (by rewrite <- app_assoc).
  destruct (Z.eqb_spec (Z.of_nat (S (length done_)) mod k) 0) as [E|E]; cbn [mbind outcome_bind];
    rewrite <- Hlen1; apply IH; cbn [publish sys_engine sys_published];
    try done; rewrite Hlen1, Hstep.
  - by rewrite decide_True.
  - by rewrite decide_False.
Qed.

End publication.

(** ** Properties *)

(** Two instruments, one with a book. *)
Definition sample_system : Engine := run [
  StockDirectory {| sd_stock_locate := 7; sd_tracking_number := 0; sd_timestamp := 1;
    sd_stock := "Abc"; sd_market_category := "Q"%char; sd_financial_status := "N"%char;
    sd_round_lot_size := 100; sd_round_lots_only := "N"%char; sd_issue_classification := "C"%char;
    sd_issue_sub_type := "Z"; sd_authenticity := "P"%char; sd_short_sale_threshold := "N"%char;
    sd_ipo_flag := "N"%char; sd_luld_ref_price_tier := "1"%char; sd_etp_flag := "N"%char;
    sd_etp_leverage_factor := 0; sd_inverse_indicator := "N"%char |};
  AddOrder {| ao_stock_locate := 7; ao_tracking_number := 0; ao_timestamp := 2;
    ao_order_ref := 1; ao_side := "B"%char; ao_shares := 100; ao_stock := "Abc";
    ao_price := mkPrice 5000 |};
  AddOrder {| ao_stock_locate := 9; ao_tracking_number := 0; ao_timestamp := 3;
    ao_order_ref := 2; ao_side := "S"%char; ao_shares := 40; ao_stock := "Xyz";
    ao_price := mkPrice 70000 |}] (configured 2).

Lemma sample_instruments l i :
  get_instrument sample_system l = Some i →
  l = 7 ∧ ii_symbol i = "Abc" ∨ l = 9 ∧ ii_symbol i = "UNKNOWN_9".
Proof.
  unfold get_instrument. intros Hl. apply elem_of_map_to_list in Hl. revert Hl.
  vm_compute (map_to_list (instruments sample_system)). rewrite !elem_of_cons. intros Hl.
  repeat destruct Hl as [[= -> ->]|Hl]; [..|by apply not_elem_of_nil in Hl]; auto.
Qed.

Lemma sample_symbols_distinct : symbols_distinct sample_system.
Proof.
  intros loc loc' info info' H1 H2 Hs.
  destruct (sample_instruments _ _ H1) as [[-> E1]|[-> E1]],
    (sample_instruments _ _ H2) as [[-> E2]|[-> E2]];
    [done|congruence|congruence|done].
Qed.

(** C26: A snapshot is the engine: when no two instruments share a symbol, the
    books of a snapshot are exactly the views of the instruments (the book of
    the instrument's locate, or an empty book for one without activity), for
    every order in which the hash maps are traversed. *)
Theorem snapshot_books `{MapOrder} now st sym s :
  symbols_distinct st →
  ss_books (build_snapshot now st) !! sym = Some s ↔
  ∃ loc info, get_instrument st loc = Some info ∧ ii_symbol info = sym ∧
    s = instrument_view st loc info.
Proof.
  intros Hd. split.
  - intros Hs. destruct (snapshot_entry _ _ _ _ Hs) as (loc & info & Hi & Hsym & _).
    exists loc, info. split_and!; [done|done|]. subst sym.
    rewrite (snapshot_view now st loc info Hd Hi) in Hs. congruence.
  - intros (loc & info & Hi & <- & ->). by apply snapshot_view.
Qed.

Lemma snapshot_books_witness :
  obs_stock_locate <$> ss_books (build_snapshot 0 sample_system) !! "UNKNOWN_9" = Some 9.
Proof.
  rewrite (proj2 (snapshot_books 0 sample_system "UNKNOWN_9"
    (instrument_view sample_system 9 (placeholder 9)) sample_symbols_distinct)).
  - vm_compute. reflexivity.
  - exists 9, (placeholder 9). split; [vm_compute; reflexivity|]. by split.
Defined.

(** The symbol index finds what the snapshot has: whatever the engine
    holds, a canonical symbol found under a lower-case key is a book of the
    snapshot that spells the key, so that the [at] that follows it never
    throws; and every book is found under its lower-cased symbol, up to the
    choice between books whose symbols differ in case only. *)
Theorem symbol_index_correct `{MapOrder} now st :
  let snap := build_snapshot now st in
  (∀ k sym, ss_symbol_index snap !! k = Some sym →
    is_Some (ss_books snap !! sym) ∧ to_lower sym = k) ∧
  (∀ sym, is_Some (ss_books snap !! sym) →
    ∃ sym', ss_symbol_index snap !! to_lower sym = Some sym' ∧ to_lower sym' = to_lower sym ∧
      is_Some (ss_books snap !! sym')).
Proof.
  intros snap. split.
  - intros k sym Hk. by apply index_sound.
  - intros sym Hs. destruct (index_complete now st sym Hs) as [sym' Hs'].
    exists sym'. split; [done|]. destruct (index_sound _ _ _ _ Hs'). done.
Qed.

Definition obs_side (bid : bool) (s : OrderBookSnapshot) : list PriceLevelSnapshot :=
  if bid then obs_bids s else obs_asks s.

(** The levels of a snapshot are the resting orders: a side lists the
    prices at which orders of the book rest, best first and each once, with the
    sum of their shares and their number. *)
Theorem snapshot_levels st loc bk info bid :
  engine_inv st → get_book st loc = Some bk →
  ∃ ps, StronglySorted (λ p q, side_ltb bid p q = true) ps ∧
    (∀ p, p ∈ ps ↔ ∃ ref r, get_order st ref = Some r ∧ order_slot r = (loc, bid, p)) ∧
    obs_side bid (book_snapshot info bk) =
      (λ p, {| pls_price := to_double p;
               pls_total_shares := shares_at (order_index st) (loc, bid, p);
               pls_order_count := orders_at (order_index st) (loc, bid, p) |}) <$> ps.
Proof.
  intros Hinv Hbk. destruct (inv_books _ Hinv _ _ Hbk) as (Hok & _ & _).
  destruct (Hok bid) as [[Hs _] _].
  assert (∀ p, om_find (side_ltb bid) p (side_map bid bk) =
    level_of (order_index st) (loc, bid, p)) as Hlv.
  { intros p. rewrite <- (inv_levels _ Hinv). unfold level_at, get_book in *. by rewrite Hbk. }
  exists (side_map bid bk).*1. split; [|split].
  - clear Hlv. unfold om_sorted in Hs. induction Hs as [|[k v] m Hs IH Hf]; [constructor|].
    cbn. constructor; [done|]. by rewrite Forall_fmap.
  - intros p. unfold get_order. rewrite <- level_of_is_Some, <- Hlv, list_elem_of_fmap. split.
    + intros ([k v] & -> & Hin). exists v. simpl.
      apply (om_elem_find (side_ltb bid)); done.
    + intros [l Hl]. apply om_find_elem in Hl; [|apply _]. by exists (p, l).
  - assert (obs_side bid (book_snapshot info bk) = snapshot_level <$> side_map bid bk) as ->
      by (by destruct bid).
    rewrite <- list_fmap_compose. apply list_fmap_ext. intros i [p l] Hi.
    apply list_elem_of_lookup_2 in Hi. apply (om_elem_find (side_ltb bid)) in Hi; [|done].
    rewrite Hlv in Hi. unfold level_of in Hi. destruct (_ =? 0); [done|].
    injection Hi as <-. done.
Qed.

Lemma snapshot_levels_witness :
  ∃ ps, StronglySorted (λ p q, side_ltb false p q = true) ps ∧
    (∀ p, p ∈ ps ↔ ∃ ref r, get_order sample_system ref = Some r ∧ order_slot r = (9, false, p)) ∧
    obs_side false (instrument_view sample_system 9 (placeholder 9)) =
      (λ p, {| pls_price := to_double p;
               pls_total_shares := shares_at (order_index sample_system) (9, false, p);
               pls_order_count := orders_at (order_index sample_system) (9, false, p) |}) <$> ps.
Proof.
  assert (engine_inv sample_system) as Hinv.
  { apply run_inv; [apply configured_inv| |by vm_compute].
    vm_compute. repeat split; try done; congruence. }
  assert (get_book sample_system 9 = Some (default (new_book 9) (get_book sample_system 9))) as Hb
    by (vm_compute; reflexivity).
  unfold instrument_view. rewrite Hb.
  exact (snapshot_levels sample_system 9 _ (placeholder 9) false Hinv Hb).
Defined.

(** C27: Snapshots come every [k] messages: with interval [k] a feed runs to
    its end, and after it the current snapshot is the one built right after
    the last multiple of [k] messages, none before the first [k]; so readers
    are never [k] or more messages behind.  With interval zero the first message is undefined
    behaviour. *)
Theorem publication_cadence `{MapOrder} now k msgs :
  0 ≤ k → Z.of_nat (length msgs) < 2 ^ 64 →
  let start := {| sys_engine := configured k; sys_published := None |} in
  (0 < k → ∃ s, run_system now 1 msgs start = Ret s ∧
    sys_engine s = run msgs (configured k) ∧
    sys_published s = published_after now k msgs (length msgs) ∧
    Z.of_nat (length msgs) - Z.of_nat (length msgs) / k * k < k) ∧
  (k = 0 → msgs ≠ [] → run_system now 1 msgs start = Undef).
Proof.
  intros Hk0 Hlen start. split.
  - intros Hk. destruct (run_system_spec now k Hk msgs [] msgs start eq_refl Hlen eq_refl)
      as (s & E & Hs & Hp).
    { unfold published_after. cbn [length Z.of_nat]. by rewrite Z.div_0_l by lia. }
    exists s. split_and!; try done. pose proof (last_multiple k Hk (Z.of_nat (length msgs))). lia.
  - intros -> Hne. destruct msgs as [|msg msgs]; [done|]. simpl.
    unfold apply, maybe_publish_snapshot. simpl.
    by destruct (handle_config msg (configured 0)) as (_ & -> & _).
Qed.

Lemma publication_cadence_witness :
  ∃ s, run_system (λ _, 0) 1 [OrderDelete {| od_stock_locate := 0; od_tracking_number := 0;
      od_timestamp := 0; od_order_ref := 5 |}]
    {| sys_engine := configured 1; sys_published := None |} = Ret s ∧
    skipped_unknown_ref (sys_engine s) = 1.
Proof.
  destruct (publication_cadence (λ _, 0) 1 [OrderDelete {| od_stock_locate := 0;
      od_tracking_number := 0; od_timestamp := 0; od_order_ref := 5 |}]) as [H _]; [lia|done|].
  destruct H as (s & H1 & H2 & _); [lia|]. exists s. split; [exact H1|].
  rewrite H2. vm_compute. reflexivity.
Defined.
