(* ===== verification/RestServer.v ===== *)
(** The routes of [src/rest_server.cpp].

    The HTTP library routes a request to a handler and sends the response; the
    JSON library prints the body.  A handler is a function of the current
    snapshot, the clock and the request's parameters; its result is the status
    and the JSON value, or the exception it throws.  Status 200 is what the
    HTTP library sends when a handler sets none. *)

From S2P Require Import Prelude Messages StdMap OrderBook BookEngine Double Snapshot.
From Stdlib Require Import Strings.Ascii.
From Stdlib Require Strings.String.

#[local] Open Scope Z_scope.

Inductive json :=
| JNull
| JBool (b : bool)
| JInt (z : Z)
| JDouble (d : double)
| JString (s : string)
| JArray (l : list json)
| JObject (l : list (string * json)).

Record response := { status : Z; body : json }.

Definition ok (j : json) : response := {| status := 200; body := j |}.
Definition error (code : Z) (msg : string) : response := {|
  status := code; body := JObject [("error", JString msg)] |}.

(** [std::string(1, c)] *)
Definition string_of_char (c : ascii) : string := String c "".

Definition trading_state_description (state : ascii) : string :=
  match state with
  | "T"%char => "Trading"
  | "H"%char => "Halted"
  | "P"%char => "Paused"
  | "Q"%char => "Quotation only"
  | _ => "Unknown"
  end.

(** ** [std::stoi] *)

Definition is_space (c : ascii) : bool :=
  let n := Ascii.nat_of_ascii c in ((9 <=? n) && (n <=? 13) || (n =? 32))%nat.

Definition digit_of (c : ascii) : option Z :=
  let n := Z.of_nat (Ascii.nat_of_ascii c) in
  if (48 <=? n) && (n <=? 57) then Some (n - 48) else None.

(** Skip leading white space; count what was skipped. *)
Fixpoint skip_spaces (l : list ascii) : nat * list ascii :=
  match l with
  | c :: l' => if is_space c then let '(n, r) := skip_spaces l' in (S n, r) else (0%nat, l)
  | [] => (0%nat, [])
  end.

(** The decimal digits at the front: their value, and how many. *)
Fixpoint read_digits (acc : Z) (l : list ascii) : Z * nat :=
  match l with
  | c :: l =>
      match digit_of c with
      | Some d => let '(v, n) := read_digits (acc * 10 + d) l in (v, S n)
      | None => (acc, 0%nat)
      end
  | [] => (acc, 0%nat)
  end.

Definition read_sign (l : list ascii) : Z * nat * list ascii :=
  match l with
  | c :: l' =>
      if Ascii.eqb c "-"%char then (-1, 1%nat, l')
      else if Ascii.eqb c "+"%char then (1, 1%nat, l') else (1, 0%nat, l)
  | [] => (1, 0%nat, [])
  end.

(** The value and the number of characters used; [None] for the exceptions
    [invalid_argument] (no digits) and [out_of_range]. *)
Definition stoi (s : string) : option (Z * nat) :=
  let '(n0, l) := skip_spaces (Strings.String.list_ascii_of_string s) in
  let '(sign, n1, l) := read_sign l in
  let '(v, n2) := read_digits 0 l in
  if (n2 =? 0)%nat then None
  else
    let v := sign * v in
    if (- 2 ^ 31 <=? v) && (v <? 2 ^ 31) then Some (v, (n0 + n1 + n2)%nat) else None.

(** ** Routes *)

Section routes.
Context `{MapOrder}.

(** GET /status *)
Definition status_route (now_ms : Z) (snap : option SystemSnapshot) : response :=
  match snap with
  | None => ok (JObject [
      ("messages_processed", JInt 0);
      ("instruments_tracked", JInt 0);
      ("snapshot_timestamp", JInt 0);
      ("snapshot_age_ms", JNull);
      ("pipeline_complete", JBool false)])
  | Some snap => ok (JObject [
      ("messages_processed", JInt (ss_messages_processed snap));
      ("instruments_tracked", JInt (Z.of_nat (size (ss_books snap))));
      ("snapshot_timestamp", JInt (ss_snapshot_timestamp snap));
      ("snapshot_age_ms", JInt (now_ms - ss_snapshot_timestamp snap));
      ("pipeline_complete", JBool (ss_pipeline_complete snap))])
  end.

Definition unavailable : response := error 503 "snapshot not yet available".

Definition instrument_json (book : OrderBookSnapshot) : json :=
  JObject [
    ("symbol", JString (obs_symbol book));
    ("stock_locate", JInt (obs_stock_locate book));
    ("trading_state", JString (string_of_char (obs_trading_state book)));
    ("trading_state_description",
      JString (trading_state_description (obs_trading_state book)));
    ("market_category",
      if Ascii.eqb (obs_market_category book) zero then JNull
      else JString (string_of_char (obs_market_category book)));
    ("round_lot_size",
      if obs_round_lot_size book =? 0 then JNull else JInt (obs_round_lot_size book))].

(** GET /instruments *)
Definition instruments_route (snap : option SystemSnapshot) : response :=
  match snap with
  | None => unavailable
  | Some snap =>
      let instruments :=
        (λ kv : string * OrderBookSnapshot, instrument_json kv.2) <$>
          list_snapshots (ss_books snap) in
      ok (JObject [
        ("count", JInt (Z.of_nat (length instruments)));
        ("instruments", JArray instruments)])
  end.

(** The depth of a request, or the message of its rejection. *)
Definition depth_of (param : option string) : string + Z :=
  match param with
  | None => inr 10
  | Some d =>
      match stoi d with
      | None => inl "depth must be an integer"
      | Some (depth, pos) =>
          if negb (pos =? Strings.String.length d)%nat then inl "depth must be an integer"
          else if depth <? 1 then inl "depth must be at least 1"
          else if 50 <? depth then inl "depth must not exceed 50"
          else inr depth
      end
  end.

Definition level_json (level : PriceLevelSnapshot) : json :=
  JObject [
    ("price", JDouble (pls_price level));
    ("total_shares", JInt (pls_total_shares level));
    ("order_count", JInt (pls_order_count level))].

(** The loop that collects the levels of a side, [count] of them so far. *)
Fixpoint level_loop (depth count : Z) (levels : list PriceLevelSnapshot) : list json * Z :=
  match levels with
  | [] => ([], count)
  | level :: levels =>
      if depth <=? count then ([], count)
      else
        let '(l, n) := level_loop depth (count + 1) levels in (level_json level :: l, n)
  end.

Definition timestamp_json (ts : Z) : json := if 0 <? ts then JInt ts else JNull.

Definition book_json (depth : Z) (book : OrderBookSnapshot) : json :=
  let '(bids, bid_count) := level_loop depth 0 (obs_bids book) in
  let '(asks, ask_count) := level_loop depth 0 (obs_asks book) in
  JObject [
    ("symbol", JString (obs_symbol book));
    ("trading_state", JString (string_of_char (obs_trading_state book)));
    ("last_update_timestamp", timestamp_json (obs_last_update_timestamp book));
    ("bid_count", JInt bid_count);
    ("ask_count", JInt ask_count);
    ("bids", JArray bids);
    ("asks", JArray asks)].

(** The lookup the two book routes share: [find] in the index, then [at]. *)
Definition find_book (snap : SystemSnapshot) (symbol : string)
  : outcome (response + OrderBookSnapshot) :=
  match ss_symbol_index snap !! to_lower symbol with
  | None => Ret (inl (error 404 ("instrument not found: " +:+ symbol)))
  | Some sym =>
      match ss_books snap !! sym with
      | Some book => Ret (inr book)
      | None => Throw "unordered_map::at"
      end
  end.

(** GET /book/:symbol.  [requested] is [req.path_params.at("symbol")], which the
    handler reads after its checks of the snapshot and the depth. *)
Definition book_handler (depth_param : option string) (requested : outcome string)
    (snap : option SystemSnapshot) : outcome response :=
  match snap with
  | None => Ret unavailable
  | Some snap =>
      match depth_of depth_param with
      | inl msg => Ret (error 400 msg)
      | inr depth =>
          symbol ← requested;
          r ← find_book snap symbol;
          match r with
          | inl resp => Ret resp
          | inr book => Ret (ok (book_json depth book))
          end
      end
  end.

(** The handler for a path with a symbol. *)
Definition book_route (depth_param : option string) (symbol : string)
    : option SystemSnapshot → outcome response := book_handler depth_param (Ret symbol).

(** [ask_raw - bid_raw] on [int32_t] *)
Definition int32_sub (a b : Z) : outcome Z :=
  if (- 2 ^ 31 <=? a - b) && (a - b <? 2 ^ 31) then Ret (a - b) else Undef.

(** [crossed] and [spread] of the two best levels. *)
Definition spread_of (bid ask : option PriceLevelSnapshot) : outcome (bool * json) :=
  match bid, ask with
  | Some b, Some a =>
      ask_raw ← ticks_of (pls_price a);
      bid_raw ← ticks_of (pls_price b);
      diff ← int32_sub ask_raw bid_raw;
      Ret (ask_raw <? bid_raw, JDouble (double_div (double_of_Z diff) double_10000))
  | _, _ => Ret (false, JNull)
  end.

Definition best_json (o : option PriceLevelSnapshot) : json :=
  match o with Some level => level_json level | None => JNull end.

Definition top_json (book : OrderBookSnapshot) : outcome json :=
  let bid := head (obs_bids book) in
  let ask := head (obs_asks book) in
  '(crossed, spread) ← spread_of bid ask;
  Ret (JObject [
    ("symbol", JString (obs_symbol book));
    ("trading_state", JString (string_of_char (obs_trading_state book)));
    ("last_update_timestamp", timestamp_json (obs_last_update_timestamp book));
    ("best_bid", best_json bid);
    ("best_ask", best_json ask);
    ("spread", spread);
    ("crossed", JBool crossed)]).

(** GET /book/:symbol/top *)
Definition top_handler (requested : outcome string) (snap : option SystemSnapshot)
  : outcome response :=
  match snap with
  | None => Ret unavailable
  | Some snap =>
      symbol ← requested;
      r ← find_book snap symbol;
      match r with
      | inl resp => Ret resp
      | inr book => j ← top_json book; Ret (ok j)
      end
  end.

Definition top_route (symbol : string) : option SystemSnapshot → outcome response :=
  top_handler (Ret symbol).

End routes.
