(* ===== verification/RestTheorems.v ===== *)
(** What the REST routes answer, on the snapshots the engine builds. *)

From S2P Require Import Prelude Messages StdMap OrderBook BookEngine EngineLevels.
From S2P Require Import EngineInvariant EngineProperties Double DoubleFacts.
From S2P Require Import Snapshot SnapshotTheorems RestServer.
From Stdlib Require Import Strings.Ascii.
From Stdlib Require Strings.String.

#[local] Open Scope Z_scope.

(** ** Depth *)

(** The decimal numeral of a list of digits, and its value. *)
Definition numeral (ds : list Z) : string :=
  Strings.String.string_of_list_ascii ((λ d, Ascii.ascii_of_nat (Z.to_nat (48 + d))) <$> ds).

Definition numeral_value (ds : list Z) : Z := foldl (λ acc d, acc * 10 + d) 0 ds.

Definition digit (d : Z) : Prop := 0 ≤ d ≤ 9.

Lemma digit_cases d : digit d → d ∈ [0; 1; 2; 3; 4; 5; 6; 7; 8; 9].
Proof. unfold digit. intros. rewrite !elem_of_cons. lia. Qed.

Lemma digit_of_digit d :
  digit d → digit_of (Ascii.ascii_of_nat (Z.to_nat (48 + d))) = Some d ∧
  is_space (Ascii.ascii_of_nat (Z.to_nat (48 + d))) = false ∧
  (∀ l, read_sign (Ascii.ascii_of_nat (Z.to_nat (48 + d)) :: l) =
    (1, 0%nat, Ascii.ascii_of_nat (Z.to_nat (48 + d)) :: l)).
Proof.
  intros Hd%digit_cases. rewrite !elem_of_cons in Hd.
  repeat destruct Hd as [->|Hd]; [by vm_compute..|by apply not_elem_of_nil in Hd].
Qed.

Lemma read_digits_numeral ds acc :
  Forall digit ds →
  read_digits acc ((λ d, Ascii.ascii_of_nat (Z.to_nat (48 + d))) <$> ds) =
  (foldl (λ acc d, acc * 10 + d) acc ds, length ds).
Proof.
  intros Hd. revert acc. induction Hd as [|d ds Hd _ IH]; intros acc; [done|].
  cbn [fmap list_fmap read_digits]. destruct (digit_of_digit d Hd) as (-> & _ & _).
  change (list_fmap _ _ ?f ds) with (f <$> ds). by rewrite IH.
Qed.

Lemma numeral_nonneg ds acc :
  Forall digit ds → 0 ≤ acc → 0 ≤ foldl (λ acc d, acc * 10 + d) acc ds.
Proof.
  intros Hd. revert acc. induction Hd as [|d ds Hd _ IH]; intros acc Ha; [done|].
  simpl. apply IH. unfold digit in Hd. lia.
Qed.

Lemma list_ascii_of_numeral ds :
  Strings.String.list_ascii_of_string (numeral ds) =
  (λ d, Ascii.ascii_of_nat (Z.to_nat (48 + d))) <$> ds.
Proof. apply Strings.String.list_ascii_of_string_of_list_ascii. Qed.

Lemma length_string_of_list l :
  Strings.String.length (Strings.String.string_of_list_ascii l) = length l.
Proof. induction l; simpl; auto. Qed.

Lemma stoi_numeral ds :
  ds ≠ [] → Forall digit ds →
  stoi (numeral ds) =
    if numeral_value ds <? 2 ^ 31 then Some (numeral_value ds, length ds) else None.
Proof.
  intros Hne Hd. unfold stoi. rewrite list_ascii_of_numeral.
  destruct ds as [|d ds]; [done|]. inversion Hd as [|? ? Hd0 Hds]; subst.
  destruct (digit_of_digit d Hd0) as (_ & Hsp & Hsign).
  pose proof (numeral_nonneg (d :: ds) 0 Hd ltac:(lia)) as Hpos.
  pose proof (read_digits_numeral (d :: ds) 0 Hd) as Hread.
  cbn [fmap list_fmap] in *. cbn [skip_spaces]. rewrite Hsp, Hsign, Hread.
  cbn [length Nat.eqb]. change (foldl _ 0 (d :: ds)) with (numeral_value (d :: ds)) in *.
  rewrite Z.mul_1_l, (proj2 (Z.leb_le (- 2 ^ 31) _)) by lia. simpl. done.
Qed.

(** The depth parameter: without one the depth is 10; a decimal numeral,
    leading zeros allowed, is accepted exactly when its value is between 1 and
    50, and else rejected with the message for its fault (a value that does
    not fit an [int] counts as no integer); whatever the parameter, an
    accepted depth is between 1 and 50. *)
Theorem depth_validation ds :
  ds ≠ [] → Forall digit ds →
  depth_of None = inr 10 ∧
  (∀ param d, depth_of param = inr d → 1 ≤ d ≤ 50) ∧
  depth_of (Some (numeral ds)) =
    let v := numeral_value ds in
    if 2 ^ 31 <=? v then inl "depth must be an integer"
    else if v <? 1 then inl "depth must be at least 1"
    else if 50 <? v then inl "depth must not exceed 50" else inr v.
Proof.
  intros Hne Hd. split; [done|split].
  - intros [s|] d; simpl; [|intros [= <-]; lia].
    destruct (stoi s) as [[v pos]|]; [|done]. destruct (negb _); [done|].
    destruct (Z.ltb_spec v 1); [done|]. destruct (Z.ltb_spec 50 v); [done|].
    intros [= <-]. lia.
  - unfold depth_of. rewrite stoi_numeral by done. cbv zeta.
    assert (Strings.String.length (numeral ds) = length ds) as ->
      by (unfold numeral; by rewrite length_string_of_list, length_fmap).
    destruct (Z.ltb_spec (numeral_value ds) (2 ^ 31)), (Z.leb_spec (2 ^ 31) (numeral_value ds));
      try lia; [|done]. by rewrite Nat.eqb_refl.
Qed.

Lemma depth_validation_witness :
  numeral [0; 2; 5] = "025" ∧ depth_of (Some (numeral [0; 2; 5])) = inr 25.
Proof.
  split; [reflexivity|].
  destruct (depth_validation [0; 2; 5]) as (_ & _ & ->); [done| |reflexivity].
  repeat constructor; unfold digit; lia.
Defined.

(** ** Lookup *)

Section lookup.
Context `{MapOrder}.

(** No two instruments have symbols that differ in case only. *)
Definition symbols_distinct_ci (st : Engine) : Prop :=
  ∀ loc loc' info info', get_instrument st loc = Some info → get_instrument st loc' = Some info' →
    to_lower (ii_symbol info) = to_lower (ii_symbol info') → loc = loc'.

Lemma symbols_ci st : symbols_distinct_ci st → symbols_distinct st.
Proof. intros Hci loc loc' info info' H1 H2 E. eapply Hci; [done..|]. by rewrite E. Qed.

Lemma find_book_total now st symbol :
  match ss_symbol_index (build_snapshot now st) !! to_lower symbol with
  | None =>
      find_book (build_snapshot now st) symbol =
        Ret (inl (error 404 ("instrument not found: " +:+ symbol)))
  | Some sym =>
      ∃ loc info book, get_instrument st loc = Some info ∧ ii_symbol info = sym ∧
        to_lower sym = to_lower symbol ∧ obs_symbol book = sym ∧
        find_book (build_snapshot now st) symbol = Ret (inr book)
  end.
Proof.
  unfold find_book. destruct (ss_symbol_index _ !! _) as [sym|] eqn:E; [|done].
  destruct (index_sound _ _ _ _ E) as [[book Hbook] Hlow]. rewrite Hbook.
  destruct (snapshot_entry _ _ _ _ Hbook) as (loc & info & Hi & Hsym & Hcase).
  exists loc, info, book. split_and!; try done. subst sym.
  by destruct Hcase as [(bk & _ & ->)|[-> _]].
Qed.

(** Any spelling of an instrument's symbol finds the instrument's view. *)
Lemma find_book_variant now st loc info v :
  symbols_distinct_ci st → get_instrument st loc = Some info →
  to_lower v = to_lower (ii_symbol info) →
  find_book (build_snapshot now st) v = Ret (inr (instrument_view st loc info)).
Proof.
  intros Hci Hi Hv. unfold find_book. rewrite Hv.
  destruct (index_complete now st (ii_symbol info)) as [sym Hsym];
    [by eapply snapshot_present|].
  rewrite Hsym. destruct (index_sound _ _ _ _ Hsym) as [[s Hs] Hlow].
  destruct (snapshot_entry _ _ _ _ Hs) as (loc' & info' & Hi' & Hsym' & _). subst sym.
  assert (loc' = loc) as -> by (by eapply Hci). rewrite Hi in Hi'. injection Hi' as <-.
  by rewrite (snapshot_view now st loc info (symbols_ci _ Hci) Hi).
Qed.

Lemma level_loop_spec depth count ls :
  0 ≤ count ≤ depth →
  level_loop depth count ls =
  (level_json <$> take (Z.to_nat (depth - count)) ls,
   count + Z.of_nat (length (take (Z.to_nat (depth - count)) ls))).
Proof.
  revert count. induction ls as [|l ls IH]; intros count Hc; cbn [level_loop].
  { rewrite take_nil. simpl. by rewrite Z.add_0_r. }
  destruct (Z.leb_spec depth count).
  - replace (depth - count) with 0 by lia. simpl. by rewrite Z.add_0_r.
  - rewrite IH by lia.
    replace (Z.to_nat (depth - count)) with (S (Z.to_nat (depth - (count + 1)))) by lia.
    cbn [take fmap list_fmap length]. f_equal. simpl length. lia.
Qed.

(** The JSON of a book, at most [d] levels a side. *)
Definition book_json_ref (d : nat) (book : OrderBookSnapshot) : json :=
  JObject [
    ("symbol", JString (obs_symbol book));
    ("trading_state", JString (string_of_char (obs_trading_state book)));
    ("last_update_timestamp", timestamp_json (obs_last_update_timestamp book));
    ("bid_count", JInt (Z.of_nat (length (take d (obs_bids book)))));
    ("ask_count", JInt (Z.of_nat (length (take d (obs_asks book)))));
    ("bids", JArray (level_json <$> take d (obs_bids book)));
    ("asks", JArray (level_json <$> take d (obs_asks book)))].

Lemma book_json_take d book : 0 ≤ d → book_json d book = book_json_ref (Z.to_nat d) book.
Proof.
  intros Hd. unfold book_json. rewrite !level_loop_spec by lia.
  by rewrite Z.sub_0_r, !Z.add_0_l.
Qed.

Lemma depth_of_range param d : depth_of param = inr d → 1 ≤ d ≤ 50.
Proof.
  destruct param as [s|]; simpl; [|intros [= <-]; lia].
  destruct (stoi s) as [[v pos]|]; [|done]. destruct (negb _); [done|].
  destruct (Z.ltb_spec v 1); [done|]. destruct (Z.ltb_spec 50 v); [done|].
  intros [= <-]. lia.
Qed.

(** ** Properties of the routes *)

(** The book route answers every request on a published snapshot, without
    an exception: 400 with the message for a bad depth, else 404 when no
    instrument has the symbol in any case, else 200 with a book whose symbol is
    the requested one up to case; before the first snapshot it answers 503. *)
Theorem book_route_total now st param symbol :
  book_route param symbol None = Ret unavailable ∧
  ∃ r, book_route param symbol (Some (build_snapshot now st)) = Ret r ∧
    match depth_of param with
    | inl msg => r = error 400 msg
    | inr d =>
        1 ≤ d ≤ 50 ∧
        ((status r = 404 ∧ ∀ loc info, get_instrument st loc = Some info →
            to_lower (ii_symbol info) ≠ to_lower symbol) ∨
         (∃ book, r = ok (book_json_ref (Z.to_nat d) book) ∧
            to_lower (obs_symbol book) = to_lower symbol))
    end.
Proof.
  split; [done|]. unfold book_route, book_handler. cbn [mbind outcome_bind].
  destruct (depth_of param) as [msg|d] eqn:Ed; [by eexists|].
  apply depth_of_range in Ed. pose proof (find_book_total now st symbol) as Hf.
  destruct (ss_symbol_index _ !! _) as [sym|] eqn:E.
  - destruct Hf as (loc & info & book & Hi & Hsym & Hlow & Hobs & ->).
    cbn [mbind outcome_bind]. eexists. split; [done|split; [done|]]. right.
    exists book. rewrite book_json_take by lia. split; [done|]. by rewrite Hobs.
  - rewrite Hf. cbn [mbind outcome_bind]. eexists. split; [done|split; [done|]]. left.
    split; [done|]. intros loc info Hi Hlow.
    destruct (index_complete now st (ii_symbol info)) as [sym' Hs];
      [by eapply snapshot_present|]. congruence.
Qed.

(** The book route shows the engine's book: under any spelling of an
    instrument's symbol, with a valid depth [d], it answers 200 with the first
    [d] levels a side of the book at the instrument's locate. *)
Theorem book_route_shows_book now st loc info v param d :
  symbols_distinct_ci st → get_instrument st loc = Some info →
  to_lower v = to_lower (ii_symbol info) → depth_of param = inr d →
  book_route param v (Some (build_snapshot now st)) =
    Ret (ok (book_json_ref (Z.to_nat d) (instrument_view st loc info))).
Proof.
  intros Hci Hi Hv Hd. unfold book_route, book_handler. cbn [mbind outcome_bind].
  rewrite Hd, (find_book_variant now st loc info) by done.
  cbn [mbind outcome_bind]. apply depth_of_range in Hd. by rewrite book_json_take by lia.
Qed.

(** C19: The top route shows the engine's top of book with exact ticks: for
    best prices [pb] and [pa] below [2^31] ticks the book is reported crossed
    exactly when [pa < pb], and the spread is the difference of the ticks (a
    negative one when crossed) divided by 10000; when one of the two is not below [2^31] the handler has
    undefined behaviour. *)
Theorem top_route_exact now st loc info bk v pb pa lb la :
  symbols_distinct_ci st → get_instrument st loc = Some info →
  to_lower v = to_lower (ii_symbol info) →
  get_book st loc = Some bk →
  head (ob_bids bk) = Some (pb, lb) → head (ob_asks bk) = Some (pa, la) →
  raw pb ∈u32 → raw pa ∈u32 →
  top_route v (Some (build_snapshot now st)) =
  if (raw pa <? 2 ^ 31) && (raw pb <? 2 ^ 31) then
    Ret (ok (JObject [
      ("symbol", JString (ii_symbol info));
      ("trading_state", JString (string_of_char (ii_trading_state info)));
      ("last_update_timestamp", timestamp_json (ob_last_update_timestamp bk));
      ("best_bid", level_json (snapshot_level (pb, lb)));
      ("best_ask", level_json (snapshot_level (pa, la)));
      ("spread", JDouble (double_div (double_of_Z (raw pa - raw pb)) double_10000));
      ("crossed", JBool (raw pa <? raw pb))]))
  else Undef.
Proof.
  intros Hci Hi Hv Hbk Hb Ha Hpb Hpa. unfold top_route, top_handler. cbn [mbind outcome_bind].
  rewrite (find_book_variant now st loc info) by done. cbn [mbind outcome_bind].
  unfold instrument_view. rewrite Hbk. unfold top_json.
  assert (head (obs_bids (book_snapshot info bk)) = Some (snapshot_level (pb, lb))) as ->
    by (simpl; by destruct (ob_bids bk) as [|[??]?]; simplify_eq/=).
  assert (head (obs_asks (book_snapshot info bk)) = Some (snapshot_level (pa, la))) as ->
    by (simpl; by destruct (ob_asks bk) as [|[??]?]; simplify_eq/=).
  unfold spread_of. cbn [snapshot_level pls_price fst].
  rewrite !ticks_of_spec by done.
  destruct (Z.ltb_spec (raw pa) (2 ^ 31)), (Z.ltb_spec (raw pb) (2 ^ 31)); try done.
  cbn [mbind outcome_bind andb]. unfold int32_sub.
  rewrite (proj2 (Z.leb_le (- 2 ^ 31) _)), (proj2 (Z.ltb_lt _ (2 ^ 31))) by lia. done.
Qed.

(** The instrument list is complete: it has as many entries as the
    snapshot has books, one entry for each, and another traversal order of the
    hash map lists the same entries. *)
Theorem instruments_route_complete now st :
  let snap := build_snapshot now st in
  ∃ l, instruments_route (Some snap) = ok (JObject [
      ("count", JInt (Z.of_nat (size (ss_books snap)))); ("instruments", JArray l)]) ∧
    l ≡ₚ (λ kv : string * OrderBookSnapshot, instrument_json kv.2) <$> map_to_list (ss_books snap) ∧
    ∀ loc info, get_instrument st loc = Some info →
      ∃ book, obs_symbol book = ii_symbol info ∧ instrument_json book ∈ l.
Proof.
  intros snap. eexists. unfold instruments_route. split; [|split].
  - do 4 f_equal. rewrite length_fmap. do 2 f_equal.
    rewrite (Permutation_length (list_snapshots_perm (ss_books snap))).
    by rewrite length_map_to_list.
  - by rewrite list_snapshots_perm.
  - intros loc info Hi. destruct (snapshot_present now st loc info Hi) as [s Hs].
    exists s. split.
    + destruct (snapshot_entry _ _ _ _ Hs) as (loc' & info' & _ & Hsym & Hcase).
      by destruct Hcase as [(bk & _ & ->)|[-> _]].
    + apply list_elem_of_fmap. exists (ii_symbol info, s). split; [done|].
      rewrite list_snapshots_perm. by apply elem_of_map_to_list.
Qed.

End lookup.

(** ** Concrete requests *)

Lemma sample_symbols_ci : symbols_distinct_ci sample_system.
Proof.
  intros loc loc' info info' H1 H2 Hs.
  destruct (sample_instruments _ _ H1) as [[-> E1]|[-> E1]],
    (sample_instruments _ _ H2) as [[-> E2]|[-> E2]]; rewrite E1, E2 in Hs; done.
Qed.

Lemma book_route_shows_book_witness :
  book_route (Some "3") "aBC" (Some (build_snapshot 0 sample_system)) =
    Ret (ok (book_json_ref 3 (instrument_view sample_system 7
      (default (placeholder 7) (get_instrument sample_system 7))))).
Proof.
  apply (book_route_shows_book 0 sample_system 7
    (default (placeholder 7) (get_instrument sample_system 7)) "aBC" (Some "3") 3);
    [apply sample_symbols_ci|vm_compute; reflexivity..].
Defined.

(** An ask below the bid at locate 7. *)
Definition crossed_system : Engine := handle_add {| ao_stock_locate := 7;
  ao_tracking_number := 0; ao_timestamp := 4; ao_order_ref := 3; ao_side := "S"%char;
  ao_shares := 10; ao_stock := "Abc"; ao_price := mkPrice 4900 |} sample_system.

Lemma crossed_symbols_ci : symbols_distinct_ci crossed_system.
Proof.
  assert (instruments crossed_system = instruments sample_system) as E
    by (vm_compute; reflexivity).
  unfold symbols_distinct_ci, get_instrument. rewrite E. apply sample_symbols_ci.
Qed.

Lemma top_route_exact_witness :
  ∃ j, top_route "ABC" (Some (build_snapshot 0 crossed_system)) = Ret (ok (JObject (j ++
    [("spread", JDouble (double_div (double_of_Z (-100)) double_10000));
     ("crossed", JBool true)]))).
Proof.
  eexists [_; _; _; _; _].
  rewrite (top_route_exact 0 crossed_system 7
    (default (placeholder 7) (get_instrument crossed_system 7))
    (default (new_book 7) (get_book crossed_system 7)) "ABC" (mkPrice 5000) (mkPrice 4900)
    (mkLevel (mkPrice 5000) 100 1) (mkLevel (mkPrice 4900) 10 1) crossed_symbols_ci);
    [reflexivity|vm_compute; reflexivity..|simpl; lia|simpl; lia].
Defined.
