(* ===== verification/Pipeline.v ===== *)
(** The pipeline of [src/main.cpp]: configuration, file mode, live mode.

    The environment, the file and the queue are parameters: [getenv], the
    interface [PosixFile] of the feed reader, and [ConcurrentQueue], whose laws
    are the queue's for one producer (first in, first out; a failed dequeue
    means empty once the producer is finished).  The [n]-th [apply] reads the
    wall clock [now n].  The server thread is in Server, the lines on the
    standard streams in Console. *)

From S2P Require Import Prelude ByteOrder Messages Parser FeedReader.
From S2P Require Import StdMap OrderBook BookEngine Snapshot RestServer.
From Stdlib Require Import Strings.Ascii.
From Stdlib Require Strings.String.

#[local] Open Scope Z_scope.

(** ** Configuration *)

(** [std::stoull]: a sign is allowed, and a negative value wraps. *)
Definition stoull (s : string) : option (Z * nat) :=
  let '(n0, l) := skip_spaces (Strings.String.list_ascii_of_string s) in
  let '(sign, n1, l) := read_sign l in
  let '(v, n2) := read_digits 0 l in
  if (n2 =? 0)%nat then None
  else if v <? 2 ^ 64 then Some (u64 (sign * v), (n0 + n1 + n2)%nat) else None.

Record Config := {
  cfg_mode : string;
  cfg_itch_file : string;
  cfg_mcast_group : string;
  cfg_mcast_iface : string;
  cfg_mcast_port : Z;
  cfg_rest_port : Z;
  cfg_snapshot_interval : Z
}.

Section config.
Context (getenv : string → option string).

Definition env (key fallback : string) : string := default fallback (getenv key).

(** [std::stoi] or [std::stoull] of a variable; the exception ends the program. *)
Definition env_number (parse : string → option (Z * nat)) (key fallback : string) : outcome Z :=
  match parse (env key fallback) with
  | Some (v, _) => Ret v
  | None => Throw "invalid number"
  end.

Definition config : outcome Config :=
  mcast_port ← env_number stoi "MCAST_PORT" "26477";
  rest_port ← env_number stoi "REST_PORT" "8080";
  snapshot_interval ← env_number stoull "SNAPSHOT_INTERVAL" "1000";
  Ret {|
    cfg_mode := env "ITCH_MODE" "file";
    cfg_itch_file := env "ITCH_FILE" "data/sample.bin";
    cfg_mcast_group := env "MCAST_GROUP" "233.54.12.111";
    cfg_mcast_iface := env "MCAST_IFACE" "eth0";
    cfg_mcast_port := u16 mcast_port;
    cfg_rest_port := u16 rest_port;
    cfg_snapshot_interval := snapshot_interval |}.

End config.

(** ** One buffer *)

Section pipeline.
Context `{MapOrder} (now : nat → Z).

(** The number of the next [apply]. *)
Definition next_apply (s : System) : nat :=
  S (Z.to_nat (messages_processed (sys_engine s))).

(** [try { ... } catch (const std::exception&) { warn }] *)
Definition catching (s : System) (o : outcome System) : outcome System :=
  match o with Throw _ => Ret s | o => o end.

(** Parse a buffer and apply the message, if there is one. *)
Definition process (buf : MessageBuffer) (s : System) : outcome System :=
  catching s (
    msg ← parse buf;
    match msg with
    | Some msg => apply (now (next_apply s)) msg s
    | None => Ret s
    end).

Fixpoint process_all (bufs : list MessageBuffer) (s : System) : outcome System :=
  match bufs with
  | [] => Ret s
  | buf :: bufs => s ← process buf s; process_all bufs s
  end.

(** The engine [main] starts with. *)
Definition start (interval : Z) : System := {|
  sys_engine := set_snapshot_interval interval Engine_init; sys_published := None |}.

(** ** File mode *)

Section file.
Context {F : Type} `{PosixFile F}.

(** The loop over the messages of the file: whether it came to a clean end, or
    the reader threw; [None] when the fuel is used up. *)
Fixpoint file_loop (fuel : nat) (f : F) (s : System) : outcome (option (bool * System)) :=
  match fuel with
  | O => Ret None
  | S fuel =>
      match next_message f with
      | Ret (Some buf, f) => s ← process buf s; file_loop fuel f s
      | Ret (None, _) => Ret (Some (true, s))
      | Throw _ => Ret (Some (false, s))
      | Undef => Undef
      end
  end.

(** How [main] leaves the branch of file mode and the [set_pipeline_complete] behind it:
    it goes on, or the branch has returned 1. *)
Inductive file_end := Completed | ReturnsOne.

(** That, and the state; [opened] is [None] when the constructor of the reader
    throws.  [final] is the clock at the end. *)
Definition file_mode (fuel : nat) (opened : option F) (final : Z) (s : System)
  : outcome (option (file_end * System)) :=
  match opened with
  | None => Ret (Some (ReturnsOne, s))
  | Some f =>
      r ← file_loop fuel f s;
      match r with
      | None => Ret None
      | Some (false, s) => Ret (Some (ReturnsOne, s))
      | Some (true, s) => Ret (Some (Completed, set_pipeline_complete final s))
      end
  end.

End file.

End pipeline.

(** ** Live mode *)

Class ConcurrentQueue (Q : Type) := {
  empty_queue : Q;
  enqueue : Q → MessageBuffer → Q;
  try_dequeue : Q → option (MessageBuffer * Q);
  contents : Q → list MessageBuffer;
  contents_empty : contents empty_queue = [];
  contents_enqueue q b : contents (enqueue q b) = contents q ++ [b];
  try_dequeue_some q b q' : try_dequeue q = Some (b, q') → contents q = b :: contents q';
  try_dequeue_none q : try_dequeue q = None → contents q = []
}.

(** Where the engine thread is: before the test of [recv_done], between the
    test and [try_dequeue], in the second loop, after it. *)
Inductive phase := Checking | Polling | Draining | Finished.

(** What the two threads share, and the engine thread's own state. *)
Record Loops (Q : Type) := mkLoops {
  queue : Q;
  recv_done : bool;
  engine_phase : phase;
  live_system : System
}.
Arguments mkLoops {Q} queue recv_done engine_phase live_system.
Arguments queue {Q} l.
Arguments recv_done {Q} l.
Arguments engine_phase {Q} l.
Arguments live_system {Q} l.

(** The two threads, for a receive thread of which only the messages that it
    has yet to hand over are known. *)
Record Live (Q : Type) := mkLive { unread : list MessageBuffer; loops : Loops Q }.
Arguments mkLive {Q} unread loops.
Arguments unread {Q} l.
Arguments loops {Q} l.

Section live.
Context `{MapOrder} (now : nat → Z).

(** One step of the engine thread.  In the first loop [try_dequeue] may miss a
    message that is being enqueued. *)
Inductive engine_step {Q} `{ConcurrentQueue Q} : Loops Q → Loops Q → Prop :=
| check_running q s :
    engine_step (mkLoops q false Checking s) (mkLoops q false Polling s)
| check_done q s :
    engine_step (mkLoops q true Checking s) (mkLoops q true Draining s)
| poll_message q d buf q' s s' :
    try_dequeue q = Some (buf, q') → process now buf s = Ret s' →
    engine_step (mkLoops q d Polling s) (mkLoops q' d Checking s')
| poll_nothing q d s :
    engine_step (mkLoops q d Polling s) (mkLoops q d Checking s)
| drain_message q d buf q' s s' :
    try_dequeue q = Some (buf, q') → process now buf s = Ret s' →
    engine_step (mkLoops q d Draining s) (mkLoops q' d Draining s')
| drain_end q d s :
    try_dequeue q = None →
    engine_step (mkLoops q d Draining s) (mkLoops q d Finished s).

(** One step of either thread.  The receive thread may end at any time. *)
Inductive live_step {Q} `{ConcurrentQueue Q} : Live Q → Live Q → Prop :=
| recv_message buf rest q ph s :
    live_step (mkLive (buf :: rest) (mkLoops q false ph s))
      (mkLive rest (mkLoops (enqueue q buf) false ph s))
| recv_end rest q ph s :
    live_step (mkLive rest (mkLoops q false ph s)) (mkLive rest (mkLoops q true ph s))
| engine_moves rest l l' :
    engine_step l l' → live_step (mkLive rest l) (mkLive rest l').

Definition loops_start {Q} `{ConcurrentQueue Q} (s : System) : Loops Q :=
  mkLoops empty_queue false Checking s.

Definition live_start {Q} `{ConcurrentQueue Q} (input : list MessageBuffer) (s : System)
  : Live Q := mkLive input (loops_start s).

End live.

(** A list as a queue. *)
#[export] Program Instance list_queue : ConcurrentQueue (list MessageBuffer) := {|
  empty_queue := []; enqueue := λ q b, q ++ [b];
  try_dequeue := λ q, match q with [] => None | b :: q => Some (b, q) end;
  contents := λ q, q |}.
Next Obligation. done. Qed.
Next Obligation. done. Qed.
Next Obligation. intros [|b0 q0] b q; simpl; congruence. Qed.
Next Obligation. by intros [|b q]. Qed.
