(* ===== verification/PipelineTheorems.v ===== *)
(** The pipeline end to end: from the bytes of a file, or the messages of the
    receive thread, to the books and the published snapshot. *)

From S2P Require Import Prelude ByteOrder Messages Parser WireFormat FeedReader.
From S2P Require Import StdMap OrderBook BookEngine EngineLevels EngineInvariant EngineProperties.
From S2P Require Import Snapshot SnapshotTheorems Pipeline.
From Stdlib Require Import Strings.Byte Strings.Ascii.
From Stdlib Require Strings.String.

#[local] Open Scope Z_scope.

(** ** Buffers *)

(** The message of a buffer, if the parser returns one. *)
Definition decoded (buf : MessageBuffer) : option ParsedMessage :=
  match parse buf with Ret (Some m) => Some m | _ => None end.

Lemma decoded_encode m : message_ok m → decoded (encode m) = Some m.
Proof.
  intros Hm. unfold decoded. rewrite <- (app_nil_r (encode m)). by rewrite parse_complete.
Qed.

Lemma parse_defined buf : parse buf ≠ Undef.
Proof. intros E. pose proof (parse_meets_spec buf) as S. rewrite E in S. inversion S. Qed.

Section buffers.
Context `{MapOrder} (now : nat → Z) (k : Z) (Hk : 0 < k).

(** A system that runs with interval [k]. *)
Definition runs (s : System) : Prop :=
  snapshot_interval (sys_engine s) = k ∧ messages_processed (sys_engine s) ∈u64.

Lemma process_runs buf s :
  runs s →
  ∃ s', process now buf s = Ret s' ∧ runs s' ∧
    sys_engine s' = run (option_list (decoded buf)) (sys_engine s).
Proof.
  intros [Hi Hm]. unfold process, decoded. pose proof (parse_defined buf) as Hp.
  destruct (parse buf) as [[msg|]|w|]; [| | |done].
  2, 3: by exists s.
  cbn [mbind outcome_bind option_list].
  destruct (handle_config msg (sys_engine s)) as (_ & Hsi & _).
  unfold apply, maybe_publish_snapshot. cbn [sys_engine]. simpl snapshot_interval.
  rewrite Hsi, Hi, (proj2 (Z.eqb_neq k 0)) by lia.
  destruct (_ =? 0); eexists; (split; [done|]);
    (split; [|done]); (split; [simpl; by rewrite Hsi|apply u64_range]).
Qed.

Lemma process_all_runs bufs s :
  runs s →
  ∃ s', process_all now bufs s = Ret s' ∧ runs s' ∧
    sys_engine s' = run (omap decoded bufs) (sys_engine s).
Proof.
  revert s. induction bufs as [|buf bufs IH]; intros s Hs; [by exists s|].
  destruct (process_runs buf s Hs) as (s1 & E1 & Hs1 & Hr1).
  destruct (IH s1 Hs1) as (s2 & E2 & Hs2 & Hr2).
  exists s2. simpl. rewrite E1. split; [exact E2|split; [done|]].
  rewrite Hr2, Hr1. destruct (decoded buf); done.
Qed.

Lemma process_all_app bufs1 bufs2 s :
  process_all now (bufs1 ++ bufs2) s =
  (s' ← process_all now bufs1 s; process_all now bufs2 s').
Proof.
  revert s. induction bufs1 as [|b bufs1 IH]; intros s; [done|]. simpl.
  destruct (process now b s); [apply IH|done|done].
Qed.

Lemma process_decoded buf s :
  process now buf s =
  match decoded buf with Some msg => apply (now (next_apply s)) msg s | None => Ret s end.
Proof.
  unfold process, decoded. pose proof (parse_defined buf) as Hp.
  destruct (parse buf) as [[msg|]|w|]; [|done..]. cbn [mbind outcome_bind].
  unfold apply, maybe_publish_snapshot. by repeat case_match.
Qed.

(** The buffers as the system sees them: the messages that they decode to, each with
    its reading of the clock. *)
Lemma process_all_system bufs s n :
  runs s → messages_processed (sys_engine s) = Z.of_nat n →
  Z.of_nat (n + length (omap decoded bufs)) < 2 ^ 64 →
  process_all now bufs s = run_system now (S n) (omap decoded bufs) s.
Proof.
  revert s n. induction bufs as [|buf bufs IH]; intros s n Hs Hn Hlen; [done|].
  destruct (process_runs buf s Hs) as (s1 & E1 & Hs1 & Hr1).
  cbn [process_all]. rewrite E1. cbn [mbind outcome_bind]. rewrite process_decoded in E1.
  change (omap decoded (buf :: bufs)) with
    (match decoded buf with Some m => m :: omap decoded bufs | None => omap decoded bufs end)
    in Hlen |- *.
  destruct (decoded buf) as [msg|]; [|injection E1 as <-; by apply IH].
  replace (next_apply s) with (S n) in E1 by (unfold next_apply; rewrite Hn; lia).
  cbn [run_system]. rewrite E1. cbn [mbind outcome_bind]. cbn [length] in Hlen.
  apply IH; [done| |lia]. rewrite Hr1.
  destruct (run_config [msg] (sys_engine s)) as (Hmp & _); [apply Hs|].
  change (option_list (Some msg)) with [msg]. rewrite Hmp, Hn. cbn [length]. rewrite u64_id; lia.
Qed.

Lemma start_runs : runs (start k).
Proof. by split. Qed.

(** What the publisher holds after a list of buffers. *)
Lemma process_all_published bufs s :
  Z.of_nat (length (omap decoded bufs)) < 2 ^ 64 → process_all now bufs (start k) = Ret s →
  sys_published s = published_after now k (omap decoded bufs) (length (omap decoded bufs)).
Proof.
  intros Hlen E. rewrite (process_all_system bufs (start k) 0 start_runs eq_refl Hlen) in E.
  destruct (run_system_spec now k Hk (omap decoded bufs) [] (omap decoded bufs) (start k)
    eq_refl Hlen eq_refl) as (s' & E' & _ & Hp).
  - unfold published_after. cbn [length Z.of_nat]. by rewrite Z.div_0_l by lia.
  - cbn [length] in E'. congruence.
Qed.

(** ** File mode *)

Section file.
Context {F : Type} `{ReliableFile F}.

(** The loop over a file of whole frames. *)
Lemma file_loop_frames bufs (f : F) s fuel :
  remaining f = concat (frame <$> bufs) → Forall frameable bufs → runs s →
  (length bufs < fuel)%nat →
  ∃ s', process_all now bufs s = Ret s' ∧ file_loop now fuel f s = Ret (Some (true, s')).
Proof.
  intros Hf Hb. revert f s fuel Hf. induction Hb as [|buf bufs Hbuf Hb IH]; intros f s fuel Hf Hs Hfuel;
    (destruct fuel as [|fuel]; [simpl in Hfuel; lia|]); cbn [file_loop].
  - pose proof (next_message_reliable f) as E. rewrite Hf in E. simpl in E.
    destruct (next_message f) as [[[b|] f']| |]; try discriminate. by exists s.
  - pose proof (next_message_framed f buf _ Hbuf Hf) as E.
    destruct (next_message f) as [[o f']| |]; [|discriminate..].
    simpl in E. injection E as -> Hf'.
    destruct (process_runs buf s Hs) as (s1 & E1 & Hs1 & _).
    destruct (IH f' s1 fuel Hf' Hs1) as (s' & E2 & E3); [simpl in Hfuel; lia|].
    exists s'. simpl. rewrite E1. cbn [mbind outcome_bind]. done.
Qed.

End file.

(** The reader moves on: what is left shrinks with every message. *)
Lemma next_message_progress {F} `{PosixFile F} (f : F) :
  match FeedReader.next_message f with
  | Ret (Some _, f') => (length (remaining f') < length (remaining f))%nat
  | Ret (None, _) | Throw _ => True
  | Undef => False
  end.
Proof.
  destruct (next_message_spec f) as [[_ [E|E]]|E]; [by rewrite E..|].
  destruct (FeedReader.next_message f) as [[[buf|] f']|w|]; cbn in E; try done.
  - destruct (remaining f) as [|a [|b body]]; try discriminate.
    unfold next_message_ref in E. repeat case_decide; try discriminate;
      injection E as -> ->; simpl; rewrite ?length_drop; lia.
  - by destruct (remaining f) as [|a [|b body]]; try discriminate;
      unfold next_message_ref in E; repeat case_decide.
Qed.

Lemma file_loop_total {F} `{PosixFile F} (f : F) s fuel :
  runs s → (length (remaining f) < fuel)%nat →
  ∃ c s', file_loop now fuel f s = Ret (Some (c, s')) ∧ runs s' ∧
    pipeline_complete (sys_engine s') = pipeline_complete (sys_engine s).
Proof.
  revert f s. induction fuel as [|fuel IH]; intros f s Hs Hf; [lia|]. cbn [file_loop].
  pose proof (next_message_progress f) as Hp.
  destruct (FeedReader.next_message f) as [[[buf|] f']|w|]; [|by eexists _, s..|done].
  destruct (process_runs buf s Hs) as (s1 & E1 & Hs1 & Hr1). rewrite E1.
  cbn [mbind outcome_bind]. destruct (IH f' s1 Hs1) as (c & s' & E & Hs' & Hpc); [lia|].
  exists c, s'. split; [done|split; [done|]]. rewrite Hpc, Hr1.
  apply run_config. apply Hs.
Qed.

End buffers.

(** The books after a list of messages, or of buffers. *)
Lemma configured_run_inv k msgs :
  feed_ok ∅ msgs → Z.of_nat (length msgs) < 2 ^ 32 - 1 → engine_inv (run msgs (configured k)).
Proof.
  intros Hfeed Hlen. apply run_inv; [apply configured_inv|done|].
  change (order_index (configured k)) with (∅ : gmap Z OrderRecord). rewrite map_size_empty. lia.
Qed.

Lemma decoded_run_inv k bufs :
  feed_ok ∅ (omap decoded bufs) → Z.of_nat (length bufs) < 2 ^ 32 - 1 →
  engine_inv (run (omap decoded bufs) (configured k)).
Proof.
  intros Hfeed Hlen. apply configured_run_inv; [done|].
  pose proof (length_omap_le decoded bufs). lia.
Qed.

(** File mode on a file of whole frames: a clean end, with the engine that ran
    what the frames decode to. *)
Lemma file_mode_frames {F} `{ReliableFile F} `{MapOrder} now final k bufs (f : F) fuel :
  0 < k → remaining f = concat (frame <$> bufs) → Forall frameable bufs →
  (length bufs < fuel)%nat →
  ∃ s, file_mode now fuel (Some f) final (start k) = Ret (Some (Completed, s)) ∧
    sys_engine s = mark_complete (run (omap decoded bufs) (configured k)) ∧
    sys_published s = Some (build_snapshot final (sys_engine s)).
Proof.
  intros Hk Hf Hb Hfuel.
  destruct (file_loop_frames now k Hk bufs f (start k) fuel Hf Hb (start_runs k) Hfuel)
    as (s1 & E1 & E2).
  destruct (process_all_runs now k Hk bufs (start k) (start_runs k)) as (s1' & E1' & _ & Hr).
  rewrite E1 in E1'. injection E1' as <-.
  exists (set_pipeline_complete final s1). unfold file_mode. rewrite E2.
  split; [done|]. simpl. by rewrite Hr.
Qed.

(** Marking the pipeline complete touches neither books nor orders. *)
Lemma mark_complete_inv st : engine_inv st → engine_inv (mark_complete st).
Proof.
  intros [Hl Hbk Ho]. split; [|done..]. intros q. etrans; [|apply (Hl q)]. by apply level_at_books.
Qed.

(** C6: From the bytes to the books: in file mode, on a file of whole frames
    whose reads do not fail, the program exits the loop normally; the engine has
    then run exactly the messages that the frames decode to, buffers without
    one skipped, and the published snapshot is that of the completed engine;
    when those messages form a feed with fresh references, the books are the
    aggregate of the resting orders.  A frame of a message's encoding decodes to the
    message. *)
Theorem file_to_books {F} `{ReliableFile F} `{MapOrder} now final k bufs (f : F) fuel :
  0 < k → remaining f = concat (frame <$> bufs) → Forall frameable bufs →
  (length bufs < fuel)%nat →
  (∀ m, message_ok m → decoded (encode m) = Some m) ∧
  ∃ s, file_mode now fuel (Some f) final (start k) = Ret (Some (Completed, s)) ∧
    sys_engine s = mark_complete (run (omap decoded bufs) (configured k)) ∧
    sys_published s = Some (build_snapshot final (sys_engine s)) ∧
    (feed_ok ∅ (omap decoded bufs) → Z.of_nat (length bufs) < 2 ^ 32 - 1 →
      engine_inv (sys_engine s)).
Proof.
  intros Hk Hf Hb Hfuel. split; [apply decoded_encode|].
  destruct (file_mode_frames now final k bufs f fuel Hk Hf Hb Hfuel) as (s & E & He & Hp).
  exists s. split; [done|split; [done|split; [done|]]]. intros Hfeed Hlen. rewrite He.
  by apply mark_complete_inv, decoded_run_inv.
Qed.

Definition sample_message : ParsedMessage := AddOrder {|
  ao_stock_locate := 1; ao_tracking_number := 0; ao_timestamp := 34200000000000;
  ao_order_ref := 123456789; ao_side := "B"%char; ao_shares := 100;
  ao_stock := "AAPL"; ao_price := mkPrice 1894300 |}.

(** A frame of an add order, one of an out-of-scope type, in one-byte reads. *)
Definition sample_file : ChunkedFile := {|
  chunked_bytes := frame (encode sample_message) ++ frame [x53; x00];
  chunk_sizes := replicate 50 0%nat |}.

Lemma file_to_books_witness :
  ∃ s, file_mode (λ _, 0) 3 (Some sample_file) 7 (start 1000) = Ret (Some (Completed, s)) ∧
    get_order (sys_engine s) 123456789 ≠ None ∧ engine_inv (sys_engine s).
Proof.
  destruct (file_to_books (λ _, 0) 7 1000 [encode sample_message; [x53; x00]] sample_file 3)
    as (_ & s & H1 & H2 & _ & H4).
  - lia.
  - vm_compute. reflexivity.
  - repeat constructor; vm_compute; done.
  - simpl. lia.
  - exists s. split; [exact H1|]. split.
    + rewrite H2. vm_compute. congruence.
    + apply H4; [|simpl; lia]. vm_compute. repeat split; try done; congruence.
Defined.

(** File mode always ends: on any file, whatever its bytes and whichever of
    its reads fail, the loop ends within as many messages as the file has bytes, with no undefined
    behaviour; it completes with the pipeline marked complete, or the reader threw, and [main]
    returns 1 with the pipeline not marked complete. *)
Theorem file_mode_total {F} `{PosixFile F} `{MapOrder} now final k (f : F) fuel :
  0 < k → (length (remaining f) < fuel)%nat →
  ∃ e s, file_mode now fuel (Some f) final (start k) = Ret (Some (e, s)) ∧
    pipeline_complete (sys_engine s) = match e with Completed => true | ReturnsOne => false end.
Proof.
  intros Hk Hfuel.
  destruct (file_loop_total now k Hk f (start k) fuel (start_runs k) Hfuel)
    as (c & s & E & _ & Hpc).
  unfold file_mode. rewrite E. by destruct c; eexists _, _.
Qed.

Lemma file_mode_total_witness :
  ∃ e s, file_mode (λ _, 0) 10 (Some {| sim_bytes := [x00; x05; x41]; sim_steps := [FailRead] |})
      7 (start 1000) = Ret (Some (e, s)) ∧
    pipeline_complete (sys_engine s) = match e with Completed => true | ReturnsOne => false end.
Proof. apply file_mode_total; [lia|simpl; lia]. Defined.

(** ** Live mode *)

Section live.
Context `{MapOrder} (now : nat → Z) {Q : Type} `{ConcurrentQueue Q}.
Context (k : Z) (Hk : 0 < k) (input : list MessageBuffer).

(** What holds at every moment: the messages received so far are those the
    engine has processed and those still in the queue, in that order; the
    second loop starts after the receive thread is done, and ends on an empty
    queue. *)
Definition live_consumed (consumed : list MessageBuffer) (l : Live Q) : Prop :=
  input = (consumed ++ contents (queue (loops l))) ++ unread l ∧
  process_all now consumed (start k) = Ret (live_system (loops l)) ∧
  match engine_phase (loops l) with
  | Checking | Polling => True
  | Draining => recv_done (loops l) = true
  | Finished => recv_done (loops l) = true ∧ contents (queue (loops l)) = []
  end.

Definition live_inv (l : Live Q) : Prop := ∃ consumed, live_consumed consumed l.

Lemma live_consumed_start : live_consumed [] (live_start input (start k)).
Proof. split; [|done]. simpl. by rewrite contents_empty. Qed.

Lemma live_inv_start : live_inv (live_start input (start k)).
Proof. exists []. apply live_consumed_start. Qed.

(** A message moves from the queue to the engine. *)
Lemma live_consume consumed q b q' rest s s' :
  try_dequeue q = Some (b, q') → input = (consumed ++ contents q) ++ rest →
  process_all now consumed (start k) = Ret s → process now b s = Ret s' →
  input = ((consumed ++ [b]) ++ contents q') ++ rest ∧
  process_all now (consumed ++ [b]) (start k) = Ret s'.
Proof.
  intros Hq Hin Hc Hp. apply try_dequeue_some in Hq. rewrite Hq in Hin. split.
  - rewrite Hin. by rewrite <- (app_assoc consumed [b]).
  - rewrite process_all_app, Hc. cbn [mbind outcome_bind process_all]. by rewrite Hp.
Qed.

Lemma live_consumed_engine rest l l' consumed :
  engine_step now l l' → live_consumed consumed (mkLive rest l) →
  ∃ more, live_consumed (consumed ++ more) (mkLive rest l').
Proof.
  intros Hstep (Hin & Hc & Hph).
  destruct Hstep as [q s|q s|q d buf q' s s' Hq Hp|q d s|q d buf q' s s' Hq Hp|q d s Hq]; cbn in *.
  1, 2, 4: exists []; by rewrite app_nil_r.
  1, 2: destruct (live_consume _ _ _ _ _ _ _ Hq Hin Hc Hp); by exists [buf].
  exists []. rewrite app_nil_r. split; [done|]. split; [done|]. by apply try_dequeue_none in Hq.
Qed.

(** What has been consumed stays consumed. *)
Lemma live_consumed_step l l' consumed :
  live_step now l l' → live_consumed consumed l → ∃ more, live_consumed (consumed ++ more) l'.
Proof.
  intros [buf rest q ph s|rest q ph s|rest l0 l1 Hstep]; [| |by apply live_consumed_engine].
  - intros (Hin & Hc & Hph). cbn in *. exists []. rewrite app_nil_r. unfold live_consumed. simpl.
    rewrite contents_enqueue. split; [|split; [done|]].
    + rewrite Hin. by rewrite !app_assoc_reverse.
    + destruct ph; try done. by destruct Hph.
  - intros (Hin & Hc & Hph). cbn in *. exists []. rewrite app_nil_r. split; [done|].
    split; [done|]. by destruct ph; destruct_and?.
Qed.

Lemma live_consumed_steps l l' consumed :
  rtc (live_step now) l l' → live_consumed consumed l →
  ∃ more, live_consumed (consumed ++ more) l'.
Proof.
  intros Hr. revert consumed. induction Hr as [l|l1 l2 l3 Hs Hr IH]; intros consumed Hc.
  { exists []. by rewrite app_nil_r. }
  destruct (live_consumed_step _ _ _ Hs Hc) as [more Hc2]. destruct (IH _ Hc2) as [more' Hc3].
  exists (more ++ more'). by rewrite app_assoc.
Qed.

Lemma live_inv_steps l l' : rtc (live_step now) l l' → live_inv l → live_inv l'.
Proof.
  intros Hr [consumed Hc]. destruct (live_consumed_steps _ _ _ Hr Hc) as [more Hm].
  by eexists.
Qed.

Lemma live_inv_reachable l : rtc (live_step now) (live_start input (start k)) l → live_inv l.
Proof. intros Hr. eapply live_inv_steps; [exact Hr|apply live_inv_start]. Qed.

(** The messages that the engine has processed so far ran without a fault. *)
Lemma live_inv_runs l : live_inv l → runs k (live_system (loops l)).
Proof.
  intros (consumed & _ & Hc & _).
  destruct (process_all_runs now k Hk consumed (start k) (start_runs k)) as (s & E & Hs & _).
  rewrite Hc in E. by injection E as <-.
Qed.

Lemma live_inv_engine l :
  live_inv l →
  ∃ got, input = (got ++ contents (queue (loops l))) ++ unread l ∧
    sys_engine (live_system (loops l)) = run (omap decoded got) (configured k).
Proof.
  intros (got & Hin & Hc & _). exists got. split; [done|].
  destruct (process_all_runs now k Hk got (start k) (start_runs k)) as (s & E & _ & Hs).
  rewrite Hc in E. by injection E as <-.
Qed.

(** The engine thread is never stuck. *)
Lemma engine_progress (l : Loops Q) :
  runs k (live_system l) → engine_phase l ≠ Finished → ∃ l', engine_step now l l'.
Proof.
  intros Hs Hne. destruct l as [q d ph s]. simpl in *. destruct ph; [destruct d| | |done].
  - eexists. apply check_done.
  - eexists. apply check_running.
  - eexists. apply poll_nothing.
  - destruct (try_dequeue q) as [[b q']|] eqn:Eq; [|eexists; by apply drain_end].
    destruct (process_runs now k Hk b s Hs) as (s' & Ep & _). eexists. by eapply drain_message.
Qed.

Lemma live_progress l :
  live_inv l → engine_phase (loops l) ≠ Finished → ∃ l', live_step now l l'.
Proof.
  intros Hi Hne. destruct (engine_progress _ (live_inv_runs _ Hi) Hne) as [l' Hl'].
  destruct l as [rest l]. eexists. by apply engine_moves.
Qed.

Lemma engine_steps_lift rest (l l' : Loops Q) :
  rtc (engine_step now) l l' → rtc (live_step now) (mkLive rest l) (mkLive rest l').
Proof. induction 1; [done|]. eapply rtc_l; [by apply engine_moves|done]. Qed.

(** What the second loop does with a queue, given time: it ends, all processed. *)
Lemma drain_finishes q s :
  runs k s →
  ∃ q' s', rtc (engine_step now) (mkLoops q true Draining s) (mkLoops q' true Finished s').
Proof.
  remember (length (contents q)) as n eqn:Hn. revert q s Hn.
  induction n as [|n IH]; intros q s Hn Hs.
  all: destruct (try_dequeue q) as [[b q']|] eqn:Eq;
    [|by eexists _, _; apply rtc_once, drain_end].
  all: pose proof (try_dequeue_some _ _ _ Eq) as Hq; rewrite Hq in Hn; simpl in Hn; try lia.
  destruct (process_runs now k Hk b s Hs) as (s' & Ep & Hs' & _).
  destruct (IH q' s') as (q'' & s'' & Hr); [lia|done|].
  eexists _, _. eapply rtc_l; [by eapply drain_message|exact Hr].
Qed.

(** Once the receive thread is done the second loop can run to its end. *)
Lemma live_can_finish rest q s :
  live_inv (mkLive rest (mkLoops q true Draining s)) →
  ∃ l', rtc (live_step now) (mkLive rest (mkLoops q true Draining s)) l' ∧
    engine_phase (loops l') = Finished.
Proof.
  intros Hi. destruct (drain_finishes q s (live_inv_runs _ Hi)) as (q' & s' & Hr).
  eexists. split; [by apply engine_steps_lift|done].
Qed.

End live.

(** C15: No message is lost in live mode: in every interleaving of the two threads, when the
    engine thread ends it has processed, in order and once each, exactly the
    messages the receive thread had received by its end, and the queue is empty; until
    then it is never stuck. *)
Theorem live_mode_drains `{MapOrder} now {Q} `{ConcurrentQueue Q} k input (l : Live Q) :
  0 < k → rtc (live_step now) (live_start input (start k)) l →
  (engine_phase (loops l) = Finished →
    ∃ got, input = got ++ unread l ∧ contents (queue (loops l)) = [] ∧
      process_all now got (start k) = Ret (live_system (loops l)) ∧
      sys_engine (live_system (loops l)) = run (omap decoded got) (configured k)) ∧
  (engine_phase (loops l) ≠ Finished → ∃ l', live_step now l l') ∧
  (engine_phase (loops l) = Draining →
    ∃ l', rtc (live_step now) l l' ∧ engine_phase (loops l') = Finished).
Proof.
  intros Hk Hr. pose proof (live_inv_reachable now k input l Hr) as Hinv. split; [|split].
  - intros Hf. destruct Hinv as (got & Hin & Hc & Hph). rewrite Hf in Hph.
    destruct Hph as [_ Hempty]. rewrite Hempty, app_nil_r in Hin.
    destruct (process_all_runs now k Hk got (start k) (start_runs k)) as (s & E & _ & Hs).
    rewrite Hc in E. injection E as <-. by exists got.
  - by eapply live_progress.
  - intros Hd. destruct l as [rest [q d ph s]]. simpl in Hd. subst ph.
    pose proof Hinv as (_ & _ & _ & Hdone). simpl in Hdone. subst d.
    by eapply live_can_finish.
Qed.

Lemma live_mode_drains_witness :
  ∃ l' : Live (list MessageBuffer),
    rtc (live_step (λ _, 0)) (mkLive [] (mkLoops [[x53]] true Draining (start 5))) l' ∧
    engine_phase (loops l') = Finished.
Proof.
  destruct (live_mode_drains (λ _, 0) 5 [[x53]]
    (mkLive [] (mkLoops ([[x53]] : list MessageBuffer) true Draining (start 5)))) as (_ & _ & H).
  - lia.
  - eapply rtc_l; [apply recv_message|]. eapply rtc_l; [apply recv_end|].
    eapply rtc_l; [apply engine_moves, check_done|]. apply rtc_refl.
  - by apply H.
Defined.
