(* ===== verification/LiveMode.v ===== *)
(** Live mode of [src/main.cpp]: the receive thread with its UDP reader, the
    engine thread, and the end of the block that owns them.

    What the socket calls do is the list of events of the UDP reader: a call of
    [next_message] that finds no packet to return is blocked, the thread then has
    no step.  The engine thread is that of the pipeline ([engine_step]). *)

From S2P Require Import Prelude ByteOrder Parser StdMap OrderBook BookEngine Snapshot.
From S2P Require Import UdpFeedReader Pipeline.
From stdpp Require Import pretty.

#[local] Open Scope Z_scope.

(** ** The lines of the receive thread on the error stream *)

Definition gaps_line (r : UDPFeedReader) : string :=
  "[INFO] gaps detected: " +:+ pretty (gaps_detected r) +:+
  "  dropped-behind (retransmits discarded): " +:+ pretty (dropped_behind r).

Definition error_line (what : string) : string := "[ERROR] receive thread: " +:+ what.

(** ** States *)

(** Where the receive thread is: about to construct its reader, about to test
    [stop_requested], in [next_message], past the [try] block with the line it
    printed but with [recv_done] not yet set, at its end. *)
Inductive receiver :=
| Constructing
| Looping (r : UDPFeedReader)
| Waiting (r : UDPFeedReader)
| Leaving (line : string)
| Exited (line : string).

(** The main thread: in the loops of the engine, in the destructor of
    [recv_thread], past the block. *)
Inductive block := Inside | Joining | Outside.

Record LiveMode (Q : Type) := mkLiveMode {
  events : list recv_event;     (* what [recvfrom] has yet to hand over *)
  recv_thread : receiver;
  stop_requested : bool;
  live_block : block;
  live_loops : Loops Q
}.
Arguments mkLiveMode {Q} events recv_thread stop_requested live_block live_loops.
Arguments events {Q} l.
Arguments recv_thread {Q} l.
Arguments stop_requested {Q} l.
Arguments live_block {Q} l.
Arguments live_loops {Q} l.

(** [recv_done = true] *)
Definition set_recv_done {Q} (l : Loops Q) : Loops Q :=
  mkLoops (queue l) true (engine_phase l) (live_system l).

(** [queue.enqueue] *)
Definition enqueue_message {Q} `{ConcurrentQueue Q} (buf : MessageBuffer) (l : Loops Q) : Loops Q :=
  mkLoops (enqueue (queue l) buf) (recv_done l) (engine_phase l) (live_system l).

Section live_mode.
Context `{MapOrder} (now : nat → Z) {Q : Type} `{ConcurrentQueue Q}.
(** What the constructor of the reader comes to. *)
Context (reader : outcome UDPFeedReader).

(** A step of the receive thread. *)
Inductive recv_step : LiveMode Q → LiveMode Q → Prop :=
| recv_constructs r evs stop b l :
    reader = Ret r →
    recv_step (mkLiveMode evs Constructing stop b l) (mkLiveMode evs (Looping r) stop b l)
| recv_not_constructed w evs stop b l :
    reader = Throw w →
    recv_step (mkLiveMode evs Constructing stop b l)
      (mkLiveMode evs (Leaving (error_line w)) stop b l)
| recv_stops r evs b l :
    recv_step (mkLiveMode evs (Looping r) true b l)
      (mkLiveMode evs (Leaving (gaps_line r)) true b l)
| recv_waits r evs b l :
    recv_step (mkLiveMode evs (Looping r) false b l) (mkLiveMode evs (Waiting r) false b l)
| recv_enqueues r evs stop b l buf r' evs' :
    next_message r evs = Ret (Received buf r' evs') →
    recv_step (mkLiveMode evs (Waiting r) stop b l)
      (mkLiveMode evs' (Looping r') stop b (enqueue_message buf l))
| recv_closed r evs stop b l r' :
    next_message r evs = Ret (Closed r') →
    recv_step (mkLiveMode evs (Waiting r) stop b l)
      (mkLiveMode [] (Leaving (gaps_line r')) stop b l)
| recv_throws r evs stop b l w :
    next_message r evs = Throw w →
    recv_step (mkLiveMode evs (Waiting r) stop b l)
      (mkLiveMode [] (Leaving (error_line w)) stop b l)
| recv_exits line evs stop b l :
    recv_step (mkLiveMode evs (Leaving line) stop b l)
      (mkLiveMode evs (Exited line) stop b (set_recv_done l)).

(** A step of the main thread: of its two loops, or of the destructor of
    [recv_thread], which requests a stop and joins. *)
Inductive main_step : LiveMode Q → LiveMode Q → Prop :=
| main_loops evs t stop l l' :
    engine_step now l l' →
    main_step (mkLiveMode evs t stop Inside l) (mkLiveMode evs t stop Inside l')
| main_stops evs t stop l :
    engine_phase l = Finished →
    main_step (mkLiveMode evs t stop Inside l) (mkLiveMode evs t true Joining l)
| main_joins evs line stop l :
    main_step (mkLiveMode evs (Exited line) stop Joining l)
      (mkLiveMode evs (Exited line) stop Outside l).

Inductive live_mode_step (s s' : LiveMode Q) : Prop :=
| step_recv : recv_step s s' → live_mode_step s s'
| step_main : main_step s s' → live_mode_step s s'.

(** A thread is about to do something undefined. *)
Inductive live_mode_undefined : LiveMode Q → Prop :=
| undefined_constructor evs stop b l :
    reader = Undef → live_mode_undefined (mkLiveMode evs Constructing stop b l)
| undefined_receive r evs stop b l :
    next_message r evs = Undef → live_mode_undefined (mkLiveMode evs (Waiting r) stop b l)
| undefined_process evs t stop l buf q' :
    engine_phase l = Polling ∨ engine_phase l = Draining →
    try_dequeue (queue l) = Some (buf, q') → process now buf (live_system l) = Undef →
    live_mode_undefined (mkLiveMode evs t stop Inside l).

Definition live_mode_start (evs : list recv_event) (s : System) : LiveMode Q :=
  mkLiveMode evs Constructing false Inside (loops_start s).

End live_mode.
