(* ===== verification/LiveModeTheorems.v ===== *)
(** Live mode end to end: from the datagrams of a session to the books, and why
    the block of live mode is left only when the reader could not be built. *)

From S2P Require Import Prelude ByteOrder Messages Parser WireFormat UdpFeedReader.
From S2P Require Import StdMap OrderBook BookEngine EngineLevels EngineInvariant EngineProperties.
From S2P Require Import Snapshot SnapshotTheorems Pipeline PipelineTheorems LiveMode.
From Stdlib Require Import Strings.Byte.

#[local] Open Scope Z_scope.

Section live_mode.
Context `{MapOrder} (now : nat → Z) {Q : Type} `{ConcurrentQueue Q}.
Context (k : Z) (Hk : 0 < k).

(** ** A reader on an open socket *)

Section opened.
Context (r0 : UDPFeedReader) (Hsock : 0 ≤ sock r0) (evs0 : list recv_event).

#[local] Notation step := (live_mode_step now (Q := Q) (Ret r0)).
#[local] Notation initial := (live_mode_start (Q := Q) evs0 (start k)).

(** The reader of the receive thread, the one to be constructed at first. *)
Definition reader_of (t : receiver) : UDPFeedReader :=
  match t with Looping r | Waiting r => r | _ => r0 end.

(** The state as one of the two-thread model: what the receive thread will still
    hand over, of the packets to come. *)
Definition unread_of (s : LiveMode Q) : list MessageBuffer :=
  (outlook (reader_of (recv_thread s)) (events s)).2.
Definition abstract (s : LiveMode Q) : Live Q := mkLive (unread_of s) (live_loops s).

(** The receive thread stays in its loop, and so the main thread in its first
    one; where the sequence will end is fixed by the packets. *)
Record open_inv (s : LiveMode Q) : Prop := {
  oi_thread : match recv_thread s with Leaving _ | Exited _ => False | _ => True end;
  oi_sock : 0 ≤ sock (reader_of (recv_thread s));
  oi_stop : stop_requested s = false;
  oi_block : live_block s = Inside;
  oi_done : recv_done (live_loops s) = false;
  oi_phase : engine_phase (live_loops s) = Checking ∨ engine_phase (live_loops s) = Polling;
  oi_sequence :
    (outlook (reader_of (recv_thread s)) (events s)).1 = (outlook r0 evs0).1
}.

Lemma open_inv_start : open_inv initial.
Proof. split; try done. by left. Qed.

Lemma open_inv_recv s s' :
  recv_step (Ret r0) s s' → open_inv s →
  open_inv s' ∧ rtc (live_step now) (abstract s) (abstract s').
Proof.
  intros Hstep [Ht Hs Hst Hb Hd Hp Hq].
  destruct Hstep as [r evs stop b l [= <-]|w evs stop b l E|r evs b l|r evs b l
    |r evs stop b l buf r' evs' E|r evs stop b l r' E|r evs stop b l w E|line evs stop b l];
    simpl in *; try done; subst.
  - destruct (next_message_outlook r evs Hs) as [(buf0&st&evs1&E1&Ho&Hk1&_)|(st&E1&_)];
      rewrite E in E1; [|done]. injection E1 as <- <- <-. rewrite Ho in Hq. simpl in Hq.
    split; [constructor; simpl; try done; by rewrite Hk1|].
    apply rtc_once. unfold abstract, unread_of. simpl. rewrite Ho. simpl.
    destruct l as [q d ph sys]. simpl in *. subst d. apply recv_message.
  - destruct (next_message_outlook r evs Hs) as [(?&?&?&E1&_)|(?&E1&_)]; congruence.
  - destruct (next_message_outlook r evs Hs) as [(?&?&?&E1&_)|(?&E1&_)]; congruence.
Qed.

Lemma open_inv_main s s' :
  main_step now s s' → open_inv s →
  open_inv s' ∧ rtc (live_step now) (abstract s) (abstract s').
Proof.
  intros Hstep [Ht Hs Hst Hb Hd Hp Hq].
  destruct Hstep as [evs t stop l l' E|evs t stop l E|evs line stop l]; simpl in *; try done.
  - split; [|by apply rtc_once, engine_moves].
    destruct E as [q s|q s|q d buf q' s s' Hdq Hpr|q d s|q d buf q' s s' Hdq Hpr|q d s Hdq];
      simpl in *; try done; try (by destruct Hp);
      (constructor; simpl; [assumption || done..|by auto|done]).
  - rewrite E in Hp. by destruct Hp.
Qed.

(** Live mode refines the two-thread model: every step is a step of it, or none. *)
Lemma open_steps s s' :
  rtc step s s' → open_inv s →
  open_inv s' ∧ rtc (live_step now) (abstract s) (abstract s').
Proof.
  induction 1 as [s|s1 s2 s3 Hstep Hr IH]; intros Hi; [split; [done|apply rtc_refl]|].
  assert (open_inv s2 ∧ rtc (live_step now) (abstract s1) (abstract s2)) as [Hi2 Hr2].
  { destruct Hstep; [by apply open_inv_recv|by apply open_inv_main]. }
  destruct (IH Hi2) as [Hi3 Hr3]. split; [done|by etrans].
Qed.

Lemma open_reachable s :
  rtc step initial s →
  open_inv s ∧ live_inv now k (outlook r0 evs0).2 (abstract s).
Proof.
  intros Hr. destruct (open_steps _ _ Hr open_inv_start) as [Hi Hr']. split; [done|].
  by apply live_inv_reachable.
Qed.

(** The receive thread is in a [recvfrom] that has no packet for it; the counters are
    those of [r]. *)
Definition blocked_at (s : LiveMode Q) (r : UDPFeedReader) : Prop :=
  ∃ r', recv_thread s = Waiting r' ∧ next_message r' (events s) = Ret (Blocked r).

Lemma waiting_catches_up n r evs l :
  length (outlook r evs).2 = n →
  open_inv (mkLiveMode evs (Waiting r) false Inside l) →
  ∃ s' r', rtc step (mkLiveMode evs (Waiting r) false Inside l) s' ∧ blocked_at s' r' ∧
    open_inv s'.
Proof.
  revert r evs l. induction n as [|n IH]; intros r evs l Hn Hi;
    destruct (next_message_outlook r evs (oi_sock _ Hi)) as [(buf&r'&evs'&E&Ho&_)|(r'&E&Ho&_)];
    rewrite Ho in Hn; try discriminate.
  - exists (mkLiveMode evs (Waiting r) false Inside l), r'. split; [apply rtc_refl|split; [|done]].
    by exists r.
  - assert (rtc step (mkLiveMode evs (Waiting r) false Inside l)
      (mkLiveMode evs' (Waiting r') false Inside (enqueue_message buf l))) as Hr.
    { eapply rtc_l; [by apply step_recv, recv_enqueues|]. by apply rtc_once, step_recv, recv_waits. }
    destruct (IH r' evs' (enqueue_message buf l)) as (s' & r'' & Hr' & Hb).
    + by injection Hn.
    + apply (open_steps _ _ Hr Hi).
    + exists s', r''. split; [by etrans|done].
Qed.

Lemma recv_catches_up s :
  open_inv s → ∃ s' r, rtc step s s' ∧ blocked_at s' r ∧ open_inv s'.
Proof.
  intros Hi. assert (∃ r, rtc step s (mkLiveMode (events s) (Waiting r) false Inside (live_loops s)))
    as [r Hr].
  { destruct s as [evs t stop b l]. destruct Hi as [Ht Hs Hst Hb _ _ _]. simpl in *. subst.
    destruct t as [|r|r| |]; [..|done|done].
    - exists r0. eapply rtc_l; [by apply step_recv, recv_constructs|].
      by apply rtc_once, step_recv, recv_waits.
    - exists r. by apply rtc_once, step_recv, recv_waits.
    - exists r. apply rtc_refl. }
  destruct (waiting_catches_up _ _ _ _ eq_refl (proj1 (open_steps _ _ Hr Hi)))
    as (s' & r' & Hr' & Hb). exists s', r'. split; [by etrans|done].
Qed.

(** The engine thread can empty the queue. *)
Lemma engine_catches_up (l : Loops Q) :
  runs k (live_system l) → recv_done l = false →
  engine_phase l = Checking ∨ engine_phase l = Polling →
  ∃ l', rtc (engine_step now) l l' ∧ contents (queue l') = [].
Proof.
  destruct l as [q d ph s]. simpl. intros Hs -> Hph.
  assert (rtc (engine_step now) (mkLoops q false ph s) (mkLoops q false Polling s)) as Hpoll
    by (destruct Hph as [->| ->]; [apply rtc_once, check_running|apply rtc_refl]).
  assert (∃ l', rtc (engine_step now) (mkLoops q false Polling s) l' ∧ contents (queue l') = [])
    as (l' & Hr & Hl); [|exists l'; split; [by etrans|done]]. clear Hpoll Hph.
  remember (length (contents q)) as n eqn:Hn. revert q s Hn Hs.
  induction n as [|n IH]; intros q s Hn Hs; destruct (try_dequeue q) as [[b q']|] eqn:Eq.
  1, 3: pose proof (try_dequeue_some _ _ _ Eq) as Hq; rewrite Hq in Hn; simpl in Hn; try lia.
  2, 3: exists (mkLoops q false Polling s); (split; [apply rtc_refl|by apply try_dequeue_none]).
  destruct (process_runs now k Hk b s Hs) as (s' & Ep & Hs' & _).
  destruct (IH q' s') as (l' & Hr & Hl); [lia|done|]. exists l'. split; [|done].
  eapply rtc_l; [by eapply poll_message|]. eapply rtc_l; [apply check_running|done].
Qed.

Lemma main_catches_up s r :
  open_inv s → runs k (live_system (live_loops s)) → blocked_at s r →
  ∃ s', rtc step s s' ∧ blocked_at s' r ∧ contents (queue (live_loops s')) = [].
Proof.
  destruct s as [evs t stop b l]. intros [_ _ _ Hb Hd Hp _] Hs Hbl. simpl in *. subst b.
  destruct (engine_catches_up l Hs Hd Hp) as (l' & Hr & Hl).
  exists (mkLiveMode evs t stop Inside l'). split; [|done].
  clear -Hr. induction Hr as [|l1 l2 l3 Hstep Hr IH]; [apply rtc_refl|].
  eapply rtc_l; [by apply step_main, main_loops|exact IH].
Qed.

(** A reader that is blocked has delivered everything, and its counters are those of
    all packets. *)
Lemma blocked_delivered s r :
  open_inv s → blocked_at s r → unread_of s = [] ∧ seq_state r = (outlook r0 evs0).1.
Proof.
  intros Hi (r' & Ht & Hn). rewrite <- (oi_sequence _ Hi). pose proof (oi_sock _ Hi) as Hsk.
  unfold unread_of. rewrite Ht in Hsk |- *. cbn [reader_of] in *.
  destruct (next_message_outlook r' (events s) Hsk) as [(?&?&?&E&_)|(?&E&Ho&_)];
    rewrite Hn in E; [done|]. injection E as <-. by rewrite Ho.
Qed.

(** The engine has run a prefix of what the reader delivers. *)
Lemma live_prefix s :
  rtc step initial s →
  ∃ got, (outlook r0 evs0).2 = (got ++ contents (queue (live_loops s))) ++ unread_of s ∧
    sys_engine (live_system (live_loops s)) = run (omap decoded got) (configured k).
Proof.
  intros Hr. destruct (open_reachable s Hr) as [_ Hl].
  by destruct (live_inv_engine now k Hk _ _ Hl) as (got & Hin & He); exists got.
Qed.

Lemma live_prefix_inv s :
  rtc step initial s → feed_ok ∅ (omap decoded (outlook r0 evs0).2) →
  Z.of_nat (length (outlook r0 evs0).2) < 2 ^ 32 - 1 →
  engine_inv (sys_engine (live_system (live_loops s))).
Proof.
  intros Hr Hfeed Hlen. destruct (live_prefix s Hr) as (got & E & ->). rewrite E in Hfeed, Hlen.
  rewrite !omap_app, <- app_assoc in Hfeed. rewrite !length_app in Hlen.
  apply feed_ok_app in Hfeed as [Hfeed _]. apply decoded_run_inv; [done|lia].
Qed.

Lemma live_all_run s r :
  rtc step initial s → blocked_at s r → contents (queue (live_loops s)) = [] →
  sys_engine (live_system (live_loops s)) =
    run (omap decoded (outlook r0 evs0).2) (configured k).
Proof.
  intros Hr Hb Hq. destruct (live_prefix s Hr) as (got & E & ->).
  destruct (blocked_delivered s r (proj1 (open_reachable s Hr)) Hb) as [Hu _].
  by rewrite E, Hq, Hu, !app_nil_r.
Qed.

(** From every moment on: the threads can go on until nothing is left to do. *)
Lemma live_settles s :
  rtc step initial s →
  ∃ s' r, rtc step s s' ∧ blocked_at s' r ∧ contents (queue (live_loops s')) = [].
Proof.
  intros Hr. destruct (open_reachable s Hr) as [Hi _].
  destruct (recv_catches_up s Hi) as (s1 & r & Hr1 & Hb1 & Hi1).
  assert (rtc step initial s1) as Hreach by (by etrans).
  destruct (open_reachable s1 Hreach) as [_ Hl1].
  destruct (main_catches_up s1 r Hi1 (live_inv_runs _ _ Hk _ _ Hl1) Hb1)
    as (s2 & Hr2 & Hb2 & Hq2).
  exists s2, r. split; [by etrans|done].
Qed.

Lemma open_defined s : rtc step initial s → ¬ live_mode_undefined now (Ret r0) s.
Proof.
  intros Hr Hu. destruct (open_reachable s Hr) as [Hi Hl].
  destruct Hu as [evs stop b l E|r evs stop b l E|evs t stop l buf q' _ Hq E]; [done| |].
  - destruct (next_message_outlook r evs (oi_sock _ Hi)) as [(?&?&?&E1&_)|(?&E1&_)]; congruence.
  - destruct (process_runs now k Hk buf _ (live_inv_runs now k Hk _ _ Hl)) as (s' & E1 & _).
    cbn [abstract loops live_loops] in E1. congruence.
Qed.

Lemma open_never_ends s : rtc step initial s → live_block s = Inside.
Proof. intros Hr. apply (open_reachable s Hr). Qed.

End opened.
(** ** A reader that could not be built *)

Section failed.
Context (w : string) (evs0 : list recv_event).

#[local] Notation step := (live_mode_step now (Q := Q) (Throw w)).
#[local] Notation initial := (live_mode_start (Q := Q) evs0 (start k)).

(** The receive thread goes straight to its end; the queue stays empty. *)
Record failed_inv (s : LiveMode Q) : Prop := {
  fi_events : events s = evs0;
  fi_queue : contents (queue (live_loops s)) = [];
  fi_system : live_system (live_loops s) = start k;
  fi_thread : match recv_thread s with
    | Constructing => recv_done (live_loops s) = false
    | Leaving l => l = error_line w ∧ recv_done (live_loops s) = false
    | Exited l => l = error_line w ∧ recv_done (live_loops s) = true
    | _ => False
    end;
  fi_phase : match engine_phase (live_loops s) with
    | Draining | Finished => recv_done (live_loops s) = true | _ => True end;
  fi_block : live_block s ≠ Inside → engine_phase (live_loops s) = Finished
}.

Lemma failed_inv_start : failed_inv initial.
Proof. split; try done. simpl. apply contents_empty. Qed.

Lemma failed_inv_step s s' : step s s' → failed_inv s → failed_inv s'.
Proof.
  intros Hstep [He Hq Hsys Ht Hp Hb]. destruct Hstep as [Hstep|Hstep].
  - destruct Hstep as [r evs stop b l E|w' evs stop b l E|r evs b l|r evs b l
      |r evs stop b l buf r' evs' E|r evs stop b l r' E|r evs stop b l w' E|line evs stop b l];
      simpl in *; try done.
    + injection E as <-. by constructor.
    + destruct Ht as [-> Hd]. constructor; simpl; try done.
      by destruct (engine_phase l).
  - destruct Hstep as [evs t stop l l' E|evs t stop l E|evs line stop l]; simpl in *;
      [|by constructor|by constructor; simpl; [done..|intros _; apply Hb]].
    destruct E as [q s|q s|q d buf q' s s' Hdq Hpr|q d s|q d buf q' s s' Hdq Hpr|q d s Hdq];
      simpl in *; try (by constructor);
      apply try_dequeue_some in Hdq; congruence.
Qed.

Lemma failed_inv_reachable s : rtc step initial s → failed_inv s.
Proof.
  intros Hr. assert (∀ s0, rtc step s0 s → failed_inv s0 → failed_inv s) as Hind;
    [|apply (Hind _ Hr), failed_inv_start].
  clear Hr. induction 1 as [|s1 s2 s3 Hs Hr IH]; [done|]. intros Hi.
  by eapply IH, failed_inv_step.
Qed.

(** The block can be left. *)
Lemma failed_ends : ∃ s, rtc step initial s ∧ live_block s = Outside.
Proof.
  destruct (drain_finishes now k Hk (empty_queue : Q) (start k) (start_runs k))
    as (q' & s' & Hr).
  eexists (mkLiveMode evs0 (Exited (error_line w)) true Outside (mkLoops q' true Finished s')).
  split; [|done].
  eapply rtc_l; [by apply step_recv, recv_not_constructed|].
  eapply rtc_l; [apply step_recv, recv_exits|].
  eapply rtc_l; [apply step_main, main_loops, check_done|].
  transitivity (mkLiveMode evs0 (Exited (error_line w)) false Inside
    (mkLoops q' true Finished s')).
  2: { eapply rtc_l; [by apply step_main, main_stops|]. apply rtc_once, step_main, main_joins. }
  clear -Hr. unfold set_recv_done. simpl.
  induction Hr as [|l1 l2 l3 Hstep Hr IH]; [apply rtc_refl|].
  eapply rtc_l; [by apply step_main, main_loops|exact IH].
Qed.

Lemma failed_defined s : rtc step initial s → ¬ live_mode_undefined now (Throw w) s.
Proof.
  intros Hr Hu. destruct (failed_inv_reachable s Hr) as [_ _ Hs Ht _ _].
  destruct Hu as [evs stop b l E|r evs stop b l E|evs t stop l buf q' _ Hq E]; [done|done|].
  simpl in Hs. rewrite Hs in E.
  destruct (process_runs now k Hk buf _ (start_runs k)) as (s' & E1 & _). congruence.
Qed.

End failed.

End live_mode.

(** ** A session *)

Lemma new_reader_sock sys_socket sys_bind sys_pton sys_join group iface port r0 :
  UDPFeedReader_multicast sys_socket sys_bind sys_pton sys_join group iface port = Ret r0 →
  r0 = reader_on sys_socket ∧ 0 ≤ sock r0.
Proof.
  intros Hr0.
  pose proof (reader_constructed sys_socket sys_bind sys_pton sys_join group iface port) as Hc.
  rewrite Hr0 in Hc. by destruct Hc as (-> & Hs & _).
Qed.

(** What a new reader delivers of a session, up to the last packet it took. *)
Lemma session_outlook M evs fd (r := reader_on fd) :
  Z.of_nat (length M) + 1 < 2 ^ 64 → Forall (session_event M) evs →
  ∃ n, (n ≤ length M)%nat ∧ (outlook r evs).2 `sublist_of` take n M ∧
    ss_expected (outlook r evs).1 = Z.of_nat n + 1 ∧
    Z.of_nat (length (outlook r evs).2) + ss_gaps (outlook r evs).1 = Z.of_nat n ∧
    (ss_gaps (outlook r evs).1 = 0 → (outlook r evs).2 = take n M).
Proof.
  intros Hlen Hev. unfold r. rewrite outlook_fresh.
  destruct (accept_all_progress M evs (seq_state (reader_on fd)) 0) as [n Hp];
    [done|done|done|lia|done|].
  destruct Hp as [He Hn Hsub Hcount _ Hall].
  rewrite Nat.sub_0_r in Hsub, Hcount, Hall. rewrite drop_0 in Hsub, Hall.
  change (ss_gaps (seq_state (reader_on fd))) with 0 in Hcount, Hall.
  exists n. split; [lia|split; [done|split; [exact He|split; [lia|exact Hall]]]].
Qed.

(** ** Properties *)

(** C5: From the datagrams to the books: in live mode, over any datagrams and in every
    interleaving of the receive and the engine thread, the messages that the reader
    delivers (those of the packets it accepts) are at every moment, in order and each
    once, those that the engine has run, those in the queue, and those to come; with
    fresh references the books are at every moment the aggregate of the resting
    orders.  The threads can always go on until [recvfrom] blocks and the queue is
    empty.  Whenever that is so, the engine has run everything delivered; and when
    the datagrams are packets of a session that fit the receive buffer (lost, duplicated,
    reordered), that is the messages before the sequence number that the reader expects, except
    for as many as its gap counter says: all of them when it is zero. *)
Theorem live_to_books `{MapOrder} now {Q} `{ConcurrentQueue Q} k evs
    sys_socket sys_bind sys_pton sys_join group iface port r0 (s : LiveMode Q) :
  0 < k →
  UDPFeedReader_multicast sys_socket sys_bind sys_pton sys_join group iface port = Ret r0 →
  rtc (live_mode_step now (Ret r0)) (live_mode_start evs (start k)) s →
  let msgs := (outlook r0 evs).2 in
  let engine := sys_engine (live_system (live_loops s)) in
  let waiting := contents (queue (live_loops s)) in
  (∃ got, msgs = (got ++ waiting) ++ unread_of r0 s ∧
    engine = run (omap decoded got) (configured k)) ∧
  (feed_ok ∅ (omap decoded msgs) → Z.of_nat (length msgs) < 2 ^ 32 - 1 → engine_inv engine) ∧
  (∃ s' r, rtc (live_mode_step now (Ret r0)) s s' ∧ blocked_at s' r ∧
    contents (queue (live_loops s')) = []) ∧
  ∀ r, blocked_at s r → waiting = [] →
    engine = run (omap decoded msgs) (configured k) ∧
    ∀ M, Z.of_nat (length M) + 1 < 2 ^ 64 → Forall (session_event M) evs →
      ∃ n, (n ≤ length M)%nat ∧ msgs `sublist_of` take n M ∧ expected_seq r = Z.of_nat n + 1 ∧
        Z.of_nat (length msgs) + gaps_detected r = Z.of_nat n ∧
        (gaps_detected r = 0 → msgs = take n M).
Proof.
  intros Hk Hr0 Hr msgs engine waiting.
  destruct (new_reader_sock _ _ _ _ _ _ _ _ Hr0) as [Hfd Hs].
  split; [by eapply live_prefix|split; [by eapply live_prefix_inv|split; [by eapply live_settles|]]].
  intros r Hb Hq. split; [by eapply live_all_run|]. intros M HM Hev.
  destruct (blocked_delivered r0 evs s r) as [_ Hss]; [by eapply open_reachable|done|].
  pose proof (session_outlook M evs sys_socket HM Hev) as Hn. rewrite <- Hfd in Hn.
  by rewrite <- Hss in Hn.
Qed.

(** A packet with an add order and a message of a type out of scope. *)
Definition live_session : list MessageBuffer := [encode sample_message; [x53; x00]].

Definition live_events : list recv_event := [
  Datagram [x00]; RecvError; Datagram (mold_packet (replicate 10 x53) 1 live_session)].

Lemma live_session_events : Forall (session_event live_session) live_events.
Proof.
  unfold live_events. rewrite !Forall_cons. split; [by left|split; [done|split; [|done]]].
  right. exists (replicate 10 x53), 0%nat, 2%nat. split; [done|].
  split; [|split; [simpl; lia|apply Nat.leb_le; vm_compute; reflexivity]].
  split; [done|split; [done|split; [|done]]].
  by repeat (constructor; [vm_compute; reflexivity|]).
Qed.

(** A state of that session in which nothing is left to do: both messages have been
    run, and no gap counted. *)
Lemma live_to_books_witness :
  ∃ s r n, rtc (live_mode_step (λ _, 0) (Q := list MessageBuffer) (Ret (reader_on 3)))
      (live_mode_start live_events (start 1000)) s ∧
    blocked_at s r ∧ contents (queue (live_loops s)) = [] ∧
    sys_engine (live_system (live_loops s)) = run [sample_message] (configured 1000) ∧
    expected_seq r = Z.of_nat n + 1 ∧ 2 + gaps_detected r = Z.of_nat n ∧
    engine_inv (sys_engine (live_system (live_loops s))).
Proof.
  pose proof (live_to_books (λ _, 0) (Q := list MessageBuffer) 1000 live_events
    3 (λ _ _, 0) (λ _, (1, 0)) (λ _ _, 0) "233.54.12.111" "127.0.0.1" 26477 (reader_on 3)) as Hall.
  destruct (Hall (live_mode_start live_events (start 1000)))
    as (_ & _ & (s & r & Hr & Hb & Hq) & _); [lia|reflexivity|apply rtc_refl|].
  destruct (Hall s) as (_ & Hinv & _ & Hlast); [lia|reflexivity|exact Hr|].
  destruct (Hlast r Hb Hq) as [He Hses].
  destruct (Hses live_session) as (n & _ & _ & Hn & Hg & _);
    [done|apply live_session_events|].
  exists s, r, n. split; [exact Hr|split; [exact Hb|split; [exact Hq|split; [|split; [exact Hn|split]]]]].
  - rewrite He. vm_compute. reflexivity.
  - rewrite <- Hg. vm_compute. reflexivity.
  - apply Hinv; [|vm_compute; reflexivity]. vm_compute. repeat split; try done; congruence.
Defined.
