(* ===== verification/Typing.v ===== *)
(** A check of the encoding: every number that the model of the engine and of its
    snapshots holds fits the C++ type that the code declares it with, so that no
    wrap-around has been left out.

    [Typed A] says it of the values of one type; the instances follow the
    declarations of [include/itch] and [src/book_engine.h].  Every operation of
    the engine preserves it, with no assumption on the feed. *)

From S2P Require Import Prelude ByteOrder Messages Parser WireFormat FeedReader.
From S2P Require Import StdMap OrderBook BookEngine EngineLevels EngineInvariant EngineProperties.
From S2P Require Import Double Snapshot Pipeline PipelineTheorems.
From Stdlib Require Import Strings.Byte Strings.Ascii.

#[local] Open Scope Z_scope.

Class Typed (A : Type) := typed : A → Prop.

#[export] Instance typed_list {A} `{Typed A} : Typed (list A) := Forall typed.
#[export] Instance typed_pair {A B} `{Typed A} `{Typed B} : Typed (A * B) :=
  λ p, typed p.1 ∧ typed p.2.

#[export] Instance typed_price : Typed Price := λ p, raw p ∈u32.
#[export] Instance typed_message : Typed ParsedMessage := message_ok.

#[export] Instance typed_level : Typed PriceLevel := λ l,
  typed (lvl_price l) ∧ lvl_total_shares l ∈u64 ∧ lvl_order_count l ∈u32.

#[export] Instance typed_book : Typed OrderBook := λ b,
  ob_stock_locate b ∈u16 ∧ ob_last_update_timestamp b ∈u64 ∧
  typed (ob_bids b) ∧ typed (ob_asks b).

#[export] Instance typed_record : Typed OrderRecord := λ r,
  rec_shares r ∈u32 ∧ typed (rec_price r) ∧ rec_stock_locate r ∈u16 ∧
  length (rec_mpid r) = 4%nat.

#[export] Instance typed_instrument : Typed InstrumentInfo := λ i,
  ii_stock_locate i ∈u16 ∧ ii_round_lot_size i ∈u32.

Record typed_engine_fields (st : Engine) : Prop := {
  ty_orders : map_Forall (λ ref r, ref ∈u64 ∧ typed r) (order_index st);
  ty_books : map_Forall (λ loc b, loc ∈u16 ∧ typed b) (books st);
  ty_instruments : map_Forall (λ loc i, loc ∈u16 ∧ typed i) (instruments st);
  ty_processed : messages_processed st ∈u64;
  ty_skipped : skipped_unknown_ref st ∈u64;
  ty_corrupt : corrupt_messages st ∈u64;
  ty_interval : snapshot_interval st ∈u64
}.
#[export] Instance typed_engine : Typed Engine := typed_engine_fields.

#[export] Instance typed_level_snapshot : Typed PriceLevelSnapshot := λ l,
  pls_total_shares l ∈u64 ∧ pls_order_count l ∈u32.

#[export] Instance typed_book_snapshot : Typed OrderBookSnapshot := λ b,
  typed (obs_bids b) ∧ typed (obs_asks b) ∧ obs_last_update_timestamp b ∈u64 ∧
  obs_stock_locate b ∈u16 ∧ obs_round_lot_size b ∈u32.

#[export] Instance typed_snapshot : Typed SystemSnapshot := λ s,
  map_Forall (λ _ b, typed b) (ss_books s) ∧ ss_messages_processed s ∈u64 ∧
  ss_snapshot_timestamp s ∈u64.

#[export] Instance typed_system : Typed System := λ s,
  typed (sys_engine s) ∧ ∀ snap, sys_published s = Some snap → typed snap.

(** ** Sides and books *)

Definition typed_side (m : list (Price * PriceLevel)) : Prop :=
  ∀ p l, (p, l) ∈ m → typed p ∧ typed l.

Lemma typed_side_intro (m : list (Price * PriceLevel)) : typed m ↔ typed_side m.
Proof.
  unfold typed, typed_list. rewrite Forall_forall. split.
  - intros Hm p l Hin. apply (Hm _ Hin).
  - intros Hm [p l] Hin. apply (Hm _ _ Hin).
Qed.

Lemma clamped_sub_range v n : v ∈u64 → 0 ≤ n → (clamped_sub v n).1 ∈u64.
Proof. intros. unfold clamped_sub. destruct (Z.ltb_spec v n); simpl; lia. Qed.

Lemma typed_insert_level bid p n m :
  typed p → typed m → typed (insert_level (side_ltb bid) p n m).
Proof.
  rewrite !typed_side_intro. intros Hp Hm q l Hin.
  unfold insert_level in Hin. apply (om_set_elem (side_ltb bid)) in Hin as [[-> ->]|Hin]; [|by apply Hm].
  split; [done|]. exact (conj Hp (conj (u64_range _) (u32_range _))).
Qed.

Lemma typed_remove_level bid p n full m :
  0 ≤ n → typed m → typed (remove_level (side_ltb bid) p n full m).
Proof.
  intros Hn. rewrite !typed_side_intro. intros Hm. unfold remove_level.
  destruct (om_find (side_ltb bid) p m) as [l|] eqn:E; [|done].
  apply (om_find_elem (side_ltb bid)) in E. destruct (Hm _ _ E) as [Hp (Hlp & Ht & Hc)].
  case_match; intros q l' Hin.
  - apply (om_erase_elem (side_ltb bid)) in Hin. by apply Hm.
  - apply (om_set_elem (side_ltb bid)) in Hin as [[-> ->]|Hin]; [|by apply Hm].
    split; [done|]. refine (conj Hlp (conj (clamped_sub_range _ _ Ht Hn) _)).
    simpl. destruct full; [apply u32_range|done].
Qed.

Lemma typed_insert_shares b side p n :
  typed b → typed p → typed (insert_shares b side p n).
Proof.
  intros (Hl & Ht & Hb & Ha) Hp. unfold insert_shares.
  destruct (is_bid side); refine (conj Hl (conj Ht (conj _ _))); try done; simpl.
  - by apply (typed_insert_level true).
  - by apply (typed_insert_level false).
Qed.

Lemma typed_refresh_top b : typed b → typed (refresh_top b).
Proof. done. Qed.

Lemma typed_remove_shares b side p n full :
  typed b → 0 ≤ n → typed (remove_shares b side p n full).
Proof.
  intros (Hl & Ht & Hb & Ha) Hn. apply typed_refresh_top.
  destruct (is_bid side); refine (conj Hl (conj Ht (conj _ _))); try done; simpl.
  - by apply (typed_remove_level true).
  - by apply (typed_remove_level false).
Qed.

Lemma typed_set_timestamp ts b : ts ∈u64 → typed b → typed (set_timestamp ts b).
Proof. intros Hts (Hl & _ & Hba). exact (conj Hl (conj Hts Hba)). Qed.

(** ** Writes of the engine *)

Lemma typed_put_book loc b st : loc ∈u16 → typed b → typed st → typed (put_book loc b st).
Proof. intros Hl Hb []. split; try done. simpl. by apply map_Forall_insert_2. Qed.

Lemma typed_put_order ref r st : ref ∈u64 → typed r → typed st → typed (put_order ref r st).
Proof. intros Hl Hb []. split; try done. simpl. by apply map_Forall_insert_2. Qed.

Lemma typed_erase_order ref st : typed st → typed (erase_order ref st).
Proof. intros []. split; try done. simpl. by apply map_Forall_delete. Qed.

Lemma typed_insert_instrument loc i st :
  loc ∈u16 → typed i → typed st → typed (set_instruments <[loc := i]> st).
Proof. intros Hl Hb []. split; try done. simpl. by apply map_Forall_insert_2. Qed.

Lemma typed_count_message st : typed st → typed (count_message st).
Proof. intros []. split; try done. apply u64_range. Qed.
Lemma typed_count_skipped st : typed st → typed (count_skipped st).
Proof. intros []. split; try done. apply u64_range. Qed.
Lemma typed_count_corrupt st : typed st → typed (count_corrupt st).
Proof. intros []. split; try done. apply u64_range. Qed.

Lemma typed_lookup_order st ref r :
  typed st → order_index st !! ref = Some r → ref ∈u64 ∧ typed r.
Proof. intros [Ho _ _ _ _ _ _] Hr. apply (Ho _ _ Hr). Qed.

Lemma typed_stamp_book loc ts st : ts ∈u64 → typed st → typed (stamp_book loc ts st).
Proof.
  intros Hts Hst. unfold stamp_book. destruct (books st !! loc) as [b|] eqn:E; [|done].
  destruct (ty_books _ Hst _ _ E). apply typed_put_book; [done|by apply typed_set_timestamp|done].
Qed.

Lemma typed_get_or_create loc st b st' :
  loc ∈u16 → typed st → get_or_create_book loc st = (b, st') → typed b ∧ typed st'.
Proof.
  intros Hl Hst. unfold get_or_create_book. destruct (books st !! loc) as [b0|] eqn:E.
  - intros [= <- <-]. destruct (ty_books _ Hst _ _ E). done.
  - assert (typed (new_book loc)) as Hnew by by repeat constructor; simpl; lia.
    intros [= <- <-]. split; [done|]. apply typed_put_book; [done..|].
    destruct (instruments st !! loc); [done|]. by apply typed_insert_instrument.
Qed.

#[export] Hint Resolve typed_insert_shares typed_refresh_top typed_remove_shares
  typed_put_book typed_put_order typed_erase_order typed_insert_instrument
  typed_count_message typed_count_skipped typed_count_corrupt typed_stamp_book : itch.

Lemma length_set_mpid s : length (set_mpid_from s) = 4%nat.
Proof. unfold set_mpid_from. rewrite length_app, length_take, length_drop, length_replicate. lia. Qed.

(** ** Handlers *)

Lemma typed_add_order loc ref side n p ts mpid st :
  loc ∈u16 → ref ∈u64 → n ∈u32 → typed p → ts ∈u64 → typed st →
  typed (add_order_impl loc ref side n p ts mpid st).
Proof.
  intros Hl Hr Hn Hp Hts Hst. unfold add_order_impl.
  destruct (get_or_create_book loc st) as [b st'] eqn:E.
  apply typed_get_or_create in E as [Hb Hst']; [|done..].
  apply typed_stamp_book, typed_put_order; [done|done| |by auto with itch].
  refine (conj Hn (conj Hp (conj Hl _))). simpl.
  case_decide; [done|apply length_set_mpid].
Qed.

Lemma typed_set_rec_shares n r : n ∈u32 → typed r → typed (set_rec_shares n r).
Proof. intros Hn (_ & Hr). exact (conj Hn Hr). Qed.

Lemma typed_reduction ref n ts st :
  0 ≤ n → ts ∈u64 → typed st → typed (handle_executed (reduction ref n ts) st).
Proof.
  intros Hn Hts Hst. destruct (order_index st !! ref) as [r|] eqn:E.
  2: { unfold handle_executed. simpl. rewrite E. auto with itch. }
  destruct (typed_lookup_order _ _ _ Hst E) as [Href Hr].
  destruct (reduction_unfold ref n ts st r E) as (b & st' & c & Eb & ->).
  pose proof Hr as (Hs & _ & Hl & _).
  apply typed_get_or_create in Eb as [Hb Hst']; [|done..].
  assert ((clamped_sub (rec_shares r) n).1 ∈u32) as Ha.
  { unfold clamped_sub. destruct (Z.ltb_spec (rec_shares r) n); simpl; lia. }
  pose proof (typed_put_order ref _ st' Href (typed_set_rec_shares _ _ Ha Hr) Hst') as Hst1.
  assert (typed (remove_shares b (rec_side r) (rec_price r)
    (u32 (rec_shares r - (clamped_sub (rec_shares r) n).1))
    ((clamped_sub (rec_shares r) n).1 =? 0))) as Hb1.
  { apply typed_remove_shares; [done|]. apply u32_range. }
  destruct c, (_ =? 0); auto 8 with itch.
Qed.

Lemma typed_delete m st : od_timestamp m ∈u64 → typed st → typed (handle_delete m st).
Proof.
  intros Hts Hst. destruct (order_index st !! od_order_ref m) as [r|] eqn:E.
  2: { unfold handle_delete. rewrite E. auto with itch. }
  destruct (typed_lookup_order _ _ _ Hst E) as [Href (Hs & _ & Hl & _)].
  destruct (delete_unfold m st r E) as (b & st' & Eb & ->).
  apply typed_get_or_create in Eb as [Hb Hst']; [|done..].
  apply typed_erase_order, typed_stamp_book, typed_put_book; [done..| |done].
  apply typed_remove_shares; [done|lia].
Qed.

Lemma typed_replace m st : message_ok (OrderReplace m) → typed st → typed (handle_replace m st).
Proof.
  intros Hm Hst. cbn in Hm. destruct Hm as (_ & _ & Hts & _ & Hnew & Hn & Hp).
  unfold handle_replace. destruct (order_index st !! _) as [r|] eqn:E; [|auto with itch].
  destruct (typed_lookup_order _ _ _ Hst E) as [_ (Hs & _ & Hl & Hmpid)].
  destruct (get_or_create_book _ _) as [b st'] eqn:Eb.
  apply typed_get_or_create in Eb as [Hb Hst']; [|done|auto with itch].
  apply typed_stamp_book, typed_put_order; [lia|done| |].
  - exact (conj Hn (conj Hp (conj Hl Hmpid))).
  - apply typed_put_book; [done| |done].
    apply typed_refresh_top, typed_insert_shares; [|done].
    apply typed_remove_shares; [done|lia].
Qed.

Lemma typed_handle msg st : message_ok msg → typed st → typed (handle msg st).
Proof.
  intros Hm Hst. destruct msg as [m|m|m|m|m|m|m|m|m]; cbn [handle].
  - cbn in Hm. unfold stock_directory_ok in Hm. apply typed_insert_instrument; [tauto| |done].
    split; simpl; tauto.
  - unfold handle_trading_action. destruct (instruments st !! _) as [i|] eqn:E; [|done].
    destruct (ty_instruments _ Hst _ _ E). by apply typed_insert_instrument.
  - cbn in Hm. destruct Hm as (?&?&?&?&?&?&?). apply typed_add_order; first [done|lia].
  - cbn in Hm. unfold add_order_mpid_ok in Hm. apply typed_add_order; destruct_and?; first [done|lia].
  - cbn in Hm. unfold order_executed_ok in Hm. rewrite handle_executed_reduction.
    apply typed_reduction; destruct_and?; first [done|lia].
  - cbn in Hm. unfold order_executed_price_ok in Hm. rewrite handle_executed_price_reduction.
    apply typed_reduction; destruct_and?; first [done|lia].
  - cbn in Hm. unfold order_cancel_ok in Hm. rewrite handle_cancel_reduction.
    apply typed_reduction; destruct_and?; first [done|lia].
  - cbn in Hm. unfold order_delete_ok in Hm. apply typed_delete; destruct_and?; first [done|lia].
  - by apply typed_replace.
Qed.

(** ** Snapshots *)

Lemma typed_snapshot_levels m : typed m → typed (snapshot_level <$> m).
Proof.
  intros Hm. unfold typed, typed_list in *. apply Forall_fmap.
  eapply Forall_impl; [exact Hm|]. intros [p l] [_ (_ & Hl)]. exact Hl.
Qed.

Lemma typed_book_snapshot_of info b :
  typed info → typed b → typed (book_snapshot info b).
Proof.
  intros [Hl Hr] (_ & Ht & Hb & Ha).
  refine (conj _ (conj _ (conj Ht (conj Hl Hr)))); by apply typed_snapshot_levels.
Qed.

Lemma typed_empty_snapshot info : typed info → typed (empty_snapshot info).
Proof.
  intros [Hl Hr].
  by refine (conj (Forall_nil_2 _) (conj (Forall_nil_2 _) (conj _ (conj Hl Hr)))).
Qed.

Section snapshots.
Context `{MapOrder}.

Lemma typed_fold_insert {X} (f : gmap string OrderBookSnapshot → X → gmap string OrderBookSnapshot)
    (l : list X) acc :
  (∀ acc x, x ∈ l → map_Forall (λ _ b, typed b) acc → map_Forall (λ _ b, typed b) (f acc x)) →
  map_Forall (λ _ b, typed b) acc → map_Forall (λ _ b, typed b) (foldl f acc l).
Proof.
  revert acc. induction l as [|x l IH]; intros acc Hf Hacc; [done|]. simpl.
  apply IH; [|apply Hf; [by left|done]]. intros acc' y Hy. apply Hf. by right.
Qed.

Lemma typed_build_snapshot now st : now ∈u64 → typed st → typed (build_snapshot now st).
Proof.
  intros Hnow Hst. refine (conj _ (conj (ty_processed _ Hst) Hnow)). cbn [ss_books build_snapshot].
  apply typed_fold_insert.
  - intros acc [loc i] Hin%SnapshotTheorems.elem_of_list_instruments Hacc.
    unfold add_instrument. simpl. destruct (acc !! _); [done|].
    apply map_Forall_insert_2; [|done]. apply typed_empty_snapshot.
    apply (ty_instruments _ Hst _ _ Hin).
  - apply typed_fold_insert; [|apply map_Forall_empty].
    intros acc [loc b] Hin%SnapshotTheorems.elem_of_list_books Hacc.
    unfold add_book. simpl. destruct (instruments st !! loc) as [i|] eqn:E; [|done].
    apply map_Forall_insert_2; [|done].
    apply typed_book_snapshot_of; [apply (ty_instruments _ Hst _ _ E)|].
    apply (ty_books _ Hst _ _ Hin).
Qed.

(** ** The pipeline *)

Lemma typed_configured k : k ∈u64 → typed (SnapshotTheorems.configured k).
Proof. intros Hk. split; try done; by apply map_Forall_empty. Qed.

Lemma parsed_ok buf msg : parse buf = Ret (Some msg) → message_ok msg.
Proof.
  intros E. pose proof (parse_meets_spec buf) as Hs. rewrite E in Hs. by inversion Hs.
Qed.

Lemma typed_process now buf s s' :
  (∀ n, now n ∈u64) → typed s → process now buf s = Ret s' → typed s'.
Proof.
  intros Hnow [He Hp]. unfold process.
  destruct (parse buf) as [[msg|]|w|] eqn:E; cbn [mbind outcome_bind catching];
    try (by intros [= <-]).
  apply parsed_ok in E as Hmsg.
  unfold apply, maybe_publish_snapshot. cbn [sys_engine].
  assert (typed (count_message (handle msg (sys_engine s)))) as He'
    by by apply typed_count_message, typed_handle.
  destruct (_ =? 0); [done|]. destruct (_ =? 0); intros [= <-]; split; try done.
  simpl. intros snap [= <-]. by apply typed_build_snapshot.
Qed.

Lemma typed_process_all now bufs s s' :
  (∀ n, now n ∈u64) → typed s → process_all now bufs s = Ret s' → typed s'.
Proof.
  intros Hnow. revert s. induction bufs as [|buf bufs IH]; intros s Hs; simpl; [by intros [= <-]|].
  destruct (process now buf s) as [s1|w|] eqn:E; try done. intros Hr.
  apply (IH s1); [|done]. by eapply typed_process.
Qed.

End snapshots.

(** The model is well typed, as the program is by its declarations: whatever buffers the pipeline is given, valid
    or not, every number that the engine and the published snapshot hold
    afterwards fits the C++ type it is declared with: order references 64 bits,
    shares, prices and counts 32, locates and the keys of their maps 16, level
    totals, counters and timestamps 64; an MPID array has four characters.  The
    engine processes them all, without undefined behaviour. *)
Theorem pipeline_typed `{MapOrder} now k bufs :
  0 < k → k ∈u64 → (∀ n, now n ∈u64) →
  ∃ s, process_all now bufs (start k) = Ret s ∧ typed (sys_engine s) ∧
    (∀ snap, sys_published s = Some snap → typed snap).
Proof.
  intros Hk Hk64 Hnow.
  destruct (process_all_runs now k Hk bufs (start k) (start_runs k)) as (s & E & _).
  exists s. split; [done|]. apply (typed_process_all now bufs (start k)); [done| |done].
  split; [by apply typed_configured|done].
Qed.

Lemma pipeline_typed_witness :
  ∃ s, process_all (λ _, 7) [encode sample_message; [x41; x00]; encode sample_message] (start 2)
      = Ret s ∧ typed (sys_engine s) ∧ (∀ snap, sys_published s = Some snap → typed snap).
Proof. apply pipeline_typed; [lia|lia|intros n; lia]. Defined.
