(* ===== verification/Recorder.v ===== *)
(** The latency recorder of [bench/hdr_recorder.h] and the files it writes.

    HdrHistogram is a library the recorder calls: an interface, whose laws say what its
    documentation promises of recording a value (it is counted, or it is too large and the call
    returns false), with the list of the recorded values as an instance.  Whether a file can be opened for writing is a parameter. *)

From S2P Require Import Prelude Messages Double.
From stdpp Require Import pretty.
From Stdlib Require Import Strings.Ascii.
From Stdlib Require Strings.String.

#[local] Open Scope Z_scope.

(** ** The histograms *)

(** A histogram for values from [lowest] to [highest]. *)
Class HdrHistogram (H : Type) := {
  hdr_init : Z → Z → Z → H;   (* lowest and highest value, significant figures *)
  hdr_record_value : H → Z → bool * H;   (* false: it could not be recorded *)
  total_count : H → Z;
  hdr_min : H → Z;
  hdr_max : H → Z;
  hdr_value_at_percentile : H → double → Z;
  hdr_mean : H → double;
  hdr_stddev : H → double;
  hdr_highest : H → Z;
  hdr_init_count lo hi figures : total_count (hdr_init lo hi figures) = 0;
  hdr_init_highest lo hi figures : hdr_highest (hdr_init lo hi figures) = hi;
  hdr_record_highest h v : hdr_highest (hdr_record_value h v).2 = hdr_highest h;
  hdr_record_in_range h v : 0 ≤ v ≤ hdr_highest h → (hdr_record_value h v).1 = true;
  hdr_record_count h v :
    total_count (hdr_record_value h v).2 =
      total_count h + (if (hdr_record_value h v).1 then 1 else 0)
}.

(** The highest value and the values recorded, latest first. *)
Record ListHistogram := { lh_highest : Z; lh_values : list Z }.

#[export] Program Instance list_histogram : HdrHistogram ListHistogram := {|
  hdr_init := λ _ hi _, {| lh_highest := hi; lh_values := [] |};
  hdr_record_value := λ h v,
    if (0 <=? v) && (v <=? lh_highest h)
    then (true, {| lh_highest := lh_highest h; lh_values := v :: lh_values h |}) else (false, h);
  total_count := λ h, Z.of_nat (length (lh_values h));
  hdr_min := λ h, foldr Z.min (lh_highest h) (lh_values h);
  hdr_max := λ h, foldr Z.max 0 (lh_values h);
  hdr_value_at_percentile := λ h _, foldr Z.max 0 (lh_values h);
  hdr_mean := λ h, double_div (double_of_Z (foldr Z.add 0 (lh_values h)))
    (double_of_Z (Z.of_nat (length (lh_values h))));
  hdr_stddev := λ h, double_of_Z 0;
  hdr_highest := lh_highest |}.
Next Obligation. done. Qed.
Next Obligation. done. Qed.
Next Obligation. intros h v. simpl. by case_match. Qed.
Next Obligation.
  intros h v Hv. simpl. by rewrite (proj2 (Z.leb_le 0 v)), (proj2 (Z.leb_le v _)) by lia.
Qed.
Next Obligation. intros h v. simpl. case_match; simpl; lia. Qed.

(** ** The recorder *)

Record HdrRecorder (H : Type) := mkRecorder {
  h_parse : H;
  h_apply : H;
  h_snapshot : H;
  enabled : bool
}.
Arguments mkRecorder {H} h_parse h_apply h_snapshot enabled.
Arguments h_parse {H} h.
Arguments h_apply {H} h.
Arguments h_snapshot {H} h.
Arguments enabled {H} h.

Section recorder.
Context {H : Type} `{HdrHistogram H}.
Implicit Types r : HdrRecorder H.

Definition HdrRecorder_init : HdrRecorder H :=
  let h := hdr_init 1 60000000000 3 in mkRecorder h h h false.

Definition enable r : HdrRecorder H := mkRecorder (h_parse r) (h_apply r) (h_snapshot r) true.

Definition record_parse (ns : Z) r : HdrRecorder H :=
  if enabled r && (0 <? ns)
  then mkRecorder (hdr_record_value (h_parse r) ns).2 (h_apply r) (h_snapshot r) (enabled r) else r.

Definition record_apply (ns : Z) r : HdrRecorder H :=
  if enabled r && (0 <? ns)
  then mkRecorder (h_parse r) (hdr_record_value (h_apply r) ns).2 (h_snapshot r) (enabled r) else r.

Definition record_snapshot (ns : Z) r : HdrRecorder H :=
  if enabled r && (0 <? ns)
  then mkRecorder (h_parse r) (h_apply r) (hdr_record_value (h_snapshot r) ns).2 (enabled r) else r.

(** ** The files *)

(** [%.1f]: the value in tenths, rounded to the nearest, ties to even. *)
Definition tenths (m : positive) (e : Z) : Z :=
  let n := Z.pos m * 10 in
  if 0 <=? e then n * 2 ^ e
  else
    let d := 2 ^ (- e) in
    let q := n / d in let r := n mod d in
    if 2 * r <? d then q else if d <? 2 * r then q + 1 else q + q mod 2.

Definition sign_text (s : bool) : string := if s then "-" else "".

Definition fixed1 (f : double) : string :=
  match f with
  | S754_zero s => sign_text s +:+ "0.0"
  | S754_infinity s => sign_text s +:+ "inf"
  | S754_nan => "nan"
  | S754_finite s m e =>
      sign_text s +:+ pretty (tenths m e / 10) +:+ "." +:+ pretty (tenths m e mod 10)
  end.

(** The literals [50.0] to [99.99]: the nearest doubles. *)
Definition decimal (n d : Z) : double := double_div (double_of_Z n) (double_of_Z d).

Definition newline : string := String (Ascii.ascii_of_nat 10) "".

Definition csv_header : string :=
  "stage,count,min_ns,p50_ns,p90_ns,p99_ns,p999_ns," +:+
  "p9999_ns,max_ns,mean_ns,stddev_ns".

(** The values of the second [fprintf], as printed. *)
Definition csv_fields (h : H) (label : string) : list string := [
  label;
  pretty (total_count h);
  pretty (hdr_min h);
  pretty (hdr_value_at_percentile h (double_of_Z 50));
  pretty (hdr_value_at_percentile h (double_of_Z 90));
  pretty (hdr_value_at_percentile h (double_of_Z 99));
  pretty (hdr_value_at_percentile h (decimal 999 10));
  pretty (hdr_value_at_percentile h (decimal 9999 100));
  pretty (hdr_max h);
  fixed1 (hdr_mean h);
  fixed1 (hdr_stddev h)].

(** Commas between the fields, as in the format string. *)
Fixpoint comma_separated (fields : list string) : string :=
  match fields with
  | [] => ""
  | [f] => f
  | f :: fields => f +:+ "," +:+ comma_separated fields
  end.

Definition csv_row (h : H) (label : string) : string := comma_separated (csv_fields h label).

(** The path and the text of the file, if it can be opened. *)
Definition dump_one (writable : string → bool) (h : H) (path label : string)
  : list (string * string) :=
  if writable path
  then [(path, csv_header +:+ newline +:+ csv_row h label +:+ newline)] else [].

Definition dump_csvs (writable : string → bool) (dir : string) r : list (string * string) :=
  if negb (enabled r) then []
  else
    dump_one writable (h_parse r) (dir +:+ "/hist_parse.csv") "parse" ++
    dump_one writable (h_apply r) (dir +:+ "/hist_apply.csv") "apply" ++
    dump_one writable (h_snapshot r) (dir +:+ "/hist_snapshot.csv") "snapshot".

End recorder.
