(* ===== verification/Replay.v ===== *)
(** The capture replay of [bench/bench_replay.cpp], with its latency recorder.

    The clocks are arguments: [now n]
    is the wall clock at the [n]-th [apply], as in the pipeline, and [ticks n]
    the [n]-th reading of the steady clock.  Whether the recorder is compiled in
    ([ITCH_HAVE_HDR]) is a parameter.  Of the report, the timings and the memory
    figure are left out. *)

From S2P Require Import Prelude ByteOrder Messages Parser FeedReader.
From S2P Require Import StdMap OrderBook BookEngine Snapshot RestServer Pipeline Recorder.
From stdpp Require Import pretty.
From Stdlib Require Import Strings.Ascii.
From Stdlib Require Strings.String.

#[local] Open Scope Z_scope.

(** A [uint64_t] passed as an [int64_t]. *)
Definition i64 (z : Z) : Z := if z <? 2 ^ 63 then z else z - 2 ^ 64.

(** ** The replay *)

Record Replay (H : Type) := mkReplay {
  rp_system : System;
  rp_parse_errors : Z;
  rp_messages : Z;
  rp_type_counts : list Z;   (* uint64_t[256] *)
  rp_hdr : HdrRecorder H;
  rp_readings : nat          (* readings of the steady clock so far *)
}.
Arguments mkReplay {H} rp_system rp_parse_errors rp_messages rp_type_counts rp_hdr rp_readings.
Arguments rp_system {H} r.
Arguments rp_parse_errors {H} r.
Arguments rp_messages {H} r.
Arguments rp_type_counts {H} r.
Arguments rp_hdr {H} r.
Arguments rp_readings {H} r.

Section replay.
Context {H : Type} `{HdrHistogram H} `{MapOrder}.
Context (now ticks : nat → Z) (have_hdr profile : bool).
Implicit Types r : Replay H.

Definition with_system (s : System) r : Replay H := mkReplay s (rp_parse_errors r)
  (rp_messages r) (rp_type_counts r) (rp_hdr r) (rp_readings r).
Definition with_hdr (h : HdrRecorder H) r : Replay H := mkReplay (rp_system r)
  (rp_parse_errors r) (rp_messages r) (rp_type_counts r) h (rp_readings r).

(** [++parse_errors], [++messages], [type_counts[type_byte]++]. *)
Definition count_parse_error r : Replay H := mkReplay (rp_system r)
  (u64 (rp_parse_errors r + 1)) (rp_messages r) (rp_type_counts r) (rp_hdr r) (rp_readings r).
Definition count_applied r : Replay H := mkReplay (rp_system r) (rp_parse_errors r)
  (u64 (rp_messages r + 1)) (rp_type_counts r) (rp_hdr r) (rp_readings r).
Definition count_type (type_byte : Z) r : Replay H := mkReplay (rp_system r)
  (rp_parse_errors r) (rp_messages r)
  (alter (λ n, u64 (n + 1)) (Z.to_nat type_byte) (rp_type_counts r)) (rp_hdr r) (rp_readings r).

(** [profile ? now_ns() : 0], when compiled in. *)
Definition now_ns r : Z * Replay H :=
  if have_hdr && profile then
    (ticks (rp_readings r), mkReplay (rp_system r) (rp_parse_errors r) (rp_messages r)
      (rp_type_counts r) (rp_hdr r) (S (rp_readings r)))
  else (0, r).

(** [if (profile) hdr.record_parse(now_ns() - t_start)], when compiled in. *)
Definition record_since (record : Z → HdrRecorder H → HdrRecorder H) (t_start : Z) r : Replay H :=
  if have_hdr && profile then
    let '(t, r) := now_ns r in with_hdr (record (i64 (u64 (t - t_start))) (rp_hdr r)) r
  else r.

Definition type_byte_of (buf : MessageBuffer) : Z :=
  match buf with [] => 0 | b :: _ => byte_val b end.

(** The body of the loop. *)
Definition replay_message (buf : MessageBuffer) r : outcome (Replay H) :=
  let r := count_type (type_byte_of buf) r in
  let '(t_parse_start, r) := now_ns r in
  match parse buf with
  | Undef => Undef
  | Throw _ => Ret (count_parse_error r)
  | Ret msg =>
      let r := record_since record_parse t_parse_start r in
      match msg with
      | None => Ret r
      | Some msg =>
          let '(t_apply_start, r) := now_ns r in
          s ← Snapshot.apply (now (next_apply (rp_system r))) msg (rp_system r);
          let r := record_since record_apply t_apply_start (with_system s r) in
          Ret (count_applied r)
      end
  end.

Section file.
Context {F : Type} `{PosixFile F}.

(** The loop: as [file_loop] of the pipeline, but an exception of [apply] would
    end it. *)
Fixpoint replay_loop (fuel : nat) (f : F) r : outcome (option (bool * Replay H)) :=
  match fuel with
  | O => Ret None
  | S fuel =>
      match FeedReader.next_message f with
      | Ret (Some buf, f) =>
          match replay_message buf r with
          | Ret r => replay_loop fuel f r
          | Throw _ => Ret (Some (false, r))
          | Undef => Undef
          end
      | Ret (None, _) => Ret (Some (true, r))
      | Throw _ => Ret (Some (false, r))
      | Undef => Undef
      end
  end.

Definition replay_start (interval : Z) : Replay H :=
  mkReplay (start interval) 0 0 (replicate 256 0)
    (if have_hdr && profile then enable HdrRecorder_init else HdrRecorder_init) 0.

(** The program from the opening of the file on: exit status and final state. *)
Definition replay_file (fuel : nat) (opened : option F) (final : Z) r
  : outcome (option (Z * Replay H)) :=
  match opened with
  | None => Ret (Some (1, r))
  | Some f =>
      res ← replay_loop fuel f r;
      match res with
      | None => Ret None
      | Some (false, r) => Ret (Some (1, r))
      | Some (true, r) =>
          Ret (Some (0, with_system (set_pipeline_complete final (rp_system r)) r))
      end
  end.

End file.

(** The lines of the report that do not depend on the time. *)
Definition interesting : list ascii := ["R"; "H"; "A"; "F"; "E"; "C"; "X"; "D"; "U"]%char.

Definition type_count (c : ascii) r : Z :=
  default 0 (rp_type_counts r !! Ascii.nat_of_ascii c).

Definition report r : list string := [
  "[bench_replay] messages=" +:+ pretty (rp_messages r) +:+
  " parse_errors=" +:+ pretty (rp_parse_errors r) +:+
  " skipped_unknown_ref=" +:+ pretty (skipped_unknown_ref (sys_engine (rp_system r)));
  "[bench_replay] type_counts:" +:+
  foldr (λ c s, " " +:+ string_of_char c +:+ "=" +:+ pretty (type_count c r) +:+ s) "" interesting].

(** The line before the loop. *)
Definition start_line (path : string) (interval : Z) : string :=
  "[bench_replay] file=" +:+ path +:+ " snapshot_interval=" +:+ pretty interval +:+
  " profile=" +:+ (if profile then "1" else "0").

(** The files written at the end of a replay that was not fatal. *)
Definition replay_csvs (writable : string → bool) (res : Z * Replay H) : list (string * string) :=
  if (res.1 =? 0) && have_hdr && profile then dump_csvs writable "bench/out" (rp_hdr res.2) else [].

End replay.

(** ** The command line *)

(** [std::strtoull(s, nullptr, 10)]: zero without digits, [ULLONG_MAX] when the
    value does not fit. *)
Definition strtoull (s : string) : Z :=
  let '(_, l) := skip_spaces (Strings.String.list_ascii_of_string s) in
  let '(sign, _, l) := read_sign l in
  let '(v, _) := read_digits 0 l in
  if v <? 2 ^ 64 then u64 (sign * v) else 2 ^ 64 - 1.

Section main.
Context {H : Type} `{HdrHistogram H} `{MapOrder} {F : Type} `{PosixFile F}.
Context (now ticks : nat → Z) (have_hdr : bool) (open_file : string → option F)
  (getenv : string → option string).

(** [main]: [argv] with the program's name first. *)
Definition replay_main (fuel : nat) (argv : list string) (final : Z)
  : outcome (option (Z * Replay H)) :=
  let profile := bool_decide (is_Some (getenv "ITCH_PROFILE")) in
  match argv !! 1%nat with
  | None => Ret (Some (2, replay_start have_hdr false 1000))
  | Some path =>
      let interval := match argv !! 2%nat with Some a => strtoull a | None => 1000 end in
      replay_file now ticks have_hdr profile fuel (open_file path) final
        (replay_start have_hdr profile interval)
  end.

End main.

(** ** Loading a capture ([load_capture] of [bench/bench_mixed_workload.cpp]) *)

(** [None] when the fuel is used up.  Every exception ends in what has been
    read so far: those of the parser skip a buffer, those of the reader end the
    loop. *)
Fixpoint load_capture_loop {F} `{PosixFile F} (fuel : nat) (f : F) (max_messages : nat)
    (out : list ParsedMessage) : outcome (option (list ParsedMessage)) :=
  match fuel with
  | O => Ret None
  | S fuel =>
      if decide (length out < max_messages)%nat then
        match FeedReader.next_message f with
        | Ret (Some buf, f) =>
            match parse buf with
            | Ret (Some m) => load_capture_loop fuel f max_messages (out ++ [m])
            | Ret None | Throw _ => load_capture_loop fuel f max_messages out
            | Undef => Undef
            end
        | Ret (None, _) | Throw _ => Ret (Some out)
        | Undef => Undef
        end
      else Ret (Some out)
  end.

Definition load_capture {F} `{PosixFile F} (fuel : nat) (opened : option F) (max_messages : nat)
  : outcome (option (list ParsedMessage)) :=
  match opened with
  | None => Ret (Some [])
  | Some f => load_capture_loop fuel f max_messages []
  end.
