(* ===== verification/ReplayTheorems.v ===== *)
(** The replay benchmark runs the program it measures: its engine goes through
    the states of file mode, with the recorder on or off, and its counters
    account for every frame of the file. *)

From S2P Require Import Prelude ByteOrder Messages Parser WireFormat FeedReader.
From S2P Require Import StdMap OrderBook BookEngine EngineLevels EngineInvariant EngineProperties.
From S2P Require Import Snapshot SnapshotTheorems Pipeline PipelineTheorems Recorder Replay.
From Stdlib Require Import Strings.Byte Strings.Ascii.

#[local] Open Scope Z_scope.

(** The messages the reader returns before it ends or throws. *)
Fixpoint frames_read {F} `{PosixFile F} (fuel : nat) (f : F) : list MessageBuffer :=
  match fuel with
  | O => []
  | S fuel =>
      match FeedReader.next_message f with
      | Ret (Some buf, f) => buf :: frames_read fuel f
      | _ => []
      end
  end.

Lemma frames_read_length {F} `{PosixFile F} fuel (f : F) :
  (length (frames_read fuel f) ≤ length (remaining f))%nat.
Proof.
  revert f. induction fuel as [|fuel IH]; intros f; simpl; [lia|].
  pose proof (next_message_progress f) as Hp.
  destruct (FeedReader.next_message f) as [[[buf|] f']|w|]; simpl; try lia.
  specialize (IH f'). lia.
Qed.

Lemma frames_read_frames {F} `{ReliableFile F} bufs fuel (f : F) :
  remaining f = concat (frame <$> bufs) → Forall frameable bufs → (length bufs < fuel)%nat →
  frames_read fuel f = bufs.
Proof.
  intros Hf Hb. revert f fuel Hf. induction Hb as [|buf bufs Hbuf Hb IH]; intros f fuel Hf Hfuel;
    (destruct fuel as [|fuel]; [simpl in Hfuel; lia|]); cbn [frames_read].
  - pose proof (next_message_reliable f) as E. rewrite Hf in E. simpl in E.
    by destruct (next_message f) as [[[b|] f']| |].
  - pose proof (next_message_framed f buf _ Hbuf Hf) as E.
    destruct (next_message f) as [[o f']| |]; [|discriminate..].
    simpl in E. injection E as -> Hf'. rewrite (IH f'); [done|done|simpl in Hfuel; lia].
Qed.

(** The file loop processes them. *)
Lemma file_loop_frames_read `{MapOrder} {F} `{PosixFile F} now fuel (f : F) s c s' :
  file_loop now fuel f s = Ret (Some (c, s')) →
  process_all now (frames_read fuel f) s = Ret s'.
Proof.
  revert f s. induction fuel as [|fuel IH]; intros f s; [done|]. simpl.
  destruct (FeedReader.next_message f) as [[[buf|] f']|w|]; [| | |done].
  2, 3: by intros [= _ <-].
  simpl. destruct (process now buf s) as [s1| |]; [|done..]. apply IH.
Qed.

(** The parser rejects the buffer. *)
Definition rejected (buf : MessageBuffer) : Prop :=
  match parse buf with Throw _ => True | _ => False end.

#[export] Instance rejected_dec buf : Decision (rejected buf).
Proof. unfold rejected. destruct (parse buf); apply _. Defined.

Definition tally (P : MessageBuffer → Prop) `{∀ b, Decision (P b)} (bufs : list MessageBuffer) : Z :=
  Z.of_nat (length (filter P bufs)).

Lemma tally_cons P `{∀ b, Decision (P b)} buf bufs :
  tally P (buf :: bufs) = (if decide (P buf) then 1 else 0) + tally P bufs.
Proof. unfold tally. rewrite filter_cons. case_decide; simpl; lia. Qed.

Section replay.
Context {H : Type} `{HdrHistogram H} `{MapOrder}.
Context (now ticks : nat → Z) (have_hdr profile : bool).
Implicit Types r : Replay H.

(** ** The system of the replay *)

Lemma apply_no_throw t msg s w : Snapshot.apply t msg s ≠ Throw w.
Proof.
  unfold Snapshot.apply, maybe_publish_snapshot. destruct (_ =? 0); [done|]. by destruct (_ =? 0).
Qed.

Lemma now_ns_frame r :
  let r' := (now_ns ticks have_hdr profile r).2 in
  rp_system r' = rp_system r ∧ rp_parse_errors r' = rp_parse_errors r ∧
  rp_messages r' = rp_messages r ∧ rp_type_counts r' = rp_type_counts r.
Proof. unfold now_ns. by destruct (have_hdr && profile). Qed.

Lemma record_since_frame rec t r :
  let r' := record_since ticks have_hdr profile rec t r in
  rp_system r' = rp_system r ∧ rp_parse_errors r' = rp_parse_errors r ∧
  rp_messages r' = rp_messages r ∧ rp_type_counts r' = rp_type_counts r.
Proof. unfold record_since, now_ns. by destruct (have_hdr && profile). Qed.

Notation replay_message := (replay_message now ticks have_hdr profile).
Notation replay_loop := (replay_loop now ticks have_hdr profile).

(** What one buffer does. *)
Lemma replay_message_spec buf r :
  match replay_message buf r with
  | Ret r' =>
      process now buf (rp_system r) = Ret (rp_system r') ∧
      rp_type_counts r' =
        alter (λ n, u64 (n + 1)) (Z.to_nat (type_byte_of buf)) (rp_type_counts r) ∧
      rp_parse_errors r' =
        (if decide (rejected buf) then u64 (rp_parse_errors r + 1) else rp_parse_errors r) ∧
      rp_messages r' =
        (match decoded buf with Some _ => u64 (rp_messages r + 1) | None => rp_messages r end)
  | Throw _ => False
  | Undef => process now buf (rp_system r) = Undef
  end.
Proof.
  unfold Replay.replay_message, process, decoded.
  pose proof (now_ns_frame (count_type (type_byte_of buf) r)) as Hn.
  destruct (now_ns _ _ _ (count_type _ r)) as [t r1]. cbn [fst snd] in Hn.
  destruct Hn as (Hs1 & He1 & Hm1 & Ht1).
  assert (rejected buf ↔ ∃ w, parse buf = Throw w) as Hrej.
  { unfold rejected. destruct (parse buf); naive_solver. }
  pose proof (parse_defined buf) as Hdef.
  destruct (parse buf) as [[msg|]|w|] eqn:Ep; [| | |done].
  - pose proof (record_since_frame record_parse t r1) as (Hs2 & He2 & Hm2 & Ht2).
    pose proof (now_ns_frame (record_since ticks have_hdr profile record_parse t r1)) as Hn.
    destruct (now_ns _ _ _ (record_since _ _ _ _ _ _)) as [t' r3]. cbn [fst snd] in Hn.
    destruct Hn as (Hs3 & He3 & Hm3 & Ht3). cbn [mbind outcome_bind].
    assert (rp_system r3 = rp_system r) as Hs by (simpl in *; congruence). rewrite Hs.
    rewrite decide_False by (rewrite Hrej; naive_solver).
    destruct (Snapshot.apply _ msg (rp_system r)) as [s|w|] eqn:Ea;
      [|by apply apply_no_throw in Ea|done].
    pose proof (record_since_frame record_apply t' (with_system s r3)) as (Hs4 & He4 & Hm4 & Ht4).
    cbn in *. split_and!; congruence.
  - pose proof (record_since_frame record_parse t r1) as (Hs2 & He2 & Hm2 & Ht2).
    rewrite decide_False by (rewrite Hrej; naive_solver).
    cbn in *. split_and!; congruence.
  - rewrite decide_True by (rewrite Hrej; naive_solver). cbn in *. split_and!; congruence.
Qed.

Section file.
Context {F : Type} `{PosixFile F}.

(** The loop goes through the systems of [file_loop]. *)
Lemma replay_loop_system fuel (f : F) r :
  file_loop now fuel f (rp_system r) =
  option_map (prod_map id rp_system) <$> replay_loop fuel f r.
Proof.
  revert f r. induction fuel as [|fuel IH]; intros f r; [done|]. simpl.
  destruct (FeedReader.next_message f) as [[[buf|] f']|w|]; [|done..].
  pose proof (replay_message_spec buf r) as Hb.
  destruct (replay_message buf r) as [r'|w|]; [|done|by rewrite Hb].
  destruct Hb as (-> & _). cbn [mbind outcome_bind]. apply IH.
Qed.

(** The counters account for what the reader returned. *)
Lemma replay_loop_counts fuel (f : F) r c r' :
  replay_loop fuel f r = Ret (Some (c, r')) →
  let bufs := frames_read fuel f in
  Z.of_nat (length bufs) < 2 ^ 64 → length (rp_type_counts r) = 256%nat →
  0 ≤ rp_parse_errors r → rp_parse_errors r + Z.of_nat (length bufs) < 2 ^ 64 →
  0 ≤ rp_messages r → rp_messages r + Z.of_nat (length bufs) < 2 ^ 64 →
  (∀ t n, rp_type_counts r !! t = Some n → 0 ≤ n ∧ n + Z.of_nat (length bufs) < 2 ^ 64) →
  rp_parse_errors r' = rp_parse_errors r + tally rejected bufs ∧
  rp_messages r' = rp_messages r + Z.of_nat (length (omap decoded bufs)) ∧
  (∀ t n, rp_type_counts r !! t = Some n →
    rp_type_counts r' !! t =
      Some (n + tally (λ b, type_byte_of b = Z.of_nat t) bufs)).
Proof.
  revert f r. induction fuel as [|fuel IH]; intros f r; [done|]. simpl.
  destruct (FeedReader.next_message f) as [[[buf|] f']|w|]; [| | |done].
  2, 3: by intros [= <- <-] _ _ _ _ _ _ _; unfold tally; simpl;
    split_and!; [lia|lia|intros t n ->; f_equal; lia].
  pose proof (replay_message_spec buf r) as Hb.
  destruct (replay_message buf r) as [r1|w|]; [|done..].
  destruct Hb as (_ & Ht & He & Hm). simpl. intros Hl Hlen H256 He0 He1 Hm0 Hm1 Hn.
  destruct (IH f' r1 Hl) as (HE & HM & HT).
  - lia.
  - by rewrite Ht, length_alter.
  - rewrite He. case_decide; ulia.
  - rewrite He. case_decide; ulia.
  - rewrite Hm. case_match; ulia.
  - rewrite Hm. case_match; ulia.
  - intros t n Hlk. rewrite Ht in Hlk.
    destruct (decide (Z.to_nat (type_byte_of buf) = t)) as [<-|Hne].
    + rewrite list_lookup_alter_eq in Hlk. apply fmap_Some in Hlk as (n0 & Hn0 & ->).
      destruct (Hn _ _ Hn0). ulia.
    + rewrite list_lookup_alter_ne in Hlk by done. destruct (Hn _ _ Hlk). lia.
  - split_and!.
    + rewrite HE, He, tally_cons. case_decide; [|lia]. rewrite u64_id by lia. lia.
    + rewrite HM, Hm. destruct (decoded buf); [|done]. cbn [length]. rewrite u64_id by lia.
      change (list_omap _ _ decoded ?l) with (omap decoded l). lia.
    + intros t n Hlk. rewrite tally_cons. destruct (Hn _ _ Hlk) as [Hn0 Hn1].
      assert (0 ≤ type_byte_of buf) as Hpos
        by (destruct buf as [|b ?]; [done|]; apply byte_val_range).
      cbv beta. destruct (decide (type_byte_of buf = Z.of_nat t)) as [Hd|Hd].
      * rewrite (HT t (u64 (n + 1))).
        { rewrite u64_id by lia. f_equal. lia. }
        rewrite Ht, Hd, Nat2Z.id, list_lookup_alter_eq, Hlk. done.
      * rewrite (HT t n); [done|]. rewrite Ht, list_lookup_alter_ne; [done|]. lia.
Qed.

End file.
End replay.

(** What the replay returns where file mode goes on to the end of [main], and where it
    makes [main] return 1. *)
Definition replay_status (e : file_end) : Z :=
  match e with Completed => 0 | ReturnsOne => 1 end.

(** C33: The benchmark measures the program: on any file, whatever its reads do,
    the replay returns 0 when file mode completes and 1 when it makes [main] return 1, with
    the same engine and the same published snapshot, whether latencies are recorded or not; and
    either both have undefined behaviour or neither. *)
Theorem replay_is_file_mode {H F} `{HdrHistogram H} `{MapOrder} `{PosixFile F}
    now ticks have_hdr profile fuel (opened : option F) final k :
  option_map (prod_map replay_status id) <$> file_mode now fuel opened final (start k) =
  option_map (prod_map id rp_system) <$>
    replay_file (H := H) now ticks have_hdr profile fuel opened final
      (replay_start have_hdr profile k).
Proof.
  unfold file_mode, replay_file. destruct opened as [f|]; [|done].
  change (start k) with (rp_system (replay_start (H := H) have_hdr profile k)).
  rewrite (replay_loop_system now ticks have_hdr profile).
  destruct (replay_loop _ _ _ _ _ _ _) as [[[[] r]|]|w|]; done.
Qed.

(** The counters of the replay account for every frame: on any file, with
    bytes enough for 64-bit counts, the loop ends within as many messages as the
    file has bytes; of the frames that the reader returned, [messages] counts
    those that decode to a message, all of which the engine has run,
    [parse_errors] those that the parser rejects, and each type counter those
    that start with its byte. *)
Theorem replay_counts {H F} `{HdrHistogram H} `{MapOrder} `{PosixFile F}
    now ticks have_hdr profile fuel (f : F) k :
  0 < k → (length (remaining f) < fuel)%nat → Z.of_nat (length (remaining f)) < 2 ^ 64 →
  let bufs := frames_read fuel f in
  ∃ c (r : Replay H),
    replay_loop now ticks have_hdr profile fuel f (replay_start have_hdr profile k)
      = Ret (Some (c, r)) ∧
    rp_messages r = Z.of_nat (length (omap decoded bufs)) ∧
    rp_messages r = messages_processed (sys_engine (rp_system r)) ∧
    rp_parse_errors r = tally rejected bufs ∧
    (∀ t, (t < 256)%nat →
      rp_type_counts r !! t = Some (tally (λ b, type_byte_of b = Z.of_nat t) bufs)).
Proof.
  intros Hk Hfuel H64 bufs.
  destruct (file_loop_total now k Hk f (start k) fuel (start_runs k) Hfuel) as (c & s & E & _).
  pose proof (file_loop_frames_read now fuel f _ _ _ E) as Ep. fold bufs in Ep.
  destruct (process_all_runs now k Hk bufs (start k) (start_runs k)) as (s' & Es & _ & Hrun).
  rewrite Ep in Es. injection Es as <-.
  change (start k) with (rp_system (replay_start (H := H) have_hdr profile k)) in E.
  rewrite (replay_loop_system now ticks have_hdr profile) in E.
  destruct (replay_loop _ _ _ _ _ _ _) as [[[c' r]|]|w|] eqn:Er; try done.
  injection E as -> <-. exists c, r. split; [done|].
  pose proof (frames_read_length fuel f) as Hlen. fold bufs in Hlen.
  destruct (replay_loop_counts _ _ _ _ _ _ _ _ _ Er) as (HE & HM & HT);
    cbn [replay_start rp_parse_errors rp_messages rp_type_counts]; fold bufs; try lia;
    [done| |].
  { intros t n [-> _]%lookup_replicate. lia. }
  cbn [replay_start rp_parse_errors rp_messages rp_type_counts] in HE, HM, HT.
  fold bufs in HE, HM, HT. split_and!; [lia| |lia|].
  - rewrite Hrun. destruct (run_config (omap decoded bufs) (sys_engine (start k))) as (-> & _).
    + done.
    + pose proof (length_omap_le decoded bufs). cbn. rewrite u64_id; lia.
  - intros t Ht. rewrite (HT t 0); [done|]. by apply lookup_replicate_2.
Qed.

Lemma replay_counts_witness :
  ∃ c (r : Replay ListHistogram),
    replay_loop (λ _, 0) (λ n, Z.of_nat n * 5) true true 99 sample_file (replay_start true true 1000)
      = Ret (Some (c, r)) ∧
    rp_messages r = 1 ∧ rp_type_counts r !! 65%nat = Some 1.
Proof.
  destruct (replay_counts (H := ListHistogram) (λ _, 0) (λ n, Z.of_nat n * 5) true true 99 sample_file 1000)
    as (c & r & E & Hm & _ & _ & Ht).
  - lia.
  - vm_compute. lia.
  - vm_compute. reflexivity.
  - exists c, r. split; [exact E|]. split.
    + rewrite Hm. vm_compute. reflexivity.
    + rewrite Ht by lia. vm_compute. reflexivity.
Defined.

(** ** Loading a capture *)

Lemma load_capture_loop_spec {F} `{PosixFile F} fuel (f : F) n out :
  (length (remaining f) < fuel)%nat → (length out ≤ n)%nat →
  load_capture_loop fuel f n out =
  Ret (Some (take n (out ++ omap decoded (frames_read fuel f)))).
Proof.
  revert f out. induction fuel as [|fuel IH]; intros f out Hf Hout; [lia|]. simpl.
  case_decide as Hd.
  2: { by rewrite take_app_le, take_ge by lia. }
  pose proof (next_message_progress f) as Hp.
  destruct (FeedReader.next_message f) as [[[buf|] f']|w|]; [| | |done].
  2, 3: by rewrite app_nil_r, take_ge by lia.
  pose proof (parse_defined buf) as Hdef. csimpl. unfold decoded at 1.
  destruct (parse buf) as [[m|]|w|]; [| | |done].
  - rewrite IH by (rewrite ?length_app; simpl; lia). by rewrite <- app_assoc.
  - by rewrite IH by lia.
  - by rewrite IH by lia.
Qed.

(** A capture is loaded up to the first fault: on any file, [load_capture] ends
    and returns the first [n] messages among the frames that the reader
    returned, those that the parser rejects or ignores left out; on a file of
    whole frames whose reads do not fail these are the frames of the file. *)
Theorem load_capture_spec {F} `{PosixFile F} fuel (f : F) n :
  (length (remaining f) < fuel)%nat →
  load_capture fuel (Some f) n = Ret (Some (take n (omap decoded (frames_read fuel f)))) ∧
  (∀ `{!ReliableFile F} bufs, remaining f = concat (frame <$> bufs) → Forall frameable bufs →
    frames_read fuel f = bufs).
Proof.
  intros Hf. split; [apply (load_capture_loop_spec fuel f n []); [done|simpl; lia]|].
  intros ? bufs Hr Hb. apply frames_read_frames; [done..|].
  rewrite Hr in Hf. assert (length bufs ≤ length (concat (frame <$> bufs)))%nat; [|lia].
  clear. induction bufs as [|b bufs IH]; [done|]. cbn [fmap list_fmap concat length] in *.
  unfold frame at 1. rewrite !length_app, length_be_bytes. lia.
Qed.

Lemma load_capture_spec_witness :
  load_capture 99 (Some sample_file) 5 = Ret (Some [sample_message]).
Proof.
  destruct (load_capture_spec 99 sample_file 5) as [E _]; [vm_compute; lia|].
  rewrite E. vm_compute. reflexivity.
Defined.
