(* ===== verification/RecorderTheorems.v ===== *)
(** The latency recorder: its files can be read back, and its histograms account
    for every parse and every apply of a replay. *)

From S2P Require Import Prelude ByteOrder Messages Parser WireFormat FeedReader Double.
From S2P Require Import StdMap OrderBook BookEngine EngineProperties Snapshot.
From S2P Require Import Pipeline PipelineTheorems Recorder Replay ReplayTheorems.
From stdpp Require Import pretty.
From Stdlib Require Import Strings.Ascii.
From Stdlib Require Strings.String.

#[local] Open Scope Z_scope.

(** ** Reading a row back *)

(** A line cut at its commas. *)
Fixpoint split_commas (s : string) : list string :=
  match s with
  | "" => [""]
  | String c s =>
      if Ascii.eqb c ","%char then "" :: split_commas s
      else
        match split_commas s with
        | f :: fields => String c f :: fields
        | [] => [String c ""]
        end
  end.

Fixpoint no_comma (s : string) : bool :=
  match s with "" => true | String c s => negb (Ascii.eqb c ","%char) && no_comma s end.

Lemma split_commas_field f : no_comma f = true → split_commas f = [f].
Proof.
  induction f as [|c f IH]; simpl; [done|]. intros [Hc Hf]%andb_true_iff.
  apply negb_true_iff in Hc. by rewrite Hc, IH.
Qed.

Lemma split_commas_app f s :
  no_comma f = true → split_commas (f +:+ "," +:+ s) = f :: split_commas s.
Proof.
  induction f as [|c f IH]; [done|]. intros [Hc Hf]%andb_true_iff.
  apply negb_true_iff in Hc. change (String c f +:+ "," +:+ s) with (String c (f +:+ "," +:+ s)).
  cbn [split_commas]. by rewrite Hc, IH.
Qed.

Lemma split_comma_separated fields :
  fields ≠ [] → Forall (λ f, no_comma f = true) fields →
  split_commas (comma_separated fields) = fields.
Proof.
  intros Hne Hf. induction Hf as [|f fields Hf Hfs IH]; [done|].
  destruct fields as [|f' fields]; [by apply split_commas_field|].
  change (comma_separated (f :: f' :: fields))
    with (f +:+ "," +:+ comma_separated (f' :: fields)).
  rewrite split_commas_app by done. by rewrite IH.
Qed.

Lemma no_comma_app s t : no_comma (s +:+ t) = no_comma s && no_comma t.
Proof.
  induction s as [|c s IH]; [done|].
  change (String c s +:+ t) with (String c (s +:+ t)). simpl. by rewrite IH, andb_assoc.
Qed.

Lemma no_comma_pretty_N_go x s : no_comma s = true → no_comma (pretty_N_go x s) = true.
Proof.
  revert s. induction (N.lt_wf_0 x) as [x _ IH]. intros s Hs.
  destruct (decide (0 < x)%N) as [Hx|Hx].
  - rewrite pretty_N_go_step by done. apply IH; [by apply N.div_lt|]. simpl. rewrite Hs.
    unfold pretty_N_char. by repeat case_match.
  - assert (x = 0%N) as -> by lia. by rewrite pretty_N_go_0.
Qed.

Lemma no_comma_pretty (z : Z) : no_comma (pretty z) = true.
Proof.
  assert (∀ n : N, no_comma (pretty n) = true) as Hn.
  { intros n. unfold pretty, pretty_N. case_decide; [done|]. by apply no_comma_pretty_N_go. }
  destruct z as [|p|p]; [done|apply (Hn (Npos p))|].
  change (pretty (Z.neg p)) with (String "-" (pretty (Npos p))). apply (Hn (Npos p)).
Qed.

Lemma no_comma_fixed1 f : no_comma (fixed1 f) = true.
Proof.
  destruct f as [s|s| |s m e]; [by destruct s..|done|]. unfold fixed1.
  rewrite !no_comma_app, !no_comma_pretty. by destruct s.
Qed.

(** [%.1f] is the nearest tenth. *)
Lemma tenths_nearest m e :
  e < 0 → 2 * Z.abs (tenths m e * 2 ^ (- e) - Z.pos m * 10) ≤ 2 ^ (- e).
Proof.
  intros He. unfold tenths. rewrite (proj2 (Z.leb_gt _ _)) by done.
  assert (0 < 2 ^ (- e)) as Hd by (apply Z.pow_pos_nonneg; lia).
  generalize dependent (2 ^ (- e)). intros d Hd. generalize (Z.pos m * 10). intros n.
  pose proof (Z.div_mod n d ltac:(lia)) as Hn. pose proof (Z.mod_pos_bound n d Hd) as Hr.
  cbv zeta. destruct (Z.ltb_spec (2 * (n mod d)) d); [nia|].
  destruct (Z.ltb_spec d (2 * (n mod d))); [nia|].
  assert (0 ≤ (n / d) mod 2 ≤ 1) by (pose proof (Z.mod_pos_bound (n / d) 2); lia). nia.
Qed.

Section csv.
Context {H : Type} `{HdrHistogram H}.

(** What each column is to hold, by its name in the header. *)
Definition columns (h : H) (label : string) : list (string * string) := [
  ("stage", label);
  ("count", pretty (total_count h));
  ("min_ns", pretty (hdr_min h));
  ("p50_ns", pretty (hdr_value_at_percentile h (double_of_Z 50)));
  ("p90_ns", pretty (hdr_value_at_percentile h (double_of_Z 90)));
  ("p99_ns", pretty (hdr_value_at_percentile h (double_of_Z 99)));
  ("p999_ns", pretty (hdr_value_at_percentile h (double_div (double_of_Z 999) (double_of_Z 10))));
  ("p9999_ns",
    pretty (hdr_value_at_percentile h (double_div (double_of_Z 9999) (double_of_Z 100))));
  ("max_ns", pretty (hdr_max h));
  ("mean_ns", fixed1 (hdr_mean h));
  ("stddev_ns", fixed1 (hdr_stddev h))].

(** A row can be read back, column by column. *)
Lemma csv_row_columns (h : H) label :
  no_comma label = true →
  split_commas csv_header = (columns h label).*1 ∧
  split_commas (csv_row h label) = (columns h label).*2.
Proof.
  intros Hl. split; [by vm_compute|]. unfold csv_row. rewrite split_comma_separated; [done|done|].
  unfold csv_fields.
  repeat (constructor; [first [exact Hl | apply no_comma_pretty | apply no_comma_fixed1]|]).
  constructor.
Qed.

End csv.

(** ** The histograms of a replay *)

Section histograms.
Context {H : Type} `{HdrHistogram H} `{MapOrder}.
Context (now ticks : nat → Z).
Implicit Types r : Replay H.

#[local] Notation replay_message := (replay_message now ticks true true).
#[local] Notation replay_loop := (replay_loop now ticks true true).

(** ** The times of a replay *)

(** The time from reading [n] of the clock to the next, as the recorder is given it. *)
Definition elapsed (n : nat) : Z := i64 (u64 (ticks (S n) - ticks n)).

(** The readings that a frame takes: two around the parser, of which the second is not
    made when the parser throws, and two around [apply] when there is a message. *)
Definition readings_of (buf : MessageBuffer) : nat :=
  if decide (rejected buf) then 1 else match decoded buf with Some _ => 4 | None => 2 end.

(** The times of the parser and of [apply], from reading [n] on. *)
Fixpoint parse_times (n : nat) (bufs : list MessageBuffer) : list Z :=
  match bufs with
  | [] => []
  | buf :: bufs =>
      (if decide (rejected buf) then [] else [elapsed n]) ++ parse_times (n + readings_of buf) bufs
  end.

Fixpoint apply_times (n : nat) (bufs : list MessageBuffer) : list Z :=
  match bufs with
  | [] => []
  | buf :: bufs =>
      match decoded buf with Some _ => [elapsed (S (S n))] | None => [] end ++
      apply_times (n + readings_of buf) bufs
  end.

Lemma length_parse_times n bufs :
  Z.of_nat (length (parse_times n bufs)) = Z.of_nat (length bufs) - tally rejected bufs.
Proof.
  revert n. induction bufs as [|buf bufs IH]; intros n; [done|]. cbn [parse_times].
  rewrite length_app, Nat2Z.inj_add, IH, tally_cons. cbn [length].
  case_decide; simpl; lia.
Qed.

Lemma length_apply_times n bufs : length (apply_times n bufs) = length (omap decoded bufs).
Proof.
  revert n. induction bufs as [|buf bufs IH]; intros n; [done|]. cbn [apply_times].
  rewrite length_app, IH. csimpl. by destruct (decoded buf).
Qed.

(** ** The counts *)

(** A count goes from [c] to [c'] when [times] are recorded: by one for every
    time that is positive and in the range of the histogram, not for one that is not
    positive, and perhaps for one beyond the range. *)
Definition counts (times : list Z) (c c' : Z) : Prop :=
  c + Z.of_nat (length (filter (λ t, 0 < t ≤ 60000000000) times)) ≤ c' ≤
  c + Z.of_nat (length (filter (λ t, 0 < t) times)).

Lemma filter_all (P : Z → Prop) `{∀ t, Decision (P t)} ts : Forall P ts → filter P ts = ts.
Proof. induction 1; [done|]. rewrite filter_cons_True by done. by f_equal. Qed.

Lemma counts_nil c : counts [] c c.
Proof. unfold counts. simpl. lia. Qed.

Lemma counts_app ts ts' c c' c'' : counts ts c c' → counts ts' c' c'' → counts (ts ++ ts') c c''.
Proof. unfold counts. rewrite !filter_app, !length_app. lia. Qed.

Lemma counts_one t c c' :
  (0 < t ≤ 60000000000 → c' = c + 1) → (0 < t → c ≤ c' ≤ c + 1) → (t ≤ 0 → c' = c) →
  counts [t] c c'.
Proof.
  intros Hin Hpos Hneg. unfold counts. rewrite !filter_cons, !filter_nil.
  repeat case_decide; simpl; lia.
Qed.

(** The histograms take what [HdrRecorder] asks for, and the recorder is on. *)
Definition recording (h : HdrRecorder H) : Prop :=
  enabled h = true ∧ hdr_highest (h_parse h) = 60000000000 ∧
  hdr_highest (h_apply h) = 60000000000.

Lemma recording_start : recording (enable HdrRecorder_init).
Proof. split; [done|]. cbn. by rewrite !hdr_init_highest. Qed.

Lemma record_value_counts (h : H) ns :
  hdr_highest h = 60000000000 → 0 < ns →
  counts [ns] (total_count h) (total_count (hdr_record_value h ns).2).
Proof.
  intros Hh Hns. rewrite hdr_record_count. apply (counts_one).
  - intros. by rewrite hdr_record_in_range by lia.
  - destruct (_.1); lia.
  - lia.
Qed.

Lemma record_parse_counts ns h :
  recording h →
  let h' := record_parse ns h in
  recording h' ∧ counts [ns] (total_count (h_parse h)) (total_count (h_parse h')) ∧
  h_apply h' = h_apply h ∧ h_snapshot h' = h_snapshot h.
Proof.
  intros (He & Hp & Ha). unfold record_parse. rewrite He. destruct (Z.ltb_spec 0 ns); cbn.
  - unfold recording. cbn. rewrite hdr_record_highest. by auto using record_value_counts.
  - split; [done|split; [|done]]. apply (counts_one); lia.
Qed.

Lemma record_apply_counts ns h :
  recording h →
  let h' := record_apply ns h in
  recording h' ∧ counts [ns] (total_count (h_apply h)) (total_count (h_apply h')) ∧
  h_parse h' = h_parse h ∧ h_snapshot h' = h_snapshot h.
Proof.
  intros (He & Hp & Ha). unfold record_apply. rewrite He. destruct (Z.ltb_spec 0 ns); cbn.
  - unfold recording. cbn. rewrite hdr_record_highest. by auto using record_value_counts.
  - split; [done|split; [|done]]. apply (counts_one); lia.
Qed.

(** What the histograms of a replay went through. *)
Record histograms_from (r r' : Replay H) (bufs : list MessageBuffer) : Prop := {
  hf_recording : recording (rp_hdr r');
  hf_parse : counts (parse_times (rp_readings r) bufs)
    (total_count (h_parse (rp_hdr r))) (total_count (h_parse (rp_hdr r')));
  hf_apply : counts (apply_times (rp_readings r) bufs)
    (total_count (h_apply (rp_hdr r))) (total_count (h_apply (rp_hdr r')));
  hf_snapshot : h_snapshot (rp_hdr r') = h_snapshot (rp_hdr r)
}.

(** One buffer. *)
Lemma replay_message_histograms buf r r' :
  replay_message buf r = Ret r' → recording (rp_hdr r) →
  histograms_from r r' [buf] ∧ rp_readings r' = (rp_readings r + readings_of buf)%nat.
Proof.
  intros E Hr. unfold Replay.replay_message in E. cbn -[parse] in E.
  assert (rejected buf ↔ ∃ w, parse buf = Throw w) as Hrej
    by (unfold rejected; destruct (parse buf); naive_solver).
  assert (decoded buf = match parse buf with Ret o => o | _ => None end) as Hdec
    by (unfold decoded; by destruct (parse buf) as [[]|w|]).
  enough (recording (rp_hdr r') ∧
    counts (if decide (rejected buf) then [] else [elapsed (rp_readings r)])
      (total_count (h_parse (rp_hdr r))) (total_count (h_parse (rp_hdr r'))) ∧
    counts (match decoded buf with Some _ => [elapsed (S (S (rp_readings r)))] | None => [] end)
      (total_count (h_apply (rp_hdr r))) (total_count (h_apply (rp_hdr r'))) ∧
    h_snapshot (rp_hdr r') = h_snapshot (rp_hdr r) ∧
    rp_readings r' = (rp_readings r + readings_of buf)%nat) as (?&?&?&?&?).
  { split; [|done]. split; cbn [parse_times apply_times]; by rewrite ?app_nil_r. }
  unfold readings_of. rewrite Hdec. destruct (parse buf) as [[msg|]|w|]; [| | |done].
  - destruct (decide (rejected buf)); [naive_solver|].
    destruct (Snapshot.apply _ _ _) as [s|w|]; [|done..]. injection E as <-.
    cbn [count_applied with_hdr rp_hdr].
    destruct (record_parse_counts (elapsed (rp_readings r)) _ Hr) as (Hr1 & Hc1 & Ha1 & Hs1).
    destruct (record_apply_counts (elapsed (S (S (rp_readings r)))) _ Hr1)
      as (Hr2 & Hc2 & Ha2 & Hs2).
    rewrite Ha1 in Hc2. cbn in *. unfold elapsed in *. rewrite Ha2, Hs2, Hs1. split; [done|].
    split; [done|split; [done|split; [done|lia]]].
  - destruct (decide (rejected buf)); [naive_solver|]. injection E as <-.
    destruct (record_parse_counts (elapsed (rp_readings r)) _ Hr) as (Hr1 & Hc1 & Ha1 & Hs1).
    cbn in *. unfold elapsed in *. rewrite Ha1, Hs1. split; [done|split; [done|]].
    split; [apply counts_nil|split; [done|lia]].
  - destruct (decide (rejected buf)); [|naive_solver]. injection E as <-. cbn.
    split; [done|split; [apply counts_nil|split; [apply counts_nil|split; [done|lia]]]].
Qed.

Lemma histograms_trans r1 r2 r3 buf bufs :
  histograms_from r1 r2 [buf] → rp_readings r2 = (rp_readings r1 + readings_of buf)%nat →
  histograms_from r2 r3 bufs → histograms_from r1 r3 (buf :: bufs).
Proof.
  intros [_ Hp Ha Hs] Hn [Hr Hp' Ha' Hs']. cbn [parse_times apply_times] in *.
  rewrite app_nil_r in Hp, Ha. rewrite Hn in Hp', Ha'.
  split; [done|by eapply counts_app|by eapply counts_app|congruence].
Qed.

Lemma replay_loop_histograms {F} `{PosixFile F} fuel (f : F) r c r' :
  replay_loop fuel f r = Ret (Some (c, r')) → recording (rp_hdr r) →
  histograms_from r r' (frames_read fuel f).
Proof.
  revert f r. induction fuel as [|fuel IH]; intros f r; [done|]. simpl.
  destruct (FeedReader.next_message f) as [[[buf|] f']|w|]; [| | |done].
  2, 3: by intros [= <- <-] ?; split; [|apply counts_nil..|].
  pose proof (replay_message_spec now ticks true true buf r) as Hs.
  destruct (replay_message buf r) as [r1|w|] eqn:E; [|done..]. clear Hs.
  intros El Hr. destruct (replay_message_histograms _ _ _ E Hr) as [Hh Hn].
  eapply histograms_trans; [exact Hh|exact Hn|]. by apply IH, Hh.
Qed.

(** With a clock that moves, but by a minute at most, every time is counted. *)
Lemma counts_moving n bufs c c' :
  counts (parse_times n bufs) 0 c → counts (apply_times n bufs) 0 c' →
  (∀ n, 0 < u64 (ticks (S n) - ticks n) ≤ 60000000000) →
  c = Z.of_nat (length bufs) - tally rejected bufs ∧ c' = Z.of_nat (length (omap decoded bufs)).
Proof.
  intros HP HA Hticks.
  assert (∀ m, 0 < elapsed m ≤ 60000000000) as Hel.
  { intros m. specialize (Hticks m). unfold elapsed, i64. by rewrite (proj2 (Z.ltb_lt _ _)) by lia. }
  assert (∀ ts c, Forall (λ t, 0 < t ≤ 60000000000) ts → counts ts 0 c → c = Z.of_nat (length ts))
    as Hall.
  { intros ts c0 Hts. unfold counts. rewrite !filter_all; [lia| |done]. eapply Forall_impl; [exact Hts|]. simpl. lia. }
  rewrite <- (length_parse_times n), <- (length_apply_times n).
  split; apply Hall; try done; clear HP HA; revert n;
    (induction bufs as [|buf bufs IH]; intros n; cbn [parse_times apply_times]; [constructor|]);
    apply Forall_app; (split; [|apply IH]); case_match; by repeat constructor; try apply Hel.
Qed.

End histograms.

(** ** Properties *)

(** C34: The latency files of a profiled replay: on any file and whatever the clock
    reads, the replay ends.  It has taken one time of the parser for every frame that the reader
    returned and the parser did not reject, and one of the engine for every
    message that was run; the counts of the two histograms are the numbers of those
    times that are positive and within the minute that the histograms cover, apart
    from times beyond it, which HdrHistogram may be able to take; the
    snapshot histogram is empty.  So with a clock that moves, by at most a minute,
    every frame and every message is counted.  When the replay ends without a fatal
    error, each histogram goes to a file of its own, if that can be opened, a header and a row,
    and cut at their commas the two give each column its value by name. *)
Theorem latency_files {H F} `{HdrHistogram H} `{MapOrder} `{PosixFile F}
    now ticks fuel (f : F) final k writable :
  0 < k → (length (remaining f) < fuel)%nat →
  let bufs := frames_read fuel f in
  let file (h : H) label := ("bench/out/hist_" +:+ label +:+ ".csv",
    csv_header +:+ newline +:+ csv_row h label +:+ newline) in
  Z.of_nat (length (parse_times ticks 0 bufs)) = Z.of_nat (length bufs) - tally rejected bufs ∧
  length (apply_times ticks 0 bufs) = length (omap decoded bufs) ∧
  ∃ code (r : Replay H),
    replay_file now ticks true true fuel (Some f) final (replay_start true true k)
      = Ret (Some (code, r)) ∧
    counts (parse_times ticks 0 bufs) 0 (total_count (h_parse (rp_hdr r))) ∧
    counts (apply_times ticks 0 bufs) 0 (total_count (h_apply (rp_hdr r))) ∧
    total_count (h_snapshot (rp_hdr r)) = 0 ∧
    ((∀ n, 0 < u64 (ticks (S n) - ticks n) ≤ 60000000000) →
      total_count (h_parse (rp_hdr r)) = Z.of_nat (length bufs) - tally rejected bufs ∧
      total_count (h_apply (rp_hdr r)) = Z.of_nat (length (omap decoded bufs))) ∧
    (code = 0 → replay_csvs true true writable (code, r) =
      filter (λ f, writable f.1 = true) [file (h_parse (rp_hdr r)) "parse";
        file (h_apply (rp_hdr r)) "apply"; file (h_snapshot (rp_hdr r)) "snapshot"]) ∧
    (∀ h label, no_comma label = true →
      split_commas csv_header = (columns h label).*1 ∧
      split_commas (csv_row h label) = (columns h label).*2).
Proof.
  intros Hk Hfuel bufs file.
  split; [apply length_parse_times|split; [apply length_apply_times|]].
  destruct (file_loop_total now k Hk f (start k) fuel (start_runs k) Hfuel) as (c & s & E & _).
  change (start k) with (rp_system (replay_start (H := H) true true k)) in E.
  rewrite (replay_loop_system now ticks true true) in E.
  unfold replay_file. destruct (replay_loop _ _ _ _ _ _ _) as [[[c' r]|]|w|] eqn:Er; try done.
  destruct (replay_loop_histograms now ticks fuel f _ _ _ Er recording_start) as [Hrec HP HA HS].
  fold bufs in HP, HA. cbn in HP, HA, HS. rewrite hdr_init_count in HP, HA.
  assert (total_count (h_snapshot (rp_hdr r)) = 0) as HS0 by (rewrite HS; apply hdr_init_count).
  pose proof (counts_moving ticks 0 bufs _ _ HP HA) as Hmov.
  cbn [mbind outcome_bind].
  set (r' := if c' then with_system (set_pipeline_complete final (rp_system r)) r else r).
  exists (if c' then 0 else 1), r'. assert (rp_hdr r' = rp_hdr r) as Er' by (by destruct c').
  rewrite Er'.
  split; [by destruct c'|]. do 4 (split; [assumption|]). split; [|intros; by apply csv_row_columns].
  destruct c'; [intros _|done]. unfold replay_csvs, dump_csvs, dump_one. cbn -[csv_header csv_row filter].
  destruct Hrec as [-> _]. cbn [negb]. rewrite !filter_cons, filter_nil. cbn [fst file].
  by destruct (writable _), (writable _), (writable _).
Qed.

(** A clock that stands still while the message is applied. *)
Lemma latency_files_witness :
  let ticks n := default 20 ([0; 7; 7; 7] !! n) in
  ∃ code (r : Replay ListHistogram),
    replay_file (λ _, 0) ticks true true 99 (Some sample_file) 9
      (replay_start true true 1000) = Ret (Some (code, r)) ∧
    parse_times ticks 0 (frames_read 99 sample_file) = [7; 0] ∧
    total_count (h_parse (rp_hdr r)) = 1 ∧ total_count (h_apply (rp_hdr r)) = 0.
Proof.
  intros ticks.
  destruct (latency_files (H := ListHistogram) (λ _, 0) ticks 99 sample_file 9 1000 (λ _, true))
    as (_ & _ & code & r & E & HP & HA & _).
  - lia.
  - vm_compute. lia.
  - exists code, r. split; [exact E|split; [vm_compute; reflexivity|]].
    assert (parse_times ticks 0 (frames_read 99 sample_file) = [7; 0]) as Ep
      by (vm_compute; reflexivity).
    assert (apply_times ticks 0 (frames_read 99 sample_file) = [0]) as Ea
      by (vm_compute; reflexivity).
    rewrite Ep in HP. rewrite Ea in HA. revert HP HA. unfold counts.
    generalize (total_count (h_parse (rp_hdr r))) (total_count (h_apply (rp_hdr r))). intros c c'.
    rewrite !filter_cons, !filter_nil. repeat case_decide; simpl; lia.
Defined.
