(* ===== verification/Main.v ===== *)
(** [main] of [src/main.cpp] from its configuration to its last wait for a signal,
    and the engine thread next to the readers of the publisher.

    The environment, the opening of files, the socket calls, what [recvfrom]
    hands over ([events]), the clock and the signals are parameters.  The server is
    in Server, the lines on the standard streams in Console. *)

From S2P Require Import Prelude ByteOrder Messages Parser FeedReader.
From S2P Require Import UdpFeedReader StdMap OrderBook BookEngine Snapshot RestServer.
From S2P Require Import Pipeline LiveMode.

#[local] Open Scope Z_scope.

(** ** [FileFeedReader::FileFeedReader] *)

Definition FileFeedReader {F} (open_file : string → option F) (path : string) : outcome F :=
  match open_file path with
  | None => Throw ("FileFeedReader: cannot open file: " +:+ path)
  | Some f => Ret f
  end.

(** The reader of a [try] block: an exception of the constructor. *)
Definition opened {F} (o : outcome F) : option F :=
  match o with Ret f => Some f | _ => None end.

(** ** [pause()] *)

(** What a signal does to the process: it ends it, it does nothing, or it runs a
    handler. *)
Inductive disposition := Terminates | Ignores | Caught.
#[export] Instance disposition_eq_dec : EqDecision disposition.
Proof. solve_decision. Defined.

(** How far [main] comes: it executes a [return], a signal ends the process, or it
    waits in [pause()]. *)
Inductive ending := Returns (status : Z) | KilledBy (signal : Z) | Waits.

Section pause.
Context (disp : Z → disposition).

(** [pause(); return 0;] with the signals that come from then on: [pause] returns
    after a handler has. *)
Fixpoint pause_return (signals : list Z) : ending :=
  match signals with
  | [] => Waits
  | signal :: signals =>
      match disp signal with
      | Terminates => KilledBy signal
      | Ignores => pause_return signals
      | Caught => Returns 0
      end
  end.

End pause.

(** ** [main] *)

Section main.
Context (disp : Z → disposition) (signals : list Z).
Context `{MapOrder} (now : nat → Z) (getenv : string → option string).
Context {F : Type} `{PosixFile F} (open_file : string → option F).
Context (sys_socket : Z) (sys_bind : Z → Z → Z).
Context (sys_inet_pton : string → Z * Z) (sys_add_membership : Z → Z * Z → Z).
Context {Q : Type} `{ConcurrentQueue Q} (events : list recv_event).

Definition main_file (fuel : nat) (final : Z) (cfg : Config)
  : outcome (option (ending * System)) :=
  r ← file_mode now fuel (opened (FileFeedReader open_file (cfg_itch_file cfg))) final
        (start (cfg_snapshot_interval cfg));
  match r with
  | None => Ret None
  | Some (Completed, s) => Ret (Some (pause_return disp signals, s))
  | Some (ReturnsOne, s) => Ret (Some (Returns 1, s))
  end.

(** The reader of the receive thread. *)
Definition main_reader (cfg : Config) : outcome UDPFeedReader :=
  UDPFeedReader_multicast sys_socket sys_bind sys_inet_pton sys_add_membership
    (cfg_mcast_group cfg) (cfg_mcast_iface cfg) (cfg_mcast_port cfg).

(** The moments of live mode. *)
Definition main_live_reaches (cfg : Config) : LiveMode Q → Prop :=
  rtc (live_mode_step now (main_reader cfg))
    (live_mode_start events (start (cfg_snapshot_interval cfg))).

(** What live mode can come to: the main thread leaves the block and goes on, or a
    thread does something undefined. *)
Inductive main_live (final : Z) (cfg : Config) : outcome (option (ending * System)) → Prop :=
| live_ends s :
    main_live_reaches cfg s → live_block s = Outside →
    main_live final cfg (Ret (Some (pause_return disp signals,
      set_pipeline_complete final (live_system (live_loops s)))))
| live_undefined s :
    main_live_reaches cfg s → live_mode_undefined now (main_reader cfg) s →
    main_live final cfg Undef.

(** An exception of the configuration is caught nowhere. *)
Inductive main (fuel : nat) (final : Z) : outcome (option (ending * System)) → Prop :=
| main_bad_configuration w :
    config getenv = Throw w → main fuel final (Throw w)
| main_file_mode cfg :
    config getenv = Ret cfg → cfg_mode cfg ≠ "live" → main fuel final (main_file fuel final cfg)
| main_live_mode cfg res :
    config getenv = Ret cfg → cfg_mode cfg = "live" → main_live final cfg res →
    main fuel final res.

End main.

(** ** The engine thread and the readers of the publisher *)

(** Where the engine thread is: before a message, between [handle] and
    [maybe_publish_snapshot], between the two statements of
    [set_pipeline_complete], after it. *)
Inductive engine_point := Idle | Applied | Marked | Done.

Record Served := mkServed {
  sv_todo : list ParsedMessage;
  sv_engine : Engine;
  sv_published : option SystemSnapshot;   (* the atomic pointer *)
  sv_point : engine_point;
  sv_seen : list (option SystemSnapshot)  (* what [current] returned, in order *)
}.

Section serving.
Context `{MapOrder} (now : nat → Z) (final : Z).

(** One step of the engine thread, or one [current] of a request handler, which
    can come at any time. *)
Inductive serve_step : Served → Served → Prop :=
| serve_handle msg todo e p seen :
    serve_step (mkServed (msg :: todo) e p Idle seen)
      (mkServed todo (count_message (handle msg e)) p Applied seen)
| serve_publish todo e p seen s :
    maybe_publish_snapshot (now (Z.to_nat (messages_processed e)))
      {| sys_engine := e; sys_published := p |} = Ret s →
    serve_step (mkServed todo e p Applied seen) (mkServed todo e (sys_published s) Idle seen)
| serve_mark e p seen :
    serve_step (mkServed [] e p Idle seen) (mkServed [] (mark_complete e) p Marked seen)
| serve_final e p seen :
    serve_step (mkServed [] e p Marked seen)
      (mkServed [] e (Some (build_snapshot final e)) Done seen)
| serve_read todo e p point seen :
    serve_step (mkServed todo e p point seen)
      (mkServed todo e p point (seen ++ [current {| sys_engine := e; sys_published := p |}])).

Definition serve_start (k : Z) (msgs : list ParsedMessage) : Served :=
  mkServed msgs (sys_engine (start k)) None Idle [].

End serving.
