(* ===== verification/MainTheorems.v ===== *)
(** The program as a whole: how far it comes, its configuration, and what the
    readers of the publisher see while the engine runs. *)

From S2P Require Import Prelude ByteOrder Messages Parser WireFormat FeedReader.
From S2P Require Import StdMap OrderBook BookEngine EngineLevels EngineInvariant EngineProperties.
From S2P Require Import Snapshot SnapshotTheorems RestServer RestTheorems Pipeline PipelineTheorems.
From S2P Require Import UdpFeedReader LiveMode LiveModeTheorems Main.
From Stdlib Require Import Strings.Byte Strings.Ascii.

#[local] Open Scope Z_scope.

(** ** Readers *)

Section serving.
Context `{MapOrder} (now : nat → Z) (final k : Z) (Hk : 0 < k) (msgs : list ParsedMessage).
Context (Hlen : Z.of_nat (length msgs) < 2 ^ 64).

(** The snapshot of version [n]: up to the length of the feed the one that is
    current after [n] messages, then the last one. *)
Definition version (n : nat) : option SystemSnapshot :=
  if decide (n ≤ length msgs)%nat then published_after now k msgs n
  else Some (build_snapshot final (mark_complete (run msgs (configured k)))).

Lemma version_le n : (n ≤ length msgs)%nat → version n = published_after now k msgs n.
Proof. intros. unfold version. by rewrite decide_True. Qed.

(** [n] messages have been handled, version [v] is current, and the readers have seen
    versions up to [v] in order. *)
Record serve_inv (s : Served) (n v : nat) : Prop := {
  si_todo : msgs = take n msgs ++ sv_todo s;
  si_bound : (n ≤ length msgs)%nat;
  si_published : sv_published s = version v;
  si_engine :
    match sv_point s with
    | Idle => sv_engine s = run (take n msgs) (configured k) ∧ v = n
    | Applied => sv_engine s = run (take n msgs) (configured k) ∧ S v = n
    | Marked => sv_engine s = mark_complete (run msgs (configured k)) ∧ v = length msgs ∧ n = v
    | Done => sv_engine s = mark_complete (run msgs (configured k)) ∧ v = S (length msgs)
    end;
  si_seen : ∃ vs, Forall2 (λ p v, p = version v) (sv_seen s) vs ∧
    StronglySorted le vs ∧ Forall (λ v', v' ≤ v)%nat vs
}.

Lemma serve_inv_start : serve_inv (serve_start k msgs) 0 0.
Proof.
  split; simpl; try done; try lia. exists []; repeat constructor.
Qed.

Lemma run_take_count n :
  (n ≤ length msgs)%nat →
  messages_processed (run (take n msgs) (configured k)) = Z.of_nat n ∧
  snapshot_interval (run (take n msgs) (configured k)) = k.
Proof.
  intros Hn. destruct (run_config (take n msgs) (configured k)) as (-> & -> & _); [done|].
  rewrite length_take_le by done. split; [|done]. simpl. rewrite u64_id; lia.
Qed.

Lemma sorted_snoc vs v :
  StronglySorted le vs → Forall (λ v', v' ≤ v)%nat vs → StronglySorted le (vs ++ [v]).
Proof.
  induction 1 as [|x vs Hs IH Hx]; intros Hv; [repeat constructor|].
  apply Forall_cons in Hv as [Hxv Hv]. simpl. constructor; [by apply IH|].
  apply Forall_app. split; [done|by constructor].
Qed.

Lemma serve_inv_step s s' n v :
  serve_step now final s s' → serve_inv s n v →
  ∃ n' v', serve_inv s' n' v' ∧ (v ≤ v')%nat.
Proof.
  intros Hstep [Htodo Hb Hp He (vs & Hvs & Hsort & Hle)].
  destruct Hstep as [msg todo e p seen|todo e p seen s Hpub|e p seen|e p seen|todo e p pt seen];
    simpl in *.
  - destruct He as [-> ->].
    assert (n < length msgs)%nat as Hn.
    { pose proof (f_equal length Htodo) as Hl.
      rewrite length_app, length_take_le in Hl by done. simpl in Hl. lia. }
    assert (take (S n) msgs = take n msgs ++ [msg]) as Htake.
    { apply take_S_r. rewrite Htodo at 1. rewrite lookup_app_r; rewrite length_take_le; try lia.
      by rewrite Nat.sub_diag. }
    exists (S n), n. split; [split; simpl; try done; try lia|lia].
    + rewrite Htake. by rewrite <- app_assoc.
    + rewrite Htake, run_app. done.
    + by exists vs.
  - destruct He as [-> <-]. destruct (run_take_count (S v) Hb) as [Hmp Hsi].
    exists (S v), (S v). split; [split; simpl; try done|lia].
    + unfold maybe_publish_snapshot in Hpub. cbn [sys_engine] in Hpub.
      rewrite Hmp, Hsi, (proj2 (Z.eqb_neq k 0)), Nat2Z.id in Hpub by lia.
      rewrite version_le, (published_step now k Hk) by lia.
      rewrite version_le in Hp by lia.
      destruct (Z.eqb_spec (Z.of_nat (S v) mod k) 0) as [E|E]; injection Hpub as <-.
      * by rewrite decide_True.
      * by rewrite decide_False.
    + exists vs. split; [done|split; [done|]]. eapply Forall_impl; [exact Hle|]. simpl. lia.
  - destruct He as [-> ->]. rewrite app_nil_r in Htodo.
    assert (n = length msgs) as -> by (rewrite Htodo, length_take in *; lia).
    exists (length msgs), (length msgs). split; [split; simpl; try done|lia].
    + by rewrite take_ge, app_nil_r by lia.
    + by rewrite take_ge by lia.
    + by exists vs.
  - destruct He as (-> & -> & ->). exists (length msgs), (S (length msgs)). split; [split; simpl; try done|lia].
    + unfold version. by rewrite decide_False by lia.
    + exists vs. split; [done|split; [done|]]. eapply Forall_impl; [exact Hle|]. simpl. lia.
  - exists n, v. split; [split; simpl; try done|lia].
    exists (vs ++ [v]). split; [|split].
    + apply Forall2_app; [done|]. by repeat constructor.
    + by apply sorted_snoc.
    + apply Forall_app. split; [done|]. by repeat constructor.
Qed.

Lemma serve_inv_reachable s :
  rtc (serve_step now final) (serve_start k msgs) s → ∃ n v, serve_inv s n v.
Proof.
  intros Hr. assert (∀ s0, rtc (serve_step now final) s0 s → (∃ n v, serve_inv s0 n v) →
    ∃ n v, serve_inv s n v) as Hind.
  { clear Hr. intros s0 Hr. induction Hr as [s1|s1 s2 s3 Hs Hr IH]; [done|].
    intros (n & v & Hi). apply IH. destruct (serve_inv_step _ _ _ _ Hs Hi) as (n' & v' & Hi' & _).
    by exists n', v'. }
  apply (Hind _ Hr). exists 0%nat, 0%nat. apply serve_inv_start.
Qed.

(** The number of messages a reader is told. *)
Definition told (p : option SystemSnapshot) : Z :=
  match p with Some snap => ss_messages_processed snap | None => 0 end.

Lemma told_published n :
  (n ≤ length msgs)%nat → told (published_after now k msgs n) = Z.of_nat n / k * k.
Proof.
  intros Hn. unfold published_after.
  pose proof (last_multiple k Hk (Z.of_nat n) ltac:(lia)) as Hl.
  assert (0 ≤ Z.of_nat n / k * k) as H0.
  { pose proof (Z.div_pos (Z.of_nat n) k). nia. }
  case_decide as Hz; simpl; [lia|].
  destruct (run_take_count (Z.to_nat (Z.of_nat n / k * k))) as [-> _]; lia.
Qed.

Lemma told_version n :
  told (version n) =
  if decide (n ≤ length msgs)%nat then Z.of_nat n / k * k else Z.of_nat (length msgs).
Proof.
  unfold version. case_decide as Hn; [by apply told_published|].
  simpl. destruct (run_config msgs (configured k)) as (-> & _); [done|]. simpl. rewrite u64_id; lia.
Qed.

Lemma told_mono v v' : (v ≤ v' ≤ S (length msgs))%nat → told (version v) ≤ told (version v').
Proof.
  intros Hv. rewrite !told_version.
  pose proof (Z.div_le_mono (Z.of_nat v) (Z.of_nat v') k Hk ltac:(lia)).
  pose proof (last_multiple k Hk (Z.of_nat v) ltac:(lia)).
  repeat case_decide; nia.
Qed.

Lemma told_sorted seen vs :
  Forall2 (λ p v, p = version v) seen vs → StronglySorted le vs →
  Forall (λ v, v ≤ S (length msgs))%nat vs →
  StronglySorted (λ p p', told p ≤ told p') seen.
Proof.
  induction 1 as [|p v seen vs -> Hvs IH]; intros Hs Hb; [constructor|].
  inversion Hs as [|? ? Hs' Hv]; subst. apply Forall_cons in Hb as [_ Hb].
  constructor; [by apply IH|]. clear IH Hs Hs'.
  induction Hvs as [|p' v' seen vs -> Hvs IH]; [constructor|].
  apply Forall_cons in Hv as [Hv' Hv]. apply Forall_cons in Hb as [Hb' Hb].
  constructor; [apply told_mono; lia|by apply IH].
Qed.

(** The engine thread never waits for a reader. *)
Lemma serve_progress s n v :
  serve_inv s n v → sv_point s ≠ Done → ∃ s', serve_step now final s s' ∧ sv_seen s' = sv_seen s.
Proof.
  intros [Htodo Hb Hp He Hs] Hd. destruct s as [todo e p [] seen]; simpl in *; [| | |done].
  - destruct todo as [|msg todo]; eexists; (split; [first [apply serve_mark | apply serve_handle]|done]).
  - destruct He as [-> <-]. destruct (run_take_count (S v) Hb) as [_ Hsi].
    assert (∃ s, maybe_publish_snapshot
      (now (Z.to_nat (messages_processed (run (take (S v) msgs) (configured k)))))
      {| sys_engine := run (take (S v) msgs) (configured k); sys_published := p |} = Ret s)
      as [s Es].
    { unfold maybe_publish_snapshot. cbn [sys_engine]. rewrite Hsi.
      rewrite (proj2 (Z.eqb_neq k 0)) by lia. destruct (_ =? 0); eauto. }
    eexists. split; [by apply serve_publish|done].
  - destruct He as (_ & -> & ->). pose proof (f_equal length Htodo) as Hl.
    rewrite length_app, length_take_le in Hl by lia.
    destruct todo; [|simpl in Hl; lia]. eexists. split; [apply serve_final|done].
Qed.

Lemma serve_inv_versions s n v :
  serve_inv s n v → (v ≤ S (length msgs))%nat ∧ (n ≤ S v)%nat.
Proof. intros [_ Hb _ He _]. destruct (sv_point s); destruct_and?; lia. Qed.

End serving.

(** C16: What a reader of the publisher sees: in every interleaving of the engine thread
    with any number of readers, each value that [current] returns is the whole
    snapshot of some moment of the feed that publishes one (null before the
    first, and never a mixture), the values come in the order of the feed, so that the message
    counts that the requests report never decrease; the last one, once
    published, is that of the completed engine; and the engine thread never waits for a reader. *)
Theorem readers_see_versions `{MapOrder} now final k msgs s :
  0 < k → Z.of_nat (length msgs) < 2 ^ 64 →
  rtc (serve_step now final) (serve_start k msgs) s →
  (∃ vs, Forall2 (λ p v, p = version now final k msgs v) (sv_seen s) vs ∧
    StronglySorted le vs ∧ Forall (λ v, v ≤ S (length msgs))%nat vs) ∧
  StronglySorted (λ p p', told p ≤ told p') (sv_seen s) ∧
  (sv_point s = Done →
    sv_published s = Some (build_snapshot final (mark_complete (run msgs (configured k))))) ∧
  (sv_point s ≠ Done → ∃ s', serve_step now final s s' ∧ sv_seen s' = sv_seen s).
Proof.
  intros Hk Hlen Hr.
  destruct (serve_inv_reachable now final k Hk msgs Hlen s Hr) as (n & v & Hi).
  destruct (serve_inv_versions _ _ _ _ _ _ _ Hi) as [Hv _].
  pose proof (si_seen _ _ _ _ _ _ _ Hi) as (vs & Hvs & Hs & Hle).
  assert (Forall (λ v', v' ≤ S (length msgs))%nat vs) as Hb.
  { eapply Forall_impl; [exact Hle|]. simpl. lia. }
  split_and!.
  - by exists vs.
  - by apply (told_sorted now final k Hk msgs Hlen _ vs).
  - intros Hd. rewrite (si_published _ _ _ _ _ _ _ Hi).
    pose proof (si_engine _ _ _ _ _ _ _ Hi) as He. rewrite Hd in He. destruct He as [_ ->].
    unfold version. by rewrite decide_False by lia.
  - by eapply serve_progress.
Qed.

Definition one_message : list ParsedMessage := [sample_message].

(** A reader between [handle] and [publish], one after it. *)
Lemma readers_see_versions_witness :
  ∃ s, rtc (serve_step (λ _, 0) 9) (serve_start 2 one_message) s ∧
    sv_seen s = [None; None] ∧ StronglySorted (λ p p', told p ≤ told p') (sv_seen s).
Proof.
  eexists. match goal with |- ?R ∧ _ => assert R as Hr end.
  - eapply rtc_l; [apply serve_handle|]. eapply rtc_l; [apply serve_read|].
    eapply rtc_l; [apply serve_publish; reflexivity|]. eapply rtc_l; [apply serve_read|].
    apply rtc_refl.
  - split; [exact Hr|]. split; [reflexivity|].
    apply (readers_see_versions (λ _, 0) 9 2 one_message); [lia|done|exact Hr].
Defined.

(** ** The end of the program *)

(** A program without handlers never gets past [pause]: it waits, until the first
    signal that ends the process. *)
Lemma pause_no_handler disp signals :
  Forall (λ sg, disp sg ≠ Caught) signals →
  pause_return disp signals =
  match list_find (λ sg, disp sg = Terminates) signals with
  | None => Waits
  | Some (_, sg) => KilledBy sg
  end.
Proof.
  induction 1 as [|sg signals Hc Hcs IH]; simpl; [done|]. destruct (disp sg) eqn:E; simpl; [done| |done].
  rewrite IH. by destruct (list_find _ signals) as [[]|].
Qed.

(** The constructor of the UDP reader returns on an open socket, or throws. *)
Lemma main_reader_cases ss sb sp sj cfg :
  (∃ r, main_reader ss sb sp sj cfg = Ret r ∧ 0 ≤ sock r) ∨
  (∃ w, main_reader ss sb sp sj cfg = Throw w).
Proof.
  unfold main_reader. pose proof (reader_constructed ss sb sp sj (cfg_mcast_group cfg)
    (cfg_mcast_iface cfg) (cfg_mcast_port cfg)) as Hc.
  destruct (UDPFeedReader_multicast _ _ _ _ _ _ _) as [r|w|]; [left|right|done].
  - destruct Hc as (-> & Hs & _). eauto.
  - eauto.
Qed.

Section endings.
Context (disp : Z → disposition) (signals : list Z).

(** File mode comes to the [pause] or to its [return 1]. *)
Lemma main_file_total {F} `{MapOrder} `{PosixFile F} now (open_file : string → option F)
    fuel final cfg :
  0 < cfg_snapshot_interval cfg →
  (∀ f, open_file (cfg_itch_file cfg) = Some f → (length (remaining f) < fuel)%nat) →
  ∃ e s, main_file disp signals now open_file fuel final cfg = Ret (Some (e, s)) ∧
    ((e = pause_return disp signals ∧ pipeline_complete (sys_engine s) = true ∧
      sys_published s = Some (build_snapshot final (sys_engine s))) ∨
     (e = Returns 1 ∧ pipeline_complete (sys_engine s) = false)).
Proof.
  intros Hk Hfuel. unfold main_file, FileFeedReader.
  destruct (open_file (cfg_itch_file cfg)) as [f|] eqn:Ef; simpl.
  2: { eexists _, _. split; [done|]. by right. }
  destruct (file_loop_total now _ Hk f _ fuel (start_runs _) (Hfuel f eq_refl))
    as (c & s & E & _ & Hpc).
  rewrite E. destruct c; eexists _, _; (split; [done|]); [by left|by right].
Qed.

(** Live mode comes to the [pause] when there is no reader, and then with a fresh
    engine. *)
Lemma main_live_ends {Q} `{MapOrder} `{ConcurrentQueue Q} now ss sb sp sj events final cfg :
  0 < cfg_snapshot_interval cfg →
  ((∃ res, main_live disp signals now ss sb sp sj (Q := Q) events final cfg res) ↔
    ∃ w, main_reader ss sb sp sj cfg = Throw w) ∧
  ∀ res, main_live disp signals now ss sb sp sj (Q := Q) events final cfg res →
    res = Ret (Some (pause_return disp signals,
      set_pipeline_complete final (start (cfg_snapshot_interval cfg)))).
Proof.
  intros Hk. destruct (main_reader_cases ss sb sp sj cfg) as [(r & E & Hs)|[w E]].
  - assert (∀ res, ¬ main_live disp signals now ss sb sp sj (Q := Q) events final cfg res) as Hno.
    { intros res [s Hr Hb|s Hr Hu]; unfold main_live_reaches in Hr; rewrite E in *.
      - apply (open_never_ends now _ r Hs events) in Hr. congruence.
      - by apply (open_defined now _ Hk r Hs events) in Hr. }
    split; [|by intros res Hres%Hno]. split; [by intros [res Hres%Hno]|].
    intros [w E']. congruence.
  - split.
    + split; [by exists w|]. intros _.
      destruct (failed_ends now (Q := Q) _ Hk w events) as (s & Hr & Hb).
      eexists. eapply (live_ends _ _ _ _ _ _ _ _ _ _ s); [|done].
      unfold main_live_reaches. by rewrite E.
    + intros res [s Hr Hb|s Hr Hu]; unfold main_live_reaches in Hr; rewrite E in *.
      * by rewrite (fi_system _ _ _ _ (failed_inv_reachable now _ w events s Hr)).
      * by apply (failed_defined now _ Hk w events) in Hr.
Qed.

End endings.

(** C17: How far the program comes, with a valid configuration, a positive interval
    and no signal handler (it installs none).  No file, no packets and no
    interleaving lead to undefined behaviour or an uncaught exception.  It leaves
    its pipeline exactly in file mode, or when the UDP reader of live mode could
    not be constructed; on an open socket the receive thread never leaves its loop.
    Either the file could not be opened or its reader threw: [main] returns 1 with
    the pipeline not marked complete; or the pipeline is complete, with the snapshot
    of the completed engine published, which in live mode has seen nothing: then
    the program waits in [pause] for as long as no signal that ends a process
    comes, and the first such signal kills it.  So the [return 0] is never executed. *)
Theorem main_endings {F Q} `{MapOrder} `{PosixFile F} `{ConcurrentQueue Q} disp signals
    now getenv (open_file : string → option F) ss sb sp sj events fuel final cfg :
  config getenv = Ret cfg → 0 < cfg_snapshot_interval cfg →
  (∀ f, open_file (cfg_itch_file cfg) = Some f → (length (remaining f) < fuel)%nat) →
  Forall (λ sg, disp sg ≠ Caught) signals →
  let ends :=
    main disp signals now getenv open_file ss sb sp sj (Q := Q) events fuel final in
  ((∃ res, ends res) ↔
    (cfg_mode cfg ≠ "live" ∨ ∃ w, main_reader ss sb sp sj cfg = Throw w)) ∧
  (∀ res, ends res →
    ∃ e s, res = Ret (Some (e, s)) ∧ e ≠ Returns 0 ∧
      ((e = Returns 1 ∧ pipeline_complete (sys_engine s) = false ∧ cfg_mode cfg ≠ "live") ∨
       (e = match list_find (λ sg, disp sg = Terminates) signals with
            | None => Waits
            | Some (_, sg) => KilledBy sg
            end ∧
        pipeline_complete (sys_engine s) = true ∧
        sys_published s = Some (build_snapshot final (sys_engine s)) ∧
        (cfg_mode cfg = "live" → messages_processed (sys_engine s) = 0)))).
Proof.
  intros Hc Hk Hfuel Hd ends.
  destruct (main_live_ends disp signals (Q := Q) now ss sb sp sj events final cfg Hk)
    as [Hends Hres]. split; [split|].
  - intros [res [w Hw|cfg' Hc' Hm|cfg' res' Hc' Hm Hlive]]; [congruence|..];
      rewrite Hc in Hc'; injection Hc' as <-; [by left|right]. apply Hends. by exists res'.
  - intros Hor. destruct (decide (cfg_mode cfg = "live")) as [Hl|Hl].
    + destruct Hor as [?|Hw]; [done|]. apply Hends in Hw as [res Hw].
      exists res. by eapply main_live_mode.
    + eexists. by eapply main_file_mode.
  - assert (pause_return disp signals ≠ Returns 0) as Hp.
    { rewrite pause_no_handler by done. by destruct (list_find _ signals) as [[]|]. }
    rewrite <- (pause_no_handler _ _ Hd).
    intros res [w Hw|cfg' Hc' Hm|cfg' res' Hc' Hm Hlive]; [congruence|..];
      rewrite Hc in Hc'; injection Hc' as <-.
    + destruct (main_file_total disp signals now open_file fuel final cfg Hk Hfuel)
        as (e & s & -> & Hcase).
      exists e, s. split; [done|]. destruct Hcase as [(->&?&?)|(->&?)].
      * split; [done|]. by right.
      * split; [done|]. by left.
    + rewrite (Hres _ Hlive). eexists _, _. split; [done|]. split; [done|]. by right.
Qed.

Definition no_environment : string → option string := λ _, None.

(** Live mode with the defaults: the interface name is not an address. *)
Definition live_environment : string → option string := λ key,
  if decide (key = "ITCH_MODE") then Some "live" else None.

Definition numeric_pton (s : string) : Z * Z :=
  if decide (s = "233.54.12.111") then (1, 3922070639) else (0, 0).

(** [SIGWINCH] and [SIGINT] of a program without handlers. *)
Definition default_signals (signal : Z) : disposition :=
  if signal =? 28 then Ignores else Terminates.

(** A capture that can be read, and Ctrl+C after a resize of the window; live mode
    with no interface of that name, and no signal. *)
Lemma main_endings_witness :
  (∃ e s, main default_signals [28; 2] (λ _, 0) no_environment (λ _, Some sample_file) 3
      (λ _ _, 0) numeric_pton (λ _ _, 0) (Q := list MessageBuffer) [] 99 5 (Ret (Some (e, s))) ∧
    (e = Returns 1 ∨ e = KilledBy 2)) ∧
  (∃ s, main default_signals [] (λ _, 0) live_environment (λ _, Some sample_file) 3 (λ _ _, 0)
      numeric_pton (λ _ _, 0) (Q := list MessageBuffer) [] 99 5 (Ret (Some (Waits, s)))).
Proof.
  set (cfg mode := {| cfg_mode := mode; cfg_itch_file := "data/sample.bin";
      cfg_mcast_group := "233.54.12.111"; cfg_mcast_iface := "eth0"; cfg_mcast_port := 26477;
      cfg_rest_port := 8080; cfg_snapshot_interval := 1000 |}).
  assert (∀ f, Some sample_file = Some f → (length (remaining f) < 99)%nat) as Hf.
  { intros f [= <-]. vm_compute. lia. }
  destruct (main_endings default_signals [28; 2] (λ _, 0) no_environment (λ _, Some sample_file) 3
    (λ _ _, 0) numeric_pton (λ _ _, 0) (Q := list MessageBuffer) [] 99 5 (cfg "file"))
    as [[_ H1] H2]; [vm_compute; reflexivity|simpl; lia|exact Hf|by repeat constructor|].
  destruct (main_endings default_signals [] (λ _, 0) live_environment (λ _, Some sample_file) 3
    (λ _ _, 0) numeric_pton (λ _ _, 0) (Q := list MessageBuffer) [] 99 5 (cfg "live"))
    as [[_ H3] H4]; [vm_compute; reflexivity|simpl; lia|exact Hf|constructor|].
  split.
  - destruct H1 as [res Hres]; [by left|].
    destruct (H2 res Hres) as (e & s & -> & _ & Hc). exists e, s. split; [exact Hres|].
    destruct Hc as [(-> & _)|(-> & _)]; [left|right]; reflexivity.
  - destruct H3 as [res Hres]; [right; eexists; vm_compute; reflexivity|].
    destruct (H4 res Hres) as (e & s & -> & _ & Hc). exists s.
    destruct Hc as [(_ & _ & Hn)|(-> & _)]; [by destruct Hn|exact Hres].
Defined.

Lemma stoull_numeral ds :
  ds ≠ [] → Forall digit ds →
  stoull (numeral ds) =
    if numeral_value ds <? 2 ^ 64 then Some (numeral_value ds, length ds) else None.
Proof.
  intros Hne Hd. unfold stoull. rewrite list_ascii_of_numeral.
  destruct ds as [|d ds]; [done|]. inversion Hd as [|? ? Hd0 Hds]; subst.
  destruct (digit_of_digit d Hd0) as (_ & Hsp & Hsign).
  pose proof (numeral_nonneg (d :: ds) 0 Hd ltac:(lia)) as Hpos.
  pose proof (read_digits_numeral (d :: ds) 0 Hd) as Hread.
  cbn [fmap list_fmap] in *. cbn [skip_spaces]. rewrite Hsp, Hsign, Hread.
  cbn [length Nat.eqb]. change (foldl _ 0 (d :: ds)) with (numeral_value (d :: ds)) in *.
  destruct (Z.ltb_spec (numeral_value (d :: ds)) (2 ^ 64)); [|done].
  by rewrite Z.mul_1_l, u64_id by lia.
Qed.

(** C38: The configuration: with decimal numerals in the three numeric
    variables the program starts exactly when the ports fit an [int] and the
    interval 64 bits, and ends with an uncaught exception otherwise; a port is
    taken modulo [2^16], so that a value from 65536 on is a different port; a text
    variable that is not set has its default, file mode among them. *)
Theorem config_numbers getenv mp rp si :
  mp ≠ [] → rp ≠ [] → si ≠ [] → Forall digit mp → Forall digit rp → Forall digit si →
  getenv "MCAST_PORT" = Some (numeral mp) → getenv "REST_PORT" = Some (numeral rp) →
  getenv "SNAPSHOT_INTERVAL" = Some (numeral si) →
  config getenv =
    if (numeral_value mp <? 2 ^ 31) && (numeral_value rp <? 2 ^ 31) &&
       (numeral_value si <? 2 ^ 64)
    then Ret {|
      cfg_mode := default "file" (getenv "ITCH_MODE");
      cfg_itch_file := default "data/sample.bin" (getenv "ITCH_FILE");
      cfg_mcast_group := default "233.54.12.111" (getenv "MCAST_GROUP");
      cfg_mcast_iface := default "eth0" (getenv "MCAST_IFACE");
      cfg_mcast_port := numeral_value mp mod 2 ^ 16;
      cfg_rest_port := numeral_value rp mod 2 ^ 16;
      cfg_snapshot_interval := numeral_value si |}
    else Throw "invalid number".
Proof.
  intros Hm Hr Hs Dm Dr Ds Em Er Es. unfold config, env_number, env. rewrite Em, Er, Es.
  cbn [default from_option id]. rewrite !stoi_numeral, stoull_numeral by done.
  by destruct (_ <? 2 ^ 31), (_ <? 2 ^ 31), (_ <? 2 ^ 64).
Qed.

Definition wide_port : string → option string := λ key,
  if decide (key = "REST_PORT") then Some (numeral [6; 5; 5; 3; 7])
  else if decide (key = "MCAST_PORT") then Some (numeral [7])
  else if decide (key = "SNAPSHOT_INTERVAL") then Some (numeral [0; 9]) else None.

Lemma config_numbers_witness :
  cfg_rest_port <$> config wide_port = Ret 1 ∧ cfg_mode <$> config wide_port = Ret "file".
Proof.
  rewrite (config_numbers wide_port [7] [6; 5; 5; 3; 7] [0; 9]); [|try done..].
  - split; vm_compute; reflexivity.
  - repeat constructor; unfold digit; lia.
  - repeat constructor; unfold digit; lia.
  - repeat constructor; unfold digit; lia.
Defined.
