(* ===== verification/Console.v ===== *)
(** What the program writes on its two streams: the banner and the closing lines of
    [main], and every diagnostic of the engine, of the pipeline and of the UDP reader
    ([src/main.cpp], [src/book_engine.cpp], [src/udp_feed_reader.cpp]).

    A diagnostic is a value, [diagnostic_text] its text, which ends the line.  The
    functions named [..._diagnostics] follow the functions of the code that write
    while they work: they take what those take, and list what is written on the
    way.  The streams are shown in the order in which the program writes to them. *)

From S2P Require Import Prelude ByteOrder Messages Parser FeedReader.
From S2P Require Import StdMap OrderBook BookEngine UdpFeedReader Snapshot Pipeline Main.
From stdpp Require Import pretty.

#[local] Open Scope Z_scope.

(** ** Lines *)

Inductive diagnostic :=
(** the engine *)
| UnknownLocate (stock_locate : Z)
| SkippedMessages (n : Z)
| OversizedMessages (n : Z)
(** [main] *)
| ParseError (what : string)
| FileError (what : string)
(** the UDP reader *)
| RecvfromError
| PacketTooShort (n : Z)
| SequenceGap (expected got : Z)
| TruncatedHeader
| TruncatedData.

#[export] Instance diagnostic_eq_dec : EqDecision diagnostic.
Proof. solve_decision. Defined.

Definition diagnostic_text (d : diagnostic) : string :=
  match d with
  | UnknownLocate stock_locate =>
      "[WARN] unknown stock_locate " +:+ pretty stock_locate +:+ " — created placeholder"
  | SkippedMessages n => "[WARN] " +:+ pretty n +:+ " message(s) skipped: unknown order reference"
  | OversizedMessages n =>
      "[WARN] " +:+ pretty n +:+ " oversized execute/cancel message(s): rec.shares clamped to zero"
  | ParseError what => "[WARN] parse error: " +:+ what
  | FileError what => "[ERROR] " +:+ what
  | RecvfromError => "[WARN] UDPFeedReader: recvfrom error"
  | PacketTooShort n => "[WARN] UDPFeedReader: packet too short (" +:+ pretty n +:+ " bytes)"
  | SequenceGap expected got =>
      "[WARN] UDPFeedReader: sequence gap — expected " +:+ pretty expected +:+ " got " +:+
      pretty got +:+ " (" +:+ pretty (u64 (got - expected)) +:+ " message(s) lost)"
  | TruncatedHeader => "[WARN] UDPFeedReader: truncated message block header"
  | TruncatedData => "[WARN] UDPFeedReader: truncated message data"
  end.

(** A line of [std::cout], or of [std::cerr]. *)
Inductive line :=
| Out (text : string)
| Err (d : diagnostic).

(** ** The engine *)

(** The warning of [get_or_create_book]. *)
Definition creation_diagnostics (stock_locate : Z) (st : Engine) : list diagnostic :=
  match books st !! stock_locate with
  | Some _ => []
  | None =>
      match instruments st !! stock_locate with
      | Some _ => []
      | None => [UnknownLocate stock_locate]
      end
  end.

(** The handlers of messages about an order get the book of its locate. *)
Definition order_diagnostics (order_ref : Z) (st : Engine) : list diagnostic :=
  match order_index st !! order_ref with
  | Some rec => creation_diagnostics (rec_stock_locate rec) st
  | None => []
  end.

Definition handle_diagnostics (msg : ParsedMessage) (st : Engine) : list diagnostic :=
  match msg with
  | StockDirectory _ | StockTradingAction _ => []
  | AddOrder m => creation_diagnostics (ao_stock_locate m) st
  | AddOrderMPID m => creation_diagnostics (am_stock_locate m) st
  | OrderExecuted m => order_diagnostics (oe_order_ref m) st
  | OrderExecutedPrice m => order_diagnostics (op_order_ref m) st
  | OrderCancel m => order_diagnostics (oc_order_ref m) st
  | OrderDelete m => order_diagnostics (od_order_ref m) st
  | OrderReplace m => order_diagnostics (or_original_order_ref m) st
  end.

(** [log_summary] *)
Definition summary_diagnostics (st : Engine) : list diagnostic :=
  (if 0 <? skipped_unknown_ref st then [SkippedMessages (skipped_unknown_ref st)] else []) ++
  (if 0 <? corrupt_messages st then [OversizedMessages (corrupt_messages st)] else []).

(** ** The pipeline *)

(** Parse a buffer and apply the message, or report the exception. *)
Definition process_diagnostics (buf : MessageBuffer) (s : System) : list diagnostic :=
  match parse buf with
  | Ret (Some msg) => handle_diagnostics msg (sys_engine s)
  | Ret None => []
  | Throw what => [ParseError what]
  | Undef => []
  end.

Section file.
Context `{MapOrder} (now : nat → Z) {F : Type} `{PosixFile F}.

(** The loop over the file, and the exception that leaves it. *)
Fixpoint file_diagnostics (fuel : nat) (f : F) (s : System) : list diagnostic :=
  match fuel with
  | O => []
  | S fuel =>
      match FeedReader.next_message f with
      | Ret (Some buf, f) =>
          process_diagnostics buf s ++
          match process now buf s with
          | Ret s => file_diagnostics fuel f s
          | _ => []
          end
      | Ret (None, _) => []
      | Throw what => [FileError what]
      | Undef => []
      end
  end.

Definition banner (cfg : Config) : list string := [
  "itch-parser starting";
  "mode:    " +:+ cfg_mode cfg;
  "REST:    http://localhost:" +:+ pretty (cfg_rest_port cfg)].

(** The lines after the branch of the mode, with the system at that point. *)
Definition closing (cfg : Config) (s : System) : list line :=
  (Err <$> summary_diagnostics (sys_engine s)) ++ [
  Out ("pipeline complete — " +:+ pretty (messages_processed (sys_engine s)) +:+
    " messages processed");
  Out ("REST server running at http://localhost:" +:+ pretty (cfg_rest_port cfg) +:+
    " — press Ctrl+C to exit")].

(** All lines of [main] in file mode. *)
Definition main_file_output (open_file : string → option F) (fuel : nat) (final : Z) (cfg : Config)
  : list line :=
  (Out <$> banner cfg) ++ [Out ("reading: " +:+ cfg_itch_file cfg)] ++
  match FileFeedReader open_file (cfg_itch_file cfg) with
  | Ret f =>
      (Err <$> file_diagnostics fuel f (start (cfg_snapshot_interval cfg))) ++
      match file_mode now fuel (Some f) final (start (cfg_snapshot_interval cfg)) with
      | Ret (Some (Completed, s)) => closing cfg s
      | _ => []
      end
  | Throw what => [Err (FileError what)]
  | Undef => []
  end.

End file.

(** ** The UDP reader *)

(** The loop over the blocks of a packet. *)
Fixpoint block_diagnostics (raw : list Byte.byte) (n offset k : nat) : list diagnostic :=
  match k with
  | O => []
  | S k =>
      if decide (n < offset + 2)%nat then [TruncatedHeader]
      else
        match read_be16 raw offset with
        | Ret msg_len =>
            let offset := (offset + 2)%nat in
            if decide (n < offset + Z.to_nat msg_len)%nat then [TruncatedData]
            else block_diagnostics raw n (offset + Z.to_nat msg_len) k
        | _ => []
        end
  end.

Definition refill_diagnostics (ev : recv_event) (st : UDPFeedReader) : list diagnostic :=
  match ev with
  | RecvError => if sock st <? 0 then [] else [RecvfromError]
  | Datagram bs =>
      let raw := take MOLD_RECV_BUF bs in
      let n := length raw in
      if decide (n < MOLD_HEADER_LEN)%nat then [PacketTooShort (Z.of_nat n)]
      else
        match read_be64 raw 10, read_be16 raw 18 with
        | Ret seq, Ret msg_count =>
            if msg_count =? MOLD_HEARTBEAT then []
            else if msg_count =? 0 then []
            else if seq <? expected_seq st then []
            else
              (if expected_seq st <? seq then [SequenceGap (expected_seq st) seq] else []) ++
              block_diagnostics raw n MOLD_HEADER_LEN (Z.to_nat msg_count)
        | _, _ => []
        end
  end.

(** A call of [next_message]. *)
Fixpoint receive_diagnostics (st : UDPFeedReader) (evs : list recv_event) : list diagnostic :=
  match pop_pending st with
  | Some _ => []
  | None =>
      let st := set_pending [] 0 st in
      match evs with
      | [] => []
      | ev :: evs =>
          refill_diagnostics ev st ++
          match refill ev st with
          | Ret (true, st) => receive_diagnostics st evs
          | _ => []
          end
      end
  end.

(** Calls until one returns no message, as [drain] makes them. *)
Fixpoint drain_diagnostics (fuel : nat) (st : UDPFeedReader) (evs : list recv_event)
  : list diagnostic :=
  match fuel with
  | O => []
  | S fuel =>
      receive_diagnostics st evs ++
      match UdpFeedReader.next_message st evs with
      | Ret (Received _ st evs) => drain_diagnostics fuel st evs
      | _ => []
      end
  end.
