(* ===== verification/ConsoleTheorems.v ===== *)
(** What the lines on the error stream say: in file mode they are a function of the
    frames alone, and the lines of the UDP reader account for every message that it
    did not deliver. *)

From S2P Require Import Prelude ByteOrder Messages Parser WireFormat FeedReader.
From S2P Require Import StdMap OrderBook BookEngine EngineLevels EngineInvariant EngineProperties.
From S2P Require Import UdpFeedReader Snapshot SnapshotTheorems Pipeline PipelineTheorems Main Console.
From Stdlib Require Import Strings.Ascii.
From stdpp Require Import pretty.

#[local] Open Scope Z_scope.

Lemma summary_text st : diagnostic_text <$> summary_diagnostics st = log_summary st.
Proof.
  unfold summary_diagnostics, log_summary. rewrite fmap_app.
  by destruct (0 <? skipped_unknown_ref st), (0 <? corrupt_messages st).
Qed.

(** ** Reference: what is reported of a list of messages *)

(** The locates that are known, for what a warning needs: those that a directory
    message or an add has named. *)
Definition learn (msg : ParsedMessage) (known : gset Z) : gset Z :=
  match msg with
  | StockDirectory m => {[sd_stock_locate m]} ∪ known
  | AddOrder m => {[ao_stock_locate m]} ∪ known
  | AddOrderMPID m => {[am_stock_locate m]} ∪ known
  | _ => known
  end.

(** An add that names a new locate is reported. *)
Definition new_locate (known : gset Z) (loc : Z) : list diagnostic :=
  if decide (loc ∈ known) then [] else [UnknownLocate loc].

Definition announce (known : gset Z) (msg : ParsedMessage) : list diagnostic :=
  match msg with
  | AddOrder m => new_locate known (ao_stock_locate m)
  | AddOrderMPID m => new_locate known (am_stock_locate m)
  | _ => []
  end.

(** A frame that the parser rejects is reported with the parser's words. *)
Definition report_frame (known : gset Z) (buf : MessageBuffer) : list diagnostic :=
  match parse buf with
  | Ret (Some msg) => announce known msg
  | Throw what => [ParseError what]
  | _ => []
  end.

Definition learn_frame (known : gset Z) (buf : MessageBuffer) : gset Z :=
  from_option (λ msg, learn msg known) known (decoded buf).

Fixpoint reports (known : gset Z) (bufs : list MessageBuffer) : list diagnostic :=
  match bufs with
  | [] => []
  | buf :: bufs => report_frame known buf ++ reports (learn_frame known buf) bufs
  end.

(** Messages about orders that do not rest, and reductions of more than rests. *)
Definition misses (idx : gmap Z OrderRecord) (msg : ParsedMessage) : bool :=
  match looked_up msg with
  | Some ref => bool_decide (idx !! ref = None)
  | None => false
  end.

Definition overshoots (idx : gmap Z OrderRecord) (msg : ParsedMessage) : bool :=
  match ref ← looked_up msg; idx !! ref, reduction_of msg with
  | Some r, Some n => rec_shares r <? n
  | _, _ => false
  end.

Fixpoint tally (p : gmap Z OrderRecord → ParsedMessage → bool) (idx : gmap Z OrderRecord)
    (msgs : list ParsedMessage) : Z :=
  match msgs with
  | [] => 0
  | msg :: msgs => (if p idx msg then 1 else 0) + tally p (spec_orders msg idx) msgs
  end.

Definition summary (skipped corrupt : Z) : list diagnostic :=
  (if 0 <? skipped then [SkippedMessages skipped] else []) ++
  (if 0 <? corrupt then [OversizedMessages corrupt] else []).

(** ** The engine's warnings *)

(** The orders rest in books, the books are of known locates, and so are the
    instruments. *)
Record locates_known (known : gset Z) (st : Engine) : Prop := {
  lk_orders ref r : order_index st !! ref = Some r → is_Some (books st !! rec_stock_locate r);
  lk_books loc : is_Some (books st !! loc) → loc ∈ known;
  lk_instruments loc : is_Some (instruments st !! loc) ↔ loc ∈ known
}.

Lemma locates_known_start k : locates_known ∅ (sys_engine (start k)).
Proof.
  split; simpl.
  - intros ref r. by rewrite lookup_empty.
  - intros loc. rewrite lookup_empty. by intros [? ?].
  - intros loc. rewrite lookup_empty. split; [by intros [? ?]|set_solver].
Qed.

Lemma handle_diagnostics_touched msg st :
  handle_diagnostics msg st =
  from_option (λ loc, creation_diagnostics loc st) [] (touched msg (order_index st)).
Proof.
  destruct msg; simpl; try done; unfold order_diagnostics; by destruct (order_index st !! _).
Qed.

Lemma spec_reduce_locate ref n idx ref' r :
  spec_reduce ref n idx !! ref' = Some r →
  ∃ r', idx !! ref' = Some r' ∧ rec_stock_locate r' = rec_stock_locate r.
Proof.
  unfold spec_reduce. destruct (idx !! ref) as [r0|] eqn:E; [|eauto].
  destruct (_ <=? _).
  - intros [_ H]%lookup_delete_Some. eauto.
  - rewrite lookup_insert. case_decide; [|eauto]. intros [= <-]. subst. eauto.
Qed.

(** Every order rests at the locate of an earlier one, or where the message is. *)
Lemma spec_orders_locate msg idx ref r :
  spec_orders msg idx !! ref = Some r →
  touched msg idx = Some (rec_stock_locate r) ∨
  ∃ ref' r', idx !! ref' = Some r' ∧ rec_stock_locate r' = rec_stock_locate r.
Proof.
  assert (∀ o n, spec_reduce o n idx !! ref = Some r →
    ∃ ref' r', idx !! ref' = Some r' ∧ rec_stock_locate r' = rec_stock_locate r) as Hred
    by (intros o n (r' & ? & ?)%spec_reduce_locate; eauto).
  destruct msg as [m|m|m|m|m|m|m|m|m]; simpl; intros Hr; eauto.
  - apply lookup_insert_Some in Hr as [[_ <-]|[_ Hr]]; [by left|eauto].
  - apply lookup_insert_Some in Hr as [[_ <-]|[_ Hr]]; [by left|eauto].
  - apply lookup_delete_Some in Hr as [_ Hr]. eauto.
  - destruct (idx !! or_original_order_ref m) as [old|] eqn:E; [|eauto].
    apply lookup_insert_Some in Hr as [[_ <-]|[_ Hr]]; [by left|].
    apply lookup_delete_Some in Hr as [_ Hr]. eauto.
Qed.

(** A message changes the book of a locate that is known already, or that it names. *)
Lemma touched_learn known msg st loc :
  locates_known known st → touched msg (order_index st) = Some loc →
  learn msg known = {[loc]} ∪ known ∧ announce known msg = new_locate known loc.
Proof.
  intros [Ho Hb Hi] H.
  assert (∀ ref, rec_stock_locate <$> order_index st !! ref = Some loc →
    known = {[loc]} ∪ known ∧ [] = new_locate known loc) as Hrec.
  { intros ref (r & Hr & ->)%fmap_Some. pose proof (Hb _ (Ho _ _ Hr)) as Hin.
    split; [set_solver|]. unfold new_locate. by rewrite decide_True. }
  destruct msg as [m|m|m|m|m|m|m|m|m]; simpl in H; try done; try (by eapply Hrec);
    by injection H as <-.
Qed.

Lemma handle_reports known msg st :
  locates_known known st → handle_diagnostics msg st = announce known msg.
Proof.
  intros Hk. rewrite handle_diagnostics_touched.
  destruct (touched msg (order_index st)) as [loc|] eqn:E; simpl.
  - destruct (touched_learn known msg st loc Hk E) as [_ ->]. destruct Hk as [_ Hb Hi].
    unfold creation_diagnostics, new_locate. destruct (books st !! loc) eqn:Ebk.
    { by rewrite decide_True by (apply Hb; eauto). }
    specialize (Hi loc). destruct (instruments st !! loc); case_decide; try done; exfalso.
    + naive_solver.
    + by eapply is_Some_None, Hi.
  - destruct msg as [m|m|m|m|m|m|m|m|m]; done.
Qed.

(** A message that finds no order. *)
Lemma untouched_skipped msg st ref :
  touched msg (order_index st) = None → looked_up msg = Some ref → handle msg st = count_skipped st.
Proof.
  intros E Hl. destruct (handle_errors msg st) as [H _]. apply H. unfold unknown_ref.
  rewrite Hl. apply bool_decide_eq_true_2. unfold get_order.
  destruct msg; simplify_eq/=; by apply fmap_None in E.
Qed.

Lemma learn_looked_up msg ref known : looked_up msg = Some ref → learn msg known = known.
Proof. by destruct msg. Qed.

Lemma handle_learn_instruments known msg st loc :
  locates_known known st → is_Some (instruments (handle msg st) !! loc) ↔ loc ∈ learn msg known.
Proof.
  intros Hk. pose proof (lk_instruments _ _ Hk) as Hi.
  destruct (touched msg (order_index st)) as [l|] eqn:E.
  - destruct (touched_learn known msg st l Hk E) as [-> _].
    rewrite (bw_instruments _ _ _ _ _ (handle_write _ _ _ E)).
    rewrite elem_of_union, elem_of_singleton, <- Hi. pose proof (lk_books _ _ Hk l) as Hb.
    rewrite <- Hi in Hb. destruct (books st !! l) eqn:Eb; [naive_solver|].
    destruct (instruments st !! l) eqn:Ei; [naive_solver|].
    rewrite lookup_insert_is_Some. destruct (decide (l = loc)); naive_solver.
  - destruct (looked_up msg) as [ref|] eqn:El.
    { rewrite (learn_looked_up msg ref) by done. by rewrite (untouched_skipped msg st ref). }
    destruct msg as [m|m|m|m|m|m|m|m|m]; try done; simpl.
    + rewrite lookup_insert_is_Some, elem_of_union, elem_of_singleton, Hi.
      destruct (decide (sd_stock_locate m = loc)); naive_solver.
    + unfold handle_trading_action. destruct (instruments st !! _) as [i|] eqn:Et; [|apply Hi].
      simpl. rewrite lookup_insert_is_Some, <- Hi.
      destruct (decide (ta_stock_locate m = loc)); naive_solver.
Qed.

Lemma handle_untouched_books msg st :
  touched msg (order_index st) = None → books (handle msg st) = books st.
Proof.
  intros E. destruct (handle_untouched msg st E) as [_ H]. destruct (unknown_ref msg st).
  - by rewrite H.
  - by destruct H as [f ->].
Qed.

Lemma handle_learn known msg st :
  locates_known known st → locates_known (learn msg known) (handle msg st).
Proof.
  intros Hk. split; [| |intros loc; by apply handle_learn_instruments].
  - intros ref r. rewrite handle_orders. intros Hr.
    assert (is_Some (books st !! rec_stock_locate r) ∨
      touched msg (order_index st) = Some (rec_stock_locate r)) as [Hb|E].
    { destruct (spec_orders_locate _ _ _ _ Hr) as [E|(ref' & r' & Hr' & <-)]; [by right|left].
      by eapply (lk_orders _ _ Hk). }
    + destruct (touched msg (order_index st)) as [l|] eqn:E.
      * destruct (bw_books _ _ _ _ _ (handle_write _ _ _ E)) as (bk & -> & _).
        rewrite lookup_insert_is_Some. destruct (decide (l = rec_stock_locate r)); tauto.
      * by rewrite handle_untouched_books.
    + destruct (bw_books _ _ _ _ _ (handle_write _ _ _ E)) as (bk & -> & _).
      by rewrite lookup_insert_eq.
  - intros loc. pose proof (lk_books _ _ Hk loc) as Hb.
    destruct (touched msg (order_index st)) as [l|] eqn:E.
    + destruct (touched_learn known msg st l Hk E) as [-> _].
      destruct (bw_books _ _ _ _ _ (handle_write _ _ _ E)) as (bk & -> & _).
      rewrite lookup_insert_is_Some. set_solver.
    + rewrite handle_untouched_books by done. intros H%Hb. destruct msg; simpl; set_solver.
Qed.

(** ** The counters *)

Lemma tally_bounds p idx msgs : 0 ≤ tally p idx msgs ≤ Z.of_nat (length msgs).
Proof.
  revert idx. induction msgs as [|msg msgs IH]; intros idx; cbn [tally length]; [lia|].
  specialize (IH (spec_orders msg idx)). destruct (p idx msg); lia.
Qed.

Lemma run_errors msgs st :
  skipped_unknown_ref st ∈u64 → corrupt_messages st ∈u64 →
  skipped_unknown_ref (run msgs st) =
    u64 (skipped_unknown_ref st + tally misses (order_index st) msgs) ∧
  corrupt_messages (run msgs st) =
    u64 (corrupt_messages st + tally overshoots (order_index st) msgs).
Proof.
  revert st. induction msgs as [|msg msgs IH]; intros st Hs Hc.
  { cbn [tally]. rewrite !Z.add_0_r, !u64_id by done. done. }
  rewrite run_cons. destruct (handle_errors msg st) as (_ & Es & Ec).
  change (unknown_ref msg st) with (misses (order_index st) msg) in Es.
  change (oversized msg st) with (overshoots (order_index st) msg) in Ec.
  cbn [tally]. rewrite <- handle_orders.
  destruct (IH (count_message (handle msg st))) as [-> ->]; simpl;
    rewrite ?Es, ?Ec; try (by destruct (misses _ _); [apply u64_range|]);
    try (by destruct (overshoots _ _); [apply u64_range|]).
  unfold u64. split.
  - destruct (misses _ _); [|done]. rewrite Z.add_mod_idemp_l by done. f_equal. lia.
  - destruct (overshoots _ _); [|done]. rewrite Z.add_mod_idemp_l by done. f_equal. lia.
Qed.

(** ** File mode *)

Section file.
Context `{MapOrder} (now : nat → Z) (k : Z) (Hk : 0 < k).

Lemma process_reports known buf s :
  locates_known known (sys_engine s) → process_diagnostics buf s = report_frame known buf.
Proof.
  intros Hl. unfold process_diagnostics, report_frame. destruct (parse buf) as [[msg|]|w|]; [|done..].
  by apply handle_reports.
Qed.

Lemma process_learn known buf s s' :
  runs k s → locates_known known (sys_engine s) → process now buf s = Ret s' →
  runs k s' ∧ locates_known (learn_frame known buf) (sys_engine s').
Proof.
  intros Hs Hl E. destruct (process_runs now k Hk buf s Hs) as (s1 & E1 & Hs1 & Hr).
  rewrite E in E1. injection E1 as <-. split; [done|]. rewrite Hr. unfold learn_frame.
  destruct (decoded buf) as [msg|]; [|done].
  pose proof (handle_learn known msg _ Hl) as [Ho Hb Hi]. by split.
Qed.

(** The lines of the loop over a file of whole frames. *)
Lemma file_diagnostics_frames {F} `{ReliableFile F} known bufs (f : F) s fuel :
  remaining f = concat (frame <$> bufs) → Forall frameable bufs → runs k s →
  locates_known known (sys_engine s) → (length bufs < fuel)%nat →
  file_diagnostics now fuel f s = reports known bufs.
Proof.
  intros Hf Hb. revert known f s fuel Hf.
  induction Hb as [|buf bufs Hbuf Hb IH]; intros known f s fuel Hf Hs Hl Hfuel;
    (destruct fuel as [|fuel]; [simpl in Hfuel; lia|]); cbn [file_diagnostics reports].
  - pose proof (next_message_reliable f) as E. rewrite Hf in E. simpl in E.
    by destruct (FeedReader.next_message f) as [[[b|] f']| |].
  - pose proof (next_message_framed f buf _ Hbuf Hf) as E.
    destruct (FeedReader.next_message f) as [[o f']| |]; [|discriminate..].
    simpl in E. injection E as -> Hf'.
    rewrite (process_reports known) by done. f_equal.
    destruct (process_runs now k Hk buf s Hs) as (s1 & E1 & _). rewrite E1.
    destruct (process_learn known buf s s1 Hs Hl E1) as [Hs1 Hl1].
    apply IH; [done..|]. simpl in Hfuel. lia.
Qed.

End file.

(** The rejected frames, in the parser's words. *)
Definition rejected (buf : MessageBuffer) : option string :=
  match parse buf with Throw what => Some what | _ => None end.

Definition parse_error (d : diagnostic) : option string :=
  match d with ParseError what => Some what | _ => None end.

Definition unknown_locate (d : diagnostic) : option Z :=
  match d with UnknownLocate loc => Some loc | _ => None end.

Lemma announce_unknown known msg loc :
  UnknownLocate loc ∈ announce known msg → loc ∉ known ∧ loc ∈ learn msg known.
Proof.
  destruct msg; simpl; try (by intros ?%not_elem_of_nil); unfold new_locate; case_decide;
    try (by intros ?%not_elem_of_nil); intros [= ->]%list_elem_of_singleton; set_solver.
Qed.

(** Every rejected frame has a line, and no other. *)
Lemma reports_rejected known bufs : omap parse_error (reports known bufs) = omap rejected bufs.
Proof.
  revert known. induction bufs as [|buf bufs IH]; intros known; [done|].
  cbn [reports]. rewrite omap_app, IH. unfold report_frame.
  change (omap rejected (buf :: bufs)) with
    (match rejected buf with Some w => w :: omap rejected bufs | None => omap rejected bufs end).
  unfold rejected at 2. destruct (parse buf) as [[msg|]|w|]; [|done..].
  destruct msg; simpl; try done; unfold new_locate; by case_decide.
Qed.

Lemma report_once known buf : NoDup (omap unknown_locate (report_frame known buf)).
Proof.
  assert (∀ loc, NoDup (omap unknown_locate (new_locate known loc))) as Hnew.
  { intros loc. unfold new_locate. case_decide; [constructor|apply NoDup_singleton]. }
  unfold report_frame. destruct (parse buf) as [[msg|]|w|]; [|constructor..].
  destruct msg; simpl; apply Hnew || constructor.
Qed.

(** No locate is reported twice, nor one that is known. *)
Lemma reports_once known bufs :
  NoDup (omap unknown_locate (reports known bufs)) ∧
  ∀ loc, loc ∈ omap unknown_locate (reports known bufs) → loc ∉ known.
Proof.
  revert known. induction bufs as [|buf bufs IH]; intros known.
  { split; [constructor|]. by intros loc ?%not_elem_of_nil. }
  destruct (IH (learn_frame known buf)) as [Hd Hn].
  cbn [reports]. rewrite omap_app.
  assert (∀ loc, loc ∈ omap unknown_locate (report_frame known buf) →
    loc ∉ known ∧ loc ∈ learn_frame known buf) as Hr.
  { intros loc (d & Hin & Hu)%list_elem_of_omap. destruct d; try done. injection Hu as ->.
    revert Hin. unfold report_frame, learn_frame, decoded.
    destruct (parse buf) as [[msg|]|w|]; [apply announce_unknown|..];
      try (by intros ?%not_elem_of_nil). by intros ?%list_elem_of_singleton. }
  assert (known ⊆ learn_frame known buf) as Hsub.
  { unfold learn_frame. destruct (decoded buf) as [m|]; [destruct m|]; simpl; set_solver. }
  split.
  - apply NoDup_app. split; [|split; [|done]].
    + apply report_once.
    + intros loc [_ Hin]%Hr Hin'%Hn. done.
  - intros loc [Hin|Hin]%elem_of_app; [by apply Hr|]. apply Hn in Hin. set_solver.
Qed.

(** C14: The transcript of file mode: what [main] writes depends on the file only
    through its frames, and through no book.  When the file cannot be opened, the one
    line on the error stream says so.  Otherwise it reports, in the order of the
    frames, each frame that the parser rejects, in the parser's words, and each
    order at a locate that no earlier message has named, once for each locate; then
    how many messages were about orders that did not rest, and how many took more
    shares than rested, each when there were any; and the last lines on the other
    stream give the number of messages that were applied. *)
Theorem file_transcript {F} `{ReliableFile F} `{MapOrder} now final
    (open_file : string → option F) fuel cfg bufs :
  let path := cfg_itch_file cfg in
  let msgs := omap decoded bufs in
  0 < cfg_snapshot_interval cfg → Z.of_nat (length bufs) < 2 ^ 64 →
  (∀ f, open_file path = Some f → remaining f = concat (frame <$> bufs)) →
  Forall frameable bufs → (length bufs < fuel)%nat →
  main_file_output now open_file fuel final cfg =
    (Out <$> banner cfg ++ ["reading: " +:+ path]) ++
    match open_file path with
    | None => [Err (FileError ("FileFeedReader: cannot open file: " +:+ path))]
    | Some _ =>
        (Err <$> reports ∅ bufs ++ summary (tally misses ∅ msgs) (tally overshoots ∅ msgs)) ++
        [Out ("pipeline complete — " +:+ pretty (Z.of_nat (length msgs)) +:+ " messages processed");
         Out ("REST server running at http://localhost:" +:+ pretty (cfg_rest_port cfg) +:+
           " — press Ctrl+C to exit")]
    end ∧
  omap parse_error (reports ∅ bufs) = omap rejected bufs ∧
  NoDup (omap unknown_locate (reports ∅ bufs)).
Proof.
  intros path msgs Hk Hlen Hf Hb Hfuel.
  split; [|split; [apply reports_rejected|apply reports_once]].
  unfold main_file_output, main_file, FileFeedReader. fold path.
  rewrite fmap_app, <- app_assoc. do 2 f_equal.
  destruct (open_file path) as [f|]; [|done]. specialize (Hf f eq_refl).
  set (k := cfg_snapshot_interval cfg) in *. cbn [opened].
  rewrite (file_diagnostics_frames now k Hk ∅ bufs) by
    (done || apply start_runs || apply locates_known_start).
  destruct (file_mode_frames now final k bufs f fuel Hk Hf Hb Hfuel) as (s & -> & He & _).
  rewrite fmap_app, <- app_assoc. f_equal. unfold closing. rewrite He.
  assert (Z.of_nat (length msgs) < 2 ^ 64) as Hm.
  { unfold msgs. pose proof (length_omap_le decoded bufs). lia. }
  destruct (run_errors msgs (configured k)) as [Hs Hc]; [done..|].
  destruct (run_config msgs (configured k)) as (Hn & _); [done|].
  pose proof (tally_bounds misses ∅ msgs). pose proof (tally_bounds overshoots ∅ msgs).
  unfold summary_diagnostics. cbn [mark_complete skipped_unknown_ref corrupt_messages
    messages_processed]. fold msgs. rewrite Hs, Hc, Hn. cbn [configured set_snapshot_interval
    Engine_init skipped_unknown_ref corrupt_messages messages_processed order_index].
  rewrite !Z.add_0_l, !u64_id by lia. done.
Qed.

(** A file of three frames: an order at a locate without a directory message, a frame
    that is too short, and a delete of an order that does not rest. *)
Definition noisy_frames : list MessageBuffer := [
  encode sample_message; [Byte.x41];
  encode (OrderDelete {| od_stock_locate := 1; od_tracking_number := 0; od_timestamp := 3;
    od_order_ref := 77 |})].

Definition noisy_file : ChunkedFile := {|
  chunked_bytes := concat (frame <$> noisy_frames); chunk_sizes := replicate 90 0%nat |}.

Definition noisy_config : Config := {|
  cfg_mode := "file"; cfg_itch_file := "day.bin"; cfg_mcast_group := "233.54.12.111";
  cfg_mcast_iface := "eth0"; cfg_mcast_port := 26477; cfg_rest_port := 8080;
  cfg_snapshot_interval := 1000 |}.

Lemma file_transcript_witness :
  main_file_output (λ _, 0) (λ _, Some noisy_file) 9 7 noisy_config =
    (Out <$> ["itch-parser starting"; "mode:    file"; "REST:    http://localhost:8080";
      "reading: day.bin"]) ++
    (Err <$> [UnknownLocate 1; ParseError "Parser: truncated AddOrder message: need 36 bytes, got 1";
      SkippedMessages 1]) ++
    (Out <$> ["pipeline complete — 2 messages processed";
      "REST server running at http://localhost:8080 — press Ctrl+C to exit"]).
Proof.
  destruct (file_transcript (λ _, 0) 7 (λ _, Some noisy_file) 9 noisy_config noisy_frames)
    as (E & _ & _).
  - done.
  - done.
  - intros f [= <-]. reflexivity.
  - repeat constructor; vm_compute; done.
  - simpl. lia.
  - etrans; [exact E|]. vm_compute. reflexivity.
Defined.

(** ** The UDP reader *)

(** The messages that a line reports lost. *)
Definition lost (d : diagnostic) : Z :=
  match d with SequenceGap expected got => got - expected | _ => 0 end.

Fixpoint total_lost (ds : list diagnostic) : Z :=
  match ds with [] => 0 | d :: ds => lost d + total_lost ds end.

(** A packet that was cut is reported without a number. *)
Definition truncation (d : diagnostic) : bool :=
  match d with TruncatedHeader | TruncatedData => true | _ => false end.

Definition intact (ds : list diagnostic) : Prop := Forall (λ d, truncation d = false) ds.

Lemma intact_app ds1 ds2 : intact (ds1 ++ ds2) ↔ intact ds1 ∧ intact ds2.
Proof. apply Forall_app. Qed.

Lemma total_lost_app ds1 ds2 : total_lost (ds1 ++ ds2) = total_lost ds1 + total_lost ds2.
Proof. induction ds1 as [|d ds1 IH]; simpl; lia. Qed.

(** The loop over the blocks reports a cut packet, and nothing else. *)
Lemma block_diagnostics_spec raw offset k :
  let ds := block_diagnostics raw (length raw) offset k in
  total_lost ds = 0 ∧
  (intact ds → length (blocks_ref k (drop offset raw)) = k).
Proof.
  revert offset. induction k as [|k IH]; intros offset; cbn [block_diagnostics]; [done|].
  assert (∀ d, truncation d = true → intact [d] → False) as Hcut.
  { intros d Hd Hi. inversion Hi. congruence. }
  destruct (decide (length raw < offset + 2)%nat) as [Hlt|Hge].
  { split; [done|]. by intros ?%Hcut. }
  rewrite read_be16_slice by lia.
  destruct (slice_2 raw offset) as (a & b & -> & ->); [lia|].
  cbn [blocks_ref]. cbv zeta. rewrite length_drop. set (len := Z.to_nat (be_value [a; b])).
  destruct (decide (length raw < offset + 2 + len)%nat).
  { split; [done|]. by intros ?%Hcut. }
  rewrite decide_True by lia. destruct (IH (offset + 2 + len)%nat) as [Hl Hi].
  split; [exact Hl|]. intros Hds. cbn [length]. rewrite drop_drop. by rewrite Hi.
Qed.

Definition queued (st : UDPFeedReader) : Z :=
  Z.of_nat (length (drop (pending_idx st) (pending st))).

(** From [st] to [st'] the reader wrote [ds] and delivered [n] messages: the gaps are
    those of the lines, and every number of the sequence is that of a message in the
    queue or delivered, or reported lost. *)
Record accounts (st st' : UDPFeedReader) (ds : list diagnostic) (n : Z) : Prop := {
  ac_gaps : gaps_detected st' = u64 (gaps_detected st + total_lost ds);
  ac_range : expected_seq st' ∈u64;
  ac_sequence : intact ds →
    (expected_seq st' - queued st') mod 2 ^ 64 =
    (expected_seq st - queued st + total_lost ds + n) mod 2 ^ 64
}.

Lemma accounts_trans st1 st2 st3 ds1 ds2 n1 n2 :
  accounts st1 st2 ds1 n1 → accounts st2 st3 ds2 n2 → accounts st1 st3 (ds1 ++ ds2) (n1 + n2).
Proof.
  intros [Hg1 Hr1 Hs1] [Hg2 Hr2 Hs2]. split; [|done|].
  - rewrite Hg2, Hg1, total_lost_app. unfold u64. rewrite Z.add_mod_idemp_l by done.
    f_equal. lia.
  - intros [Hi1 Hi2]%intact_app. rewrite Hs2, total_lost_app by done.
    rewrite <- !Z.add_assoc, <- Z.add_mod_idemp_l, Hs1, Z.add_mod_idemp_l by done. f_equal. lia.
Qed.

Lemma accounts_refl st : gaps_detected st ∈u64 → expected_seq st ∈u64 → accounts st st [] 0.
Proof.
  intros Hg He. split; [|done|].
  - simpl. by rewrite Z.add_0_r, u64_id.
  - intros _. f_equal. simpl. lia.
Qed.

(** What [refill] does with a packet that brings no messages. *)
Lemma accounts_still st d ds :
  gaps_detected st ∈u64 → expected_seq st ∈u64 → total_lost ds = 0 →
  pending st = [] → pending_idx st = 0%nat →
  accounts st (set_pending [] 0 (set_seq (expected_seq st) (gaps_detected st) d st)) ds 0.
Proof.
  intros Hg He Hds Hp Hi. split; [|done|].
  - simpl. by rewrite Hds, Z.add_0_r, u64_id.
  - intros _. unfold queued. rewrite Hds, Hp, Hi. simpl. f_equal. lia.
Qed.

(** What it does with one that is not behind the sequence. *)
Lemma accounts_packet st seq count msgs ds :
  gaps_detected st ∈u64 → expected_seq st ≤ seq → 0 ≤ count →
  pending st = [] → pending_idx st = 0%nat → total_lost ds = 0 →
  (intact ds → length msgs = Z.to_nat count) →
  accounts st
    (set_pending msgs 0 (set_seq (u64 (seq + count))
      (if expected_seq st <? seq then u64 (gaps_detected st + (seq - expected_seq st))
       else gaps_detected st) (dropped_behind st) st))
    ((if expected_seq st <? seq then [SequenceGap (expected_seq st) seq] else []) ++ ds) 0.
Proof.
  intros Hg Hle Hc Hp Hi Hds Hmsgs.
  set (gap := if expected_seq st <? seq then _ else []).
  assert (total_lost gap = seq - expected_seq st) as Hgap.
  { unfold gap. destruct (Z.ltb_spec (expected_seq st) seq); simpl; lia. }
  split; cbn [set_pending set_seq gaps_detected expected_seq]; [|apply u64_range|].
  - rewrite total_lost_app, Hgap, Hds. destruct (Z.ltb_spec (expected_seq st) seq).
    + f_equal. lia.
    + rewrite u64_id; lia.
  - intros [_ Hin]%intact_app. rewrite total_lost_app, Hgap, Hds. unfold queued. rewrite Hp, Hi.
    simpl. rewrite ?drop_0, Hmsgs by done.
    unfold u64. rewrite Zminus_mod_idemp_l. f_equal. lia.
Qed.

Lemma refill_accounts bs st :
  gaps_detected st ∈u64 → expected_seq st ∈u64 → pending st = [] → pending_idx st = 0%nat →
  ∃ st', refill (Datagram bs) st = Ret (true, st') ∧ sock st' = sock st ∧
    accounts st st' (refill_diagnostics (Datagram bs) st) 0.
Proof.
  intros Hg He Hp Hi. rewrite refill_refines.
  destruct (accept (seq_state st) bs) as [s msgs] eqn:Ea. eexists. split; [done|split; [done|]].
  rewrite Hp, Hi. revert Ea. unfold accept, packet_ref, refill_diagnostics. cbv zeta.
  destruct (decide (length (take MOLD_RECV_BUF bs) < MOLD_HEADER_LEN)%nat) as [Hl|Hl].
  { intros [= <- <-]. by apply accounts_still. }
  unfold MOLD_HEADER_LEN in Hl. rewrite read_be64_slice, read_be16_slice by lia.
  destruct (Z.eqb_spec (be_value (slice (take MOLD_RECV_BUF bs) 18 2)) MOLD_HEARTBEAT).
  { rewrite decide_True by auto. intros [= <- <-]. by apply accounts_still. }
  destruct (Z.eqb_spec (be_value (slice (take MOLD_RECV_BUF bs) 18 2)) 0).
  { rewrite decide_True by auto. intros [= <- <-]. by apply accounts_still. }
  rewrite decide_False by tauto. cbn [seq_state ss_expected ss_gaps ss_dropped].
  destruct (Z.ltb_spec (be_value (slice (take MOLD_RECV_BUF bs) 10 8)) (expected_seq st)).
  { intros [= <- <-]. by apply accounts_still. }
  intros [= <- <-]. cbn [app].
  destruct (block_diagnostics_spec (take MOLD_RECV_BUF bs) MOLD_HEADER_LEN
    (Z.to_nat (be_value (slice (take MOLD_RECV_BUF bs) 18 2)))) as [Hd Hin].
  apply accounts_packet; try done. apply be_value_range.
Qed.

Lemma pop_accounts st buf st' :
  gaps_detected st ∈u64 → expected_seq st ∈u64 → pop_pending st = Some (buf, st') →
  sock st' = sock st ∧ accounts st st' [] 1.
Proof.
  intros Hg He (Hd & Hss & Hsock & _)%pop_pending_Some. split; [done|].
  injection Hss as He' Hg' _. split; rewrite ?He', ?Hg'; [|done|].
  - simpl. by rewrite Z.add_0_r, u64_id.
  - intros _. unfold queued. rewrite Hd. cbn [length total_lost]. f_equal. lia.
Qed.

(** [pending_] is used up: the reader clears it. *)
Lemma clear_accounts st :
  gaps_detected st ∈u64 → expected_seq st ∈u64 → pop_pending st = None →
  accounts st (set_pending [] 0 st) [] 0.
Proof.
  intros Hg He E. split; [|done|].
  - simpl. by rewrite Z.add_0_r, u64_id.
  - intros _. unfold queued. apply pop_pending_None in E. rewrite E. simpl. f_equal. lia.
Qed.

(** A call: it delivers a message, or waits for ever. *)
Lemma receive_accounts st evs :
  0 ≤ sock st → gaps_detected st ∈u64 → expected_seq st ∈u64 →
  let ds := receive_diagnostics st evs in
  (∃ buf st' evs', UdpFeedReader.next_message st evs = Ret (Received buf st' evs') ∧
    sock st' = sock st ∧ accounts st st' ds 1) ∨
  (∃ st', UdpFeedReader.next_message st evs = Ret (Blocked st') ∧
    queued st' = 0 ∧ accounts st st' ds 0).
Proof.
  revert st. induction evs as [|ev evs IH]; intros st Hs Hg He;
    cbn [UdpFeedReader.next_message receive_diagnostics];
    destruct (pop_pending st) as [[buf st']|] eqn:E.
  1, 3: left; eexists buf, st', _; split; [done|by eapply pop_accounts].
  { right. eexists. split; [done|split; [done|by apply clear_accounts]]. }
  pose proof (clear_accounts st Hg He E) as Hclear. cbv zeta.
  set (st0 := set_pending [] 0 st) in *.
  assert (∃ st1, refill ev st0 = Ret (true, st1) ∧ sock st1 = sock st ∧
    accounts st0 st1 (refill_diagnostics ev st0) 0) as (st1 & -> & Hs1 & Ha1).
  { destruct ev as [bs|]; [by apply (refill_accounts bs st0)|]. exists st0. simpl.
    change (sock st0) with (sock st). rewrite (proj2 (Z.ltb_ge _ _)) by done. split_and!; try done.
    by apply (accounts_still st0 (dropped_behind st) [RecvfromError]). }
  pose proof (accounts_trans _ _ _ _ _ _ _ Hclear Ha1) as Ha. cbn [mbind outcome_bind].
  assert (gaps_detected st1 ∈u64) as Hg1 by (rewrite (ac_gaps _ _ _ _ Ha); apply u64_range).
  destruct (IH st1 ltac:(congruence) Hg1 (ac_range _ _ _ _ Ha))
    as [(buf & st' & evs' & En & Hs' & Ha')|(st' & En & Hq & Ha')].
  - left. exists buf, st', evs'. split; [done|split; [congruence|]].
    apply (accounts_trans _ _ _ _ _ _ _ Ha Ha').
  - right. exists st'. split; [done|split; [done|]]. apply (accounts_trans _ _ _ _ _ _ _ Ha Ha').
Qed.

Lemma drain_accounts fuel st evs msgs st' :
  0 ≤ sock st → gaps_detected st ∈u64 → expected_seq st ∈u64 →
  drain fuel st evs = Ret (Some (msgs, st')) →
  queued st' = 0 ∧ accounts st st' (drain_diagnostics fuel st evs) (Z.of_nat (length msgs)).
Proof.
  revert st evs msgs. induction fuel as [|fuel IH]; intros st evs msgs Hs Hg He; [done|].
  cbn [drain drain_diagnostics].
  destruct (receive_accounts st evs Hs Hg He)
    as [(buf & st1 & evs1 & -> & Hs1 & Ha)|(st1 & -> & Hq & Ha)]; cbn [mbind outcome_bind].
  - destruct (drain fuel st1 evs1) as [[[msgs1 st2]|]|w|] eqn:Ed; try done.
    intros [= <- <-].
    destruct (IH st1 evs1 msgs1) as [Hq Ha']; try done.
    + congruence.
    + rewrite (ac_gaps _ _ _ _ Ha). apply u64_range.
    + apply (ac_range _ _ _ _ Ha).
    + split; [done|]. cbn [length]. rewrite Nat2Z.inj_succ, <- Z.add_1_l.
      by apply (accounts_trans _ _ _ _ _ _ _ Ha Ha').
  - intros [= <- <-]. split; [done|]. by rewrite app_nil_r.
Qed.

Lemma blocks_ref_length k rest : (2 * length (blocks_ref k rest) ≤ length rest)%nat.
Proof.
  revert rest. induction k as [|k IH]; intros [|a [|b body]]; simpl; try lia.
  case_decide; simpl; [|lia].
  pose proof (IH (drop (Z.to_nat (be_value [a; b])) body)) as Hb. rewrite length_drop in Hb. lia.
Qed.

(** A datagram holds 1014 messages at most. *)
Lemma accept_all_length s evs :
  (length (accept_all s evs).2 ≤ 1014 * length evs)%nat.
Proof.
  revert s. induction evs as [|[bs|] evs IH]; intros s; [done| |].
  - cbn [accept_all]. destruct (accept s bs) as [s1 msgs] eqn:Ea.
    specialize (IH s1). destruct (accept_all s1 evs) as [s2 rest]. cbn [snd length] in *.
    rewrite length_app. enough (length msgs ≤ 1014)%nat by lia. revert Ea.
    unfold accept, packet_ref. cbv zeta. repeat case_decide; try (intros [= _ <-]; simpl; lia).
    destruct (_ <? _); intros [= _ <-]; [simpl; lia|].
    match goal with |- (length (blocks_ref ?k ?r) ≤ _)%nat =>
      pose proof (blocks_ref_length k r) as Hb end.
    unfold MOLD_HEADER_LEN, MOLD_RECV_BUF in Hb |- *.
    rewrite length_drop, length_take in Hb. lia.
  - cbn [accept_all length]. specialize (IH s). lia.
Qed.

(** C13: The reader accounts for the sequence: whatever datagrams come, [next_message]
    until it blocks ends, the gap counter is the sum of what the lines on the error
    stream report lost, and unless a line reports a packet that was cut, the next
    sequence number expected is one more than the messages delivered and the
    messages reported lost: none is lost without a line.  So when the reader writes
    nothing it has delivered every message of the sequence so far. *)
Theorem udp_accounts s evs fuel :
  0 ≤ s → (1014 * length evs < fuel)%nat →
  let ds := drain_diagnostics fuel (reader_on s) evs in
  ∃ msgs st, drain fuel (reader_on s) evs = Ret (Some (msgs, st)) ∧
    gaps_detected st = u64 (total_lost ds) ∧
    (intact ds → expected_seq st = u64 (1 + Z.of_nat (length msgs) + total_lost ds)) ∧
    (ds = [] → gaps_detected st = 0 ∧ expected_seq st = u64 (1 + Z.of_nat (length msgs))).
Proof.
  intros Hs Hfuel ds.
  destruct (drain_outlook fuel (reader_on s) evs) as (st & Hd & _); [done|done| |].
  { rewrite outlook_fresh. pose proof (accept_all_length (seq_state (reader_on s)) evs). lia. }
  eexists _, st. split; [exact Hd|].
  apply drain_accounts in Hd as [Hq [Hg Hr Hsq]]; [|done..]. fold ds in Hg, Hsq.
  assert (intact ds → expected_seq st = u64 (1 + Z.of_nat (length (outlook (reader_on s) evs).2)
    + total_lost ds)) as Hseq.
  { intros Hin. specialize (Hsq Hin). rewrite Hq, Z.sub_0_r, Z.mod_small in Hsq by done.
    rewrite Hsq. change (queued (reader_on s)) with 0. unfold u64. f_equal. simpl. lia. }
  split; [exact Hg|split; [exact Hseq|]]. intros Hnil. rewrite Hseq, Hg, Hnil by (rewrite Hnil; constructor).
  split; [done|]. simpl. by rewrite Z.add_0_r.
Qed.

(** The second of three messages never comes. *)
Definition gap_events : list recv_event := [
  Datagram (mold_packet (replicate 10 Byte.x53) 1 (take 1 sample_session));
  Datagram (mold_packet (replicate 10 Byte.x53) 3 (take 1 (drop 2 sample_session)))].

Lemma udp_accounts_witness :
  drain_diagnostics 2100 (reader_on 3) gap_events = [SequenceGap 2 3] ∧
  ∃ msgs st, drain 2100 (reader_on 3) gap_events = Ret (Some (msgs, st)) ∧
    gaps_detected st = 1 ∧ expected_seq st = u64 (1 + Z.of_nat (length msgs) + 1).
Proof.
  assert (drain_diagnostics 2100 (reader_on 3) gap_events = [SequenceGap 2 3]) as E
    by (vm_compute; reflexivity).
  split; [exact E|].
  destruct (udp_accounts 3 gap_events 2100) as (msgs & st & Hd & Hg & Hs & _); [lia|simpl; lia|].
  exists msgs, st. split; [exact Hd|]. rewrite E in Hg, Hs. split; [exact Hg|].
  apply Hs. by repeat constructor.
Defined.
