(* ===== verification/Descriptors.v ===== *)
(** The descriptors that the two readers own: the constructors and destructors of
    [src/feed_reader.cpp] and [src/udp_feed_reader.cpp], and the blocks of
    [src/main.cpp] that own a reader.

    The open descriptors of the process are a set.  A successful [open] or
    [socket] adds a descriptor that was not open ([Kernel]); the other calls of
    the constructors are those of UdpFeedReader.  A computation threads the set
    and keeps it when it throws. *)

From S2P Require Import Prelude ByteOrder FeedReader UdpFeedReader.
From S2P Require Import StdMap OrderBook BookEngine Snapshot RestServer Pipeline PipelineTheorems.
From S2P Require Import Main MainTheorems.
From stdpp Require Import gmap.

#[local] Open Scope Z_scope.

Class Kernel := {
  sys_open : gset Z → string → Z;
  sys_socket : gset Z → Z;
  sys_open_fresh ds path : 0 ≤ sys_open ds path → sys_open ds path ∉ ds;
  sys_socket_fresh ds : 0 ≤ sys_socket ds → sys_socket ds ∉ ds
}.

(** ** Computations on the descriptors *)

Definition D (A : Type) : Type := gset Z → outcome A * gset Z.

#[export] Instance D_ret : MRet D := λ A a ds, (Ret a, ds).
#[export] Instance D_bind : MBind D := λ A B f m ds,
  match m ds with
  | (Ret a, ds) => f a ds
  | (Throw w, ds) => (Throw w, ds)
  | (Undef, ds) => (Undef, ds)
  end.

(** A computation that leaves the descriptors alone. *)
Definition lift {A} (o : outcome A) : D A := λ ds, (o, ds).

(** [::close] *)
Definition close (fd : Z) : D () := λ ds, (Ret (), ds ∖ {[fd]}).

(** The descriptor that a call returned, if it succeeded. *)
Definition add_descriptor (fd : Z) (ds : gset Z) : gset Z := if fd <? 0 then ds else {[fd]} ∪ ds.

(** An object of automatic storage: the destructor runs when the block is left,
    by an exception too, but not when the constructor throws. *)
Definition scoped {R A} (constructor : D R) (destructor : R → D ()) (block : R → D A) : D A :=
  λ ds,
  match constructor ds with
  | (Ret r, ds) =>
      match block r ds with
      | (o, ds) => (o, (destructor r ds).2)
      end
  | (Throw w, ds) => (Throw w, ds)
  | (Undef, ds) => (Undef, ds)
  end.

Section readers.
Context `{Kernel}.

Definition open_call (path : string) : D Z :=
  λ ds, (Ret (sys_open ds path), add_descriptor (sys_open ds path) ds).
Definition socket_call : D Z := λ ds, (Ret (sys_socket ds), add_descriptor (sys_socket ds) ds).

(** ** [FileFeedReader]: the member [fd_] *)

Definition file_constructor (path : string) : D Z :=
  fd ← open_call path;
  if fd <? 0 then lift (Throw ("FileFeedReader: cannot open file: " +:+ path)) else mret fd.

Definition file_is_open (fd : Z) : bool := 0 <=? fd.

Definition file_destructor (fd : Z) : D () := if 0 <=? fd then close fd else mret ().

(** ** [UDPFeedReader] *)

Section udp.
Context (sys_bind : Z → Z → Z).
Context (sys_inet_pton : string → Z * Z) (sys_add_membership : Z → Z * Z → Z).

Definition udp_constructor (group iface_ip : string) (port : Z) : D UDPFeedReader :=
  s ← socket_call;
  s ← lift (make_udp_socket s);
  _ ← lift (bind_socket sys_bind s port);
  _ ← lift (join_multicast sys_inet_pton sys_add_membership s group iface_ip);
  mret (reader_on s).

Definition udp_test_constructor (port : Z) : D UDPFeedReader :=
  s ← socket_call;
  s ← lift (make_udp_socket s);
  _ ← lift (bind_socket sys_bind s port);
  mret (reader_on s).

End udp.

Definition is_open (r : UDPFeedReader) : bool := 0 <=? sock r.

(** [sock_ = -1] *)
Definition forget_sock (r : UDPFeedReader) : UDPFeedReader := {|
  sock := -1; expected_seq := expected_seq r; gaps_detected := gaps_detected r;
  dropped_behind := dropped_behind r; messages_received := messages_received r;
  pending := pending r; pending_idx := pending_idx r |}.

(** The destructor and what it leaves of the object. *)
Definition udp_destroy (r : UDPFeedReader) : D UDPFeedReader :=
  if 0 <=? sock r then (_ ← close (sock r); mret (forget_sock r)) else mret r.

Definition udp_destructor (r : UDPFeedReader) : D () := _ ← udp_destroy r; mret ().

End readers.

(** ** The blocks of [main] *)

Section blocks.
Context `{Kernel} `{MapOrder} (now : nat → Z).

(** File mode: the [try] block, the loop on the file that the descriptor is for. *)
Definition file_block {F} `{PosixFile F} (file_of : Z → F) (path : string) (fuel : nat) (s : System)
  : D (option (bool * System)) :=
  scoped (file_constructor path) file_destructor
    (λ fd, lift (file_loop now fuel (file_of fd) s)).

(** The receive thread: the [try] block, until the reader returns no message. *)
Definition recv_block (sys_bind : Z → Z → Z) (sys_inet_pton : string → Z * Z)
    (sys_add_membership : Z → Z * Z → Z) (cfg : Config) (fuel : nat) (evs : list recv_event)
  : D (option (list MessageBuffer * UDPFeedReader)) :=
  scoped (udp_constructor sys_bind sys_inet_pton sys_add_membership
      (cfg_mcast_group cfg) (cfg_mcast_iface cfg) (cfg_mcast_port cfg))
    udp_destructor (λ r, lift (drain fuel r evs)).

End blocks.

(** ** A kernel *)

Definition unused (ds : gset Z) : Z := Z.of_nat (fresh (set_map Z.to_nat ds : gset nat)).

Lemma unused_fresh ds : unused ds ∉ ds.
Proof.
  intros Hin. apply (is_fresh (set_map Z.to_nat ds : gset nat)). apply elem_of_map.
  exists (unused ds). split; [|done]. unfold unused. by rewrite Nat2Z.id.
Qed.

(** A file whose path is empty does not exist. *)
#[export] Program Instance simple_kernel : Kernel := {|
  sys_open ds path := if decide (path = "") then -1 else unused ds;
  sys_socket ds := unused ds |}.
Next Obligation. intros ds path. simpl. case_decide; [lia|]. intros _. apply unused_fresh. Qed.
Next Obligation. intros ds _. apply unused_fresh. Qed.

(** ** Properties *)

Lemma remove_added (fd : Z) (ds : gset Z) : fd ∉ ds → ({[fd]} ∪ ds) ∖ {[fd]} = ds.
Proof. set_solver. Qed.

Section properties.
Context `{Kernel} `{MapOrder} (now : nat → Z).

(** The block of file mode gives back the descriptor on every path. *)
Lemma file_block_balanced {F} `{PosixFile F} (file_of : Z → F) path fuel s ds :
  file_block now file_of path fuel s ds =
    (if sys_open ds path <? 0 then Throw ("FileFeedReader: cannot open file: " +:+ path)
     else file_loop now fuel (file_of (sys_open ds path)) s, ds).
Proof.
  unfold file_block, scoped, file_constructor, open_call, add_descriptor, mbind, D_bind, mret,
    D_ret, lift. cbv beta. pose proof (sys_open_fresh ds path) as Hf.
  destruct (Z.ltb_spec (sys_open ds path) 0) as [Hlt|Hge]; [done|].
  unfold file_destructor. rewrite (proj2 (Z.leb_le _ _)) by done.
  cbn [close snd]. by rewrite remove_added by auto.
Qed.

(** What the constructor of the UDP reader makes of the descriptors: the one it
    opened stays open whether it returns or throws. *)
Lemma udp_constructor_descriptors sys_bind sys_pton sys_join group iface port ds :
  udp_constructor sys_bind sys_pton sys_join group iface port ds =
    (UDPFeedReader_multicast (sys_socket ds) sys_bind sys_pton sys_join group iface port,
     add_descriptor (sys_socket ds) ds).
Proof.
  unfold udp_constructor, UDPFeedReader_multicast, socket_call, lift, mbind, D_bind, mret, D_ret.
  cbv beta. unfold make_udp_socket.
  destruct (sys_socket ds <? 0); [done|]. cbn [outcome_bind].
  destruct (bind_socket _ _ _); [|done..]. cbn [outcome_bind].
  by destruct (join_multicast _ _ _ _ _).
Qed.

Lemma recv_block_descriptors sys_bind sys_pton sys_join cfg fuel evs ds :
  let reader := main_reader (sys_socket ds) sys_bind sys_pton sys_join cfg in
  recv_block sys_bind sys_pton sys_join cfg fuel evs ds =
    (r ← reader; drain fuel r evs,
     match reader with Ret _ => ds | _ => add_descriptor (sys_socket ds) ds end).
Proof.
  intros reader. unfold recv_block, scoped. rewrite udp_constructor_descriptors.
  fold (main_reader (sys_socket ds) sys_bind sys_pton sys_join cfg). fold reader.
  pose proof (reader_constructed (sys_socket ds) sys_bind sys_pton sys_join
    (cfg_mcast_group cfg) (cfg_mcast_iface cfg) (cfg_mcast_port cfg)) as Hc.
  unfold reader, main_reader in *.
  destruct (UDPFeedReader_multicast _ _ _ _ _ _ _) as [r|w|]; [|done..].
  destruct Hc as (-> & Hs & _). unfold lift. cbn [mbind outcome_bind].
  unfold udp_destructor, udp_destroy, mbind, D_bind, mret, D_ret, add_descriptor. cbn [sock reader_on].
  rewrite (proj2 (Z.leb_le _ _)), (proj2 (Z.ltb_ge _ _)) by done. cbn [close snd].
  rewrite remove_added by (by apply sys_socket_fresh). done.
Qed.

End properties.

(** C29: Who closes the descriptors: file mode leaves the open descriptors of the
    process as it found them, whether the file cannot be opened, the loop comes
    to its end or the reader throws.  The receive thread does so exactly when
    the constructor of its reader returns or [socket] fails: when [bind], an
    address or the membership is refused, the new descriptor stays open.  A reader
    that is destroyed again closes nothing. *)
Theorem descriptors_balanced `{Kernel} `{MapOrder} {F} `{PosixFile F} now (file_of : Z → F)
    path ffuel s sys_bind sys_pton sys_join cfg fuel evs ds :
  let reader := main_reader (sys_socket ds) sys_bind sys_pton sys_join cfg in
  let after := (recv_block sys_bind sys_pton sys_join cfg fuel evs ds).2 in
  (file_block now file_of path ffuel s ds).2 = ds ∧
  (after = ds ↔ sys_socket ds < 0 ∨ ∃ r, reader = Ret r) ∧
  (after ≠ ds → after = {[sys_socket ds]} ∪ ds ∧ size after = S (size ds)) ∧
  (∀ r ds r' ds', udp_destroy r ds = (Ret r', ds') → udp_destroy r' ds' = (Ret r', ds')).
Proof.
  intros reader after. split; [by rewrite file_block_balanced|].
  unfold after. rewrite recv_block_descriptors. fold reader. cbn [snd].
  pose proof (sys_socket_fresh ds) as Hf. split; [|split].
  - unfold add_descriptor. destruct reader as [r|w|] eqn:E.
    + split; [eauto|done].
    + destruct (Z.ltb_spec (sys_socket ds) 0); [split; [by left|done]|].
      split; [set_solver|]. intros [?|[r ?]]; [lia|done].
    + by destruct (main_reader_cases (sys_socket ds) sys_bind sys_pton sys_join cfg)
        as [(?&?&_)|[??]]; unfold reader in E; congruence.
  - unfold add_descriptor. destruct reader; [done|..];
      (destruct (Z.ltb_spec (sys_socket ds) 0); [done|]); intros _; (split; [done|]);
      rewrite size_union by set_solver; by rewrite size_singleton.
  - intros r ds0 r' ds'. unfold udp_destroy at 1, mbind, D_bind, mret, D_ret, close.
    destruct (Z.leb_spec 0 (sock r)); intros [= <- <-]; unfold udp_destroy; [done|].
    by rewrite (proj2 (Z.leb_gt _ _)).
Qed.

(** Live mode with the defaults: the name of the interface is no address, and
    the socket stays open. *)
Definition default_config : Config := {|
  cfg_mode := "live"; cfg_itch_file := "data/sample.bin";
  cfg_mcast_group := "233.54.12.111"; cfg_mcast_iface := "eth0"; cfg_mcast_port := 26477;
  cfg_rest_port := 8080; cfg_snapshot_interval := 1000 |}.

Lemma descriptors_balanced_witness :
  size (recv_block (λ _ _, 0) numeric_pton (λ _ _, 0) default_config 1 [] {[0; 1; 2]}).2 = 4%nat.
Proof.
  destruct (descriptors_balanced (λ _, 0) (λ _, sample_file) "data/sample.bin" 9 (start 1000)
    (λ _ _, 0) numeric_pton (λ _ _, 0) default_config 1 [] {[0; 1; 2]}) as (_ & [H1 _] & H2 & _).
  destruct (decide ((recv_block (λ _ _, 0) numeric_pton (λ _ _, 0) default_config 1 []
    {[0; 1; 2]}).2 = {[0; 1; 2]})) as [E|E].
  - exfalso. destruct (H1 E) as [H|[r H]].
    + revert H. apply Z.nlt_ge. vm_compute. congruence.
    + revert H. vm_compute. congruence.
  - destruct (H2 E) as [_ ->]. vm_compute. reflexivity.
Defined.
