(* ===== verification/Server.v ===== *)
(** The server of [src/rest_server.cpp]: its routes, its thread, and its requests
    next to the engine thread.

    The HTTP library matches a path against the patterns of the registered
    routes in their order, and calls the handler of the first that matches:
    [PathMatcher] says what its documentation says of a match.  Its [listen] blocks
    until [stop] is called, and may fail; what else it does is a parameter, [HttpListener]. *)

From S2P Require Import Prelude Messages StdMap OrderBook BookEngine Snapshot RestServer.
From S2P Require Import Main.
From Stdlib Require Import Strings.Ascii.
From Stdlib Require Strings.String.

#[local] Open Scope Z_scope.

(** ** Routes *)

(** A pattern: plain text, or text with one segment for a parameter, as
    ["/book/:symbol/top"], here [Param "/book/" "symbol" "/top"]. *)
Inductive pattern :=
| Static (path : string)
| Param (pre name post : string).

(** Text without a slash. *)
Fixpoint segment (s : string) : bool :=
  match s with
  | "" => true
  | String c s => negb (Ascii.eqb c "/"%char) && segment s
  end.

(** A match yields [path_params].  A slash may follow the path. *)
Class PathMatcher := {
  match_path : pattern → string → option (gmap string string);
  match_static p path : match_path (Static p) path = if decide (path = p) then Some ∅ else None;
  match_param pre name post v :
    segment v = true → post = "" ∨ (∃ r, post = String "/" r) →
    match_path (Param pre name post) (pre +:+ v +:+ post) = Some {[name := v]};
  match_param_inv pre name post path params :
    match_path (Param pre name post) path = Some params →
    ∃ v, segment v = true ∧ params = {[name := v]} ∧
      (path = pre +:+ v +:+ post ∨ path = pre +:+ v +:+ post +:+ "/")
}.

(** A [GET] request: its path, and the parameter [depth] of its query. *)
Record Request := { rq_path : string; rq_depth : option string }.

Section routes.
Context `{MapOrder}.

Definition handler : Type :=
  gmap string string → option string → Z → option SystemSnapshot → outcome response.

(** [req.path_params.at("symbol")] *)
Definition symbol_param (params : gmap string string) : outcome string :=
  match params !! "symbol" with Some s => Ret s | None => Throw "map::at" end.

Definition setup_routes : list (pattern * handler) := [
  (Static "/status", λ _ _ now_ms snap, Ret (status_route now_ms snap));
  (Static "/instruments", λ _ _ _ snap, Ret (instruments_route snap));
  (Param "/book/" "symbol" "", λ params depth _ snap,
    book_handler depth (symbol_param params) snap);
  (Param "/book/" "symbol" "/top", λ params _ _ snap,
    top_handler (symbol_param params) snap)].

Context `{PathMatcher}.

Fixpoint dispatch_to (routes : list (pattern * handler)) (req : Request) (now_ms : Z)
    (snap : option SystemSnapshot) : option (outcome response) :=
  match routes with
  | [] => None
  | (pat, h) :: routes =>
      match match_path pat (rq_path req) with
      | Some params => Some (h params (rq_depth req) now_ms snap)
      | None => dispatch_to routes req now_ms snap
      end
  end.

(** The response of the server; [None] is the library's own 404. *)
Definition dispatch : Request → Z → option SystemSnapshot → option (outcome response) :=
  dispatch_to setup_routes.

End routes.

(** ** A matcher *)

Fixpoint strip_prefix (pre s : string) : option string :=
  match pre, s with
  | "", _ => Some s
  | String a pre, String b s => if Ascii.eqb a b then strip_prefix pre s else None
  | String _ _, "" => None
  end.

(** The segment in front, and what follows it. *)
Fixpoint span_segment (s : string) : string * string :=
  match s with
  | "" => ("", "")
  | String c r =>
      if Ascii.eqb c "/"%char then ("", s)
      else let '(v, post) := span_segment r in (String c v, post)
  end.

Lemma strip_prefix_app pre s : strip_prefix pre (pre +:+ s) = Some s.
Proof. induction pre as [|a pre IH]; [done|]. simpl. by rewrite Ascii.eqb_refl. Qed.

Lemma strip_prefix_spec pre s r : strip_prefix pre s = Some r → s = pre +:+ r.
Proof.
  revert s. induction pre as [|a pre IH]; intros s; simpl; [by intros [= ->]|].
  destruct s as [|b s]; [done|]. destruct (Ascii.eqb_spec a b) as [->|]; [|done].
  intros Hs. by rewrite (IH _ Hs).
Qed.

Lemma span_segment_spec s v post :
  span_segment s = (v, post) → segment v = true ∧ s = v +:+ post.
Proof.
  revert v. induction s as [|c s IH]; intros v; simpl; [by intros [= <- <-]|].
  destruct (Ascii.eqb c "/"%char) eqn:E; [by intros [= <- <-]|].
  destruct (span_segment s) as [v' post'] eqn:Es. intros [= <- <-].
  destruct (IH v' eq_refl) as [Hv ->]. simpl. by rewrite E, Hv.
Qed.

Lemma span_segment_app v post :
  segment v = true → post = "" ∨ (∃ r, post = String "/" r) →
  span_segment (v +:+ post) = (v, post).
Proof.
  induction v as [|c v IH]; simpl.
  - by intros _ [->|[r ->]].
  - intros [Hc Hv]%andb_true_iff Hp. destruct (Ascii.eqb c "/"%char); [done|].
    by rewrite IH.
Qed.

#[local] Obligation Tactic := idtac.

#[export] Program Instance segment_matcher : PathMatcher := {|
  match_path pat path :=
    match pat with
    | Static p => if decide (path = p) then Some ∅ else None
    | Param pre name post =>
        match strip_prefix pre path with
        | Some rest =>
            let '(v, rest) := span_segment rest in
            if decide (rest = post) then Some {[name := v]} else None
        | None => None
        end
    end |}.
Next Obligation. done. Qed.
Next Obligation.
  intros pre name post v Hv Hp. simpl. rewrite strip_prefix_app, span_segment_app by done.
  by rewrite decide_True.
Qed.
Next Obligation.
  intros pre name post path params. simpl.
  destruct (strip_prefix pre path) as [rest|] eqn:Es; [|done].
  destruct (span_segment rest) as [v rest'] eqn:Ev. case_decide as Hd; [|done].
  intros [= <-]. apply strip_prefix_spec in Es as ->. apply span_segment_spec in Ev as [Hv ->].
  exists v. subst. by split; [|split; [|left]].
Qed.

(** ** The thread *)

(** [thread_] of a server: its function is about to call [listen], is in it, or
    has returned; [None] when it is not joinable. *)
Inductive listener := Created | Listening | Returned.
#[export] Instance listener_eq_dec : EqDecision listener.
Proof. solve_decision. Defined.

(** The owner runs, waits in [join] of [stop], or has left [stop]. *)
Inductive owner_phase := Running | Joining | Stopped.
#[export] Instance owner_phase_eq_dec : EqDecision owner_phase.
Proof. solve_decision. Defined.

Record Server := mkServer {
  srv_thread : option listener;
  srv_stop : bool;              (* the library has a request to stop *)
  srv_owner : owner_phase
}.
#[export] Instance Server_eq_dec : EqDecision Server.
Proof. solve_decision. Defined.

Definition RestServer_init : Server := mkServer None false Running.

(** The assignment of a thread to one that is joinable ends the program. *)
Definition start_server (s : Server) : outcome Server :=
  match srv_thread s with
  | None => Ret (mkServer (Some Created) (srv_stop s) (srv_owner s))
  | Some _ => Throw "std::terminate"
  end.

(** What the documentation of the library leaves open: whether a [stop] that comes before
    [listen] has begun is kept, and whether a [listen] that nobody stops may
    return (when [accept] fails). *)
Class HttpListener := { keeps_early_stop : bool; ends_alone : bool }.

Section thread.
Context `{HttpListener}.

(** [server_->stop()]: ends a [listen] that has begun. *)
Definition library_stop (thread : option listener) (stop : bool) : bool :=
  match thread with
  | Some Listening => true
  | Some Created => keeps_early_stop || stop
  | _ => stop
  end.

(** Steps of the thread, and of an owner that calls [stop] (the destructor calls
    it too). *)
Inductive server_step : Server → Server → Prop :=
| listen_begins owner : server_step (mkServer (Some Created) false owner)
    (mkServer (Some Listening) false owner)
| listen_refused stop owner :    (* the port is taken, or a stop came first *)
    server_step (mkServer (Some Created) stop owner) (mkServer (Some Returned) stop owner)
| listen_ends owner : server_step (mkServer (Some Listening) true owner)
    (mkServer (Some Returned) true owner)
| listen_fails stop owner : ends_alone = true →
    server_step (mkServer (Some Listening) stop owner) (mkServer (Some Returned) stop owner)
| stop_called thread stop : server_step (mkServer thread stop Running)
    (mkServer thread (library_stop thread stop) Joining)
| join_returns stop : server_step (mkServer (Some Returned) stop Joining)
    (mkServer None stop Stopped)
| not_joinable stop : server_step (mkServer None stop Joining) (mkServer None stop Stopped).

End thread.

(** ** Requests next to the engine *)

Record Answer := { an_request : Request; an_time : Z; an_response : option (outcome response) }.

Record Rest := mkRest { rest_served : Served; rest_log : list Answer }.

Section requests.
Context `{MapOrder} `{PathMatcher} (now : nat → Z) (final : Z).

(** A step of the engine thread, or a request answered from what [current]
    returns at that moment. *)
Inductive rest_step : Rest → Rest → Prop :=
| rest_engine s s' log :
    serve_step now final s s' → sv_seen s' = sv_seen s →
    rest_step (mkRest s log) (mkRest s' log)
| rest_request todo e p point seen log req now_ms :
    let snap := current {| sys_engine := e; sys_published := p |} in
    rest_step (mkRest (mkServed todo e p point seen) log)
      (mkRest (mkServed todo e p point (seen ++ [snap]))
        (log ++ [{| an_request := req; an_time := now_ms;
                    an_response := dispatch req now_ms snap |}])).

Definition rest_start (k : Z) (msgs : list ParsedMessage) : Rest :=
  mkRest (serve_start k msgs) [].

End requests.
