(* ===== verification/ServerTheorems.v ===== *)
(** What the server promises: which handler answers a path, when [stop] returns,
    and that every response shows one moment of the feed. *)

From S2P Require Import Prelude ByteOrder Messages Parser WireFormat FeedReader.
From S2P Require Import StdMap OrderBook BookEngine EngineLevels EngineInvariant EngineProperties.
From S2P Require Import Snapshot SnapshotTheorems RestServer RestTheorems Pipeline PipelineTheorems.
From S2P Require Import Main MainTheorems Server.
From Stdlib Require Import Strings.Ascii.
From Stdlib Require Strings.String.

#[local] Open Scope Z_scope.

(** ** Paths *)

Lemma segment_app s t : segment (s +:+ t) = segment s && segment t.
Proof. induction s as [|c s IH]; [done|]. simpl. by rewrite IH, andb_assoc. Qed.

Lemma append_cons c s t : String c s +:+ t = String c (s +:+ t).
Proof. done. Qed.

Lemma string_app_assoc s t u : (s +:+ t) +:+ u = s +:+ t +:+ u.
Proof. induction s as [|c s IH]; [done|]. by rewrite !append_cons, IH. Qed.

(** The text of a pattern's path has one segment for the parameter. *)
Lemma book_prefix_inj s t : "/book/" +:+ s = "/book/" +:+ t → s = t.
Proof. rewrite !append_cons. by intros [= E]. Qed.

Lemma append_last_inj s t c d : s +:+ String c "" = t +:+ String d "" → c = d.
Proof.
  revert t. induction s as [|a s IH]; intros [|b t]; rewrite ?append_cons; intros E.
  - by injection E.
  - injection E as _ E. by destruct t.
  - injection E as _ E. by destruct s.
  - injection E as _ E. by eapply IH.
Qed.

Section routes.
Context `{MapOrder} `{PathMatcher}.

Lemma param_misses pre name post path :
  (∀ v, segment v = true → path ≠ pre +:+ v +:+ post ∧ path ≠ pre +:+ v +:+ post +:+ "/") →
  match_path (Param pre name post) path = None.
Proof.
  intros Hno. destruct (match_path _ path) as [params|] eqn:E; [exfalso|done].
  apply match_param_inv in E as (v & Hv & _ & [E|E]); by destruct (Hno v Hv).
Qed.

(** The route of a book does not take the path of its top. *)
Lemma book_misses_top s : match_path (Param "/book/" "symbol" "") ("/book/" +:+ s +:+ "/top") = None.
Proof.
  apply param_misses. intros v Hv. split; intros E; apply book_prefix_inj in E.
  - apply (f_equal segment) in E. rewrite !segment_app in E. simpl in E.
    rewrite Hv, andb_false_r in E. done.
  - assert ((s +:+ "/to") +:+ String "p" "" = v +:+ String "/" "") as E'.
    { rewrite string_app_assoc. exact E. }
    by apply append_last_inj in E'.
Qed.

(** The paths that have a handler. *)
Definition routed (path : string) : Prop :=
  path = "/status" ∨ path = "/instruments" ∨
  ∃ s, segment s = true ∧
    (path = "/book/" +:+ s ∨ path = "/book/" +:+ s +:+ "/" ∨
     path = "/book/" +:+ s +:+ "/top" ∨ path = "/book/" +:+ s +:+ "/top/").

Lemma string_app_nil s : s +:+ "" = s.
Proof. induction s as [|c s IH]; [done|]. by rewrite append_cons, IH. Qed.

Lemma dispatch_routed req now_ms snap :
  dispatch req now_ms snap = None ∨ routed (rq_path req).
Proof.
  unfold dispatch, setup_routes. cbn [dispatch_to]. rewrite !match_static.
  destruct (decide (rq_path req = "/status")) as [E|_]; [right; by left|].
  destruct (decide (rq_path req = "/instruments")) as [E|_]; [right; right; by left|].
  destruct (match_path _ (rq_path req)) as [params|] eqn:E.
  { apply match_param_inv in E as (v & Hv & _ & E). rewrite string_app_nil in E. right. right.
    right. exists v. split; [done|]. destruct E as [E|E]; auto. }
  clear E. destruct (match_path _ (rq_path req)) as [params|] eqn:E; [|by left].
  apply match_param_inv in E as (v & Hv & _ & E). right. right. right. exists v.
  split; [done|]. destruct E as [E|E]; auto.
Qed.

(** The path of a book. *)
Lemma dispatch_book depth v now_ms snap :
  segment v = true →
  dispatch {| rq_path := "/book/" +:+ v; rq_depth := depth |} now_ms snap =
    Some (book_route depth v snap).
Proof.
  intros Hv. unfold dispatch, setup_routes. cbn [dispatch_to rq_path rq_depth].
  rewrite !match_static, !decide_False by done.
  pose proof (match_param "/book/" "symbol" "" v Hv (or_introl eq_refl)) as E.
  rewrite string_app_nil in E. rewrite E. unfold symbol_param. by rewrite lookup_singleton_eq.
Qed.

End routes.

(** ** The thread *)

Section thread.
Context `{HttpListener}.

(** Where the shutdown hangs: the stop came before [listen] and was dropped, and
    the owner waits for a thread that nobody stops any more. *)
Definition hangs (s : Server) : Prop := s = mkServer (Some Listening) false Joining.

(** What a started server can come to. *)
Definition server_ok (s : Server) : Prop :=
  match srv_owner s with
  | Running => srv_thread s ≠ None ∧ srv_stop s = false
  | Joining => srv_thread s ≠ None ∧
      (srv_stop s = false → srv_thread s ≠ Some Returned → keeps_early_stop = false)
  | Stopped => srv_thread s = None
  end.

Lemma server_ok_step s s' : server_step s s' → server_ok s → server_ok s'.
Proof.
  unfold server_ok. destruct 1 as [owner|stop owner|owner|stop owner Hal|thread stop|stop|stop];
    simpl; try done;
    try (by destruct owner; naive_solver).
  intros [Ht ->]. split; [done|]. unfold library_stop. by destruct thread as [[]|], keeps_early_stop.
Qed.

Lemma server_ok_reachable s :
  rtc server_step (mkServer (Some Created) false Running) s → server_ok s.
Proof.
  intros Hr. remember (mkServer (Some Created) false Running) as s0 eqn:E0.
  assert (server_ok s0) as H0 by (by subst s0). clear E0.
  induction Hr as [s|s1 s2 s3 Hs Hr IH]; [done|]. apply IH. by eapply server_ok_step.
Qed.

(** Steps still to come, at most. *)
Definition steps_left (s : Server) : nat :=
  match srv_thread s with
  | Some Created => 2 | Some Listening => 1 | _ => 0
  end + match srv_owner s with Running => 2 | Joining => 1 | Stopped => 0 end.

Lemma steps_left_decrease s s' : server_step s s' → (steps_left s' < steps_left s)%nat.
Proof. destruct 1; unfold steps_left; simpl; destruct_and?; try destruct owner; lia. Qed.

Lemma server_progress s :
  server_ok s → srv_owner s ≠ Stopped → ¬ hangs s → ∃ s', server_step s s'.
Proof.
  intros Hok Ho Hh. destruct s as [thread stop []]; [| |done]; unfold server_ok in Hok; simpl in Hok.
  - eexists. apply stop_called.
  - destruct Hok as [Ht _]. destruct thread as [[]|]; [| | |done].
    + eexists. apply listen_refused.
    + destruct stop; [|by destruct Hh]. eexists. apply listen_ends.
    + eexists. apply join_returns.
Qed.

Lemma steps_bounded n s s' : nsteps server_step n s s' → (n + steps_left s' ≤ steps_left s)%nat.
Proof.
  induction 1 as [|n s1 s2 s3 Hs Hr IH]; [done|]. apply steps_left_decrease in Hs. lia.
Qed.

#[local] Instance hangs_dec s : Decision (hangs s).
Proof. unfold hangs. apply _. Defined.

Lemma hangs_step s s' : hangs s → server_step s s' → ends_alone = true ∧ srv_thread s' = Some Returned.
Proof. intros -> Hs. by inversion Hs. Qed.

(** The hang can be reached when the library drops the stop, and only then. *)
Lemma hangs_reachable :
  (∃ s, rtc server_step (mkServer (Some Created) false Running) s ∧ hangs s) ↔
  keeps_early_stop = false.
Proof.
  split.
  - intros (s & Hr & ->). apply server_ok_reachable in Hr. by apply Hr.
  - intros Hk. eexists. split; [|reflexivity].
    eapply rtc_l; [apply stop_called|]. simpl. rewrite Hk. apply rtc_once, listen_begins.
Qed.

End thread.

(** ** Requests *)

Section requests.
Context `{MapOrder} `{PathMatcher} (now : nat → Z) (final : Z).

(** The log of the requests is what they saw, dispatched. *)
Definition log_ok (r : Rest) : Prop :=
  Forall2 (λ a p, an_response a = dispatch (an_request a) (an_time a) p)
    (rest_log r) (sv_seen (rest_served r)).

Lemma rest_step_ok r r' :
  rest_step now final r r' → log_ok r →
  log_ok r' ∧ serve_step now final (rest_served r) (rest_served r').
Proof.
  destruct 1 as [s s' log Hs Hseen|todo e p point seen log req now_ms snap]; unfold log_ok; simpl;
    intros Hlog.
  - rewrite Hseen. done.
  - split; [|apply serve_read]. apply Forall2_app; [done|]. by repeat constructor.
Qed.

Lemma rest_reachable k msgs r :
  rtc (rest_step now final) (rest_start k msgs) r →
  log_ok r ∧ rtc (serve_step now final) (serve_start k msgs) (rest_served r).
Proof.
  intros Hr. assert (∀ r0, rtc (rest_step now final) r0 r → log_ok r0 →
    log_ok r ∧ rtc (serve_step now final) (rest_served r0) (rest_served r)) as Hind.
  { clear Hr. intros r0 Hr. induction Hr as [r1|r1 r2 r3 Hs Hr IH]; intros Hlog; [done|].
    destruct (rest_step_ok _ _ Hs Hlog) as [Hlog2 Hs2]. destruct (IH Hlog2) as [Hlog3 Hr3].
    split; [done|]. by eapply rtc_l. }
  apply (Hind _ Hr). constructor.
Qed.

End requests.

Lemma version_built `{MapOrder} now final k msgs v :
  version now final k msgs v = None ∨
  ∃ t st, version now final k msgs v = Some (build_snapshot t st).
Proof.
  unfold version, published_after. repeat case_decide; [by left|right; eauto..].
Qed.

(** The book route ends in a response on any snapshot that was built. *)
Lemma book_route_returns `{MapOrder} depth symbol snap :
  (snap = None ∨ ∃ t st, snap = Some (build_snapshot t st)) →
  ∃ r, book_route depth symbol snap = Ret r.
Proof.
  intros [->|(t & st & ->)]; [by eexists|]. unfold book_route, book_handler.
  cbn [mbind outcome_bind].
  destruct (depth_of depth) as [msg|d]; [by eexists|].
  pose proof (find_book_total t st symbol) as Hf.
  destruct (ss_symbol_index _ !! _) as [sym|].
  - destruct Hf as (loc & info & book & _ & _ & _ & _ & ->). by eexists.
  - rewrite Hf. by eexists.
Qed.

(** ** Properties *)

(** C39: The routes: the four paths reach their handlers with the symbol of the
    path, whatever the order of registration suggests ([/book/:symbol] comes
    first and does not take [/book/:symbol/top]), and no other path reaches
    one, a trailing slash aside. *)
Theorem routes_dispatch `{MapOrder} `{PathMatcher} depth now_ms snap :
  let get path := dispatch {| rq_path := path; rq_depth := depth |} now_ms snap in
  get "/status" = Some (Ret (status_route now_ms snap)) ∧
  get "/instruments" = Some (Ret (instruments_route snap)) ∧
  (∀ s, segment s = true →
    get ("/book/" +:+ s) = Some (book_route depth s snap) ∧
    get ("/book/" +:+ s +:+ "/top") = Some (top_route s snap)) ∧
  (∀ path, get path = None ∨ routed path).
Proof.
  intros get. unfold get. split; [|split; [|split]].
  - unfold dispatch, setup_routes. cbn [dispatch_to rq_path]. by rewrite match_static.
  - unfold dispatch, setup_routes. cbn [dispatch_to rq_path]. by rewrite !match_static.
  - intros s Hs. split; [by apply dispatch_book|].
    unfold dispatch, setup_routes. cbn [dispatch_to rq_path rq_depth].
    rewrite !match_static, !decide_False by done. rewrite book_misses_top.
    rewrite match_param by (done || (right; by eexists)). unfold symbol_param.
    by rewrite lookup_singleton_eq.
  - intros path. apply (dispatch_routed {| rq_path := path; rq_depth := depth |}).
Qed.

Lemma routes_dispatch_witness :
  dispatch {| rq_path := "/book/AAPL/top"; rq_depth := None |} 0 None = Some (top_route "AAPL" None).
Proof.
  destruct (routes_dispatch None 0 None) as (_ & _ & H & _).
  exact (proj2 (H "AAPL" eq_refl)).
Defined.

(** C40: When the shutdown hangs: a started server cannot be started again; it takes
    at most four more steps, and as long as its owner has not left [stop] there
    is a step, but for one state: the owner joins a listening thread that nobody stops.
    That state can be reached exactly when
    the library drops a [stop] that comes before [listen]; the one step from it is that [listen]
    fails, so that the program is stuck there when the library never lets it return unasked. *)
Theorem shutdown_hangs `{HttpListener} :
  ∃ s0, start_server RestServer_init = Ret s0 ∧ start_server s0 = Throw "std::terminate" ∧
    (∀ n s, nsteps server_step n s0 s → (n ≤ 4)%nat ∧
      (srv_owner s = Stopped ∨ hangs s ∨ ∃ s', server_step s s')) ∧
    (∀ s s', hangs s → server_step s s' → ends_alone = true ∧ srv_thread s' = Some Returned) ∧
    ((∃ s, rtc server_step s0 s ∧ hangs s) ↔ keeps_early_stop = false) ∧
    ((∃ s, rtc server_step s0 s ∧ srv_owner s ≠ Stopped ∧ ∀ s', ¬ server_step s s') ↔
      keeps_early_stop = false ∧ ends_alone = false).
Proof.
  exists (mkServer (Some Created) false Running). split; [done|]. split; [done|].
  split; [intros n s Hr; split|split; [apply hangs_step|split; [apply hangs_reachable|]]].
  - apply steps_bounded in Hr. change (steps_left (mkServer _ _ _)) with 4%nat in Hr. lia.
  - apply rtc_nsteps_2, server_ok_reachable in Hr.
    destruct (decide (srv_owner s = Stopped)) as [Ho|Ho]; [by left|right].
    destruct (decide (hangs s)) as [Hh|Hh]; [by left|right]. by apply server_progress.
  - split.
    + intros (s & Hr & Ho & Hno). assert (hangs s) as Hh.
      { destruct (decide (hangs s)) as [Hh|Hh]; [done|]. apply server_ok_reachable in Hr.
        destruct (server_progress s Hr Ho Hh) as [s' Hs]. by destruct (Hno s'). }
      split; [apply hangs_reachable; by exists s|]. rewrite Hh in Hno.
      destruct ends_alone eqn:E; [|done]. exfalso. by eapply Hno, listen_fails.
    + intros [Hk Ha]. apply hangs_reachable in Hk as (s & Hr & Hh). exists s. split; [done|].
      split; [by rewrite Hh|]. intros s' Hs. apply hangs_step in Hs as [Hs _]; [congruence|done].
Qed.

(** A library that drops the stop leaves the owner stuck, one that keeps it does not. *)
Lemma shutdown_hangs_witness :
  let stuck (lib : HttpListener) := ∃ s0 s, start_server RestServer_init = Ret s0 ∧
    rtc server_step s0 s ∧ srv_owner s ≠ Stopped ∧ ∀ s', ¬ server_step s s' in
  stuck {| keeps_early_stop := false; ends_alone := false |} ∧
  ¬ stuck {| keeps_early_stop := true; ends_alone := false |}.
Proof.
  intros stuck. split.
  - destruct (@shutdown_hangs {| keeps_early_stop := false; ends_alone := false |})
      as (s0 & E & _ & _ & _ & _ & Hs). destruct (proj2 Hs) as (s & Hr & Ho & Hn); [by split|].
    exists s0, s. by split.
  - intros (s1 & s & E1 & Hr & Ho & Hn).
    destruct (@shutdown_hangs {| keeps_early_stop := true; ends_alone := false |})
      as (s0 & E & _ & _ & _ & _ & Hs). rewrite E in E1. injection E1 as <-.
    destruct (proj1 Hs) as [Hk _]; [by exists s|discriminate].
Defined.

(** Every response shows one moment of the feed: in every interleaving of the
    engine thread with requests, each response is that of the route on the
    snapshot of a version of the feed, or of none before the first; the
    versions never go back from a request to a later one; and no request for a
    book ends in an exception. *)
Theorem answers_show_feed `{MapOrder} `{PathMatcher} now final k msgs r :
  0 < k → Z.of_nat (length msgs) < 2 ^ 64 → rtc (rest_step now final) (rest_start k msgs) r →
  (∃ vs, StronglySorted le vs ∧ Forall (λ v, v ≤ S (length msgs))%nat vs ∧
    Forall2 (λ a v, an_response a =
      dispatch (an_request a) (an_time a) (version now final k msgs v)) (rest_log r) vs) ∧
  Forall (λ a, ∀ s, segment s = true → rq_path (an_request a) = "/book/" +:+ s →
    ∃ resp, an_response a = Some (Ret resp)) (rest_log r).
Proof.
  intros Hk Hlen Hr. destruct (rest_reachable now final k msgs r Hr) as [Hlog Hs].
  destruct (serve_inv_reachable now final k Hk msgs Hlen _ Hs) as (n & v & Hi).
  destruct (serve_inv_versions _ _ _ _ _ _ _ Hi) as [Hv _].
  pose proof (si_seen _ _ _ _ _ _ _ Hi) as (vs & Hvs & Hsort & Hle).
  assert (Forall2 (λ a v, an_response a =
    dispatch (an_request a) (an_time a) (version now final k msgs v)) (rest_log r) vs) as Ha.
  { clear -Hlog Hvs. unfold log_ok in Hlog. revert vs Hvs.
    induction Hlog as [|a p log seen Ha _ IH]; intros vs Hvs; inversion Hvs; subst; constructor.
    - done.
    - by apply IH. }
  split.
  - exists vs. split; [done|]. split; [|done]. eapply Forall_impl; [exact Hle|]. simpl. lia.
  - clear -Ha. induction Ha as [|a v' log vs E _ IH]; constructor; [|done]. intros s Hs Hp.
    destruct (an_request a) as [path depth]. cbn [rq_path] in Hp. subst path.
    rewrite E, dispatch_book by done.
    destruct (book_route_returns depth s _ (version_built now final k msgs v')) as [resp ->].
    by exists resp.
Qed.

Lemma answers_show_feed_witness :
  ∃ r, rtc (rest_step (λ _, 0) 9) (rest_start 1 one_message) r ∧ length (rest_log r) = 2%nat ∧
    Forall (λ a, ∃ resp, an_response a = Some (Ret resp)) (rest_log r).
Proof.
  eexists. match goal with |- ?R ∧ _ => assert R as Hr end.
  - eapply rtc_l; [apply (rest_request (λ _, 0) 9 _ _ _ _ _ _
      {| rq_path := "/book/AAPL"; rq_depth := None |} 7)|].
    eapply rtc_l; [apply rest_engine; [apply serve_handle|reflexivity]|].
    eapply rtc_l; [apply rest_engine; [apply serve_publish; reflexivity|reflexivity]|].
    eapply rtc_l; [apply (rest_request (λ _, 0) 9 _ _ _ _ _ _
      {| rq_path := "/book/AAPL"; rq_depth := None |} 8)|]. apply rtc_refl.
  - split; [exact Hr|]. split; [reflexivity|].
    destruct (answers_show_feed (λ _, 0) 9 1 one_message _ ltac:(lia) ltac:(done) Hr) as [_ H].
    cbn [rest_log app] in *. apply Forall_cons in H as [H1 H]. apply Forall_cons in H as [H2 _].
    repeat constructor; [by apply (H1 "AAPL")|by apply (H2 "AAPL")].
Defined.
