(* ===== verification/Reply.v ===== *)
(** What a handler of [src/rest_server.cpp] sends: [j.dump()] and
    [res.set_content], and the HTTP library's reply to an exception.

    A JSON string is UTF-8 text: the documentation of the JSON library says that
    [dump] throws when a string is not ([JsonPrinter]).  The characters of a
    feed and of a request are bytes, which nothing checks.  A handler that ends in an
    exception is answered by the HTTP library with status 500. *)

From S2P Require Import Prelude Messages StdMap OrderBook BookEngine Snapshot RestServer Server.
From Stdlib Require Import Strings.Ascii.
From Stdlib Require Strings.String.

#[local] Open Scope Z_scope.

(** ** UTF-8 *)

Definition codes (s : string) : list Z :=
  (λ c, Z.of_nat (Ascii.nat_of_ascii c)) <$> Strings.String.list_ascii_of_string s.

Definition within (lo hi b : Z) : bool := (lo <=? b) && (b <=? hi).

Definition continuation : Z → bool := within 128 191.

(** The second byte of a sequence of three, or of four, that [a] begins: no
    overlong encodings, no surrogates, nothing above U+10FFFF. *)
Definition second_of_3 (a b : Z) : bool :=
  (a =? 224) && within 160 191 b ||
  (within 225 236 a || within 238 239 a) && continuation b ||
  (a =? 237) && within 128 159 b.

Definition second_of_4 (a b : Z) : bool :=
  (a =? 240) && within 144 191 b || within 241 243 a && continuation b ||
  (a =? 244) && within 128 143 b.

(** Well-formed UTF-8 (table 3-7 of the Unicode Standard). *)
Fixpoint utf8 (l : list Z) : bool :=
  match l with
  | [] => true
  | a :: l =>
      if a <? 128 then utf8 l
      else
        match l with
        | [] => false
        | b :: l =>
            if within 194 223 a then continuation b && utf8 l
            else
              match l with
              | [] => false
              | c :: l =>
                  if second_of_3 a b then continuation c && utf8 l
                  else
                    match l with
                    | [] => false
                    | d :: l => second_of_4 a b && continuation c && continuation d && utf8 l
                    end
              end
        end
  end.

Definition text (s : string) : bool := utf8 (codes s).

(** The strings of a JSON value, keys of objects included, are text. *)
Fixpoint printable (j : json) : bool :=
  match j with
  | JString s => text s
  | JArray l => forallb printable l
  | JObject l => forallb (λ kv, text kv.1 && printable kv.2) l
  | _ => true
  end.

(** ** [dump] and the reply *)

Class JsonPrinter := {
  dump : json → outcome string;
  dump_printable j : printable j = true → ∃ s, dump j = Ret s;
  dump_unprintable j : printable j = false → ∃ w, dump j = Throw w
}.

Record reply := { reply_status : Z; reply_body : string }.

Section reply.
Context `{JsonPrinter}.

(** [res.set_content(j.dump(), "application/json")] *)
Definition set_content (r : response) : outcome reply :=
  s ← dump (body r); Ret {| reply_status := status r; reply_body := s |}.

(** The library's [catch] around a handler. *)
Definition answer (handler : outcome response) : outcome reply :=
  match r ← handler; set_content r with
  | Throw _ => Ret {| reply_status := 500; reply_body := "" |}
  | r => r
  end.

(** The reply of the server to a request; a path without a route is the
    library's 404. *)
Definition serve `{MapOrder} `{PathMatcher} (req : Request) (now_ms : Z)
    (snap : option SystemSnapshot) : outcome reply :=
  match dispatch req now_ms snap with
  | Some r => answer r
  | None => Ret {| reply_status := 404; reply_body := "" |}
  end.

End reply.

(** ** A printer *)

#[export] Program Instance constant_printer : JsonPrinter := {|
  dump j := if printable j then Ret "{}" else Throw "type_error.316" |}.
Next Obligation. intros j Hj. simpl. rewrite Hj. by eexists. Qed.
Next Obligation. intros j Hj. simpl. rewrite Hj. by eexists. Qed.

(** ** Text *)

Lemma codes_cons c s : codes (String c s) = Z.of_nat (Ascii.nat_of_ascii c) :: codes s.
Proof. done. Qed.

(** Characters below 128 in front change nothing. *)
Lemma utf8_ascii_app l l' : Forall (λ c, c < 128) l → utf8 (l ++ l') = utf8 l'.
Proof.
  induction 1 as [|c l Hc _ IH]; [done|]. cbn [app utf8].
  by rewrite (proj2 (Z.ltb_lt c 128)).
Qed.

Lemma codes_app s t : codes (s +:+ t) = codes s ++ codes t.
Proof.
  induction s as [|c s IH]; [done|].
  change (String c s +:+ t) with (String c (s +:+ t)). by rewrite !codes_cons, IH.
Qed.

(** Plain ASCII. *)
Definition ascii_only (s : string) : Prop := Forall (λ c, c < 128) (codes s).

Lemma text_app s t : ascii_only s → text (s +:+ t) = text t.
Proof. intros Hs. unfold text. by rewrite codes_app, utf8_ascii_app. Qed.

Lemma text_ascii s : ascii_only s → text s = true.
Proof. intros Hs. unfold text. rewrite <- (app_nil_r (codes s)). by rewrite utf8_ascii_app. Qed.

Definition char_text (c : ascii) : bool := Z.of_nat (Ascii.nat_of_ascii c) <? 128.

Lemma text_of_char c : text (string_of_char c) = char_text c.
Proof.
  unfold text, char_text, string_of_char. rewrite codes_cons. cbn [codes utf8].
  by destruct (_ <? 128).
Qed.
