(* ===== verification/Service.v ===== *)
(** Requests that are served at the same time, next to the thread that feeds the
    engine: the pool of threads on which the HTTP library runs the handlers that
    [src/rest_server.cpp] registers.

    A handler loads the publisher's snapshot once, at its start, and computes its
    reply from it while the engine goes on and other handlers run.  What the
    handlers need of the engine's side is an interface, [Feed]: its steps, and what
    the publisher holds.  [Versioned] is what it promises: the snapshots that the
    publisher ever holds are the versions of a sequence, and go forward in it. *)

From S2P Require Import Prelude ByteOrder Messages Parser StdMap OrderBook BookEngine Snapshot.
From S2P Require Import RestServer Pipeline UdpFeedReader LiveMode Main Server Reply.

#[local] Open Scope Z_scope.

(** ** The interface *)

Class Feed (S : Type) := {
  feed_init : S;
  feed_step : S → S → Prop;
  shown : S → option SystemSnapshot
}.

Class Versioned (S : Type) `{Feed S} := {
  versions : nat → option SystemSnapshot;
  at_version : S → nat → Prop;
  feed_init_version : at_version feed_init 0;
  feed_step_version s s' v :
    at_version s v → feed_step s s' → ∃ v', (v ≤ v')%nat ∧ at_version s' v';
  feed_shown s v : at_version s v → shown s = versions v
}.

(** The engine thread of file mode. *)
Definition file_feed `{MapOrder} (now : nat → Z) (final k : Z) (msgs : list ParsedMessage)
  : Feed Served := {|
  feed_init := serve_start k msgs;
  feed_step s s' := serve_step now final s s' ∧ sv_seen s' = sv_seen s;
  shown := sv_published |}.

(** The threads of live mode. *)
Definition live_feed `{MapOrder} (now : nat → Z) {Q} `{ConcurrentQueue Q}
    (reader : outcome UDPFeedReader) (evs : list recv_event) (k : Z) : Feed (LiveMode Q) := {|
  feed_init := live_mode_start evs (start k);
  feed_step := live_mode_step now reader;
  shown s := current (live_system (live_loops s)) |}.

(** ** The handlers *)

(** A thread of the pool has a request, or has loaded the snapshot for it. *)
Inductive handler_state :=
| Accepted (req : Request)
| Loaded (req : Request) (snap : option SystemSnapshot).

Definition request_of (h : handler_state) : Request :=
  match h with Accepted req | Loaded req _ => req end.

(** Requests are numbered as they come in. *)
Inductive event :=
| Invoked (id : nat) (req : Request)
| Answered (id : nat) (req : Request) (r : outcome reply).

(** What came in and went out, each with what the publisher held at that moment. *)
Definition History : Type := list (option SystemSnapshot * event).

Record Service (S : Type) := mkService {
  the_feed : S;
  handlers : gmap nat handler_state;
  accepted : nat;
  history : History
}.
Arguments mkService {S} the_feed handlers accepted history.
Arguments the_feed {S} s.
Arguments handlers {S} s.
Arguments accepted {S} s.
Arguments history {S} s.

Section service.
Context {S : Type} `{Feed S} `{MapOrder} `{PathMatcher} `{JsonPrinter}.

(** A step of the engine's side, or of one handler.  The clock of [/status] is read
    after the snapshot is loaded: [now_ms] is any time. *)
Inductive service_step : Service S → Service S → Prop :=
| service_feed f f' hs n h :
    feed_step f f' → service_step (mkService f hs n h) (mkService f' hs n h)
| service_accept f hs n h req :
    service_step (mkService f hs n h)
      (mkService f (<[n := Accepted req]> hs) (Datatypes.S n) (h ++ [(shown f, Invoked n req)]))
| service_load f hs n h id req :
    hs !! id = Some (Accepted req) →
    service_step (mkService f hs n h) (mkService f (<[id := Loaded req (shown f)]> hs) n h)
| service_answer f hs n h id req snap now_ms :
    hs !! id = Some (Loaded req snap) →
    service_step (mkService f hs n h)
      (mkService f (delete id hs) n
        (h ++ [(shown f, Answered id req (serve req now_ms snap))])).

Definition service_start : Service S := mkService feed_init ∅ 0 [].

End service.

(** The numbers of the requests that were answered. *)
Definition answered_ids (h : History) : list nat :=
  omap (λ e, match e.2 with Answered id _ _ => Some id | Invoked _ _ => None end) h.
