(* ===== verification/ReplyTheorems.v ===== *)
(** The status of every reply, the bytes of symbols and states included: what one
    instrument with a byte that is no text does to the routes. *)

From S2P Require Import Prelude Messages StdMap OrderBook BookEngine EngineLevels Double.
From S2P Require Import Snapshot SnapshotTheorems RestServer RestTheorems Server Reply.
From Stdlib Require Import Strings.Ascii.
From Stdlib Require Strings.String.

#[local] Open Scope Z_scope.

(** ** What is printable *)

(** An instrument's strings in a book, and in the list of instruments. *)
Definition book_text (info : InstrumentInfo) : bool :=
  text (ii_symbol info) && char_text (ii_trading_state info).
Definition entry_text (info : InstrumentInfo) : bool :=
  book_text info && char_text (ii_market_category info).

Lemma forallb_fmap {A} (f : A → json) (l : list A) :
  (∀ a, printable (f a) = true) → forallb printable (f <$> l) = true.
Proof. intros Hf. induction l as [|a l IH]; [done|]. simpl. by rewrite Hf. Qed.

Lemma timestamp_printable ts : printable (timestamp_json ts) = true.
Proof. unfold timestamp_json. by destruct (0 <? ts). Qed.

Lemma book_printable d book :
  printable (book_json_ref d book) =
    text (obs_symbol book) && char_text (obs_trading_state book).
Proof.
  unfold book_json_ref. cbn [printable forallb fst snd].
  change (list_fmap _ _ level_json) with (fmap (M := list) level_json).
  rewrite timestamp_printable, !forallb_fmap by done. rewrite text_of_char.
  change (text "symbol") with true. change (text "trading_state") with true.
  by rewrite !andb_true_r.
Qed.

Lemma description_text c : text (trading_state_description c) = true.
Proof.
  unfold trading_state_description.
  by repeat match goal with |- context [match ?x with _ => _ end] => destruct x end.
Qed.

Lemma instrument_printable book :
  printable (instrument_json book) =
    text (obs_symbol book) && char_text (obs_trading_state book) &&
    char_text (obs_market_category book).
Proof.
  assert (printable (if Ascii.eqb (obs_market_category book) zero then JNull
    else JString (string_of_char (obs_market_category book))) =
    char_text (obs_market_category book)) as Hm.
  { destruct (Ascii.eqb_spec (obs_market_category book) zero) as [->|]; [done|].
    apply text_of_char. }
  assert (printable (if obs_round_lot_size book =? 0 then JNull
    else JInt (obs_round_lot_size book)) = true) as Hr by (by destruct (_ =? 0)).
  unfold instrument_json. cbn [printable forallb fst snd] in *.
  rewrite Hm, Hr, text_of_char, description_text.
  change (text "symbol") with true. change (text "stock_locate") with true.
  change (text "trading_state") with true. change (text "trading_state_description") with true.
  change (text "market_category") with true. change (text "round_lot_size") with true.
  by rewrite !andb_true_l, !andb_true_r, andb_assoc.
Qed.

Lemma best_printable o : printable (best_json o) = true.
Proof. by destruct o. Qed.

Lemma spread_printable bid ask c j : spread_of bid ask = Ret (c, j) → printable j = true.
Proof.
  unfold spread_of. destruct bid as [b|], ask as [a|]; try (by intros [= <- <-]).
  destruct (ticks_of (pls_price a)) as [x| |]; [|done..]. cbn [mbind outcome_bind].
  destruct (ticks_of (pls_price b)) as [y| |]; [|done..]. cbn [mbind outcome_bind].
  destruct (int32_sub x y); [|done..]. cbn [mbind outcome_bind]. by intros [= <- <-].
Qed.

Lemma top_printable book j :
  top_json book = Ret j →
  printable j = text (obs_symbol book) && char_text (obs_trading_state book).
Proof.
  unfold top_json. destruct (spread_of _ _) as [[c sp]| |] eqn:E; [|done..].
  apply spread_printable in E. cbn [mbind outcome_bind]. intros [= <-].
  cbn [printable forallb fst snd]. rewrite timestamp_printable, !best_printable, E, text_of_char.
  change (text "symbol") with true. change (text "trading_state") with true.
  by rewrite !andb_true_r.
Qed.

Lemma top_json_throws book w : top_json book ≠ Throw w.
Proof.
  assert (∀ p w, ticks_of p ≠ Throw w) as Ht by (intros p w'; unfold ticks_of, int32_of_double;
    by repeat case_match).
  unfold top_json, spread_of.
  destruct (head (obs_bids book)) as [b|], (head (obs_asks book)) as [a|]; try done.
  destruct (ticks_of (pls_price a)) as [x|w'|] eqn:Ea; [|by destruct (Ht _ _ Ea)|done].
  cbn [mbind outcome_bind].
  destruct (ticks_of (pls_price b)) as [y|w'|] eqn:Eb; [|by destruct (Ht _ _ Eb)|done].
  cbn [mbind outcome_bind]. unfold int32_sub. by destruct (_ && _).
Qed.

Lemma error_printable code pre s : ascii_only pre → printable (body (error code (pre +:+ s))) = text s.
Proof.
  intros Hp. cbn [error body printable forallb fst snd]. rewrite text_app by done.
  change (text "error") with true. by rewrite andb_true_r.
Qed.

Section reply.
Context `{JsonPrinter}.

(** The status of a response once it is printed. *)
Lemma answer_status r :
  ∃ b, answer (Ret r) =
    Ret {| reply_status := if printable (body r) then status r else 500; reply_body := b |}.
Proof.
  unfold answer. cbn [mbind outcome_bind]. unfold set_content.
  destruct (printable (body r)) eqn:E.
  - destruct (dump_printable _ E) as [s ->]. by exists s.
  - destruct (dump_unprintable _ E) as [w ->]. by exists "".
Qed.

Context `{MapOrder}.

(** The strings of an entry are those of an instrument. *)
Lemma entry_view now st sym s :
  ss_books (build_snapshot now st) !! sym = Some s →
  ∃ loc info, get_instrument st loc = Some info ∧ ii_symbol info = sym ∧
    printable (instrument_json s) = entry_text info.
Proof.
  intros Hs. destruct (snapshot_entry _ _ _ _ Hs) as (loc & info & Hi & Hsym & Hcase).
  exists loc, info. split; [done|split; [done|]]. rewrite instrument_printable.
  by destruct Hcase as [(bk & _ & ->)|[-> _]].
Qed.

(** The list of instruments prints when every entry does. *)
Lemma instruments_printable now st :
  symbols_distinct st →
  printable (body (instruments_route (Some (build_snapshot now st)))) =
    bool_decide (map_Forall (λ _ info, entry_text info = true) (instruments st)).
Proof.
  intros Hd. set (snap := build_snapshot now st).
  cbn [instruments_route ok body printable forallb fst snd].
  change (text "count") with true. change (text "instruments") with true.
  rewrite !andb_true_l, andb_true_r. apply eq_bool_prop_intro. rewrite bool_decide_spec.
  rewrite forallb_True, Forall_fmap, (Forall_forall _ (list_snapshots _)). split.
  - intros Hall loc info Hi. assert (get_instrument st loc = Some info) as Hi' by done.
    pose proof (snapshot_view now st loc info Hd Hi') as Hv.
    destruct (entry_view now st _ _ Hv) as (loc' & info' & Hi2 & Hsym & E).
    assert (loc' = loc) as -> by (by eapply Hd). rewrite Hi' in Hi2. injection Hi2 as <-.
    rewrite <- E. apply Is_true_true. apply (Hall (ii_symbol info, _)).
    rewrite list_snapshots_perm. by apply elem_of_map_to_list.
  - intros Hall [sym s] Hin. rewrite list_snapshots_perm in Hin.
    apply elem_of_map_to_list in Hin. destruct (entry_view now st _ _ Hin) as (loc & info & Hi & _ & E).
    change (Is_true (printable (instrument_json s))). rewrite E. apply Is_true_true.
    by apply (Hall loc).
Qed.

(** An unknown symbol is repeated in the error message. *)
Lemma book_route_missing now st param v d :
  depth_of param = inr d →
  (∀ loc info, get_instrument st loc = Some info → to_lower (ii_symbol info) ≠ to_lower v) →
  book_route param v (Some (build_snapshot now st)) =
    Ret (error 404 ("instrument not found: " +:+ v)).
Proof.
  intros Hd Hno. unfold book_route, book_handler. rewrite Hd. cbn [mbind outcome_bind].
  pose proof (find_book_total now st v) as Hf. destruct (ss_symbol_index _ !! _) as [sym|].
  - destruct Hf as (loc & info & _ & Hi & <- & Hlow & _). by destruct (Hno loc info Hi).
  - by rewrite Hf.
Qed.

Lemma view_symbol st loc info : obs_symbol (instrument_view st loc info) = ii_symbol info.
Proof. unfold instrument_view. by destruct (get_book st loc). Qed.

(** The view of an instrument prints when its symbol and its state do. *)
Lemma view_text st loc info :
  text (obs_symbol (instrument_view st loc info)) &&
    char_text (obs_trading_state (instrument_view st loc info)) = book_text info.
Proof. unfold instrument_view. by destruct (get_book st loc). Qed.

End reply.

(** ** Properties *)

(** C20: The status of each reply, the text of the feed included: [/status] always
    answers 200; a book answers 200 when the instrument's symbol is UTF-8 and
    its trading state ASCII; a symbol that is not found answers 404 when it is UTF-8
    itself; but the list of instruments answers 200 only when this holds of
    every instrument: one byte from 128 on in one instrument turns every request of the
    list into a 500. *)
Theorem reply_status_of_text `{JsonPrinter} `{MapOrder} now st :
  symbols_distinct_ci st →
  let snap := Some (build_snapshot now st) in
  let replies r code := ∃ b, answer r = Ret {| reply_status := code; reply_body := b |} in
  (∀ now_ms, replies (Ret (status_route now_ms snap)) 200) ∧
  replies (Ret (instruments_route snap))
    (if bool_decide (map_Forall (λ _ info, entry_text info = true) (instruments st))
     then 200 else 500) ∧
  (∀ loc info v, get_instrument st loc = Some info → to_lower v = to_lower (ii_symbol info) →
    (∀ param d, depth_of param = inr d →
      replies (book_route param v snap) (if book_text info then 200 else 500)) ∧
    (top_route v snap ≠ Undef →
      replies (top_route v snap) (if book_text info then 200 else 500))) ∧
  (∀ v param d, depth_of param = inr d →
    (∀ loc info, get_instrument st loc = Some info → to_lower (ii_symbol info) ≠ to_lower v) →
    replies (book_route param v snap) (if text v then 404 else 500)).
Proof.
  intros Hci snap replies. split; [|split; [|split]].
  - intros now_ms. apply (answer_status (status_route now_ms snap)).
  - destruct (answer_status (instruments_route snap)) as [b E]. exists b. rewrite E.
    unfold snap at 1. by rewrite instruments_printable by by apply symbols_ci.
  - intros loc info v Hi Hv. split.
    + intros param d Hd. unfold snap. rewrite (book_route_shows_book now st loc info v param d) by done.
      destruct (answer_status (ok (book_json_ref (Z.to_nat d) (instrument_view st loc info))))
        as [b E]. exists b. rewrite E. cbn [body ok status]. by rewrite book_printable, view_text.
    + unfold snap, top_route, top_handler. cbn [mbind outcome_bind].
      rewrite (find_book_variant now st loc info) by done. cbn [mbind outcome_bind].
      destruct (top_json _) as [j|w|] eqn:Ej; [|by apply top_json_throws in Ej|done].
      intros _. destruct (answer_status (ok j)) as [b E]. exists b. etrans; [exact E|].
      cbn [body ok status]. by rewrite (top_printable _ _ Ej), view_text.
  - intros v param d Hd Hno. unfold snap. rewrite (book_route_missing now st param v d) by done.
    destruct (answer_status (error 404 ("instrument not found: " +:+ v))) as [b E].
    exists b. rewrite E, error_printable by (by repeat constructor). done.
Qed.

(** One instrument whose symbol ends in a byte that begins no UTF-8 sequence,
    next to one that is plain text. *)
Definition mangled : string := String "M"%char (String (Ascii.ascii_of_nat 255) "").

Definition mangled_system : Engine :=
  register_instrument {| ii_symbol := mangled; ii_stock_locate := 2; ii_round_lot_size := 100;
    ii_market_category := "Q"%char; ii_trading_state := "T"%char;
    ii_financial_status := "N"%char |}
  (register_instrument {| ii_symbol := "AAPL"; ii_stock_locate := 1; ii_round_lot_size := 100;
    ii_market_category := "Q"%char; ii_trading_state := "T"%char;
    ii_financial_status := "N"%char |} Engine_init).

Lemma mangled_instruments loc info :
  get_instrument mangled_system loc = Some info →
  loc = 2 ∧ ii_symbol info = mangled ∨ loc = 1 ∧ ii_symbol info = "AAPL".
Proof.
  unfold mangled_system, get_instrument, register_instrument, set_instruments. cbn [instruments].
  rewrite !lookup_insert_Some. cbn [ii_stock_locate].
  intros [[<- <-]|[_ [[<- <-]|[_ H]]]]; [by left|by right|done].
Qed.

Lemma reply_status_of_text_witness :
  (∃ b, answer (Ret (instruments_route (Some (build_snapshot 0 mangled_system)))) =
    Ret {| reply_status := 500; reply_body := b |}) ∧
  (∃ b, answer (book_route None "aapl" (Some (build_snapshot 0 mangled_system))) =
    Ret {| reply_status := 200; reply_body := b |}).
Proof.
  destruct (reply_status_of_text 0 mangled_system) as (_ & H1 & H2 & _).
  { intros loc loc' info info' H1 H2.
    destruct (mangled_instruments _ _ H1) as [[-> E1]|[-> E1]],
      (mangled_instruments _ _ H2) as [[-> E2]|[-> E2]]; rewrite E1, E2; done. }
  split; [exact H1|].
  destruct (H2 1 {| ii_symbol := "AAPL"; ii_stock_locate := 1; ii_round_lot_size := 100;
    ii_market_category := "Q"%char; ii_trading_state := "T"%char;
    ii_financial_status := "N"%char |} "aapl") as [H3 _];
    [reflexivity..|].
  exact (H3 None 10 eq_refl).
Defined.
