(* ===== verification/EndToEnd.v ===== *)
(** From the bytes of a capture to the bytes of a response: the parts composed. *)

From S2P Require Import Prelude ByteOrder Messages Parser WireFormat FeedReader.
From S2P Require Import StdMap OrderBook BookEngine EngineLevels EngineInvariant EngineProperties.
From S2P Require Import Double Snapshot SnapshotTheorems RestServer RestTheorems.
From S2P Require Import Pipeline PipelineTheorems Server ServerTheorems Reply ReplyTheorems.
From Stdlib Require Import Strings.Byte Strings.Ascii.

#[local] Open Scope Z_scope.

(** ** The capture of a list of messages *)

Definition capture (msgs : list ParsedMessage) : list byte :=
  concat (frame <$> (encode <$> msgs)).

Lemma encode_frameable m : message_ok m → frameable (encode m).
Proof.
  intros Hm%encode_length.
  assert (∃ n, expected_length (message_type m) = Some n ∧ (0 < n < 41)%nat) as (n & E & Hn)
    by (destruct m; eexists; (split; [reflexivity|lia])).
  assert (n = length (encode m)) as -> by congruence. unfold frameable. lia.
Qed.

Lemma decoded_capture msgs : Forall message_ok msgs → omap decoded (encode <$> msgs) = msgs.
Proof.
  induction 1 as [|m msgs Hm _ IH]; [done|]. csimpl. by rewrite decoded_encode, IH.
Qed.

(** ** The rows of a side *)

(** A side of a book as the resting orders [idx] have it: the prices at which
    orders rest, best first, each once, with the sum of their shares and their number. *)
Definition rows_of (idx : gmap Z OrderRecord) (loc : Z) (bid : bool)
    (rows : list PriceLevelSnapshot) : Prop :=
  ∃ ps, StronglySorted (λ p q, side_ltb bid p q = true) ps ∧
    (∀ p, p ∈ ps ↔ ∃ ref r, idx !! ref = Some r ∧ order_slot r = (loc, bid, p)) ∧
    rows = (λ p, {| pls_price := to_double p;
                    pls_total_shares := shares_at idx (loc, bid, p);
                    pls_order_count := orders_at idx (loc, bid, p) |}) <$> ps.

Lemma view_rows st loc info bid :
  engine_inv st → rows_of (order_index st) loc bid (obs_side bid (instrument_view st loc info)).
Proof.
  intros Hinv. unfold instrument_view. destruct (get_book st loc) as [bk|] eqn:Hbk.
  { by apply snapshot_levels. }
  exists []. split; [constructor|split; [|by destruct bid]]. intros p.
  split; [by intros ?%not_elem_of_nil|]. intros Hex%level_of_is_Some.
  rewrite <- (inv_levels _ Hinv) in Hex. unfold level_at, get_book in *. rewrite Hbk in Hex.
  by destruct Hex.
Qed.

(** ** The reply to a request for a book *)

(** The reply shows the instrument's book, as the resting orders [idx] have it. *)
Definition shows_book `{JsonPrinter} (idx : gmap Z OrderRecord) (loc : Z) (info : InstrumentInfo)
    (d : Z) (r : outcome reply) : Prop :=
  ∃ view b, r = Ret {| reply_status := 200; reply_body := b |} ∧
    dump (book_json_ref (Z.to_nat d) view) = Ret b ∧ obs_symbol view = ii_symbol info ∧
    rows_of idx loc true (obs_bids view) ∧ rows_of idx loc false (obs_asks view).

Lemma serve_book `{MapOrder} `{PathMatcher} `{JsonPrinter} t st loc info v param d now_ms :
  engine_inv st → symbols_distinct_ci st → get_instrument st loc = Some info →
  to_lower v = to_lower (ii_symbol info) → segment v = true → depth_of param = inr d →
  book_text info = true →
  shows_book (order_index st) loc info d
    (serve {| rq_path := "/book/" +:+ v; rq_depth := param |} now_ms (Some (build_snapshot t st))).
Proof.
  intros Hinv Hci Hi Hv Hseg Hd Htext. set (view := instrument_view st loc info).
  assert (printable (book_json_ref (Z.to_nat d) view) = true) as Hpr
    by (unfold view; by rewrite book_printable, view_text).
  destruct (dump_printable _ Hpr) as [b Hb]. exists view, b.
  split; [|split; [done|split; [by apply view_symbol|]]].
  - unfold serve. rewrite dispatch_book by done.
    rewrite (book_route_shows_book t _ loc info v param d) by done.
    fold view. unfold answer, set_content. cbn [mbind outcome_bind body ok status]. by rewrite Hb.
  - split; [by apply (view_rows _ _ _ true)|by apply (view_rows _ _ _ false)].
Qed.

(** Before the first snapshot. *)
Lemma serve_unavailable `{MapOrder} `{PathMatcher} `{JsonPrinter} v param now_ms :
  segment v = true →
  ∃ b, serve {| rq_path := "/book/" +:+ v; rq_depth := param |} now_ms None =
    Ret {| reply_status := 503; reply_body := b |}.
Proof.
  intros Hv. unfold serve. rewrite dispatch_book by done. unfold book_route, book_handler.
  destruct (dump_printable (body unavailable) eq_refl) as [b Hb]. exists b.
  unfold answer, set_content. cbn [mbind outcome_bind]. by rewrite Hb.
Qed.

(** ** Properties *)

(** C1: From the bytes of a capture to the bytes of a response: file mode on the
    frames of a list of messages, whatever the chunks of its reads, completes;
    a [GET] of an instrument's book, under any spelling of its symbol
    and with a valid depth, is then answered with status 200 and the printed
    book, each side of which lists the prices at which orders rest after those
    messages, best first, with the sum of their shares and their number, up to
    the depth. *)
Theorem file_to_response {F} `{ReliableFile F} `{MapOrder} `{PathMatcher} `{JsonPrinter}
    now final k msgs (f : F) fuel :
  0 < k → Forall message_ok msgs → remaining f = capture msgs → (length msgs < fuel)%nat →
  feed_ok ∅ msgs → Z.of_nat (length msgs) < 2 ^ 32 - 1 →
  ∃ s, file_mode now fuel (Some f) final (start k) = Ret (Some (Completed, s)) ∧
    sys_engine s = mark_complete (run msgs (configured k)) ∧
    ∀ loc info v param d now_ms,
      symbols_distinct_ci (sys_engine s) → get_instrument (sys_engine s) loc = Some info →
      to_lower v = to_lower (ii_symbol info) → segment v = true → depth_of param = inr d →
      book_text info = true →
      shows_book (run_orders msgs ∅) loc info d
        (serve {| rq_path := "/book/" +:+ v; rq_depth := param |} now_ms (current s)).
Proof.
  intros Hk Hok Hf Hfuel Hfeed Hlen.
  assert (omap decoded (encode <$> msgs) = msgs) as Hdec by by apply decoded_capture.
  destruct (file_mode_frames now final k (encode <$> msgs) f fuel) as (s & E & He & Hp);
    [done|done| |by rewrite length_fmap|].
  { apply Forall_fmap. eapply Forall_impl; [exact Hok|]. apply encode_frameable. }
  rewrite Hdec in He. exists s. split; [done|split; [done|]].
  intros loc info v param d now_ms Hci Hi Hv Hseg Hd Htext.
  assert (engine_inv (sys_engine s)) as Hinv.
  { rewrite He, <- Hdec. apply mark_complete_inv, decoded_run_inv; rewrite ?Hdec; [done|].
    by rewrite length_fmap. }
  assert (order_index (sys_engine s) = run_orders msgs ∅) as <-
    by (rewrite He; apply run_order_index).
  unfold current. rewrite Hp. by apply serve_book.
Qed.

(** An instrument, a bid and an ask on it, the bid partly executed. *)
Definition capture_messages : list ParsedMessage := [
  StockDirectory {| sd_stock_locate := 7; sd_tracking_number := 0; sd_timestamp := 1;
    sd_stock := "AAPL"; sd_market_category := "Q"%char; sd_financial_status := "N"%char;
    sd_round_lot_size := 100; sd_round_lots_only := "N"%char;
    sd_issue_classification := "C"%char; sd_issue_sub_type := "Z";
    sd_authenticity := "P"%char; sd_short_sale_threshold := "N"%char; sd_ipo_flag := "N"%char;
    sd_luld_ref_price_tier := "1"%char; sd_etp_flag := "N"%char; sd_etp_leverage_factor := 0;
    sd_inverse_indicator := "N"%char |};
  AddOrder {| ao_stock_locate := 7; ao_tracking_number := 0; ao_timestamp := 2;
    ao_order_ref := 1; ao_side := "B"%char; ao_shares := 100; ao_stock := "AAPL";
    ao_price := mkPrice 5000 |};
  AddOrder {| ao_stock_locate := 7; ao_tracking_number := 0; ao_timestamp := 3;
    ao_order_ref := 2; ao_side := "S"%char; ao_shares := 50; ao_stock := "AAPL";
    ao_price := mkPrice 5100 |};
  OrderExecuted {| oe_stock_locate := 7; oe_tracking_number := 0; oe_timestamp := 4;
    oe_order_ref := 1; oe_executed_shares := 30; oe_match_number := 9 |}].

Lemma capture_messages_ok : Forall message_ok capture_messages.
Proof.
  unfold capture_messages. rewrite !Forall_cons. unfold message_ok, wire_ok,
    wire_stock_directory, wire_add_order, wire_order_executed, stock_directory_ok,
    add_order_ok, order_executed_ok, alpha_ok.
  cbn [sd_stock_locate sd_tracking_number sd_timestamp sd_stock sd_round_lot_size
    sd_issue_sub_type sd_etp_leverage_factor ao_stock_locate ao_tracking_number ao_timestamp
    ao_order_ref ao_shares ao_stock ao_price raw oe_stock_locate oe_tracking_number oe_timestamp
    oe_order_ref oe_executed_shares oe_match_number].
  split_and!; first [apply Forall_nil_2|lia|vm_compute; reflexivity|vm_compute; lia].
Qed.

Definition capture_file : ChunkedFile := {|
  chunked_bytes := capture capture_messages; chunk_sizes := replicate 50 0%nat |}.

Definition capture_engine : Engine := mark_complete (run capture_messages (configured 1000)).

Definition capture_info : InstrumentInfo :=
  default (placeholder 7) (get_instrument capture_engine 7).

Lemma capture_instruments loc info :
  get_instrument capture_engine loc = Some info → loc = 7.
Proof.
  unfold get_instrument. intros Hl. apply elem_of_map_to_list in Hl. revert Hl.
  vm_compute (map_to_list (instruments capture_engine)). rewrite elem_of_cons.
  by intros [[= -> _]|?%not_elem_of_nil].
Qed.

Lemma file_to_response_witness :
  ∃ s, file_mode (λ _, 0) 99 (Some capture_file) 7 (start 1000) = Ret (Some (Completed, s)) ∧
    shows_book (run_orders capture_messages ∅) 7 capture_info 10
      (serve {| rq_path := "/book/aapl"; rq_depth := None |} 8 (current s)).
Proof.
  destruct (file_to_response (λ _, 0) 7 1000 capture_messages capture_file 99)
    as (s & E & Hs & H).
  - lia.
  - apply capture_messages_ok.
  - reflexivity.
  - simpl. lia.
  - vm_compute. repeat split; try done; congruence.
  - simpl. lia.
  - change (sys_engine s = capture_engine) in Hs.
    exists s. split; [exact E|]. apply (H 7 capture_info "aapl" None 10 8).
    + rewrite Hs. intros loc loc' i i' Hi Hi' _.
      by rewrite (capture_instruments _ _ Hi), (capture_instruments _ _ Hi').
    + rewrite Hs. vm_compute. reflexivity.
    + vm_compute. reflexivity.
    + reflexivity.
    + reflexivity.
    + vm_compute. reflexivity.
Defined.
