(* ===== verification/ServiceTheorems.v ===== *)
(** What concurrent requests see: every reply is computed from one version of the
    feed, one that was current at a moment between the request's arrival and the
    reply's departure. *)

From S2P Require Import Prelude ByteOrder Messages Parser StdMap OrderBook BookEngine Snapshot.
From S2P Require Import SnapshotTheorems RestServer Pipeline PipelineTheorems UdpFeedReader LiveMode.
From S2P Require Import EngineLevels EngineInvariant EngineProperties.
From S2P Require Import LiveModeTheorems Main MainTheorems RestTheorems Server Reply ReplyTheorems.
From S2P Require Import EndToEnd Service.

#[local] Open Scope Z_scope.

Section service.
Context {S : Type} `{Versioned S} `{MapOrder} `{PathMatcher} `{JsonPrinter}.
Implicit Types s : Service S.

#[local] Notation step := (service_step (S := S)).

(** The request came in when version [v] was current. *)
Definition came_in (h : History) (vs : list nat)
    (p : nat) (id : nat) (req : Request) (v : nat) : Prop :=
  h !! p = Some (versions v, Invoked id req) ∧ vs !! p = Some v.

(** A handler that is at work on request [id], with version [v] current. *)
Definition at_work (h : History) (vs : list nat) (v id : nat)
    (hd : handler_state) : Prop :=
  ∃ p v1, came_in h vs p id (request_of hd) v1 ∧
    match hd with
    | Accepted _ => True
    | Loaded _ snap => ∃ v', (v1 ≤ v' ≤ v)%nat ∧ snap = versions v'
    end.

(** The reply at position [p] is that of a version between the two moments. *)
Definition answered_within (h : History) (vs : list nat)
    (p id : nat) (req : Request) (r : outcome reply) : Prop :=
  ∃ q v1 v v2 now_ms, (q < p)%nat ∧ came_in h vs q id req v1 ∧ vs !! p = Some v2 ∧
    (v1 ≤ v ≤ v2)%nat ∧ r = serve req now_ms (versions v).

Record service_inv (s : Service S) (v : nat) (vs : list nat) : Prop := {
  si_feed : at_version (the_feed s) v;
  si_sorted : StronglySorted le vs;
  si_current : Forall (λ v', v' ≤ v)%nat vs;
  si_history : Forall2 (λ e v', e.1 = versions v') (history s) vs;
  si_handlers id hd : handlers s !! id = Some hd →
    (id < accepted s)%nat ∧ at_work (history s) vs v id hd;
  si_answers p sh id req r : history s !! p = Some (sh, Answered id req r) →
    answered_within (history s) vs p id req r;
  si_answered id : id ∈ answered_ids (history s) → (id < accepted s)%nat ∧ handlers s !! id = None;
  si_once : NoDup (answered_ids (history s))
}.

Lemma service_inv_start : service_inv service_start 0 [].
Proof.
  split; try (by constructor); try done.
  - apply feed_init_version.
  - intros id Hid. by apply not_elem_of_nil in Hid.
Qed.

(** What has happened stays. *)
Lemma came_in_snoc h vs e v' p id req v :
  came_in h vs p id req v → came_in (h ++ [e]) (vs ++ [v']) p id req v.
Proof. intros [Hh Hv]. split; by apply lookup_app_l_Some. Qed.

Lemma at_work_weaken h vs v v' id hd :
  (v ≤ v')%nat → at_work h vs v id hd → at_work h vs v' id hd.
Proof.
  intros Hle (p & v1 & Hc & Hm). exists p, v1. split; [done|]. destruct hd; [done|].
  destruct Hm as (v2 & Hv2 & ->). exists v2. split; [lia|done].
Qed.

Lemma at_work_snoc h vs e v' v id hd :
  at_work h vs v id hd → at_work (h ++ [e]) (vs ++ [v']) v id hd.
Proof. intros (p & v1 & Hc & Hm). exists p, v1. split; [by apply came_in_snoc|done]. Qed.

Lemma answered_within_snoc h vs e v' p id req r :
  answered_within h vs p id req r → answered_within (h ++ [e]) (vs ++ [v']) p id req r.
Proof.
  intros (q & v1 & v & v2 & t & Hq & Hc & Hp & Hv & ->). exists q, v1, v, v2, t.
  split; [done|split; [by apply came_in_snoc|split; [by apply lookup_app_l_Some|done]]].
Qed.

Lemma answered_ids_snoc (h : History) sh e :
  answered_ids (h ++ [(sh, e)]) =
  answered_ids h ++ match e with Answered id _ _ => [id] | Invoked _ _ => [] end.
Proof. unfold answered_ids. rewrite omap_app. by destruct e. Qed.

(** A new event at the end of the history. *)
Lemma history_snoc (h : History) vs v e :
  StronglySorted le vs → Forall (λ v', v' ≤ v)%nat vs → Forall2 (λ e v', e.1 = versions v') h vs →
  StronglySorted le (vs ++ [v]) ∧ Forall (λ v', v' ≤ v)%nat (vs ++ [v]) ∧
  Forall2 (λ e v', e.1 = versions v') (h ++ [(versions v, e)]) (vs ++ [v]) ∧
  length h = length vs.
Proof.
  intros Hs Hc Hh. split; [by apply sorted_snoc|]. split.
  - apply Forall_app. split; [done|by constructor].
  - split; [apply Forall2_app; [done|by constructor]|by eapply Forall2_length].
Qed.

(** ** The steps *)

Lemma inv_feed f f' hs n h v vs :
  feed_step f f' → service_inv (mkService f hs n h) v vs →
  ∃ v', (v ≤ v')%nat ∧ service_inv (mkService f' hs n h) v' vs.
Proof.
  intros Hstep [Hf Hs Hc Hh Hhs Ha Hid Ho]. simpl in *.
  destruct (feed_step_version _ _ _ Hf Hstep) as (v' & Hle & Hf'). exists v'. split; [done|].
  split; simpl; try done.
  - eapply Forall_impl; [exact Hc|]. simpl. lia.
  - intros id hd Hl. destruct (Hhs id hd Hl) as [Hn Hw]. split; [done|].
    by eapply at_work_weaken.
Qed.

Lemma inv_accept f hs n h req v vs :
  service_inv (mkService f hs n h) v vs →
  service_inv (mkService f (<[n := Accepted req]> hs) (Datatypes.S n)
    (h ++ [(shown f, Invoked n req)])) v (vs ++ [v]).
Proof.
  intros [Hf Hs Hc Hh Hhs Ha Hid Ho]. simpl in *. rewrite (feed_shown _ _ Hf).
  destruct (history_snoc h vs v (Invoked n req) Hs Hc Hh) as (Hs' & Hc' & Hh' & Hl).
  split; simpl; try done.
  - intros id hd. rewrite lookup_insert. case_decide as E.
    + intros [= <-]. subst id. split; [lia|]. exists (length h), v. split; [|done].
      split; [by apply list_lookup_middle|]. rewrite Hl. by apply list_lookup_middle.
    + intros Hl'. destruct (Hhs id hd Hl') as [Hn Hw]. split; [lia|]. by apply at_work_snoc.
  - intros p sh id req' r [[_ Hp]|[Hp E]]%lookup_snoc_Some; [|done].
    by apply answered_within_snoc, (Ha p sh).
  - intros id. rewrite answered_ids_snoc, app_nil_r. intros [Hn Hl']%Hid.
    split; [lia|]. by rewrite lookup_insert_ne by lia.
  - by rewrite answered_ids_snoc, app_nil_r.
Qed.

Lemma inv_load f hs n h id req v vs :
  hs !! id = Some (Accepted req) → service_inv (mkService f hs n h) v vs →
  service_inv (mkService f (<[id := Loaded req (shown f)]> hs) n h) v vs.
Proof.
  intros Hreq [Hf Hs Hc Hh Hhs Ha Hid Ho]. simpl in *. rewrite (feed_shown _ _ Hf).
  split; simpl; try done.
  - intros id' hd. rewrite lookup_insert. case_decide as E; [|by apply Hhs].
    intros [= <-]. subst id'. destruct (Hhs id _ Hreq) as (Hn & p & v1 & [Hp Hv1] & _).
    split; [done|]. exists p, v1. split; [done|]. exists v. split; [|done].
    split; [|lia]. rewrite Forall_forall in Hc. apply Hc. by eapply list_elem_of_lookup_2.
  - intros id' Hin. destruct (Hid id' Hin) as [Hn Hl]. split; [done|].
    rewrite lookup_insert_ne; congruence.
Qed.

Lemma inv_answer f hs n h id req snap now_ms v vs :
  hs !! id = Some (Loaded req snap) → service_inv (mkService f hs n h) v vs →
  service_inv (mkService f (delete id hs) n
    (h ++ [(shown f, Answered id req (serve req now_ms snap))])) v (vs ++ [v]).
Proof.
  intros Hreq [Hf Hs Hc Hh Hhs Ha Hid Ho]. simpl in *. rewrite (feed_shown _ _ Hf).
  destruct (history_snoc h vs v (Answered id req (serve req now_ms snap)) Hs Hc Hh)
    as (Hs' & Hc' & Hh' & Hl).
  destruct (Hhs id _ Hreq) as (Hn & q & v1 & Hq & v' & Hv' & ->).
  split; simpl; try done.
  - intros id' hd [Hne Hl']%lookup_delete_Some. destruct (Hhs id' hd Hl') as [Hn' Hw].
    split; [done|]. by apply at_work_snoc.
  - intros p sh id' req' r [[_ Hp]|[-> E]]%lookup_snoc_Some.
    + by apply answered_within_snoc, (Ha p sh).
    + injection E as <- <- <-. exists q, v1, v', v, now_ms.
      pose proof Hq as [Hq1 _]. apply lookup_lt_Some in Hq1.
      split; [done|split; [by apply came_in_snoc|split; [|done]]].
      rewrite Hl. by apply list_lookup_middle.
  - intros id'. rewrite answered_ids_snoc, elem_of_app, list_elem_of_singleton.
    intros [Hin| ->]; [|by rewrite lookup_delete_eq].
    destruct (Hid id' Hin) as [Hn' Hl']. split; [done|]. by rewrite lookup_delete_None; right.
  - rewrite answered_ids_snoc. apply NoDup_app. split; [done|]. split; [|apply NoDup_singleton].
    intros id' Hin ->%list_elem_of_singleton. destruct (Hid _ Hin) as [_ E]. congruence.
Qed.

Lemma service_inv_step s s' v vs :
  step s s' → service_inv s v vs → ∃ v' vs', service_inv s' v' vs'.
Proof.
  intros Hstep Hi.
  destruct Hstep as [f f' hs n h Hs|f hs n h req|f hs n h id req Hl|f hs n h id req snap t Hl].
  - destruct (inv_feed _ _ _ _ _ _ _ Hs Hi) as (v' & _ & Hi'). eauto.
  - eexists _, _. by apply inv_accept.
  - eexists _, _. by apply inv_load.
  - eexists _, _. by apply inv_answer.
Qed.

Lemma service_inv_reachable s : rtc step service_start s → ∃ v vs, service_inv s v vs.
Proof.
  assert (∀ s0, rtc step s0 s → (∃ v vs, service_inv s0 v vs) → ∃ v vs, service_inv s v vs) as Hind.
  { intros s0. induction 1 as [|s1 s2 s3 Hs Hr IH]; [done|]. intros (v & vs & Hi).
    by eapply IH, service_inv_step. }
  intros Hr. apply (Hind _ Hr). exists 0%nat, []. apply service_inv_start.
Qed.

(** A handler waits for nobody. *)
Lemma handler_finishes s id hd :
  handlers s !! id = Some hd →
  ∃ s' r, rtc step s s' ∧ the_feed s' = the_feed s ∧
    history s' = history s ++ [(shown (the_feed s), Answered id (request_of hd) r)].
Proof.
  destruct s as [f hs n h]. simpl. intros Hl. destruct hd as [req|req snap].
  - eexists (mkService f (delete id _) n (h ++ [_])), (serve req 0 (shown f)).
    split; [|split; reflexivity]. eapply rtc_l; [by apply service_load|].
    apply rtc_once, (service_answer f _ n h id req (shown f) 0). by rewrite lookup_insert_eq.
  - eexists (mkService f (delete id hs) n (h ++ [_])), (serve req 0 snap).
    split; [|split; reflexivity]. by apply rtc_once, (service_answer f hs n h id req snap 0).
Qed.

End service.

(** ** The feeds *)

Section file.
Context `{MapOrder} (now : nat → Z) (final k : Z) (Hk : 0 < k) (msgs : list ParsedMessage).
Context (Hlen : Z.of_nat (length msgs) < 2 ^ 64).

#[local] Existing Instance file_feed.

#[local] Obligation Tactic := idtac.

(** A version per message, and the last snapshot. *)
#[program] Definition file_versioned : @Versioned Served (file_feed now final k msgs) := {|
  versions := version now final k msgs;
  at_version s v := ∃ n, MainTheorems.serve_inv now final k msgs s n v |}.
Next Obligation. exists 0%nat. by apply serve_inv_start. Qed.
Next Obligation.
  intros s s' v [n Hi] [Hs _].
  destruct (serve_inv_step now final k Hk msgs Hlen _ _ _ _ Hs Hi) as (n' & v' & Hi' & Hle).
  exists v'. split; [done|by exists n'].
Qed.
Next Obligation. intros s v [n Hi]. apply (si_published _ _ _ _ _ _ _ Hi). Qed.

End file.

Section live.
Context `{MapOrder} (now : nat → Z) {Q : Type} `{ConcurrentQueue Q} (k : Z) (Hk : 0 < k).
Context (r0 : UDPFeedReader) (Hsock : 0 ≤ sock r0) (evs : list recv_event).

(** The messages that the reader delivers. *)
Definition delivered : list ParsedMessage := omap decoded (outlook r0 evs).2.

Context (Hlen : Z.of_nat (length delivered) < 2 ^ 64).

(** The engine has run the first [v] of them. *)
Definition live_at (s : LiveMode Q) (v : nat) : Prop :=
  open_inv r0 evs s ∧ ∃ consumed, live_consumed now k (outlook r0 evs).2 consumed (abstract r0 s) ∧
    v = length (omap decoded consumed).

Lemma live_at_prefix s v consumed :
  live_consumed now k (outlook r0 evs).2 consumed (abstract r0 s) →
  v = length (omap decoded consumed) →
  omap decoded consumed = take v delivered ∧ (v ≤ length delivered)%nat.
Proof.
  intros (Hin & _) ->. unfold delivered. rewrite Hin, !omap_app, <- app_assoc, take_app_length.
  split; [done|]. rewrite length_app. lia.
Qed.

Lemma published_after_take n :
  (n ≤ length delivered)%nat →
  published_after now k (take n delivered) n = published_after now k delivered n.
Proof.
  intros Hn. unfold published_after. case_decide; [done|]. rewrite take_take, Nat.min_l; [done|].
  pose proof (last_multiple k Hk (Z.of_nat n) ltac:(lia)). lia.
Qed.

Lemma live_at_step s s' v :
  live_at s v → live_mode_step now (Ret r0) s s' → ∃ v', (v ≤ v')%nat ∧ live_at s' v'.
Proof.
  intros [Hi (consumed & Hc & ->)] Hs.
  destruct (open_steps now r0 evs s s' (rtc_once _ _ Hs) Hi) as [Hi' Hr].
  destruct (live_consumed_steps now k (outlook r0 evs).2 _ _ _ Hr Hc) as [more Hm].
  exists (length (omap decoded (consumed ++ more))). split.
  - rewrite omap_app, length_app. lia.
  - split; [done|]. by exists (consumed ++ more).
Qed.

Lemma live_at_shown s v :
  live_at s v → current (live_system (live_loops s)) = published_after now k delivered v.
Proof.
  intros [_ (consumed & Hc & Hv)]. destruct (live_at_prefix _ _ _ Hc Hv) as [Hp Hle].
  destruct Hc as (_ & Hall & _). unfold current. cbn [abstract loops] in Hall.
  rewrite (process_all_published now k Hk consumed _ ltac:(lia) Hall).
  rewrite <- Hv, Hp. by apply published_after_take.
Qed.

#[local] Obligation Tactic := idtac.

(** A version per message of the feed. *)
#[program] Definition live_versioned :
  @Versioned (LiveMode Q) (live_feed now (Ret r0) evs k) := {|
  versions := published_after now k delivered;
  at_version := live_at |}.
Next Obligation.
  split; [by apply open_inv_start|]. exists []. split; [|done]. apply live_consumed_start.
Qed.
Next Obligation. exact live_at_step. Qed.
Next Obligation. exact live_at_shown. Qed.

End live.

(** ** Properties *)

(** C4: Concurrent requests are answered from the moment they are in: whatever feeds
    the engine, and in every interleaving of its steps with any number of handlers,
    the publisher goes forward through the versions of the feed, and every reply
    is the one that the route computes from a single version, no older than the
    one current when the request came in and no newer than the one current when
    the reply goes out (so that of two requests, one sent after the reply to the
    other, the later one never sees an older book).  No request is answered twice,
    and a handler can always finish, whatever the engine and the others do. *)
Theorem requests_see_current {S} `{Versioned S} `{MapOrder} `{PathMatcher} `{JsonPrinter}
    (s : Service S) :
  rtc (service_step (S := S)) service_start s →
  (∃ vs, StronglySorted le vs ∧ Forall2 (λ e v, e.1 = versions v) (history s) vs ∧
    ∀ p sh id req r, history s !! p = Some (sh, Answered id req r) →
      answered_within (history s) vs p id req r) ∧
  NoDup (answered_ids (history s)) ∧
  (∀ id hd, handlers s !! id = Some hd →
    ∃ s' r, rtc (service_step (S := S)) s s' ∧ the_feed s' = the_feed s ∧
      history s' = history s ++ [(shown (the_feed s), Answered id (request_of hd) r)]).
Proof.
  intros Hr. destruct (service_inv_reachable s Hr) as (v & vs & Hi).
  split; [|split; [apply (si_once _ _ _ Hi)|intros id hd; apply handler_finishes]].
  exists vs. split; [apply (si_sorted _ _ _ Hi)|].
  split; [apply (si_history _ _ _ Hi)|]. apply (si_answers _ _ _ Hi).
Qed.

(** Two requests for the same book: the first loads its snapshot before the engine
    handles a message, the second after it, and the second is answered first. *)
Definition book_request : Request := {| rq_path := "/book/AAPL"; rq_depth := None |}.

Definition two_requests (s : Service Served) : Prop :=
  @rtc _ (@service_step _ (file_feed (λ _, 0) 9 1 one_message) _ _ _)
    (@service_start _ (file_feed (λ _, 0) 9 1 one_message)) s ∧
  answered_ids (history s) = [1; 0]%nat.

Lemma two_requests_run : ∃ s, two_requests s.
Proof.
  eexists. split.
  - eapply rtc_l; [apply (service_accept _ _ _ _ book_request)|].
    eapply rtc_l; [apply (service_accept _ _ _ _ book_request)|].
    eapply rtc_l; [apply (service_load _ _ _ _ 0%nat book_request); reflexivity|].
    eapply rtc_l; [apply service_feed; split; [apply serve_handle|reflexivity]|].
    eapply rtc_l; [apply service_feed; split; [apply serve_publish; reflexivity|reflexivity]|].
    eapply rtc_l; [apply (service_load _ _ _ _ 1%nat book_request); reflexivity|].
    eapply rtc_l; [eapply (service_answer _ _ _ _ 1%nat book_request _ 7); reflexivity|].
    eapply rtc_l; [eapply (service_answer _ _ _ _ 0%nat book_request _ 8); reflexivity|].
    apply rtc_refl.
  - reflexivity.
Qed.

Lemma requests_see_current_witness :
  ∃ s vs, two_requests s ∧ StronglySorted le vs ∧ length vs = length (history s).
Proof.
  destruct two_requests_run as [s [Hr Hid]].
  pose (vf := file_versioned (λ _, 0) 9 1 ltac:(lia) one_message ltac:(done)).
  destruct (@requests_see_current Served _ vf _ _ _ s Hr) as [(vs & Hs & Hh & _) _].
  exists s, vs. split; [by split|split; [exact Hs|]]. symmetry. by eapply Forall2_length.
Defined.

(** C2: From the datagrams to the bytes of a response, while the feed goes on: in
    live mode, with any datagrams at all and any interleaving
    of the receive thread, the engine thread and the handlers, every reply to a
    request for a book shows the books of one moment, the first [n] messages of what
    the reader delivers, where [n] is a multiple of the snapshot interval and the
    number of messages that the publisher reported at some time between the
    request and the reply: status 503 when it is still zero, and else, for an
    instrument known by then, status 200 and the resting orders of those
    messages. *)
Theorem live_to_response `{MapOrder} `{PathMatcher} `{JsonPrinter} now {Q} `{ConcurrentQueue Q}
    k evs sys_socket sys_bind sys_pton sys_join group iface port r0
    (s : Service (LiveMode Q)) p sh id v param d r :
  0 < k → Z.of_nat (length (delivered r0 evs)) < 2 ^ 32 - 1 →
  UDPFeedReader_multicast sys_socket sys_bind sys_pton sys_join group iface port = Ret r0 →
  feed_ok ∅ (delivered r0 evs) →
  let _ := live_feed now (Q := Q) (Ret r0) evs k in
  rtc service_step service_start s →
  segment v = true → depth_of param = inr d →
  history s !! p =
    Some (sh, Answered id {| rq_path := "/book/" +:+ v; rq_depth := param |} r) →
  ∃ n q sh0, let msgs := take n (delivered r0 evs) in
    (n ≤ length (delivered r0 evs))%nat ∧ Z.of_nat n mod k = 0 ∧
    history s !! q =
      Some (sh0, Invoked id {| rq_path := "/book/" +:+ v; rq_depth := param |}) ∧
    told sh0 ≤ Z.of_nat n ≤ told sh ∧
    (n = 0%nat → ∃ b, r = Ret {| reply_status := 503; reply_body := b |}) ∧
    (n ≠ 0%nat → ∀ loc info,
      let st := run msgs (configured k) in
      symbols_distinct_ci st → get_instrument st loc = Some info →
      to_lower v = to_lower (ii_symbol info) → book_text info = true →
      shows_book (run_orders msgs ∅) loc info d r).
Proof.
  intros Hk Hlen Hr0 Hfeed feed Hr Hseg Hd Hp.
  destruct (new_reader_sock _ _ _ _ _ _ _ _ Hr0) as [_ Hs].
  assert (Z.of_nat (length (delivered r0 evs)) < 2 ^ 64) as Hlen' by lia.
  pose (vf := live_versioned now (Q := Q) k Hk r0 Hs evs Hlen').
  destruct (service_inv_reachable s Hr) as (v0 & vs & Hi).
  destruct (si_answers _ _ _ Hi _ _ _ _ _ Hp) as (q & v1 & w & v2 & t & _ & [Hq _] & Hv2 & Hw & ->).
  assert (v2 ≤ length (delivered r0 evs))%nat as Hb.
  { transitivity v0; [pose proof (si_current _ _ _ Hi) as Hc; rewrite Forall_forall in Hc;
      apply Hc; by eapply list_elem_of_lookup_2|].
    destruct (si_feed _ _ _ Hi) as [_ (c & Hc & Hv0)]. by eapply live_at_prefix. }
  assert (sh = versions v2) as ->.
  { pose proof (si_history _ _ _ Hi) as Hh.
    by destruct (Forall2_lookup_lr _ _ _ _ _ _ Hh Hp Hv2). }
  set (msgs := delivered r0 evs) in *. set (n := Z.to_nat (Z.of_nat w / k * k)).
  pose proof (last_multiple k Hk (Z.of_nat w) ltac:(lia)) as Hl.
  assert (0 ≤ Z.of_nat w / k * k) as Hpos by (pose proof (Z.div_pos (Z.of_nat w) k); nia).
  assert (Z.of_nat n = Z.of_nat w / k * k) as Hn by lia.
  exists n, q, (versions v1). change (versions ?x) with (published_after now k msgs x).
  split; [lia|split; [by rewrite Hn, Z.mod_mul by lia|split; [exact Hq|split; [|split]]]].
  - rewrite !(told_published now k Hk msgs) by lia. rewrite Hn.
    pose proof (Z.div_le_mono (Z.of_nat v1) (Z.of_nat w) k Hk).
    pose proof (Z.div_le_mono (Z.of_nat w) (Z.of_nat v2) k Hk). nia.
  - intros Hz. unfold published_after. rewrite decide_True by done. by apply serve_unavailable.
  - intros Hz loc info st Hci Hinfo Hv Htext. unfold published_after. rewrite decide_False by done.
    fold n. change (run (take n msgs) (configured k)) with st.
    assert (feed_ok ∅ (take n msgs)) as Hpre.
    { rewrite <- (take_drop n msgs) in Hfeed. by apply feed_ok_app in Hfeed as [? _]. }
    assert (order_index st = run_orders (take n msgs) ∅) as <- by apply run_order_index.
    apply serve_book; try done. apply configured_run_inv; [done|]. rewrite length_take. lia.
Qed.

(** A request that comes in before the first packet and is answered after the engine
    has run the order in it. *)
Definition unknown_request : Request := {| rq_path := "/book/unknown_1"; rq_depth := None |}.

Definition sample_live : Feed (LiveMode (list MessageBuffer)) :=
  live_feed (λ _, 0) (Ret (reader_on 3)) live_events 1.

Definition live_request (s : Service (LiveMode (list MessageBuffer))) (r : outcome reply) : Prop :=
  @rtc _ (@service_step _ sample_live _ _ _) (@service_start _ sample_live) s ∧
  ∃ sh, history s !! 1%nat = Some (sh, Answered 0 unknown_request r).

Lemma live_request_run : ∃ s r, live_request s r.
Proof.
  eexists _, _. split.
  - eapply rtc_l; [apply (service_accept _ _ _ _ unknown_request)|].
    eapply rtc_l; [apply service_feed, step_recv, recv_constructs; reflexivity|].
    eapply rtc_l; [apply service_feed, step_recv, recv_waits|].
    eapply rtc_l; [apply service_feed, step_recv; eapply recv_enqueues; vm_compute; reflexivity|].
    eapply rtc_l; [apply service_feed, step_main, main_loops, check_running|].
    eapply rtc_l; [apply service_feed, step_main, main_loops;
      eapply poll_message; [reflexivity|vm_compute; reflexivity]|].
    eapply rtc_l; [apply (service_load _ _ _ _ 0%nat unknown_request); reflexivity|].
    eapply rtc_l; [eapply (service_answer _ _ _ _ 0%nat unknown_request _ 7); reflexivity|].
    apply rtc_refl.
  - eexists. reflexivity.
Qed.

Lemma live_to_response_witness :
  ∃ s r n, live_request s r ∧ (n ≤ 1)%nat ∧
    (n = 0%nat → ∃ b, r = Ret {| reply_status := 503; reply_body := b |}).
Proof.
  destruct live_request_run as (s & r & Hr & sh & Hp).
  destruct (live_to_response (λ _, 0) (Q := list MessageBuffer) 1 live_events
    3 (λ _ _, 0) (λ _, (1, 0)) (λ _ _, 0) "233.54.12.111" "127.0.0.1" 26477 (reader_on 3)
    s 1%nat sh 0%nat "unknown_1" None 10 r) as (n & q & sh0 & Hn & _ & _ & _ & H503 & _).
  - lia.
  - vm_compute. reflexivity.
  - reflexivity.
  - vm_compute. repeat split; try done; congruence.
  - exact Hr.
  - reflexivity.
  - reflexivity.
  - exact Hp.
  - exists s, r, n. split; [split; [exact Hr|by exists sh]|split; [|exact H503]].
    etrans; [exact Hn|]. vm_compute. lia.
Defined.
