(* ===== verification/TestEngine.v ===== *)
(** The repository's unit tests of prices and of the engine
    ([tests/test_price.cpp], [tests/test_book_engine.cpp]), run on the model.

    A suite lists a test's name and whether its assertions hold; [TEST_F] names
    are those of the sources.  The engine of a test is the fixture's, and
    [engine.apply] is [Snapshot.apply]. *)

From S2P Require Import Prelude Messages StdMap OrderBook BookEngine Double Snapshot.
From Stdlib Require Import Strings.Ascii.

#[local] Open Scope Z_scope.

Definition suite : Type := list (string * bool).

Definition all (checks : list bool) : bool := forallb id checks.

(** [EXPECT_EQ] of a field that a pointer leads to; a null pointer fails. *)
Definition is_z (o : option Z) (z : Z) : bool := bool_decide (o = Some z).
Definition is_char (o : option ascii) (c : ascii) : bool := bool_decide (o = Some c).
Definition is_text (o : option string) (s : string) : bool := bool_decide (o = Some s).
Definition null {A} (o : option A) : bool := match o with None => true | Some _ => false end.

(** ** [test_price.cpp] *)
Module PriceTests.

(** [begin()->first.raw] of a map that holds these prices. *)
Definition first_key (ltb : Price → Price → bool) (prices : list Z) : option Z :=
  raw ∘ fst <$> head (foldl (λ m p, om_set ltb (mkPrice p) tt m) [] prices).

Definition positive (d : double) : bool :=
  match d with S754_finite false _ _ => true | _ => false end.

Definition tests : suite := [
  ("EqualValuesCompareEqual", bool_decide (mkPrice 102500 = mkPrice 102500));
  ("HigherRawIsGreater",
    price_ltb (mkPrice 102500) (mkPrice 102600) && price_gtb (mkPrice 102600) (mkPrice 102500));
  ("AscendingMapKeyOrder", is_z (first_key price_ltb [102600; 102500; 102700]) 102500);
  ("DescendingMapKeyOrder", is_z (first_key price_gtb [102400; 102600; 102500]) 102600);
  ("KnownValue", SFeqb (to_double (mkPrice 102500)) (double_div (double_of_Z 41) (double_of_Z 4)));
  ("Zero", SFeqb (to_double (mkPrice 0)) (double_of_Z 0));
  ("MaxUint32DoesNotOverflowOrNaN", positive (to_double (mkPrice (2 ^ 32 - 1))));
  ("FixedPointSubtractionClean",
    SFeqb (to_double (mkPrice (u32 (1894300 - 1894200))))
      (double_div (double_of_Z 1) (double_of_Z 100)))].

End PriceTests.

(** ** [test_book_engine.cpp] *)
Module EngineTests.

(** *** The fixture *)

Definition instrument (locate : Z) (symbol : string) : InstrumentInfo := {|
  ii_stock_locate := locate; ii_symbol := symbol; ii_trading_state := "T"%char;
  ii_round_lot_size := 100; ii_market_category := zero; ii_financial_status := zero |}.

Definition set_up : System := {|
  sys_engine := register_instrument (instrument 1 "AAPL") Engine_init; sys_published := None |}.

Definition add_at (locate ts ref : Z) (side : ascii) (shares price_raw : Z) : ParsedMessage :=
  AddOrder {| ao_stock_locate := locate; ao_tracking_number := 0; ao_timestamp := ts;
    ao_order_ref := ref; ao_side := side; ao_shares := shares; ao_stock := "";
    ao_price := mkPrice price_raw |}.
Definition add := add_at 1 0.

Definition execute_ts (ts ref shares : Z) : ParsedMessage := OrderExecuted {|
  oe_stock_locate := 0; oe_tracking_number := 0; oe_timestamp := ts; oe_order_ref := ref;
  oe_executed_shares := shares; oe_match_number := 0 |}.
Definition execute := execute_ts 0.

Definition cancel_ts (ts ref shares : Z) : ParsedMessage := OrderCancel {|
  oc_stock_locate := 0; oc_tracking_number := 0; oc_timestamp := ts; oc_order_ref := ref;
  oc_cancelled_shares := shares |}.
Definition cancel := cancel_ts 0.

Definition del_ts (ts ref : Z) : ParsedMessage := OrderDelete {|
  od_stock_locate := 0; od_tracking_number := 0; od_timestamp := ts; od_order_ref := ref |}.
Definition del := del_ts 0.

Definition replace_ts (ts orig next shares price_raw : Z) : ParsedMessage := OrderReplace {|
  or_stock_locate := 0; or_tracking_number := 0; or_timestamp := ts;
  or_original_order_ref := orig; or_new_order_ref := next; or_shares := shares;
  or_price := mkPrice price_raw |}.
Definition replace := replace_ts 0.

Definition directory (locate : Z) (stock : string) : ParsedMessage := StockDirectory {|
  sd_stock_locate := locate; sd_tracking_number := 0; sd_timestamp := 0; sd_stock := stock;
  sd_market_category := "Q"%char; sd_financial_status := "N"%char; sd_round_lot_size := 100;
  sd_round_lots_only := zero; sd_issue_classification := zero; sd_issue_sub_type := "";
  sd_authenticity := zero; sd_short_sale_threshold := zero; sd_ipo_flag := zero;
  sd_luld_ref_price_tier := zero; sd_etp_flag := zero; sd_etp_leverage_factor := 0;
  sd_inverse_indicator := zero |}.

Definition trading_action (state : ascii) : ParsedMessage := StockTradingAction {|
  ta_stock_locate := 1; ta_tracking_number := 0; ta_timestamp := 0; ta_stock := "";
  ta_trading_state := state; ta_reserved := zero; ta_reason := "" |}.

(** *** Observations *)

(** The engine after the messages, if no [apply] fails. *)
Definition engine_after (msgs : list ParsedMessage) : option Engine :=
  match foldl (λ s msg, s ← s; Snapshot.apply 0 msg s) (Ret set_up) msgs with
  | Ret s => Some (sys_engine s)
  | _ => None
  end.

Definition on (msgs : list ParsedMessage) (checks : Engine → list bool) : bool :=
  match engine_after msgs with Some e => all (checks e) | None => false end.

Definition bids (locate : Z) (e : Engine) : list (Price * PriceLevel) :=
  match get_book e locate with Some b => ob_bids b | None => [] end.
Definition asks (locate : Z) (e : Engine) : list (Price * PriceLevel) :=
  match get_book e locate with Some b => ob_asks b | None => [] end.

(** [find(Price{p})] on either side. *)
Definition bid_at (p : Z) (e : Engine) : option PriceLevel :=
  om_find price_gtb (mkPrice p) (bids 1 e).
Definition ask_at (p : Z) (e : Engine) : option PriceLevel :=
  om_find price_ltb (mkPrice p) (asks 1 e).

(** [begin()->second] has these shares and this count. *)
Definition level_is (o : option PriceLevel) (shares count : Z) : bool :=
  is_z (lvl_total_shares <$> o) shares && is_z (lvl_order_count <$> o) count.
Definition first_is (m : list (Price * PriceLevel)) : Z → Z → bool := level_is (snd <$> head m).

Definition order_shares (ref : Z) (e : Engine) : option Z := rec_shares <$> get_order e ref.
Definition info (locate : Z) (e : Engine) := get_instrument e locate.

(** [snap->books.at(symbol).last_update_timestamp] *)
Definition updated_at (symbol : string) (e : Engine) : option Z :=
  obs_last_update_timestamp <$> ss_books (build_snapshot 0 e) !! symbol.

Definition t0 : Z := 34200000000000.

(** What both tests of a replaced sell order assert. *)
Definition moved (e : Engine) : list bool :=
  [null (ask_at 501000 e); level_is (ask_at 501500 e) 350 1; null (get_order e 1);
   is_z (raw ∘ rec_price <$> get_order e 2) 501500; is_z (order_shares 2 e) 350].

Definition four_states : list ascii := ["T"; "H"; "P"; "Q"]%char.
Definition state_is (c : ascii) (e : Engine) : list bool :=
  [is_char (ii_trading_state <$> info 1 e) c].

(** *** The tests *)

Definition add_tests : suite := [
  ("AddOrder_BidCreatesLevel", on [add 1 "B" 500 1000000] (λ e,
    [negb (null (get_book e 1)); (length (bids 1 e) =? 1)%nat; first_is (bids 1 e) 500 1;
     is_z (raw ∘ lvl_price ∘ snd <$> head (bids 1 e)) 1000000]));
  ("AddOrder_AskCreatesLevel", on [add 1 "S" 300 1000100] (λ e,
    [(length (asks 1 e) =? 1)%nat; first_is (asks 1 e) 300 1]));
  ("AddOrder_TwoOrdersSameLevel", on [add 1 "B" 200 1000000; add 2 "B" 150 1000000] (λ e,
    [(length (bids 1 e) =? 1)%nat; first_is (bids 1 e) 350 2]));
  ("AddOrder_TwoOrdersDifferentLevels", on [add 1 "B" 200 1000000; add 2 "B" 100 999900] (λ e,
    [(length (bids 1 e) =? 2)%nat]));
  ("AddOrder_BidBestPriceFirst", on [add 1 "B" 100 999900; add 2 "B" 100 1000000] (λ e,
    [is_z (raw ∘ fst <$> head (bids 1 e)) 1000000]));
  ("AddOrder_AskBestPriceFirst", on [add 1 "S" 100 1000100; add 2 "S" 100 1000000] (λ e,
    [is_z (raw ∘ fst <$> head (asks 1 e)) 1000000]));
  ("AddOrderMPID_SameBookStateAsAddOrder", on [AddOrderMPID {| am_stock_locate := 1;
      am_tracking_number := 0; am_timestamp := 0; am_order_ref := 1; am_side := "B";
      am_shares := 400; am_stock := ""; am_price := mkPrice 1000000; am_attribution := "NSDQ" |}]
    (λ e, [first_is (bids 1 e) 400 1; is_text (mpid_view <$> get_order e 1) "NSDQ"]))].

Definition cancel_tests : suite := [
  ("Cancel_PartialReducesShares", on [add 1 "B" 500 1000000; cancel 1 200] (λ e,
    [first_is (bids 1 e) 300 1; is_z (order_shares 1 e) 300]));
  ("Cancel_FullRemovesLevel", on [add 1 "B" 500 1000000; cancel 1 500] (λ e,
    [bool_decide (bids 1 e = []); null (get_order e 1)]));
  ("Cancel_FullLeavesOtherOrderAtLevel",
    on [add 1 "B" 200 1000000; add 2 "B" 100 1000000; cancel 1 200] (λ e,
    [(length (bids 1 e) =? 1)%nat; first_is (bids 1 e) 100 1]))].

Definition execute_tests : suite := [
  ("Execute_PartialReducesShares", on [add 1 "S" 300 1000100; execute 1 100] (λ e,
    [first_is (asks 1 e) 200 1; is_z (order_shares 1 e) 200]));
  ("Execute_FullRemovesLevel", on [add 1 "S" 100 1000100; execute 1 100] (λ e,
    [bool_decide (asks 1 e = []); null (get_order e 1)]));
  ("ExecuteWithPrice_SameBookMutationAsExecute", on [add 1 "B" 200 1000000;
      OrderExecutedPrice {| op_stock_locate := 0; op_tracking_number := 0; op_timestamp := 0;
        op_order_ref := 1; op_executed_shares := 100; op_match_number := 0; op_printable := "Y";
        op_execution_price := mkPrice 999999 |}] (λ e, [first_is (bids 1 e) 100 1]));
  ("Delete_RemovesOrderAndLevel", on [add 1 "B" 300 1000000; del 1] (λ e,
    [bool_decide (bids 1 e = []); null (get_order e 1)]));
  ("Delete_LeavesOtherOrderAtLevel",
    on [add 1 "B" 200 1000000; add 2 "B" 150 1000000; del 1] (λ e,
    [(length (bids 1 e) =? 1)%nat; first_is (bids 1 e) 150 1; null (get_order e 1);
     negb (null (get_order e 2))]))].

Definition replace_tests : suite := [
  ("Replace_MovesToNewPriceLevel", on [add 1 "S" 400 501000; replace 1 2 350 501500] (λ e,
    is_char (rec_side <$> get_order e 2) "S" :: moved e));
  ("Replace_PreservesSide", on [add 1 "B" 100 1000000; replace 1 2 100 1000100] (λ e,
    [is_char (rec_side <$> get_order e 2) "B"]))].

Definition unknown_tests : suite := [
  ("UnknownRefExecute_Skipped", on [execute 9999 100] (λ e, [skipped_unknown_ref e =? 1]));
  ("UnknownRefCancel_Skipped", on [cancel 9999 100] (λ e, [skipped_unknown_ref e =? 1]));
  ("UnknownRefDelete_Skipped", on [del 9999] (λ e, [skipped_unknown_ref e =? 1]));
  ("UnknownRefReplace_Skipped",
    on [replace 9999 10000 100 1000000] (λ e, [skipped_unknown_ref e =? 1]));
  ("UnknownRef_BookUnchanged", on [add 1 "B" 100 1000000; execute 9999 50] (λ e,
    [is_z (lvl_total_shares ∘ snd <$> head (bids 1 e)) 100]))].

Definition scenario_tests : suite := [
  ("Scenario1_PartialFillThenCancel",
    on [add 1 "B" 500 1000000; add 2 "B" 300 999500; execute 1 200; cancel 1 100] (λ e,
    [level_is (bid_at 1000000 e) 200 1; is_z (lvl_total_shares <$> bid_at 999500 e) 300;
     is_z (order_shares 1 e) 200; negb (null (get_order e 2))]));
  ("Scenario2_ReplaceMovesPriceLevel", on [add 1 "S" 400 501000; replace 1 2 350 501500] moved);
  ("Scenario3_FullExecutionClearsLevel", on [add 1 "S" 100 750000; execute 1 100] (λ e,
    [bool_decide (asks 1 e = []); null (get_order e 1)]));
  ("Scenario4_MultipleOrdersAtLevel_PartialRemoval",
    on [add 1 "B" 200 300000; add 2 "B" 150 300000; del 1] (λ e,
    [level_is (bid_at 300000 e) 150 1; null (get_order e 1); negb (null (get_order e 2))]));
  ("Scenario5_MidSessionStart_UnknownRefs",
    on [execute 9999 50; cancel 8888 25; add 1 "B" 100 200000] (λ e,
    [skipped_unknown_ref e =? 2; is_z (lvl_total_shares <$> bid_at 200000 e) 100;
     negb (null (get_order e 1))]))].

Definition registry_tests : suite := [
  ("StockDirectory_PopulatesRegistry", on [directory 99 "TSLA"] (λ e,
    [is_text (ii_symbol <$> info 99 e) "TSLA"; is_z (ii_stock_locate <$> info 99 e) 99;
     is_z (ii_round_lot_size <$> info 99 e) 100; is_char (ii_market_category <$> info 99 e) "Q";
     is_char (ii_trading_state <$> info 99 e) "T"]));
  ("TradingAction_UpdatesState", on [trading_action "H"] (state_is "H"));
  ("TradingAction_RestoresAfterHalt", on [trading_action "H"; trading_action "T"] (state_is "T"));
  ("TradingAction_AllFourStates", forallb
    (λ n, on (trading_action <$> take (S n) four_states) (state_is (nth n four_states zero)))
    (seq 0 4));
  ("UnknownLocate_CreatesPlaceholder", on [add_at 77 0 1 "B" 100 1000000] (λ e,
    [is_text (ii_symbol <$> info 77 e) "UNKNOWN_77"; negb (null (get_book e 77));
     is_z (lvl_total_shares ∘ snd <$> head (bids 77 e)) 100]));
  ("UnknownLocate_SymbolResolvesAfterDirectory",
    on [add_at 55 0 1 "B" 100 1000000] (λ e, [is_text (ii_symbol <$> info 55 e) "UNKNOWN_55"]) &&
    on [add_at 55 0 1 "B" 100 1000000; directory 55 "META"] (λ e,
    [is_text (ii_symbol <$> info 55 e) "META"; negb (null (get_book e 55));
     is_z (lvl_total_shares ∘ snd <$> head (bids 55 e)) 100]));
  ("MessagesProcessed_CountsAllTypes", on [add 1 "B" 100 1000000; execute 1 50; cancel 1 25]
    (λ e, [messages_processed e =? 3]));
  ("SkippedUnknownRef_MultipleOpsAccumulate",
    on [execute 9001 100; cancel 9002 50; del 9003; replace 9004 9005 100 1000000]
    (λ e, [skipped_unknown_ref e =? 4]))].

Definition timestamp_tests : suite := [
  ("Timestamp_SetByAddOrder", on [add_at 1 t0 1 "B" 100 1000000] (λ e,
    [is_z (updated_at "AAPL" e) t0]));
  ("Timestamp_UpdatedBySubsequentMutation",
    on [add_at 1 t0 1 "B" 500 1000000; cancel_ts (t0 + 1000) 1 200] (λ e,
    [is_z (updated_at "AAPL" e) (t0 + 1000)]));
  ("Timestamp_UpdatedByExecute",
    on [add_at 1 t0 1 "S" 100 1000100; execute_ts (t0 + 2000) 1 50] (λ e,
    [is_z (updated_at "AAPL" e) (t0 + 2000)]));
  ("Timestamp_UpdatedByDelete",
    on [add_at 1 t0 1 "B" 200 1000000; del_ts (t0 + 3000) 1] (λ e,
    [is_z (updated_at "AAPL" e) (t0 + 3000)]));
  ("Timestamp_UpdatedByReplace",
    on [add_at 1 t0 1 "S" 400 501000; replace_ts (t0 + 4000) 1 2 350 501500] (λ e,
    [is_z (updated_at "AAPL" e) (t0 + 4000)]));
  ("Timestamp_ZeroForInstrumentWithNoBookActivity", on [] (λ e,
    [is_z (updated_at "MSFT" (register_instrument (instrument 2 "MSFT") e)) 0]))].

Definition corruption_tests : suite := [
  ("OversizedExecute_ClampsToZeroAndErasesOrder", on [add 1 "S" 100 1000100; execute 1 200] (λ e,
    [null (get_order e 1); bool_decide (asks 1 e = []); corrupt_messages e =? 1]));
  ("OversizedCancel_ClampsToZeroAndErasesOrder", on [add 1 "B" 50 1000000; cancel 1 300] (λ e,
    [null (get_order e 1); bool_decide (bids 1 e = []); corrupt_messages e =? 1]));
  ("OversizedCancel_NoPhantomLiquidity",
    on [add 1 "B" 100 1000000; add 2 "B" 100 1000000; cancel 1 500] (λ e,
    [null (get_order e 1);
     match bids 1 e with kv :: _ => lvl_total_shares kv.2 <? 1000000 | [] => true end;
     corrupt_messages e =? 1]));
  ("NormalExecute_DoesNotIncrementCorruptCounter", on [add 1 "S" 200 1000100; execute 1 100]
    (λ e, [corrupt_messages e =? 0]))].

Definition tests : suite :=
  add_tests ++ cancel_tests ++ execute_tests ++ replace_tests ++ unknown_tests ++
  scenario_tests ++ registry_tests ++ timestamp_tests ++ corruption_tests.

End EngineTests.
