(* ===== verification/TestFeed.v ===== *)
(** The repository's unit tests of the feed readers and the parser
    ([tests/test_parser.cpp], [tests/test_udp_feed_reader.cpp]), run on the model.

    A test's buffer is written as the test writes it: zeros, then the fields at
    their offsets.  The fixture is [tests/fixtures/sample.bin]; a file or a
    socket of a test is the model's with the bytes that the test puts there. *)

From S2P Require Import Prelude ByteOrder Messages Parser FeedReader UdpFeedReader.
From S2P Require Import Descriptors TestEngine.
From Stdlib Require Import Strings.Byte Strings.Ascii.
From Stdlib Require Strings.String.

#[local] Open Scope Z_scope.

(** ** Buffers *)

(** The bytes at an offset; the buffer starts as [n] zeros. *)
Definition write : Type := nat * list byte.
Definition buffer (n : nat) (writes : list write) : MessageBuffer :=
  foldl (λ buf '(off, bs), write_at buf off bs) (replicate n x00) writes.

Definition byte_at (off : nat) (c : ascii) : write := (off, [byte_of_ascii c]).
Definition write_be16 (off : nat) (v : Z) : write := (off, be_bytes 2 v).
Definition write_be32 (off : nat) (v : Z) : write := (off, be_bytes 4 v).
Definition write_be48 (off : nat) (v : Z) : write := (off, be_bytes 6 v).
Definition write_be64 (off : nat) (v : Z) : write := (off, be_bytes 8 v).

(** The characters of the string, and spaces up to the width. *)
Definition write_alpha (off : nat) (s : string) (width : nat) : write :=
  (off, take width (Strings.String.list_byte_of_string s ++ replicate width x20)).

Definition add_message {A} (m : MessageBuffer) (r : option (list MessageBuffer * A))
  : option (list MessageBuffer * A) := option_map (λ '(ms, a), (m :: ms, a)) r.

(** ** [test_parser.cpp] *)
Module FeedTests.

Definition fixture : list byte := concat (frame <$> [
  buffer 36 [byte_at 0 "A"]; buffer 40 [byte_at 0 "F"]; buffer 31 [byte_at 0 "E"];
  buffer 19 [byte_at 0 "D"]; buffer 39 [byte_at 0 "R"]]).

Definition file (bs : list byte) : SimFile := {| sim_bytes := bs; sim_steps := [] |}.

(** [next_message] until it returns no message, at most [fuel] calls: the
    messages, and the reader after the last call. *)
Fixpoint read_all (fuel : nat) (f : SimFile) : outcome (option (list MessageBuffer * SimFile)) :=
  match fuel with
  | O => Ret None
  | S fuel =>
      '(m, f) ← FeedReader.next_message f;
      match m with
      | None => Ret (Some ([], f))
      | Some m => r ← read_all fuel f; Ret (add_message m r)
      end
  end.

Definition messages (check : list MessageBuffer → SimFile → bool) : bool :=
  match read_all 9 (file fixture) with Ret (Some (ms, f)) => check ms f | _ => false end.

Definition ends (r : outcome (option MessageBuffer * SimFile)) : bool :=
  match r with Ret (None, _) => true | _ => false end.
Definition throws {A} (r : outcome A) : bool := match r with Throw _ => true | _ => false end.

(** A kernel on which no path exists. *)
Program Definition no_file : Kernel := {|
  sys_open ds path := -1; sys_socket ds := unused ds |}.
Next Obligation. simpl. lia. Qed.
Next Obligation. intros. apply unused_fresh. Qed.

Definition missing_file : outcome Z :=
  (@file_constructor no_file "/nonexistent/path/file.bin" ∅).1.

Definition tests : suite := [
  ("ReadsExpectedMessageCount", messages (λ ms _, (length ms =? 5)%nat));
  ("MessageLengthsMatchFixture",
    messages (λ ms _, bool_decide (length <$> ms = [36; 40; 31; 19; 39]%nat)));
  ("FirstByteIsMessageType",
    messages (λ ms _, bool_decide (omap head ms = byte_of_ascii <$> ["A"; "F"; "E"; "D"; "R"]%char)));
  ("ReturnsNulloptAtEOF", messages (λ _ f, ends (FeedReader.next_message f)));
  ("ThrowsOnMissingFile", throws missing_file);
  ("ThrowsOnTruncatedFrame",
    throws (FeedReader.next_message (file [x00; x14; x41; x00; x00; x00; x00])));
  ("EmptyFileReturnsNullopt", ends (FeedReader.next_message (file [])))].

End FeedTests.

Module ParserTests.

(** The parser finds a message in the buffer, and the checks hold of it. *)
Definition on (buf : MessageBuffer) (check : ParsedMessage → bool) : bool :=
  match parse buf with Ret (Some msg) => check msg | _ => false end.

(** [std::get] of the variant *)
Definition as_add (buf : MessageBuffer) (checks : AddOrderMsg → list bool) : bool :=
  on buf (λ msg, match msg with AddOrder m => all (checks m) | _ => false end).

Definition discarded (buf : MessageBuffer) : bool :=
  match parse buf with Ret None => true | _ => false end.

Definition text_is (s t : string) : bool := bool_decide (s = t).
Definition char_is (c d : ascii) : bool := bool_decide (c = d).

Definition trading_state_of (buf : MessageBuffer) (c : ascii) : bool :=
  on buf (λ msg, match msg with
    | StockTradingAction m => char_is (ta_trading_state m) c | _ => false end).

Definition add_tests : suite := [
  ("AddOrder_AllFields", as_add (buffer 36 [byte_at 0 "A"; write_be16 1 42; write_be16 3 7;
      write_be48 5 34200000000000; write_be64 11 999888777; byte_at 19 "B"; write_be32 20 500;
      write_alpha 24 "AAPL" 8; write_be32 32 1894200]) (λ m,
    [ao_stock_locate m =? 42; ao_tracking_number m =? 7; ao_timestamp m =? 34200000000000;
     ao_order_ref m =? 999888777; char_is (ao_side m) "B"; ao_shares m =? 500;
     text_is (ao_stock m) "AAPL"; raw (ao_price m) =? 1894200]));
  ("AddOrder_SideSell", as_add (buffer 36 [byte_at 0 "A"; byte_at 19 "S"]) (λ m,
    [char_is (ao_side m) "S"]));
  ("AddOrder_SymbolTrailingSpacesStripped",
    as_add (buffer 36 [byte_at 0 "A"; write_alpha 24 "MSFT" 8]) (λ m,
    [text_is (ao_stock m) "MSFT"]));
  ("AddOrder_PriceStoredAsRaw", as_add (buffer 36 [byte_at 0 "A"; write_be32 32 102500]) (λ m,
    [raw (ao_price m) =? 102500]));
  ("AddOrderMPID_AllFields", on (buffer 40 [byte_at 0 "F"; write_be16 1 10; write_be16 3 1;
      write_be48 5 12345678901; write_be64 11 111222333; byte_at 19 "S"; write_be32 20 200;
      write_alpha 24 "GOOG" 8; write_be32 32 500000; write_alpha 36 "NSDQ" 4])
    (λ msg, match msg with
     | AddOrderMPID m => all
        [am_stock_locate m =? 10; am_order_ref m =? 111222333; char_is (am_side m) "S";
         am_shares m =? 200; text_is (am_stock m) "GOOG"; raw (am_price m) =? 500000;
         text_is (am_attribution m) "NSDQ"]
     | _ => false end))].

Definition order_tests : suite := [
  ("OrderExecuted_AllFields", on (buffer 31 [byte_at 0 "E"; write_be16 1 5; write_be16 3 2;
      write_be48 5 99999999999; write_be64 11 777666555; write_be32 19 100; write_be64 23 888999])
    (λ msg, match msg with
     | OrderExecuted m => all
        [oe_stock_locate m =? 5; oe_tracking_number m =? 2; oe_timestamp m =? 99999999999;
         oe_order_ref m =? 777666555; oe_executed_shares m =? 100; oe_match_number m =? 888999]
     | _ => false end));
  ("OrderExecutedPrice_AllFields", on (buffer 36 [byte_at 0 "C"; write_be16 1 3; write_be16 3 0;
      write_be48 5 50000000000; write_be64 11 444333222; write_be32 19 50; write_be64 23 12345;
      byte_at 31 "Y"; write_be32 32 1900000])
    (λ msg, match msg with
     | OrderExecutedPrice m => all
        [op_order_ref m =? 444333222; op_executed_shares m =? 50; op_match_number m =? 12345;
         char_is (op_printable m) "Y"; raw (op_execution_price m) =? 1900000]
     | _ => false end));
  ("OrderExecutedPrice_PrintableN", on (buffer 36 [byte_at 0 "C"; byte_at 31 "N"])
    (λ msg, match msg with
     | OrderExecutedPrice m => char_is (op_printable m) "N" | _ => false end));
  ("OrderCancel_AllFields", on (buffer 23 [byte_at 0 "X"; write_be16 1 8; write_be16 3 3;
      write_be48 5 11111111111; write_be64 11 555444333; write_be32 19 75])
    (λ msg, match msg with
     | OrderCancel m => all [oc_order_ref m =? 555444333; oc_cancelled_shares m =? 75]
     | _ => false end));
  ("OrderDelete_AllFields", on (buffer 19 [byte_at 0 "D"; write_be16 1 2; write_be16 3 1;
      write_be48 5 22222222222; write_be64 11 123456789])
    (λ msg, match msg with
     | OrderDelete m => all [od_stock_locate m =? 2; od_order_ref m =? 123456789]
     | _ => false end));
  ("OrderReplace_AllFields", on (buffer 35 [byte_at 0 "U"; write_be16 1 15; write_be16 3 4;
      write_be48 5 33333333333; write_be64 11 111111111; write_be64 19 222222222;
      write_be32 27 350; write_be32 31 501500])
    (λ msg, match msg with
     | OrderReplace m => all
        [or_original_order_ref m =? 111111111; or_new_order_ref m =? 222222222;
         or_shares m =? 350; raw (or_price m) =? 501500]
     | _ => false end))].

Definition stock_tests : suite := [
  ("StockDirectory_AllFields", on (buffer 39 [byte_at 0 "R"; write_be16 1 1; write_be16 3 0;
      write_be48 5 1000000000; write_alpha 11 "AAPL" 8; byte_at 19 "Q"; byte_at 20 "N";
      write_be32 21 100; byte_at 25 "N"; byte_at 26 "C"; write_alpha 27 "AD" 2; byte_at 29 "P";
      byte_at 30 "N"; byte_at 31 "N"; byte_at 32 "1"; byte_at 33 "N"; write_be32 34 0;
      byte_at 38 "N"])
    (λ msg, match msg with
     | StockDirectory m => all
        [sd_stock_locate m =? 1; text_is (sd_stock m) "AAPL"; char_is (sd_market_category m) "Q";
         sd_round_lot_size m =? 100; char_is (sd_authenticity m) "P"]
     | _ => false end));
  ("TradingAction_TradingState_T", on (buffer 25 [byte_at 0 "H"; write_be16 1 1;
      write_alpha 11 "AAPL" 8; byte_at 19 "T"; write_alpha 21 "MWCB" 4])
    (λ msg, match msg with
     | StockTradingAction m => all
        [char_is (ta_trading_state m) "T"; text_is (ta_stock m) "AAPL";
         text_is (ta_reason m) "MWCB"]
     | _ => false end));
  ("TradingAction_AllStates", forallb
    (λ state, trading_state_of (buffer 25 [byte_at 0 "H"; byte_at 19 state]) state)
    ["T"; "H"; "P"; "Q"]%char)].

Definition bad_tests : suite := [
  ("OutOfScopeType_P_Discarded", discarded (buffer 10 [byte_at 0 "P"]));
  ("OutOfScopeType_B_Discarded", discarded (buffer 10 [byte_at 0 "B"]));
  ("UnknownTypeByte_Discarded", discarded (buffer 10 [(0%nat, [xff])]));
  ("EmptyBuffer_Throws", FeedTests.throws (parse (buffer 0 [])));
  ("TruncatedAddOrder_Throws", FeedTests.throws (parse (buffer 10 [byte_at 0 "A"])));
  ("Timestamp_SixByteZeroExtension", as_add (buffer 36 [byte_at 0 "A";
      (5%nat, replicate 6 xff); write_be64 11 72623859790382856]) (λ m,
    [ao_timestamp m =? 2 ^ 48 - 1; ao_order_ref m =? 72623859790382856]))].

Definition tests : suite := add_tests ++ order_tests ++ stock_tests ++ bad_tests.

End ParserTests.

(** ** [test_udp_feed_reader.cpp]

    Loopback keeps the order of the datagrams. *)
Module UdpTests.

Definition send_mold_packet (seq : Z) (messages : list MessageBuffer) : recv_event :=
  Datagram (mold_packet (replicate 10 x20) seq messages).

(** A header alone, with this message count. *)
Definition send_header (seq count : Z) : recv_event :=
  Datagram (replicate 10 x20 ++ be_bytes 8 seq ++ be_bytes 2 count).
Definition send_heartbeat (seq : Z) : recv_event := send_header seq MOLD_HEARTBEAT.
Definition send_empty_packet (seq : Z) : recv_event := send_header seq 0.

Definition make_payload_len (first_byte : ascii) (len : nat) : MessageBuffer :=
  write_at (replicate len xab) 0 [byte_of_ascii first_byte].
Definition make_payload (first_byte : ascii) : MessageBuffer := make_payload_len first_byte 16.

(** The fixture's reader, and [read_n]. *)
Definition reader : outcome UDPFeedReader := UDPFeedReader_test 4 (λ _ _, 0) 19000.

Fixpoint read_n (n : nat) (st : UDPFeedReader) (evs : list recv_event)
  : outcome (option (list MessageBuffer * UDPFeedReader)) :=
  match n with
  | O => Ret (Some ([], st))
  | S n =>
      r ← next_message st evs;
      match r with
      | Received m st evs => r ← read_n n st evs; Ret (add_message m r)
      | _ => Ret None
      end
  end.

(** The packets are sent, [n] messages are read, and the checks hold. *)
Definition on (sent : list recv_event) (n : nat)
    (checks : list MessageBuffer → UDPFeedReader → list bool) : bool :=
  match st ← reader; read_n n st sent with
  | Ret (Some (msgs, st)) => all (checks msgs st)
  | _ => false
  end.

Definition first_bytes (msgs : list MessageBuffer) (cs : list ascii) : bool :=
  bool_decide (omap head msgs = byte_of_ascii <$> cs).

Definition known : MessageBuffer := byte_of ∘ Z.of_nat <$> seq 0 36.
Definition three : list MessageBuffer :=
  [make_payload_len "A" 36; make_payload_len "D" 19; make_payload_len "E" 31].

Definition tests : suite := [
  ("SingleMessageInPacket", on [send_mold_packet 1 [make_payload "A"]] 1 (λ msgs st,
    [bool_decide (msgs = [make_payload "A"]); messages_received st =? 1]));
  ("MultipleMessagesInOnePacket", on [send_mold_packet 1 three] 3 (λ msgs st,
    [bool_decide (msgs = three); messages_received st =? 3]));
  ("MultiplePacketsSequential_NoGap", on [send_mold_packet 1 [make_payload "A"];
      send_mold_packet 2 [make_payload "D"]; send_mold_packet 3 [make_payload "E"]] 3 (λ _ st,
    [gaps_detected st =? 0; messages_received st =? 3]));
  ("SequenceGap_DetectedAndCounted", on [send_mold_packet 1 [make_payload "A"];
      send_mold_packet 5 [make_payload "D"]] 2 (λ _ st, [gaps_detected st =? 3]));
  ("HeartbeatPacket_ProducesNoMessage", on [send_heartbeat 1;
      send_mold_packet 1 [make_payload "R"]] 1 (λ msgs st,
    [first_bytes msgs ["R"%char]; messages_received st =? 1]));
  ("HeartbeatPacket_DoesNotAffectGapCounting", on [send_mold_packet 1 [make_payload "A"];
      send_heartbeat 2; send_mold_packet 2 [make_payload "D"]] 2 (λ _ st,
    [gaps_detected st =? 0]));
  ("EmptyPacket_ProducesNoMessage_NoGap", on [send_empty_packet 1;
      send_mold_packet 1 [make_payload "A"]] 1 (λ _ st,
    [gaps_detected st =? 0; messages_received st =? 1]));
  ("MessagePayloadIntegrity", on [send_mold_packet 1 [known]] 1 (λ msgs _,
    [bool_decide (length <$> msgs = [36%nat]); bool_decide (msgs = [known])]));
  ("MultipleGaps_Accumulate", on [send_mold_packet 1 [make_payload "A"];
      send_mold_packet 3 [make_payload "D"]; send_mold_packet 7 [make_payload "E"]] 3 (λ _ st,
    [gaps_detected st =? 4]));
  ("DuplicatePacket_Discarded", on [send_mold_packet 1 [make_payload "A"];
      send_mold_packet 1 [make_payload "D"]; send_mold_packet 2 [make_payload "E"]] 2 (λ msgs st,
    [first_bytes msgs ["A"; "E"]%char; gaps_detected st =? 0; messages_received st =? 2]))].

End UdpTests.
