(* ===== verification/TestRest.v ===== *)
(** The repository's tests of the REST server ([tests/test_rest.cpp]), run on the
    model, and the theorem on all the suites.

    A request is dispatched to the routes of Server on the current snapshot; the
    test reads the JSON value of the response, which the client of the source
    parses from its body.  The ports and the pauses of the tests have no
    counterpart. *)

From S2P Require Import Prelude ByteOrder Messages Parser FeedReader StdMap OrderBook BookEngine.
From S2P Require Import Double Snapshot RestServer Pipeline Server TestEngine TestFeed.
From Stdlib Require Import Strings.Byte Strings.Ascii.

#[local] Open Scope Z_scope.

Module RestTests.

(** ** The fixture *)

Definition make_stock_directory (locate : Z) (symbol : string) : MessageBuffer :=
  buffer 39 [byte_at 0 "R"; write_be16 1 locate; write_be16 3 0; write_be48 5 0;
    write_alpha 11 symbol 8; byte_at 19 "Q"; byte_at 20 "N"; write_be32 21 100;
    byte_at 25 "N"; byte_at 26 "C"; write_alpha 27 "AD" 2; byte_at 29 "P"; byte_at 30 "N";
    byte_at 31 "N"; byte_at 32 "1"; byte_at 33 "N"; write_be32 34 0; byte_at 38 "N"].

Definition make_add_order (locate ref : Z) (side : ascii) (shares price_raw ts : Z)
  : MessageBuffer :=
  buffer 36 [byte_at 0 "A"; write_be16 1 locate; write_be16 3 0; write_be48 5 ts;
    write_be64 11 ref; byte_at 19 side; write_be32 20 shares; write_be32 32 price_raw].

Definition make_order_delete (locate ref ts : Z) : MessageBuffer :=
  buffer 19 [byte_at 0 "D"; write_be16 1 locate; write_be16 3 0; write_be48 5 ts;
    write_be64 11 ref].

Definition t0 : Z := 34200000000000.

Definition fixture : list byte := concat (frame <$> [
  make_stock_directory 1 "AAPL";
  make_stock_directory 2 "MSFT";
  make_add_order 1 1 "B" 200 2871600 t0;
  make_add_order 1 2 "B" 100 2871500 (t0 + 1000);
  make_add_order 1 3 "S" 150 2872000 (t0 + 2000);
  make_add_order 1 4 "S" 300 2872100 (t0 + 3000);
  make_order_delete 1 1 (t0 + 4000)]).

(** The clock of the pipeline, and that of a request. *)
Definition clock : Z := 1000.
Definition request_clock : Z := 1050.

(** [if (msg) engine.apply( *msg)] *)
Definition apply_parsed (buf : MessageBuffer) (s : System) : outcome System :=
  msg ← parse buf;
  match msg with Some msg => Snapshot.apply clock msg s | None => Ret s end.

(** The loop of [SetUp], at most [fuel] calls of [next_message]. *)
Fixpoint run_file (fuel : nat) (f : SimFile) (s : System) : outcome (option System) :=
  match fuel with
  | O => Ret None
  | S fuel =>
      '(buf, f) ← FeedReader.next_message f;
      match buf with
      | Some buf => s ← apply_parsed buf s; run_file fuel f s
      | None => Ret (Some s)
      end
  end.

Definition set_up : outcome (option System) :=
  s ← run_file 8 (FeedTests.file fixture) (start 1);
  Ret (option_map (set_pipeline_complete clock) s).

(** ** A request, and what a test reads of the response *)

(** The response has this status and the checks hold of its body. *)
Definition get (path : string) (depth : option string) (code : Z) (checks : json → list bool)
    (snap : option SystemSnapshot) : bool :=
  match dispatch {| rq_path := path; rq_depth := depth |} request_clock snap with
  | Some (Ret r) => (status r =? code) && all (checks (body r))
  | _ => false
  end.

(** [j[key]] and [j[i]]; a missing element is null. *)
Definition member (key : string) (j : json) : json :=
  match j with
  | JObject l => match list_find (λ kv, kv.1 = key) l with Some (_, kv) => kv.2 | None => JNull end
  | _ => JNull
  end.
Definition item (i : nat) (j : json) : json :=
  match j with JArray l => default JNull (l !! i) | _ => JNull end.
Definition items (j : json) : list json := match j with JArray l => l | _ => [] end.

Definition is_int (z : Z) (j : json) : bool := match j with JInt n => n =? z | _ => false end.
Definition int_from (z : Z) (j : json) : bool := match j with JInt n => z <=? n | _ => false end.
Definition is_bool (b : bool) (j : json) : bool :=
  match j with JBool c => Bool.eqb b c | _ => false end.
Definition is_string (s : string) (j : json) : bool :=
  match j with JString t => bool_decide (s = t) | _ => false end.
Definition is_null (j : json) : bool := match j with JNull => true | _ => false end.
Definition is_empty (j : json) : bool := match j with JArray [] => true | _ => false end.

(** [EXPECT_NEAR] of a number and [n / d], with the bound [1e-4]. *)
Definition near (n d : Z) (j : json) : bool :=
  match j with
  | JDouble x =>
      SFleb (SFabs (SFsub prec emax x (double_div (double_of_Z n) (double_of_Z d))))
        (double_div (double_of_Z 1) (double_of_Z 10000))
  | _ => false
  end.
Definition is_negative (j : json) : bool :=
  match j with JDouble x => SFltb x (double_of_Z 0) | _ => false end.

Definition on (check : option SystemSnapshot → bool) : bool :=
  match set_up with Ret (Some s) => check (current s) | _ => false end.

Definition is_error (text : string) (j : json) : list bool := [is_string text (member "error" j)].

(** ** The tests *)

(** The instrument of this symbol is listed, with these properties. *)
Definition found (symbol : string) (checks : json → list bool) (j : json) : bool :=
  existsb (λ e, is_string symbol (member "symbol" e) && all (checks e))
    (items (member "instruments" j)).

Definition aapl (e : json) : list bool :=
  [is_string "T" (member "trading_state" e);
   is_string "Trading" (member "trading_state_description" e);
   is_int 100 (member "round_lot_size" e); is_string "Q" (member "market_category" e)].

Definition status_tests : suite := [
  ("Status_200_WithCorrectFields", on (get "/status" None 200 (λ j,
    [is_bool true (member "pipeline_complete" j); is_int 7 (member "messages_processed" j);
     is_int 2 (member "instruments_tracked" j); int_from 1 (member "snapshot_timestamp" j);
     int_from 0 (member "snapshot_age_ms" j)])));
  ("Instruments_200_BothPresent", on (get "/instruments" None 200 (λ j,
    [is_int 2 (member "count" j); found "AAPL" aapl j; found "MSFT" (λ _, []) j])))].

Definition book_tests : suite := [
  ("Book_AAPL_DefaultDepth_CorrectLevels", on (get "/book/AAPL" None 200 (λ j,
    [is_string "AAPL" (member "symbol" j); is_int 1 (member "bid_count" j);
     is_int 2 (member "ask_count" j);
     near 28715 100 (member "price" (item 0 (member "bids" j)));
     is_int 100 (member "total_shares" (item 0 (member "bids" j)));
     is_int 1 (member "order_count" (item 0 (member "bids" j)));
     near 28720 100 (member "price" (item 0 (member "asks" j)));
     is_int 150 (member "total_shares" (item 0 (member "asks" j)));
     is_int (t0 + 4000) (member "last_update_timestamp" j)])));
  ("Book_AAPL_Depth1_LimitsLevels", on (get "/book/AAPL" (Some "1") 200 (λ j,
    [is_int 1 (member "bid_count" j); is_int 1 (member "ask_count" j);
     (length (items (member "asks" j)) =? 1)%nat])));
  ("Top_AAPL_CorrectBestBidAskSpread", on (get "/book/AAPL/top" None 200 (λ j,
    [near 28715 100 (member "price" (member "best_bid" j));
     near 28720 100 (member "price" (member "best_ask" j)); near 5 100 (member "spread" j);
     is_int (t0 + 4000) (member "last_update_timestamp" j);
     is_bool false (member "crossed" j)])));
  ("Top_CaseInsensitive", on (get "/book/aapl/top" None 200 (λ j,
    [is_string "AAPL" (member "symbol" j)])));
  ("Book_MSFT_EmptyBook", on (get "/book/MSFT" None 200 (λ j,
    [is_int 0 (member "bid_count" j); is_int 0 (member "ask_count" j);
     is_empty (member "bids" j); is_empty (member "asks" j);
     is_null (member "last_update_timestamp" j)])))].

Definition error_tests : suite := [
  ("Book_UnknownSymbol_404",
    on (get "/book/FAKE" None 404 (is_error "instrument not found: FAKE")));
  ("Book_DepthTooLarge_400",
    on (get "/book/AAPL" (Some "999") 400 (is_error "depth must not exceed 50")));
  ("Book_DepthZero_400",
    on (get "/book/AAPL" (Some "0") 400 (is_error "depth must be at least 1")));
  ("Book_DepthNonInteger_400",
    on (get "/book/AAPL" (Some "abc") 400 (is_error "depth must be an integer")));
  ("Book_Returns503BeforeFirstSnapshot",
    get "/book/AAPL" None 503 (is_error "snapshot not yet available") None);
  ("Status_Returns200BeforeFirstSnapshot", get "/status" None 200 (λ j,
    [is_int 0 (member "messages_processed" j);
     is_bool false (member "pipeline_complete" j)]) None)].

(** An engine with one instrument, as the last two tests make it. *)
Definition with_instrument (symbol : string) : System := {|
  sys_engine :=
    register_instrument (EngineTests.instrument 1 symbol) (set_snapshot_interval 1 Engine_init);
  sys_published := None |}.

Definition crossed : outcome System :=
  s ← Snapshot.apply clock (EngineTests.add 1 "S" 100 2871500) (with_instrument "XBOOK");
  s ← Snapshot.apply clock (EngineTests.add 2 "B" 100 2872000) s;
  Ret (set_pipeline_complete clock s).

(** The second loop of the test; the first ends at once, [recv_done] being set. *)
Fixpoint drain_loop (fuel : nat) (queue : list MessageBuffer) (s : System)
  : outcome (option System) :=
  match fuel with
  | O => Ret None
  | S fuel =>
      match try_dequeue queue with
      | Some (item, queue) => s ← apply_parsed item s; drain_loop fuel queue s
      | None => Ret (Some s)
      end
  end.

Definition drained : outcome (option System) :=
  drain_loop 2 (enqueue empty_queue (make_add_order 1 42 "B" 100 1000000 0))
    (with_instrument "DRAIN").

Definition other_tests : suite := [
  ("Top_ReportsCrossedAndNegativeSpread",
    match crossed with
    | Ret s => get "/book/XBOOK/top" None 200 (λ j,
        [is_bool true (member "crossed" j); is_negative (member "spread" j)]) (current s)
    | _ => false
    end);
  ("SingleQueuedMessageIsNotDroppedWhenRecvDone",
    match drained with
    | Ret (Some s) => all
        [messages_processed (sys_engine s) =? 1; negb (null (get_book (sys_engine s) 1));
         negb (bool_decide (EngineTests.bids 1 (sys_engine s) = []))]
    | _ => false
    end)].

Definition tests : suite := status_tests ++ book_tests ++ error_tests ++ other_tests.

End RestTests.

(** ** The suites *)

(** The tests that [gtest_discover_tests] finds, a file after the other. *)
Definition test_price : suite := PriceTests.tests.
Definition test_parser : suite := FeedTests.tests ++ ParserTests.tests.
Definition test_book_engine : suite := EngineTests.tests.
Definition test_rest : suite := RestTests.tests.
Definition test_udp_feed_reader : suite := UdpTests.tests.

Definition itch_tests : list suite :=
  [test_price; test_parser; test_book_engine; test_rest; test_udp_feed_reader].

(** The tests of a suite whose assertions fail. *)
Definition failing (tests : suite) : list string :=
  omap (λ t : string * bool, if t.2 then None else Some t.1) tests.

(** The model on the inputs of the repository's 105 unit tests: they all pass, in
    their five files; the readers, the parser, the engine, the prices and the routes behave
    on the inputs of the tests as the tests' authors state. *)
Theorem itch_tests_pass :
  length <$> itch_tests = [8; 27; 45; 15; 10]%nat ∧ failing <$> itch_tests = [[]; []; []; []; []].
Proof. split; vm_compute; reflexivity. Qed.
