(* ===== verification/Bench.v ===== *)
(** What the benchmarks under [bench/] share: the loop of the benchmark library,
    [int] arithmetic, an engine that publishes nothing, and the facts about
    feeds that their theorems use.

    [benchmark::State] runs the body of its loop as often as it decides: the
    number of iterations is an argument. *)

From S2P Require Import Prelude ByteOrder Messages Parser WireFormat.
From S2P Require Import StdMap OrderBook BookEngine EngineLevels EngineInvariant EngineProperties.
From S2P Require Import LadderRefinement Snapshot Pipeline.
From Stdlib Require Import Strings.Ascii.

#[local] Open Scope Z_scope.

(** ** Definitions *)

(** [for (auto _ : state) body] *)
Fixpoint iterate {A} (body : A → outcome A) (iterations : nat) (a : A) : outcome A :=
  match iterations with
  | O => Ret a
  | S n => a ← body a; iterate body n a
  end.

(** [++i] and [a % b] on [int]. *)
Definition int_incr (i : Z) : outcome Z := if i + 1 <? 2 ^ 31 then Ret (i + 1) else Undef.
Definition int_rem (a b : Z) : outcome Z := if b =? 0 then Undef else Ret (Z.rem a b).

Definition UINT64_MAX : Z := 2 ^ 64 - 1.

(** [engine.apply(msg)] on an engine and its publisher, with the clock of the
    pipeline. *)
Definition apply_msg `{MapOrder} (now : nat → Z) (msg : ParsedMessage) (s : System)
  : outcome System := Snapshot.apply (now (next_apply s)) msg s.

Fixpoint apply_msgs `{MapOrder} (now : nat → Z) (msgs : list ParsedMessage) (s : System)
  : outcome System :=
  match msgs with
  | [] => Ret s
  | msg :: msgs => s ← apply_msg now msg s; apply_msgs now msgs s
  end.

(** An operation on the engine that publishes nothing. *)
Definition on_engine (f : Engine → Engine) (s : System) : System := {|
  sys_engine := f (sys_engine s); sys_published := sys_published s |}.

(** ** Loops *)

Lemma iterate_add {A} (body : A → outcome A) n m a :
  iterate body (n + m) a = a ← iterate body n a; iterate body m a.
Proof.
  revert a. induction n as [|n IH]; intros a; simpl; [done|].
  destruct (body a) as [a'| |]; simpl; [apply IH|done|done].
Qed.

(** A loop whose body is defined while [P] holds of the iteration number. *)
Lemma iterate_inv {A} (body : A → outcome A) (P : nat → A → Prop) n a :
  P O a → (∀ i a, (i < n)%nat → P i a → ∃ a', body a = Ret a' ∧ P (S i) a') →
  ∃ a', iterate body n a = Ret a' ∧ P n a'.
Proof.
  intros H0 Hstep. assert (∀ m i a, (i + m = n)%nat → P i a →
    ∃ a', iterate body m a = Ret a' ∧ P n a') as Hind.
  { induction m as [|m IH]; intros i b Hi Hb; simpl.
    - exists b. by replace n with i by lia.
    - destruct (Hstep i b) as (b' & -> & Hb'); [lia|done|]. apply (IH (S i)); [lia|done]. }
  apply (Hind n O); [lia|done].
Qed.

Lemma int_incr_small i : i + 1 < 2 ^ 31 → int_incr i = Ret (i + 1).
Proof. intros. unfold int_incr. by rewrite (proj2 (Z.ltb_lt _ _)). Qed.

Lemma int_rem_pos a b : 0 ≤ a → 0 < b → int_rem a b = Ret (a mod b).
Proof.
  intros. unfold int_rem. rewrite (proj2 (Z.eqb_neq b 0)) by lia.
  by rewrite Z.rem_mod_nonneg by lia.
Qed.

(** *** Cycles *)

(** What a loop that starts over at the end of [l] has read after [k] turns. *)
Definition cycle {A} (l : list A) (k : nat) : list A :=
  omap (λ i, l !! (i mod length l)%nat) (seq 0 k).

Lemma cycle_next {A} (l : list A) k :
  l ≠ [] → ∃ x, l !! (k mod length l)%nat = Some x ∧ cycle l (S k) = cycle l k ++ [x].
Proof.
  intros Hl. assert (length l ≠ 0%nat) as Hn by by destruct l.
  destruct (lookup_lt_is_Some_2 l (k mod length l)) as [x Hx]; [by apply Nat.mod_upper_bound|].
  exists x. split; [done|]. unfold cycle. rewrite seq_S, omap_app. simpl. by rewrite Hx.
Qed.

Lemma length_cycle {A} (l : list A) k : l ≠ [] → length (cycle l k) = k.
Proof.
  intros Hl. induction k as [|k IH]; [done|]. destruct (cycle_next l k Hl) as (x & _ & ->).
  rewrite length_app, IH. simpl. lia.
Qed.

Lemma cycle_take {A} (l : list A) k : (k ≤ length l)%nat → cycle l k = take k l.
Proof.
  intros Hk. destruct l as [|y l]; [simpl in Hk; by assert (k = 0%nat) as -> by lia|].
  induction k as [|k IH]; [done|]. destruct (cycle_next (y :: l) k) as (x & Hx & ->); [done|].
  rewrite Nat.mod_small in Hx by lia. rewrite IH by lia. by rewrite (take_S_r _ _ x).
Qed.

Lemma Forall_cycle {A} (P : A → Prop) (l : list A) k : Forall P l → Forall P (cycle l k).
Proof.
  intros Hl. apply Forall_forall. intros x (i & _ & Hx)%list_elem_of_omap.
  rewrite Forall_forall in Hl. apply Hl. by eapply list_elem_of_lookup_2.
Qed.

(** The index after one more turn, with either test. *)
Lemma cycle_index k n : n ≠ 0%nat → ((k mod n + 1) mod n = S k mod n)%nat.
Proof. intros. rewrite Nat.Div0.add_mod_idemp_l. f_equal. lia. Qed.

Lemma cycle_index_test k n :
  n ≠ 0%nat → (if decide (k mod n + 1 = n)%nat then O else (k mod n + 1)%nat) = (S k mod n)%nat.
Proof.
  intros Hn. rewrite <- (cycle_index k n Hn). pose proof (Nat.mod_upper_bound k n Hn).
  case_decide as E; [by rewrite E, Nat.Div0.mod_same|]. symmetry. apply Nat.mod_small. lia.
Qed.

(** ** A quiet engine *)

(** The engine publishes at the next [UINT64_MAX] messages, and has not reached them. *)
Definition quiet (s : System) (room : nat) : Prop :=
  snapshot_interval (sys_engine s) = UINT64_MAX ∧ 0 ≤ messages_processed (sys_engine s) ∧
  messages_processed (sys_engine s) + Z.of_nat room < UINT64_MAX.

Section quiet.
Context `{MapOrder} (now : nat → Z).

Lemma quiet_less s room room' : (room' ≤ room)%nat → quiet s room → quiet s room'.
Proof. unfold quiet. intros ? (?&?&?). split_and!; [done|done|lia]. Qed.

Lemma apply_msg_quiet msg s room :
  quiet s (S room) →
  apply_msg now msg s = Ret (on_engine (run [msg]) s) ∧ quiet (on_engine (run [msg]) s) room.
Proof.
  intros (Hi & H0 & Hr). unfold UINT64_MAX in *.
  destruct (handle_config msg (sys_engine s)) as (Hmp & Hsi & _).
  assert (messages_processed (run [msg] (sys_engine s)) =
    messages_processed (sys_engine s) + 1) as Hmp'.
  { simpl. rewrite Hmp, u64_id; lia. }
  unfold apply_msg, Snapshot.apply, maybe_publish_snapshot. cbn [sys_engine]. split.
  - change (count_message (handle msg (sys_engine s))) with (run [msg] (sys_engine s)).
    rewrite Hmp'. simpl snapshot_interval. rewrite Hsi, Hi.
    rewrite Z.mod_small by lia. unfold UINT64_MAX.
    by rewrite (proj2 (Z.eqb_neq (_ + 1) 0)) by lia.
  - unfold quiet. cbn [on_engine sys_engine]. rewrite Hmp'. simpl snapshot_interval.
    rewrite Hsi. unfold UINT64_MAX. split_and!; [done|lia|lia].
Qed.

Lemma apply_msgs_quiet msgs s room :
  quiet s (length msgs + room) →
  apply_msgs now msgs s = Ret (on_engine (run msgs) s) ∧ quiet (on_engine (run msgs) s) room.
Proof.
  revert s. induction msgs as [|msg msgs IH]; intros s Hq.
  { split; [by destruct s|done]. }
  destruct (apply_msg_quiet msg s (length msgs + room) Hq) as [E Hq1].
  destruct (IH _ Hq1) as [E2 Hq2]. simpl. by rewrite E.
Qed.

End quiet.

(** ** References that miss *)

(** The messages of a feed that look up a reference no order has. *)
Definition misses (msg : ParsedMessage) (idx : gmap Z OrderRecord) : bool :=
  match looked_up msg with Some ref => bool_decide (idx !! ref = None) | None => false end.

Fixpoint miss_count (msgs : list ParsedMessage) (idx : gmap Z OrderRecord) : Z :=
  match msgs with
  | [] => 0
  | msg :: msgs => (if misses msg idx then 1 else 0) + miss_count msgs (spec_orders msg idx)
  end.

Lemma miss_count_app msgs1 msgs2 idx :
  miss_count (msgs1 ++ msgs2) idx =
  miss_count msgs1 idx + miss_count msgs2 (run_orders msgs1 idx).
Proof.
  revert idx. induction msgs1 as [|msg msgs IH]; intros idx; [done|]. simpl. rewrite IH. lia.
Qed.

Lemma run_orders_app msgs1 msgs2 idx :
  run_orders (msgs1 ++ msgs2) idx = run_orders msgs2 (run_orders msgs1 idx).
Proof. apply fold_left_app. Qed.

Lemma handle_skipped msg st :
  skipped_unknown_ref (handle msg st) =
  if misses msg (order_index st) then u64 (skipped_unknown_ref st + 1)
  else skipped_unknown_ref st.
Proof.
  destruct (touched msg (order_index st)) as [loc|] eqn:E.
  - destruct (handle_write _ _ _ E) as [_ _ -> _ _ _ _].
    assert (misses msg (order_index st) = false) as ->; [|done]. unfold misses.
    destruct msg as [m|m|m|m|m|m|m|m|m]; try done; simpl in E;
      apply fmap_Some in E as (r & Hr & _); simpl; by rewrite Hr.
  - destruct (handle_untouched msg st E) as [_ Hm].
    change (misses msg (order_index st)) with (unknown_ref msg st).
    destruct (unknown_ref msg st); [by rewrite Hm|]. by destruct Hm as [f ->].
Qed.

(** The counter counts them. *)
Lemma run_skipped msgs st :
  0 ≤ skipped_unknown_ref st → skipped_unknown_ref st + Z.of_nat (length msgs) < 2 ^ 64 →
  skipped_unknown_ref (run msgs st) =
  skipped_unknown_ref st + miss_count msgs (order_index st).
Proof.
  revert st. induction msgs as [|msg msgs IH]; intros st H0 H1; [simpl; lia|].
  cbn [length] in H1. rewrite run_cons.
  assert (skipped_unknown_ref (count_message (handle msg st)) =
    skipped_unknown_ref st + (if misses msg (order_index st) then 1 else 0)) as E.
  { simpl. rewrite handle_skipped. destruct (misses _ _); [rewrite u64_id|]; lia. }
  rewrite IH; rewrite ?E; simpl; rewrite ?handle_orders; destruct (misses _ _); lia.
Qed.

(** ** Feeds in two parts *)

Lemma run_orders_size msgs idx :
  (size (run_orders msgs idx) ≤ length msgs + size idx)%nat.
Proof.
  revert idx. induction msgs as [|msg msgs IH]; intros idx; [done|].
  specialize (IH (spec_orders msg idx)). pose proof (spec_orders_size msg idx).
  simpl. change (fold_left _ ?l ?i) with (run_orders l i). lia.
Qed.

(** ** Feeds of adds *)

Definition add_record (m : AddOrderMsg) : OrderRecord :=
  added_record (ao_stock_locate m) (ao_side m) (ao_shares m) (ao_price m) "".

Lemma run_adds_lookup (ms : list AddOrderMsg) idx ref :
  NoDup (ao_order_ref <$> ms) →
  run_orders (AddOrder <$> ms) idx !! ref =
  match list_find (λ m, ao_order_ref m = ref) ms with
  | Some (_, m) => Some (add_record m)
  | None => idx !! ref
  end.
Proof.
  revert idx. induction ms as [|m ms IH]; intros idx Hnd; [done|].
  cbn [fmap list_fmap] in Hnd. apply NoDup_cons in Hnd as [Hm Hnd].
  change (run_orders (AddOrder <$> m :: ms) idx)
    with (run_orders (AddOrder <$> ms) (spec_orders (AddOrder m) idx)).
  rewrite IH by done. cbn [list_find spec_orders].
  case_decide as Hd.
  - subst ref. destruct (list_find _ ms) as [[i m']|] eqn:E.
    + exfalso. apply Hm. apply list_find_Some in E as (Hi & <- & _).
      apply list_elem_of_fmap. exists m'. split; [done|]. by eapply list_elem_of_lookup_2.
    + by rewrite lookup_insert_eq.
  - destruct (list_find _ ms) as [[i m']|]; [done|]. by rewrite lookup_insert_ne.
Qed.

Lemma run_adds_elem (ms : list AddOrderMsg) ref r :
  NoDup (ao_order_ref <$> ms) →
  run_orders (AddOrder <$> ms) ∅ !! ref = Some r ↔
  ∃ m, m ∈ ms ∧ ao_order_ref m = ref ∧ r = add_record m.
Proof.
  intros Hnd. rewrite run_adds_lookup by done. split.
  - destruct (list_find _ ms) as [[i m]|] eqn:E; [|by rewrite lookup_empty].
    intros [= <-]. apply list_find_Some in E as (Hi & <- & _).
    exists m. split_and!; [by eapply list_elem_of_lookup_2|done|done].
  - intros (m & Hin & <- & ->).
    destruct (list_find (λ m', ao_order_ref m' = ao_order_ref m) ms) as [[i m']|] eqn:E.
    + apply list_find_Some in E as (Hi & Href & _). do 2 f_equal.
      apply list_elem_of_lookup in Hin as [j Hj].
      assert (i = j) as ->; [|congruence].
      eapply (NoDup_lookup (ao_order_ref <$> ms)); [done|..];
        rewrite list_lookup_fmap; [rewrite Hi; simpl; by rewrite Href|by rewrite Hj].
    + apply list_find_None in E. rewrite Forall_forall in E. by destruct (E m Hin).
Qed.

(** Adds under fresh references are a feed. *)
Lemma adds_feed_ok (ms : list AddOrderMsg) idx :
  NoDup (ao_order_ref <$> ms) → Forall (λ m, ao_shares m ∈u32) ms →
  Forall (λ m, idx !! ao_order_ref m = None) ms → feed_ok idx (AddOrder <$> ms).
Proof.
  revert idx. induction ms as [|m ms IH]; intros idx Hnd Hs Hf; [done|].
  cbn [fmap list_fmap] in Hnd. apply NoDup_cons in Hnd as [Hm Hnd].
  apply Forall_cons in Hs as [Hsm Hs]. apply Forall_cons in Hf as [Hfm Hf].
  split_and!; [done|done|]. apply IH; [done|done|].
  rewrite Forall_forall in *. intros m' Hin. cbn [spec_orders].
  rewrite lookup_insert_ne; [by apply Hf|]. intros E. apply Hm.
  rewrite E. apply list_elem_of_fmap. by exists m'.
Qed.

(** ** Counting levels *)

(** A side has as many levels as prices at which orders rest. *)
Lemma side_length st loc bk bid ps :
  engine_inv st → get_book st loc = Some bk → NoDup ps →
  (∀ p, p ∈ ps ↔ ∃ ref r, get_order st ref = Some r ∧ order_slot r = (loc, bid, p)) →
  length (side_map bid bk) = length ps.
Proof.
  intros Hinv Hbk Hnd Hps. destruct (inv_books _ Hinv _ _ Hbk) as (Hok & _ & _).
  destruct (Hok bid) as [[Hs _] _].
  pose proof (om_keys_NoDup (side_ltb bid) _ Hs) as Hnd'.
  rewrite <- (length_fmap fst). apply Permutation_length, NoDup_Permutation; [done|done|].
  intros p. rewrite Hps. unfold get_order. rewrite <- level_of_is_Some, <- (inv_levels _ Hinv).
  unfold level_at, get_book in *. rewrite Hbk. split.
  - intros ([q l] & -> & Hin)%list_elem_of_fmap. exists l.
    by apply (om_elem_find (side_ltb bid)).
  - intros [l Hl]. apply (om_find_elem (side_ltb bid)) in Hl.
    apply list_elem_of_fmap. by exists (p, l).
Qed.

(** A feed whose messages all miss changes the counters only. *)
Lemma miss_count_range msgs idx : 0 ≤ miss_count msgs idx ≤ Z.of_nat (length msgs).
Proof.
  revert idx. induction msgs as [|msg msgs IH]; intros idx; [simpl; lia|].
  cbn [miss_count length]. specialize (IH (spec_orders msg idx)). destruct (misses _ _); lia.
Qed.

Lemma run_all_miss msgs st :
  miss_count msgs (order_index st) = Z.of_nat (length msgs) →
  order_index (run msgs st) = order_index st ∧ books (run msgs st) = books st ∧
  instruments (run msgs st) = instruments st.
Proof.
  revert st. induction msgs as [|msg msgs IH]; intros st Hm; [done|].
  cbn [miss_count length] in Hm. pose proof (miss_count_range msgs (spec_orders msg (order_index st))).
  destruct (misses msg (order_index st)) eqn:E; [|lia].
  assert (handle msg st = count_skipped st) as Hh.
  { destruct (touched msg (order_index st)) as [loc|] eqn:Et.
    - exfalso. unfold misses in E. destruct msg as [m|m|m|m|m|m|m|m|m]; try done; simpl in Et;
        apply fmap_Some in Et as (r & Hr & _); simpl in E; by rewrite Hr in E.
    - destruct (handle_untouched msg st Et) as [_ Hu].
      change (unknown_ref msg st) with (misses msg (order_index st)) in Hu. by rewrite E in Hu. }
  rewrite run_cons, Hh. apply (IH (count_message (count_skipped st))).
  assert (order_index (count_message (handle msg st)) = spec_orders msg (order_index st)) as Ho
    by apply handle_orders.
  rewrite Hh in Ho. rewrite Ho. lia.
Qed.

Lemma adds_miss_count ms idx : miss_count (AddOrder <$> ms) idx = 0.
Proof. revert idx. induction ms as [|m ms IH]; intros idx; [done|]. apply IH. Qed.

(** ** Engines without orders *)

Lemma no_orders_inv st : order_index st = ∅ → books st = ∅ → engine_inv st.
Proof.
  intros Ho Hb. split.
  - intros [[loc b] p]. unfold level_at, level_of, orders_at. rewrite Ho, Hb.
    by rewrite lookup_empty, map_sum_empty.
  - intros loc bk Hbk. rewrite Hb in Hbk. by rewrite lookup_empty in Hbk.
  - intros ref r Hr. rewrite Ho in Hr. by rewrite lookup_empty in Hr.
Qed.

(** Adds at registered locates leave the instruments alone. *)
Lemma run_adds_instruments ms st :
  Forall (λ m, is_Some (instruments st !! ao_stock_locate m)) ms →
  instruments (run (AddOrder <$> ms) st) = instruments st.
Proof.
  revert st. induction ms as [|m ms IH]; intros st Hms; [done|].
  apply Forall_cons in Hms as [[i Hi] Hms].
  assert (instruments (count_message (handle (AddOrder m) st)) = instruments st) as E.
  { destruct (handle_write (AddOrder m) st (ao_stock_locate m) eq_refl) as [_ Hins _ _ _ _ _].
    change (instruments (handle (AddOrder m) st) = instruments st).
    rewrite Hins, Hi. by destruct (books st !! _). }
  change (AddOrder <$> m :: ms) with (AddOrder m :: (AddOrder <$> ms)).
  rewrite run_cons, IH, E; [done|]. by rewrite E.
Qed.
