(* ===== verification/BenchBook.v ===== *)
(** The micro benchmarks of [bench/bench_book_engine.cpp]: deletes, replaces and
    executions on a book seeded with [n] resting orders.

    A benchmark is the state of its loop after a number of iterations.  Members that
    the source leaves alone have the initialisers of [include/itch/messages.h]. *)

From S2P Require Import Prelude Messages StdMap OrderBook BookEngine Snapshot Pipeline Bench.
From Stdlib Require Import Strings.Ascii.

#[local] Open Scope Z_scope.

Module BookBench.

Definition make_add (ref : Z) (side : ascii) (shares price_raw : Z) : AddOrderMsg := {|
  ao_stock_locate := 1; ao_tracking_number := 0; ao_timestamp := 34200000000000;
  ao_order_ref := ref; ao_side := side; ao_shares := shares; ao_stock := "";
  ao_price := mkPrice price_raw |}.

Definition make_delete (ref : Z) : OrderDeleteMsg := {|
  od_stock_locate := 1; od_tracking_number := 0; od_timestamp := 34200000000001;
  od_order_ref := ref |}.

Definition make_replace (orig next shares price : Z) : OrderReplaceMsg := {|
  or_stock_locate := 1; or_tracking_number := 0; or_timestamp := 34200000000002;
  or_original_order_ref := orig; or_new_order_ref := next; or_shares := shares;
  or_price := mkPrice price |}.

Definition make_execute (ref shares : Z) : OrderExecutedMsg := {|
  oe_stock_locate := 1; oe_tracking_number := 0; oe_timestamp := 34200000000003;
  oe_order_ref := ref; oe_executed_shares := shares; oe_match_number := 0 |}.

Definition aapl : InstrumentInfo := {|
  ii_stock_locate := 1; ii_symbol := "AAPL"; ii_trading_state := "T"%char;
  ii_round_lot_size := 100; ii_market_category := zero; ii_financial_status := zero |}.

(** The message of one turn of the seeding loop. *)
Definition seed_add (i : Z) : AddOrderMsg :=
  make_add (i + 1) (if i mod 2 =? 0 then "B"%char else "S"%char) 100 (1000000 + i mod 100).

Definition seed_adds (n : nat) : list AddOrderMsg := (λ i, seed_add (Z.of_nat i)) <$> seq 0 n.

Section bench.
Context `{MapOrder} (now : nat → Z).

Definition seed_engine (n : nat) (s : System) : outcome System :=
  let s := on_engine (set_snapshot_interval UINT64_MAX)
    (on_engine (register_instrument aapl) s) in
  apply_msgs now (AddOrder <$> seed_adds n) s.

(** A new engine on the same publisher. *)
Definition new_engine (s : System) : System := {|
  sys_engine := Engine_init; sys_published := sys_published s |}.

(** [idx] is an [int]. *)
Record Loop := mkLoop { lp_system : System; lp_idx : Z; lp_next_ref : Z }.

Definition delete_body (n : nat) (l : Loop) : outcome Loop :=
  l ← (if Z.of_nat n <=? lp_idx l then
         s ← seed_engine n (new_engine (lp_system l)); Ret (mkLoop s 0 0)
       else Ret l);
  s ← apply_msg now (OrderDelete (make_delete (lp_idx l + 1))) (lp_system l);
  idx ← int_incr (lp_idx l);
  Ret (mkLoop s idx 0).

Definition BM_DeleteOrder (n iterations : nat) : outcome Loop :=
  s ← seed_engine n System_init;
  iterate (delete_body n) iterations (mkLoop s 0 0).

Definition replace_body (n : nat) (l : Loop) : outcome Loop :=
  j ← int_rem (lp_idx l) (Z.of_nat n);
  s ← apply_msg now (OrderReplace (make_replace (j + 1) (lp_next_ref l) 200 1000050))
        (lp_system l);
  idx ← int_incr (lp_idx l);
  Ret (mkLoop s idx (u64 (lp_next_ref l + 1))).

Definition BM_ReplaceOrder (n iterations : nat) : outcome Loop :=
  s ← seed_engine n System_init;
  iterate (replace_body n) iterations (mkLoop s 0 (Z.of_nat n + 1)).

Definition execute_body (n : nat) (l : Loop) : outcome Loop :=
  j ← int_rem (lp_idx l) (Z.of_nat n);
  s ← apply_msg now (OrderExecuted (make_execute (j + 1) 1)) (lp_system l);
  idx ← int_incr (lp_idx l);
  Ret (mkLoop s idx 0).

Definition BM_ExecuteOrder (n iterations : nat) : outcome Loop :=
  s ← seed_engine n System_init;
  iterate (execute_body n) iterations (mkLoop s 0 0).

End bench.
End BookBench.
