(* ===== verification/BenchBookTheorems.v ===== *)
(** What the micro benchmarks of [bench/bench_book_engine.cpp] measure: deletes
    hit an order at every iteration; replaces do so once per seeded order and
    executions a hundred times, and after that they measure messages about
    unknown references. *)

From S2P Require Import Prelude Messages StdMap OrderBook BookEngine EngineLevels.
From S2P Require Import EngineInvariant EngineProperties Snapshot Pipeline Bench BenchBook.
From Stdlib Require Import Strings.Ascii.

#[local] Open Scope Z_scope.
Import BookBench.

(** ** The seeded engine *)

Definition base_engine : Engine :=
  set_snapshot_interval UINT64_MAX (register_instrument aapl Engine_init).

Definition seeded (n : nat) : Engine := run (AddOrder <$> seed_adds n) base_engine.

Lemma seed_refs_NoDup n : NoDup (ao_order_ref <$> seed_adds n).
Proof.
  unfold seed_adds. rewrite <- list_fmap_compose.
  apply NoDup_fmap_2_strong; [|apply NoDup_seq]. intros i j _ _. simpl. lia.
Qed.

Lemma seed_lookup n ref :
  order_index (seeded n) !! ref =
  if decide (1 ≤ ref ≤ Z.of_nat n) then Some (add_record (seed_add (ref - 1))) else None.
Proof.
  unfold seeded. rewrite run_order_index. change (order_index base_engine) with (∅ : gmap Z OrderRecord).
  apply option_eq. intros r. rewrite run_adds_elem by apply seed_refs_NoDup.
  unfold seed_adds. setoid_rewrite list_elem_of_fmap. setoid_rewrite elem_of_seq. split.
  - intros (m & (i & -> & Hi) & <- & ->). simpl. rewrite decide_True by lia.
    by rewrite Z.add_simpl_r.
  - case_decide; [|done]. intros [= <-]. exists (seed_add (ref - 1)).
    split; [exists (Z.to_nat (ref - 1)); split; [f_equal; lia|lia]|].
    split; [simpl; lia|done].
Qed.

Section bench.
Context `{MapOrder} (now : nat → Z).

Lemma quiet_seeded n room p :
  Z.of_nat (n + room) < UINT64_MAX →
  quiet {| sys_engine := seeded n; sys_published := p |} room.
Proof.
  intros Hn. unfold seeded. destruct (run_config (AddOrder <$> seed_adds n) base_engine)
    as (Hm & Hi & _); [done|].
  unfold quiet. cbn [sys_engine]. rewrite Hm, Hi. unfold seed_adds. rewrite !length_fmap, length_seq.
  cbn [base_engine messages_processed]. unfold UINT64_MAX in *. simpl messages_processed.
  rewrite u64_id by lia. split; [done|]. lia.
Qed.

Lemma seed_engine_spec n p :
  Z.of_nat n < UINT64_MAX →
  seed_engine now n {| sys_engine := Engine_init; sys_published := p |} =
  Ret {| sys_engine := seeded n; sys_published := p |}.
Proof.
  intros Hn. unfold seed_engine, on_engine. cbn [sys_engine sys_published].
  destruct (apply_msgs_quiet now (AddOrder <$> seed_adds n)
    {| sys_engine := base_engine; sys_published := p |} 0) as [E _].
  - unfold quiet. cbn [sys_engine]. unfold seed_adds. rewrite !length_fmap, length_seq.
    unfold UINT64_MAX in *. simpl. split; [done|]. lia.
  - exact E.
Qed.

(** One message more. *)
Lemma quiet_step msg msgs st p room :
  quiet {| sys_engine := run msgs st; sys_published := p |} (S room) →
  apply_msg now msg {| sys_engine := run msgs st; sys_published := p |} =
    Ret {| sys_engine := run (msgs ++ [msg]) st; sys_published := p |} ∧
  quiet {| sys_engine := run (msgs ++ [msg]) st; sys_published := p |} room.
Proof. intros Hq. rewrite run_app. by apply apply_msg_quiet. Qed.

(** ** Replaces *)

Definition replace_msg (n i : nat) : ParsedMessage :=
  OrderReplace (make_replace (Z.of_nat i mod Z.of_nat n + 1) (Z.of_nat n + 1 + Z.of_nat i)
    200 1000050).

Definition replace_msgs (n k : nat) : list ParsedMessage := replace_msg n <$> seq 0 k.

Lemma replace_msgs_S n k : replace_msgs n (S k) = replace_msgs n k ++ [replace_msg n k].
Proof. unfold replace_msgs. by rewrite seq_S, fmap_app. Qed.

Lemma replace_bench_run n k :
  (0 < n)%nat → Z.of_nat n < 2 ^ 31 → Z.of_nat k < 2 ^ 31 →
  BM_ReplaceOrder now n k =
  Ret (mkLoop {| sys_engine := run (replace_msgs n k) (seeded n); sys_published := None |}
    (Z.of_nat k) (Z.of_nat n + 1 + Z.of_nat k)).
Proof.
  intros Hn Hn31 Hk. unfold BM_ReplaceOrder, System_init.
  rewrite seed_engine_spec by (unfold UINT64_MAX; lia). cbn [mbind outcome_bind].
  destruct (iterate_inv (replace_body now n) (λ i l,
    l = mkLoop {| sys_engine := run (replace_msgs n i) (seeded n); sys_published := None |}
      (Z.of_nat i) (Z.of_nat n + 1 + Z.of_nat i) ∧ quiet (lp_system l) (k - i)) k
    (mkLoop {| sys_engine := seeded n; sys_published := None |} 0 (Z.of_nat n + 1)))
    as (l & E & Hl & _).
  - split; [f_equal; lia|]. apply quiet_seeded. unfold UINT64_MAX. lia.
  - intros i l Hi [-> Hq]. cbn [lp_system] in Hq. replace (k - i)%nat with (S (k - S i)) in Hq by lia.
    destruct (quiet_step (replace_msg n i) _ _ _ _ Hq) as [Ea Hq'].
    unfold replace_body. cbn [lp_idx lp_next_ref lp_system].
    rewrite int_rem_pos by lia. cbn [mbind outcome_bind].
    change (OrderReplace (make_replace _ _ _ _)) with (replace_msg n i). rewrite Ea.
    cbn [mbind outcome_bind]. rewrite int_incr_small by lia. cbn [mbind outcome_bind].
    eexists. split; [done|]. rewrite replace_msgs_S. split; [|done].
    rewrite u64_id by lia. f_equal; lia.
  - rewrite E. by rewrite Hl.
Qed.

(** What rests after [k] replaces, and how many have missed. *)
Lemma replace_orders n k :
  (0 < n)%nat →
  let idx := run_orders (replace_msgs n k) (order_index (seeded n)) in
  (∀ ref, 1 ≤ ref ≤ Z.of_nat n →
    idx !! ref =
    if decide (Z.of_nat k < ref) then Some (add_record (seed_add (ref - 1))) else None) ∧
  miss_count (replace_msgs n k) (order_index (seeded n)) = Z.max 0 (Z.of_nat k - Z.of_nat n).
Proof.
  intros Hn. induction k as [|k [IH1 IH2]].
  { split; [|simpl; lia]. intros ref Href. simpl. rewrite seed_lookup.
    by rewrite !decide_True by lia. }
  rewrite replace_msgs_S, run_orders_app, miss_count_app, IH2.
  set (idx := run_orders (replace_msgs n k) (order_index (seeded n))) in *.
  pose proof (Z.mod_pos_bound (Z.of_nat k) (Z.of_nat n) ltac:(lia)) as Hmod.
  pose proof (IH1 (Z.of_nat k mod Z.of_nat n + 1) ltac:(lia)) as Horig.
  cbn [run_orders fold_left spec_orders replace_msg make_replace or_original_order_ref
    or_new_order_ref miss_count].
  unfold misses, replace_msg. cbn [looked_up make_replace or_original_order_ref].
  destruct (decide (Z.of_nat k < Z.of_nat n)) as [Hlt|Hge].
  - rewrite Z.mod_small in * by lia. rewrite decide_True in Horig by lia. rewrite Horig.
    split; [|simpl; lia]. intros ref Href. rewrite lookup_insert_ne by lia.
    destruct (decide (ref = Z.of_nat k + 1)) as [->|Hne].
    + rewrite lookup_delete_eq. by rewrite decide_False by lia.
    + rewrite lookup_delete_ne by lia. rewrite IH1 by lia. by repeat case_decide; try lia.
  - rewrite decide_False in Horig by lia. rewrite Horig. split; [|simpl; lia].
    intros ref Href. rewrite IH1 by lia. by rewrite !decide_False by lia.
Qed.

Lemma seeded_skipped n : Z.of_nat n < UINT64_MAX → skipped_unknown_ref (seeded n) = 0.
Proof.
  intros Hn. unfold seeded, UINT64_MAX in *. rewrite run_skipped.
  - by rewrite adds_miss_count.
  - done.
  - unfold seed_adds. rewrite !length_fmap, length_seq. simpl. lia.
Qed.

(** The counter after a feed on the seeded engine. *)
Lemma seeded_run_skipped n msgs :
  Z.of_nat (n + length msgs) < UINT64_MAX →
  skipped_unknown_ref (run msgs (seeded n)) = miss_count msgs (order_index (seeded n)).
Proof.
  unfold UINT64_MAX. intros Hn.
  rewrite run_skipped; rewrite seeded_skipped by (unfold UINT64_MAX; lia); lia.
Qed.

(** ** Executions *)

Definition execute_msg (n i : nat) : ParsedMessage :=
  OrderExecuted (make_execute (Z.of_nat i mod Z.of_nat n + 1) 1).

Definition execute_msgs (n k : nat) : list ParsedMessage := execute_msg n <$> seq 0 k.

Lemma execute_msgs_S n k : execute_msgs n (S k) = execute_msgs n k ++ [execute_msg n k].
Proof. unfold execute_msgs. by rewrite seq_S, fmap_app. Qed.

Lemma execute_bench_run n k :
  (0 < n)%nat → Z.of_nat n < 2 ^ 31 → Z.of_nat k < 2 ^ 31 →
  BM_ExecuteOrder now n k =
  Ret (mkLoop {| sys_engine := run (execute_msgs n k) (seeded n); sys_published := None |}
    (Z.of_nat k) 0).
Proof.
  intros Hn Hn31 Hk. unfold BM_ExecuteOrder, System_init.
  rewrite seed_engine_spec by (unfold UINT64_MAX; lia). cbn [mbind outcome_bind].
  destruct (iterate_inv (execute_body now n) (λ i l,
    l = mkLoop {| sys_engine := run (execute_msgs n i) (seeded n); sys_published := None |}
      (Z.of_nat i) 0 ∧ quiet (lp_system l) (k - i)) k
    (mkLoop {| sys_engine := seeded n; sys_published := None |} 0 0)) as (l & E & Hl & _).
  - split; [done|]. apply quiet_seeded. unfold UINT64_MAX. lia.
  - intros i l Hi [-> Hq]. cbn [lp_system] in Hq. replace (k - i)%nat with (S (k - S i)) in Hq by lia.
    destruct (quiet_step (execute_msg n i) _ _ _ _ Hq) as [Ea Hq'].
    unfold execute_body. cbn [lp_idx lp_system].
    rewrite int_rem_pos by lia. cbn [mbind outcome_bind].
    change (OrderExecuted (make_execute _ _)) with (execute_msg n i). rewrite Ea.
    cbn [mbind outcome_bind]. rewrite int_incr_small by lia. cbn [mbind outcome_bind].
    eexists. split; [done|]. rewrite execute_msgs_S. split; [|done]. f_equal; lia.
  - rewrite E. by rewrite Hl.
Qed.

(** How often the first [k] executions name the order [j + 1]. *)
Definition executed (n k : nat) (j : Z) : Z :=
  Z.of_nat k / Z.of_nat n + if j <? Z.of_nat k mod Z.of_nat n then 1 else 0.

Lemma executed_S n k j :
  (0 < n)%nat → 0 ≤ j < Z.of_nat n →
  executed n (S k) j =
  executed n k j + if decide (j = Z.of_nat k mod Z.of_nat n) then 1 else 0.
Proof.
  intros Hn Hj. unfold executed. rewrite Nat2Z.inj_succ.
  pose proof (Z.mod_pos_bound (Z.of_nat k) (Z.of_nat n) ltac:(lia)) as Hm.
  pose proof (Z.div_mod (Z.of_nat k) (Z.of_nat n) ltac:(lia)) as Hd.
  set (q := Z.of_nat k / Z.of_nat n) in *. set (r := Z.of_nat k mod Z.of_nat n) in *.
  destruct (decide (r + 1 = Z.of_nat n)) as [Hr|Hr].
  - replace (Z.succ (Z.of_nat k)) with ((q + 1) * Z.of_nat n) by nia.
    rewrite Z.div_mul, Z.mod_mul by lia.
    destruct (Z.ltb_spec j 0), (Z.ltb_spec j r); case_decide; lia.
  - replace (Z.succ (Z.of_nat k)) with (r + 1 + q * Z.of_nat n) by nia.
    rewrite Z.div_add, Z.mod_add, Z.div_small, Z.mod_small by lia.
    destruct (Z.ltb_spec j (r + 1)), (Z.ltb_spec j r); case_decide; lia.
Qed.

Lemma execute_orders n k :
  (0 < n)%nat →
  let idx := run_orders (execute_msgs n k) (order_index (seeded n)) in
  (∀ ref, 1 ≤ ref ≤ Z.of_nat n →
    idx !! ref =
    if decide (executed n k (ref - 1) < 100)
    then Some (set_rec_shares (100 - executed n k (ref - 1)) (add_record (seed_add (ref - 1))))
    else None) ∧
  miss_count (execute_msgs n k) (order_index (seeded n)) =
    Z.max 0 (Z.of_nat k - 100 * Z.of_nat n).
Proof.
  intros Hn. induction k as [|k [IH1 IH2]].
  { split; [|simpl; lia]. intros ref Href. simpl. rewrite seed_lookup. unfold executed.
    cbn [Z.of_nat]. rewrite Z.div_0_l, Z.mod_0_l by lia.
    rewrite (proj2 (Z.ltb_ge _ _)) by lia. by rewrite !decide_True by lia. }
  rewrite execute_msgs_S, run_orders_app, miss_count_app, IH2.
  set (idx := run_orders (execute_msgs n k) (order_index (seeded n))) in *.
  pose proof (Z.mod_pos_bound (Z.of_nat k) (Z.of_nat n) ltac:(lia)) as Hmod.
  pose proof (IH1 (Z.of_nat k mod Z.of_nat n + 1) ltac:(lia)) as Horig.
  rewrite Z.add_simpl_r in Horig.
  assert (executed n k (Z.of_nat k mod Z.of_nat n) = Z.of_nat k / Z.of_nat n) as Hex.
  { unfold executed. by rewrite (proj2 (Z.ltb_ge _ _)), Z.add_0_r by lia. }
  rewrite Hex in Horig. pose proof (Z.div_mod (Z.of_nat k) (Z.of_nat n) ltac:(lia)) as Hdm.
  cbn [run_orders fold_left spec_orders execute_msg make_execute oe_order_ref
    oe_executed_shares miss_count].
  unfold misses, execute_msg. cbn [looked_up make_execute oe_order_ref].
  unfold spec_reduce. destruct (decide (Z.of_nat k / Z.of_nat n < 100)) as [Hlt|Hge].
  - rewrite Horig. cbn [set_rec_shares rec_shares]. split; [|simpl; nia].
    intros ref Href. rewrite executed_S by lia.
    destruct (decide (ref - 1 = Z.of_nat k mod Z.of_nat n)) as [E|Hne].
    + replace (Z.of_nat k mod Z.of_nat n + 1) with ref by lia. rewrite E, Hex.
      destruct (Z.leb_spec (100 - Z.of_nat k / Z.of_nat n) 1).
      * rewrite lookup_delete_eq. by rewrite decide_False by lia.
      * rewrite lookup_insert_eq, decide_True by lia. unfold set_rec_shares. simpl.
        do 2 f_equal. lia.
    + rewrite Z.add_0_r. rewrite <- (IH1 ref Href).
      destruct (_ <=? 1); [rewrite lookup_delete_ne|rewrite lookup_insert_ne]; done || lia.
  - rewrite Horig. split; [|simpl; nia]. intros ref Href. rewrite executed_S by lia.
    destruct (decide (ref - 1 = Z.of_nat k mod Z.of_nat n)) as [E|Hne].
    + rewrite E, Hex, decide_False by lia. replace ref with (Z.of_nat k mod Z.of_nat n + 1) by lia.
      done.
    + rewrite Z.add_0_r. by apply IH1.
Qed.

(** ** Deletes *)

Definition delete_msg (i : nat) : ParsedMessage := OrderDelete (make_delete (Z.of_nat i + 1)).
Definition delete_msgs (j : nat) : list ParsedMessage := delete_msg <$> seq 0 j.

Lemma delete_msgs_S j : delete_msgs (S j) = delete_msgs j ++ [delete_msg j].
Proof. unfold delete_msgs. by rewrite seq_S, fmap_app. Qed.

Lemma delete_orders n j :
  (j ≤ n)%nat →
  (∀ ref, run_orders (delete_msgs j) (order_index (seeded n)) !! ref =
    if decide (Z.of_nat j < ref ≤ Z.of_nat n) then Some (add_record (seed_add (ref - 1))) else None) ∧
  miss_count (delete_msgs j) (order_index (seeded n)) = 0.
Proof.
  induction j as [|j IH]; intros Hj.
  { split; [|done]. intros ref. simpl. rewrite seed_lookup. by repeat case_decide; try lia. }
  destruct IH as [IH1 IH2]; [lia|].
  rewrite delete_msgs_S, run_orders_app, miss_count_app, IH2.
  set (idx := run_orders (delete_msgs j) (order_index (seeded n))) in *.
  pose proof (IH1 (Z.of_nat j + 1)) as Horig. rewrite decide_True in Horig by lia.
  cbn [run_orders fold_left spec_orders delete_msg make_delete od_order_ref miss_count].
  unfold misses, delete_msg. cbn [looked_up make_delete od_order_ref]. rewrite Horig.
  split; [|done]. intros ref. destruct (decide (ref = Z.of_nat j + 1)) as [->|Hne].
  - rewrite lookup_delete_eq. by rewrite decide_False by lia.
  - rewrite lookup_delete_ne by done. rewrite IH1. by repeat case_decide; try lia.
Qed.

(** The loop is [j] deletes into its round. *)
Definition delete_loop (n j : nat) : Loop :=
  mkLoop {| sys_engine := run (delete_msgs j) (seeded n); sys_published := None |} (Z.of_nat j) 0.

Lemma delete_round n j :
  (j < n)%nat → Z.of_nat n < 2 ^ 31 →
  delete_body now n (delete_loop n j) = Ret (delete_loop n (S j)).
Proof.
  intros Hj Hn. unfold delete_body, delete_loop. cbn [lp_idx lp_system].
  rewrite (proj2 (Z.leb_gt _ _)) by lia. cbn [mbind outcome_bind lp_idx lp_system].
  assert (quiet {| sys_engine := run (delete_msgs j) (seeded n); sys_published := None |} 1) as Hq.
  { unfold seeded. rewrite <- run_app. unfold quiet. cbn [sys_engine].
    destruct (run_config ((AddOrder <$> seed_adds n) ++ delete_msgs j) base_engine)
      as (-> & -> & _); [done|].
    unfold seed_adds, delete_msgs. rewrite length_app, !length_fmap, !length_seq. unfold UINT64_MAX.
    simpl messages_processed. rewrite u64_id by lia. split; [done|]. lia. }
  destruct (quiet_step (delete_msg j) _ _ _ _ Hq) as [Ea _].
  change (OrderDelete (make_delete _)) with (delete_msg j). rewrite Ea.
  cbn [mbind outcome_bind]. rewrite int_incr_small by lia. cbn [mbind outcome_bind].
  rewrite <- delete_msgs_S. do 2 f_equal. lia.
Qed.

Lemma delete_bench_run n k :
  (0 < n)%nat → Z.of_nat n < 2 ^ 31 →
  ∃ j, (j ≤ n)%nat ∧ BM_DeleteOrder now n k = Ret (delete_loop n j).
Proof.
  intros Hn Hn31. unfold BM_DeleteOrder, System_init.
  rewrite seed_engine_spec by (unfold UINT64_MAX; lia). cbn [mbind outcome_bind].
  destruct (iterate_inv (delete_body now n) (λ _ l, ∃ j, (j ≤ n)%nat ∧ l = delete_loop n j) k
    (mkLoop {| sys_engine := seeded n; sys_published := None |} 0 0)) as (l & E & j & Hj & Hl).
  - exists 0%nat. split; [lia|done].
  - intros i l Hi (j & Hj & ->). destruct (decide (j < n)%nat) as [Hlt|Hge].
    + eexists. split; [by apply delete_round|]. exists (S j). split; [lia|done].
    + assert (j = n) as -> by lia. exists (delete_loop n 1). split; [|exists 1%nat; split; [lia|done]].
      rewrite <- (delete_round n 0) by lia. unfold delete_body at 1 2, delete_loop.
      cbn [lp_idx lp_system]. rewrite (proj2 (Z.leb_le _ _)) by lia.
      rewrite (proj2 (Z.leb_gt (Z.of_nat n) (Z.of_nat 0))) by lia.
      unfold new_engine. cbn [sys_published].
      by rewrite seed_engine_spec by (unfold UINT64_MAX; lia).
  - exists j. by rewrite E, Hl.
Qed.

End bench.

(** ** Properties *)

(** The delete benchmark deletes: for any positive number of seeded
    orders and any number of iterations the loop runs without undefined behaviour and no
    delete has missed; what rests are the seeded orders after the last one
    deleted. *)
Theorem delete_bench_hits `{MapOrder} now n k :
  (0 < n)%nat → Z.of_nat n < 2 ^ 31 →
  ∃ l, BM_DeleteOrder now n k = Ret l ∧ 0 ≤ lp_idx l ≤ Z.of_nat n ∧
    skipped_unknown_ref (sys_engine (lp_system l)) = 0 ∧
    ∀ ref, is_Some (get_order (sys_engine (lp_system l)) ref) ↔ lp_idx l < ref ≤ Z.of_nat n.
Proof.
  intros Hn Hn31. destruct (delete_bench_run now n k Hn Hn31) as (j & Hj & ->).
  exists (delete_loop n j). split; [done|]. cbn [delete_loop lp_idx lp_system sys_engine].
  destruct (delete_orders n j Hj) as [Ho Hm]. split; [lia|split].
  - rewrite seeded_run_skipped; [done|].
    unfold delete_msgs, UINT64_MAX. rewrite length_fmap, length_seq. lia.
  - intros ref. unfold get_order. rewrite run_order_index, Ho. case_decide; [by split|].
    split; [by intros [? ?]|done].
Qed.

Lemma delete_bench_hits_witness :
  ∃ l, BM_DeleteOrder (λ _, 0) 3 4 = Ret l ∧ skipped_unknown_ref (sys_engine (lp_system l)) = 0.
Proof.
  destruct (delete_bench_hits (λ _, 0) 3 4) as (l & E & _ & Hs & _); [lia|lia|].
  exists l. split; [exact E|exact Hs].
Defined.

(** The replace benchmark runs dry: every seeded order is replaced once, and
    from iteration [n + 1] on every replace names a reference that is gone, so
    that the loop measures the unknown-reference path: the skipped counter is
    the number of iterations past [n], and orders, books and instruments stay
    as they were after [n]. *)
Theorem replace_bench_runs_dry `{MapOrder} now n k :
  (0 < n)%nat → Z.of_nat n < 2 ^ 31 → Z.of_nat k < 2 ^ 31 →
  ∃ l, BM_ReplaceOrder now n k = Ret l ∧
    skipped_unknown_ref (sys_engine (lp_system l)) = Z.max 0 (Z.of_nat k - Z.of_nat n) ∧
    ((n ≤ k)%nat → ∃ l0, BM_ReplaceOrder now n n = Ret l0 ∧
      order_index (sys_engine (lp_system l)) = order_index (sys_engine (lp_system l0)) ∧
      books (sys_engine (lp_system l)) = books (sys_engine (lp_system l0)) ∧
      instruments (sys_engine (lp_system l)) = instruments (sys_engine (lp_system l0))).
Proof.
  intros Hn Hn31 Hk. rewrite !replace_bench_run by done. eexists. split; [done|].
  cbn [lp_system sys_engine]. destruct (replace_orders n k Hn) as [_ Hm]. split.
  - rewrite seeded_run_skipped; [done|].
    unfold replace_msgs, UINT64_MAX. rewrite length_fmap, length_seq. lia.
  - intros Hnk. eexists. split; [done|]. cbn [lp_system sys_engine].
    assert (replace_msgs n k = replace_msgs n n ++ (replace_msg n <$> seq n (k - n))) as E.
    { unfold replace_msgs. rewrite <- fmap_app, <- seq_app. do 2 f_equal. lia. }
    rewrite E in *. rewrite run_app. apply run_all_miss.
    rewrite run_order_index. rewrite miss_count_app in Hm.
    destruct (replace_orders n n Hn) as [_ Hm0]. rewrite length_fmap, length_seq. lia.
Qed.

Lemma replace_bench_runs_dry_witness :
  ∃ l, BM_ReplaceOrder (λ _, 0) 2 5 = Ret l ∧ skipped_unknown_ref (sys_engine (lp_system l)) = 3.
Proof.
  destruct (replace_bench_runs_dry (λ _, 0) 2 5) as (l & E & Hs & _); [lia|lia|lia|].
  exists l. split; [exact E|]. rewrite Hs. reflexivity.
Defined.

(** The execution benchmark runs dry: after a hundred executions of one
    share each seeded order is gone, and from iteration [100 n + 1] on every
    execution names an unknown reference; before, each order has lost one share
    for every turn of the loop over the [n] references. *)
Theorem execute_bench_runs_dry `{MapOrder} now n k :
  (0 < n)%nat → Z.of_nat n < 2 ^ 31 → Z.of_nat k < 2 ^ 31 →
  ∃ l, BM_ExecuteOrder now n k = Ret l ∧
    skipped_unknown_ref (sys_engine (lp_system l)) = Z.max 0 (Z.of_nat k - 100 * Z.of_nat n) ∧
    ∀ ref, 1 ≤ ref ≤ Z.of_nat n →
      rec_shares <$> get_order (sys_engine (lp_system l)) ref =
      if decide (executed n k (ref - 1) < 100)
      then Some (100 - executed n k (ref - 1)) else None.
Proof.
  intros Hn Hn31 Hk. rewrite execute_bench_run by done. eexists. split; [done|].
  cbn [lp_system sys_engine]. destruct (execute_orders n k Hn) as [Ho Hm]. split.
  - rewrite seeded_run_skipped; [done|].
    unfold execute_msgs, UINT64_MAX. rewrite length_fmap, length_seq. lia.
  - intros ref Href. unfold get_order. rewrite run_order_index, Ho by done. by case_decide.
Qed.

Lemma execute_bench_runs_dry_witness :
  ∃ l, BM_ExecuteOrder (λ _, 0) 1 103 = Ret l ∧ skipped_unknown_ref (sys_engine (lp_system l)) = 3.
Proof.
  destruct (execute_bench_runs_dry (λ _, 0) 1 103) as (l & E & Hs & _); [lia|lia|lia|].
  exists l. split; [exact E|]. rewrite Hs. reflexivity.
Defined.
