(* ===== verification/BenchParser.v ===== *)
(** The parser benchmarks ([bench/bench_parser.cpp]): the big-endian writes, the
    messages built with them and the loops that parse these.  A store outside
    the vector is undefined behaviour. *)

From S2P Require Import Prelude ByteOrder Messages Parser WireFormat FeedReader Bench.
From Stdlib Require Import Strings.Byte Strings.Ascii.

#[local] Open Scope Z_scope.

(** [b[i] = z] on a vector of bytes. *)
Definition store (b : list byte) (i : nat) (z : Z) : outcome (list byte) :=
  if decide (i < length b)%nat then Ret (<[i := byte_of z]> b) else Undef.

Definition byte_at (v shift : Z) : Z := Z.land (Z.shiftr v shift) 255.

Definition write_be16 (b : list byte) (o : nat) (v : Z) : outcome (list byte) :=
  b ← store b o (byte_at v 8); store b (o + 1) (Z.land v 255).

Definition write_be32 (b : list byte) (o : nat) (v : Z) : outcome (list byte) :=
  b ← store b o (byte_at v 24); b ← store b (o + 1) (byte_at v 16);
  b ← store b (o + 2) (byte_at v 8); store b (o + 3) (Z.land v 255).

Definition write_be48 (b : list byte) (o : nat) (v : Z) : outcome (list byte) :=
  b ← store b o (byte_at v 40); b ← store b (o + 1) (byte_at v 32);
  b ← store b (o + 2) (byte_at v 24); b ← store b (o + 3) (byte_at v 16);
  b ← store b (o + 4) (byte_at v 8); store b (o + 5) (Z.land v 255).

Definition write_be64 (b : list byte) (o : nat) (v : Z) : outcome (list byte) :=
  b ← store b o (byte_at v 56); b ← store b (o + 1) (byte_at v 48);
  b ← store b (o + 2) (byte_at v 40); b ← store b (o + 3) (byte_at v 32);
  b ← store b (o + 4) (byte_at v 24); b ← store b (o + 5) (byte_at v 16);
  b ← store b (o + 6) (byte_at v 8); store b (o + 7) (Z.land v 255).

Definition store_char (b : list byte) (i : nat) (c : ascii) : outcome (list byte) :=
  store b i (byte_val (byte_of_ascii c)).

(** [for (int i = 28; i < 32; ++i) buf[i] = ' ';] *)
Fixpoint store_spaces (b : list byte) (i n : nat) : outcome (list byte) :=
  match n with
  | O => Ret b
  | S n => b ← store_char b i " "%char; store_spaces b (S i) n
  end.

Definition make_add_order : outcome MessageBuffer :=
  let buf := replicate 36 x00 in
  buf ← store_char buf 0 "A"%char;
  buf ← write_be16 buf 1 1;
  buf ← write_be16 buf 3 0;
  buf ← write_be48 buf 5 34200000000000;
  buf ← write_be64 buf 11 123456789;
  buf ← store_char buf 19 "B"%char;
  buf ← write_be32 buf 20 100;
  buf ← store_char buf 24 "A"%char; buf ← store_char buf 25 "A"%char;
  buf ← store_char buf 26 "P"%char; buf ← store_char buf 27 "L"%char;
  buf ← store_spaces buf 28 4;
  write_be32 buf 32 1894200.

Definition make_order_delete : outcome MessageBuffer :=
  let buf := replicate 19 x00 in
  buf ← store_char buf 0 "D"%char;
  buf ← write_be16 buf 1 1;
  buf ← write_be16 buf 3 0;
  buf ← write_be48 buf 5 34200000000001;
  write_be64 buf 11 123456789.

Definition make_order_replace : outcome MessageBuffer :=
  let buf := replicate 35 x00 in
  buf ← store_char buf 0 "U"%char;
  buf ← write_be16 buf 1 1;
  buf ← write_be16 buf 3 0;
  buf ← write_be48 buf 5 34200000000002;
  buf ← write_be64 buf 11 111111111;
  buf ← write_be64 buf 19 222222222;
  buf ← write_be32 buf 27 200;
  write_be32 buf 31 1894300.

(** The buffer of [BM_ParseUnknownType]. *)
Definition unknown_type : outcome MessageBuffer := store (replicate 10 x00) 0 255.

(** What the iterations of a benchmark parse. *)
Definition parse_loop (iterations : nat) (buf : MessageBuffer)
  : outcome (list (option ParsedMessage)) :=
  iterate (λ results, result ← parse buf; Ret (results ++ [result])) iterations [].

(** A benchmark on the buffer that [make] builds. *)
Definition parse_bench (make : outcome MessageBuffer) (iterations : nat)
  : outcome (list (option ParsedMessage)) :=
  buf ← make; parse_loop iterations buf.

Definition BM_ParseAddOrder : nat → outcome (list (option ParsedMessage)) :=
  parse_bench make_add_order.

Definition BM_ParseOrderDelete : nat → outcome (list (option ParsedMessage)) :=
  parse_bench make_order_delete.

Definition BM_ParseOrderReplace : nat → outcome (list (option ParsedMessage)) :=
  parse_bench make_order_replace.

Definition BM_ParseUnknownType : nat → outcome (list (option ParsedMessage)) :=
  parse_bench unknown_type.

(** ** Writes *)

(** Consecutive stores. *)
Fixpoint store_all (b : list byte) (o : nat) (zs : list Z) : outcome (list byte) :=
  match zs with
  | [] => Ret b
  | z :: zs => b ← store b o z; store_all b (o + 1) zs
  end.

Lemma store_all_spec b o zs :
  store_all b o zs =
  if decide (o + length zs ≤ length b ∨ zs = [])%nat then Ret (write_at b o (byte_of <$> zs))
  else Undef.
Proof.
  revert b o. induction zs as [|z zs IH]; intros b o.
  { simpl. rewrite decide_True by auto. unfold write_at. simpl.
    by rewrite Nat.add_0_r, take_drop. }
  simpl. unfold store. case_decide as Hlt.
  2: { simpl. rewrite decide_False; [done|]. intros [?|?]; [lia|done]. }
  cbn [mbind outcome_bind]. rewrite IH, length_insert.
  destruct (decide (o + 1 + length zs ≤ length b)%nat) as [Hle|Hgt].
  - rewrite !decide_True by (left; lia). f_equal. unfold write_at. cbn [fmap list_fmap length].
    assert (<[o := byte_of z]> b = (take o b ++ [byte_of z]) ++ drop (S o) b) as ->
      by (rewrite insert_take_drop by done; by rewrite <- app_assoc).
    assert (length (take o b ++ [byte_of z]) = (o + 1)%nat) as Hl1
      by (rewrite length_app, length_take_le; simpl; lia).
    rewrite <- Hl1, take_app_length, <- drop_drop, drop_app_length, drop_drop.
    rewrite <- app_assoc. simpl. change (list_fmap _ _ byte_of zs) with (byte_of <$> zs).
    rewrite !length_fmap. do 4 f_equal. lia.
  - destruct zs as [|z' zs].
    + simpl in *. lia.
    + rewrite !decide_False; [done|..]; intros [?|?]; simpl in *; lia || done.
Qed.

(** [store_all] with the last store unwound, as the writes are written. *)
Lemma store_all_last b o z : store_all b o [z] = store b o z.
Proof. simpl. by destruct (store b o z). Qed.

Lemma byte_of_byte_at v n : byte_of (byte_at v (8 * Z.of_nat n)) = byte_of (v / 256 ^ Z.of_nat n).
Proof.
  unfold byte_of, byte_at. f_equal. f_equal. f_equal.
  change 255 with (Z.ones 8). rewrite Z.land_ones by lia. unfold u8.
  rewrite Z.mod_mod by done. rewrite Z.shiftr_div_pow2 by lia.
  change 256 with (2 ^ 8). by rewrite Z.pow_mul_r by lia.
Qed.

(** A write is the big-endian bytes of the value. *)
Definition write_spec (n : nat) (b : list byte) (o : nat) (v : Z) : outcome (list byte) :=
  if decide (o + n ≤ length b)%nat then Ret (write_at b o (be_bytes n v)) else Undef.

(** The values that a write stores, most significant first. *)
Fixpoint stored (n : nat) (v : Z) : list Z :=
  match n with
  | O => []
  | S n => byte_at v (8 * Z.of_nat n) :: stored n v
  end.

Lemma stored_bytes n v : byte_of <$> stored n v = be_bytes n v.
Proof.
  induction n as [|n IH]; [done|].
  change (byte_of <$> stored (S n) v)
    with (byte_of (byte_at v (8 * Z.of_nat n)) :: (byte_of <$> stored n v)).
  by rewrite byte_of_byte_at, IH.
Qed.

Lemma length_stored n v : length (stored n v) = n.
Proof. induction n; simpl; auto. Qed.

Lemma store_stored n b o v : n ≠ O → store_all b o (stored n v) = write_spec n b o v.
Proof.
  intros Hn. rewrite store_all_spec, stored_bytes, length_stored. unfold write_spec.
  destruct n as [|n]; [done|].
  destruct (decide (o + S n ≤ length b)%nat).
  - by rewrite decide_True by auto.
  - rewrite decide_False; [done|]. by intros [?|?].
Qed.

(** The four writes are [store_all] of the bytes of their width. *)
Ltac unroll_stores :=
  cbn [stored store_all mbind outcome_bind];
  rewrite <- ?Nat.add_assoc; cbn [Nat.add];
  repeat match goal with
    | |- context [8 * Z.of_nat ?k] =>
        let c := eval vm_compute in (8 * Z.of_nat k) in change (8 * Z.of_nat k) with c
    end;
  repeat (let E := fresh in
    match goal with
    | |- ?x = _ => match x with
      | context [store ?b ?i ?z] => destruct (store b i z) eqn:E; cbn [mbind outcome_bind]; try done
      end
    end).

Lemma byte_at_0 v : byte_at v 0 = Z.land v 255.
Proof. unfold byte_at. by rewrite Z.shiftr_0_r. Qed.

Lemma write_be16_spec b o v : write_be16 b o v = write_spec 2 b o v.
Proof.
  rewrite <- store_stored by done. unfold write_be16. rewrite <- byte_at_0. by unroll_stores.
Qed.
Lemma write_be32_spec b o v : write_be32 b o v = write_spec 4 b o v.
Proof.
  rewrite <- store_stored by done. unfold write_be32. rewrite <- byte_at_0. by unroll_stores.
Qed.
Lemma write_be48_spec b o v : write_be48 b o v = write_spec 6 b o v.
Proof.
  rewrite <- store_stored by done. unfold write_be48. rewrite <- byte_at_0. by unroll_stores.
Qed.
Lemma write_be64_spec b o v : write_be64 b o v = write_spec 8 b o v.
Proof.
  rewrite <- store_stored by done. unfold write_be64. rewrite <- byte_at_0. by unroll_stores.
Qed.

Lemma slice_write_at b o bs :
  (o + length bs ≤ length b)%nat → slice (write_at b o bs) o (length bs) = bs.
Proof.
  intros Ho. unfold slice, write_at.
  assert (length (take o b) = o) as E by (rewrite length_take; lia).
  rewrite <- E at 1. rewrite drop_app_length. apply take_app_length.
Qed.

Lemma write_at_outside b o bs i :
  (o + length bs ≤ length b)%nat → (i < o ∨ o + length bs ≤ i)%nat →
  write_at b o bs !! i = b !! i.
Proof.
  intros Ho Hi. unfold write_at. destruct Hi as [Hi|Hi].
  - rewrite lookup_app_l by (rewrite length_take; lia). by apply lookup_take_lt.
  - rewrite lookup_app_r, length_take by (rewrite length_take; lia).
    rewrite lookup_app_r by lia. rewrite lookup_drop. f_equal. lia.
Qed.

(** What a pair of a write and a read of [n] bytes promises. *)
Definition write_then_read (n : nat) (write : list byte → nat → Z → outcome (list byte))
    (read : list byte → nat → outcome Z) : Prop :=
  ∀ b o v,
  match write b o v with
  | Ret b' =>
      (o + n ≤ length b)%nat ∧ read b' o = Ret (v mod 256 ^ Z.of_nat n) ∧
      length b' = length b ∧ (∀ i, (i < o ∨ o + n ≤ i)%nat → b' !! i = b !! i)
  | Throw _ => False
  | Undef => (length b < o + n)%nat
  end.

Lemma write_then_read_intro n write read :
  (∀ b o v, write b o v = write_spec n b o v) →
  (∀ b o, (o + n ≤ length b)%nat → read b o = Ret (be_value (slice b o n))) →
  write_then_read n write read.
Proof.
  intros Hw Hr b o v. rewrite Hw. unfold write_spec. case_decide as Ho; [|lia].
  pose proof (length_be_bytes n v) as Hn.
  split_and!; [done| | |].
  - rewrite Hr by (rewrite length_write_at; lia).
    pose proof (slice_write_at b o (be_bytes n v)) as Hs. rewrite Hn in Hs.
    by rewrite Hs, be_value_bytes by done.
  - apply length_write_at. lia.
  - intros i Hi. apply write_at_outside; lia.
Qed.

(** A loop parses its buffer to the same result every time. *)
Lemma parse_bench_results make result k :
  make ≫= parse = Ret result → parse_bench make k = Ret (replicate k result).
Proof.
  unfold parse_bench. destruct make as [buf|w|]; [|done|done]. cbn [mbind outcome_bind].
  intros Hp. unfold parse_loop.
  destruct (iterate_inv (λ results, r ← parse buf; Ret (results ++ [r]))
    (λ i results, results = replicate i result) k []) as (r & -> & ->); [done| |done].
  intros i r _ ->. rewrite Hp. cbn [mbind outcome_bind]. eexists. split; [done|].
  by rewrite replicate_S_end.
Qed.

(** The writes of the parser benchmarks invert the reads of the parser: at any
    offset of any buffer a write of 2, 4, 6 or 8 bytes is undefined exactly when
    it leaves the buffer, changes no other byte, and is read back as the value
    at its width; and the four benchmarks parse, at every iteration, the
    message that their buffer was written for, the last one none. *)
Theorem bench_buffers k :
  write_then_read 2 write_be16 read_be16 ∧ write_then_read 4 write_be32 read_be32 ∧
  write_then_read 6 write_be48 read_be48 ∧ write_then_read 8 write_be64 read_be64 ∧
  BM_ParseAddOrder k = Ret (replicate k (Some (AddOrder {|
    ao_stock_locate := 1; ao_tracking_number := 0; ao_timestamp := 34200000000000;
    ao_order_ref := 123456789; ao_side := "B"%char; ao_shares := 100; ao_stock := "AAPL";
    ao_price := mkPrice 1894200 |}))) ∧
  BM_ParseOrderDelete k = Ret (replicate k (Some (OrderDelete {|
    od_stock_locate := 1; od_tracking_number := 0; od_timestamp := 34200000000001;
    od_order_ref := 123456789 |}))) ∧
  BM_ParseOrderReplace k = Ret (replicate k (Some (OrderReplace {|
    or_stock_locate := 1; or_tracking_number := 0; or_timestamp := 34200000000002;
    or_original_order_ref := 111111111; or_new_order_ref := 222222222; or_shares := 200;
    or_price := mkPrice 1894300 |}))) ∧
  BM_ParseUnknownType k = Ret (replicate k None).
Proof.
  split_and!.
  - apply write_then_read_intro; [apply write_be16_spec|apply read_be16_slice].
  - apply write_then_read_intro; [apply write_be32_spec|apply read_be32_slice].
  - apply write_then_read_intro; [apply write_be48_spec|apply read_be48_slice].
  - apply write_then_read_intro; [apply write_be64_spec|apply read_be64_slice].
  - apply parse_bench_results. vm_compute. reflexivity.
  - apply parse_bench_results. vm_compute. reflexivity.
  - apply parse_bench_results. vm_compute. reflexivity.
  - apply parse_bench_results. vm_compute. reflexivity.
Qed.
