(* ===== verification/BenchSnapshot.v ===== *)
(** The snapshot benchmark ([bench/bench_snapshot.cpp]): an engine with
    [n_instr] instruments and [levels] price levels a side. *)

From S2P Require Import Prelude Messages StdMap OrderBook BookEngine Snapshot Pipeline Bench.
From Stdlib Require Import Strings.Ascii.
From Stdlib Require Strings.String.

#[local] Open Scope Z_scope.

Module SnapshotBench.

Definition make_add (ref : Z) (side : ascii) (shares price_raw locate : Z) : AddOrderMsg := {|
  ao_stock_locate := locate; ao_tracking_number := 0; ao_timestamp := 34200000000000;
  ao_order_ref := ref; ao_side := side; ao_shares := shares; ao_stock := "";
  ao_price := mkPrice price_raw |}.

(** [while (v > 0 && i >= 0) { buf[i--] = char('A' + v % 26); v /= 26; }] with
    [i + 1] as a natural number. *)
Fixpoint symbol_loop (i1 : nat) (v : Z) (buf : list ascii) : list ascii :=
  match i1 with
  | O => buf
  | S i =>
      if 0 <? v
      then symbol_loop i (v / 26) (<[i := Ascii.ascii_of_nat (Z.to_nat (65 + v mod 26))]> buf)
      else buf
  end.

Definition symbol_for (locate : Z) : string :=
  Strings.String.string_of_list_ascii (symbol_loop 8 locate (replicate 8 " "%char)).

Definition bench_instrument (li : Z) : InstrumentInfo := {|
  ii_stock_locate := u16 li; ii_symbol := symbol_for (u16 li); ii_trading_state := "T"%char;
  ii_round_lot_size := 100; ii_market_category := zero; ii_financial_status := zero |}.

(** The two adds of one turn of the inner loop: instrument [li] (from 1), level
    [l], references from [ref] on. *)
Definition level_adds (ref li l : Z) : list AddOrderMsg := [
  make_add ref "B"%char 100 (u32 (1000000 + u32 (l * 100))) (u16 li);
  make_add (ref + 1) "S"%char 100 (u32 (1010000 + u32 (l * 100))) (u16 li)].

(** The turns of the two loops, in order. *)
Definition turns (n_instr levels : nat) : list (nat * nat) :=
  li ← seq 0 n_instr; l ← seq 0 levels; [(li, l)].

(** [ref] counts up by two a turn. *)
Definition seed_adds (n_instr levels : nat) : list AddOrderMsg :=
  mjoin (imap (λ k '(li, l), level_adds (1 + 2 * Z.of_nat k) (Z.of_nat li + 1) (Z.of_nat l))
    (turns n_instr levels)).

Definition register_all (n_instr : nat) (st : Engine) : Engine :=
  fold_left (λ st li, register_instrument (bench_instrument (Z.of_nat li + 1)) st)
    (seq 0 n_instr) st.

Section bench.
Context `{MapOrder} (now : nat → Z).

Definition seed_engine (n_instr levels : nat) (s : System) : outcome System :=
  let s := on_engine (register_all n_instr) s in
  let s := on_engine (set_snapshot_interval UINT64_MAX) s in
  apply_msgs now (AddOrder <$> seed_adds n_instr levels) s.

(** The snapshot that each iteration builds and drops. *)
Definition BM_BuildSnapshot (n_instr levels : nat) (t : Z) : outcome SystemSnapshot :=
  s ← seed_engine n_instr levels System_init; Ret (build_snapshot t (sys_engine s)).

End bench.
End SnapshotBench.
