(* ===== verification/BenchSnapshotTheorems.v ===== *)
(** The snapshot that [bench/bench_snapshot.cpp] builds has the size that its
    parameters say. *)

From S2P Require Import Prelude Messages StdMap OrderBook BookEngine EngineLevels.
From S2P Require Import EngineInvariant EngineProperties Double Snapshot SnapshotTheorems.
From S2P Require Import Pipeline Bench BenchSnapshot.
From Stdlib Require Import Strings.Ascii.
From Stdlib Require Strings.String.

#[local] Open Scope Z_scope.
Import SnapshotBench.

(** ** Symbols *)

(** The number that a symbol spells, spaces left out. *)
Definition spell (acc : Z) (c : ascii) : Z :=
  if decide (c = " "%char) then acc else acc * 26 + (Z.of_nat (Ascii.nat_of_ascii c) - 65).

Definition spelled (l : list ascii) : Z := foldl spell 0 l.

Definition letter (d : Z) : ascii := Ascii.ascii_of_nat (Z.to_nat (65 + d)).

Lemma letter_spec d :
  0 ≤ d < 26 → letter d ≠ " "%char ∧ Z.of_nat (Ascii.nat_of_ascii (letter d)) - 65 = d.
Proof.
  intros Hd. unfold letter. rewrite Ascii.nat_ascii_embedding by lia. split; [|lia].
  intros E. apply (f_equal Ascii.nat_of_ascii) in E.
  rewrite Ascii.nat_ascii_embedding in E by lia. change (Ascii.nat_of_ascii " ") with 32%nat in E. lia.
Qed.

Definition letters (l : list ascii) : Prop := Forall (λ c, ∃ d, 0 ≤ d < 26 ∧ c = letter d) l.

Lemma spell_letter acc d : 0 ≤ d < 26 → spell acc (letter d) = acc * 26 + d.
Proof. intros Hd. unfold spell. destruct (letter_spec d Hd) as [Hne ->]. by rewrite decide_False. Qed.

Lemma spelled_letters acc l :
  letters l → foldl spell acc l = acc * 26 ^ Z.of_nat (length l) + spelled l.
Proof.
  unfold spelled. intros Hl. revert acc. induction Hl as [|c l (d & Hd & ->) _ IH]; intros acc.
  { simpl. lia. }
  cbn [foldl length]. rewrite !spell_letter, (IH (acc * 26 + d)), (IH (0 * 26 + d)) by done.
  rewrite Nat2Z.inj_succ, Z.pow_succ_r by lia. ring.
Qed.

(** The loop spells [v] in front of the letters it has written. *)
Lemma symbol_loop_spells i1 v l :
  0 ≤ v < 26 ^ Z.of_nat i1 → letters l →
  spelled (symbol_loop i1 v (replicate i1 " "%char ++ l)) =
  v * 26 ^ Z.of_nat (length l) + spelled l.
Proof.
  revert v l. induction i1 as [|i IH]; intros v l Hv Hl; cbn [symbol_loop].
  { assert (v = 0) as -> by (simpl in Hv; lia). simpl. done. }
  destruct (Z.ltb_spec 0 v) as [Hpos|Hz].
  - assert (<[i := letter (v mod 26)]> (replicate (S i) " "%char ++ l) =
      replicate i " "%char ++ letter (v mod 26) :: l) as E.
    { rewrite replicate_S_end, <- app_assoc. rewrite insert_app_r_alt by (by rewrite length_replicate).
      by rewrite length_replicate, Nat.sub_diag. }
    unfold letter in E at 1. rewrite E. clear E.
    pose proof (Z.mod_pos_bound v 26 ltac:(lia)) as Hm.
    rewrite IH.
    + change (letter (v mod 26) :: l) with ([letter (v mod 26)] ++ l).
      unfold spelled at 1. rewrite foldl_app, spelled_letters by done.
      cbn [foldl app length]. rewrite spell_letter by done.
      rewrite Nat2Z.inj_succ, Z.pow_succ_r by lia.
      pose proof (Z.div_mod v 26 ltac:(lia)). nia.
    + split; [apply Z.div_pos; lia|]. apply Z.div_lt_upper_bound; [lia|].
      rewrite Nat2Z.inj_succ, Z.pow_succ_r in Hv by lia. lia.
    + constructor; [|done]. by exists (v mod 26).
  - assert (v = 0) as -> by lia. unfold spelled at 1. rewrite foldl_app.
    assert (foldl spell 0 (replicate (S i) " "%char) = 0) as ->.
    { generalize (S i) as k. clear. intros k. induction k as [|k IH]; [done|]. simpl. done. }
    done.
Qed.

Lemma symbol_for_spells v :
  v ∈u16 → spelled (Strings.String.list_ascii_of_string (symbol_for v)) = v.
Proof.
  intros Hv. unfold symbol_for. rewrite Strings.String.list_ascii_of_string_of_list_ascii.
  rewrite <- (app_nil_r (replicate 8 " "%char)), symbol_loop_spells; [unfold spelled; simpl; lia| |constructor].
  simpl. lia.
Qed.

Lemma symbol_for_inj v w : v ∈u16 → w ∈u16 → symbol_for v = symbol_for w → v = w.
Proof. intros Hv Hw E. rewrite <- (symbol_for_spells v), <- (symbol_for_spells w) by done. by rewrite E. Qed.

(** ** Instruments *)

Lemma register_all_lookup n st loc :
  Z.of_nat n < 2 ^ 16 →
  instruments (register_all n st) !! loc =
  if decide (1 ≤ loc ≤ Z.of_nat n) then Some (bench_instrument loc) else instruments st !! loc.
Proof.
  intros Hn. unfold register_all. induction n as [|n IH].
  { simpl. by rewrite decide_False by lia. }
  rewrite seq_S, fold_left_app. cbn [fold_left register_instrument set_instruments instruments].
  simpl ii_stock_locate. rewrite u16_id by lia.
  destruct (decide (loc = Z.of_nat n + 1)) as [->|Hne].
  - rewrite lookup_insert_eq. by rewrite decide_True by lia.
  - rewrite lookup_insert_ne by done. rewrite IH by lia. by repeat case_decide; try lia.
Qed.

Lemma register_all_frame n st :
  order_index (register_all n st) = order_index st ∧ books (register_all n st) = books st ∧
  messages_processed (register_all n st) = messages_processed st.
Proof.
  unfold register_all. generalize (seq 0 n) as l. intros l. revert st.
  induction l as [|i l IH]; intros st; [done|]. simpl. by destruct (IH (register_instrument
    (bench_instrument (Z.of_nat i + 1)) st)) as (-> & -> & ->).
Qed.

(** ** Orders *)

Lemma elem_of_turns n levels li l :
  (li, l) ∈ turns n levels ↔ (li < n ∧ l < levels)%nat.
Proof.
  unfold turns. rewrite list_elem_of_bind. setoid_rewrite list_elem_of_bind.
  setoid_rewrite elem_of_seq. setoid_rewrite list_elem_of_singleton. split.
  - intros (li' & (l' & [= <- <-] & ?) & ?). lia.
  - intros [? ?]. exists li. split; [exists l; split; [done|lia]|lia].
Qed.

Lemma length_turns n levels : length (turns n levels) = (n * levels)%nat.
Proof.
  assert (∀ (ls : list nat) (a : nat), length (ls ≫= λ l, [(a, l)]) = length ls) as Hinner.
  { intros ls a. induction ls as [|x ls IH]; [done|]. simpl. f_equal. apply IH. }
  assert (∀ lis : list nat,
    length (lis ≫= λ li, seq 0 levels ≫= λ l, [(li, l)]) = (length lis * levels)%nat) as Houter.
  { induction lis as [|li lis IH]; [done|]. rewrite bind_cons, length_app, Hinner, length_seq, IH. done. }
  unfold turns. by rewrite Houter, length_seq.
Qed.

Lemma elem_of_seed_adds n levels m :
  m ∈ seed_adds n levels ↔
  ∃ k li l, turns n levels !! k = Some (li, l) ∧
    m ∈ level_adds (1 + 2 * Z.of_nat k) (Z.of_nat li + 1) (Z.of_nat l).
Proof.
  unfold seed_adds. rewrite list_elem_of_join. split.
  - intros (ms & Hm & Hin). apply elem_of_lookup_imap in Hin as (k & [li l] & -> & Hk).
    by exists k, li, l.
  - intros (k & li & l & Hk & Hm). eexists. split; [exact Hm|].
    apply elem_of_lookup_imap. exists k, (li, l). done.
Qed.

(** References count up. *)
Lemma seed_refs (ts : list (nat * nat)) b :
  ao_order_ref <$> mjoin (imap (λ k '(li, l),
    level_adds (b + 2 * Z.of_nat k) (Z.of_nat li + 1) (Z.of_nat l)) ts) =
  (λ i, b + Z.of_nat i) <$> seq 0 (2 * length ts).
Proof.
  revert b. induction ts as [|[li l] ts IH]; intros b; [done|].
  cbn [imap length mjoin list_join]. rewrite fmap_app.
  replace (2 * S (length ts))%nat with (2 + 2 * length ts)%nat by lia.
  rewrite seq_app, fmap_app. f_equal.
  - simpl. repeat f_equal; lia.
  - specialize (IH (b + 2)). etrans; [|etrans; [exact IH|]].
    + f_equal. f_equal. apply imap_ext. intros k [li' l'] _. simpl. f_equal. lia.
    + change (0 + 2)%nat with (2 + 0)%nat. rewrite <- (fmap_add_seq 2 0), <- list_fmap_compose. apply list_fmap_ext. intros i x _. simpl. lia.
Qed.

Lemma snapshot_refs_NoDup n levels : NoDup (ao_order_ref <$> seed_adds n levels).
Proof.
  unfold seed_adds. rewrite (seed_refs (turns n levels) 1).
  apply NoDup_fmap_2_strong; [|apply NoDup_seq]. intros i j _ _. lia.
Qed.

Lemma length_seed_adds n levels : length (seed_adds n levels) = (2 * (n * levels))%nat.
Proof.
  rewrite <- (length_fmap ao_order_ref). unfold seed_adds.
  by rewrite (seed_refs (turns n levels) 1), length_fmap, length_seq, length_turns.
Qed.

(** ** The seeded engine *)

Definition base_engine (n : nat) : Engine :=
  set_snapshot_interval UINT64_MAX (register_all n Engine_init).

Definition seeded (n levels : nat) : Engine :=
  run (AddOrder <$> seed_adds n levels) (base_engine n).

Section seeded.
Context (n levels : nat) (Hn : Z.of_nat n < 2 ^ 16).
Context (Hsize : Z.of_nat (2 * (n * levels)) < 2 ^ 32 - 1).
Context (Hprice : 1010000 + 100 * Z.of_nat levels < 2 ^ 32).

Lemma base_frame :
  order_index (base_engine n) = ∅ ∧ books (base_engine n) = ∅ ∧
  messages_processed (base_engine n) = 0.
Proof. unfold base_engine. simpl. by destruct (register_all_frame n Engine_init) as (-> & -> & ->). Qed.

Definition level_price (bid : bool) (l : nat) : Price :=
  mkPrice ((if bid then 1000000 else 1010000) + 100 * Z.of_nat l).

Lemma seed_adds_spec m :
  m ∈ seed_adds n levels → ao_shares m = 100 ∧
  ∃ li l, (li < n ∧ l < levels)%nat ∧ ao_stock_locate m = Z.of_nat li + 1 ∧
    ao_price m = level_price (is_bid (ao_side m)) l.
Proof.
  rewrite elem_of_seed_adds. intros (k & li & l & Hk & Hm).
  apply list_elem_of_lookup_2, elem_of_turns in Hk.
  unfold level_adds in Hm. rewrite !elem_of_cons in Hm.
  destruct Hm as [->|[->|Hm]]; [| |by apply not_elem_of_nil in Hm];
    (split; [done|]); exists li, l; (split; [done|]); unfold level_price; simpl;
    rewrite u16_id by lia; (split; [done|]); f_equal; ulia.
Qed.

Lemma seed_adds_level bid li l :
  (li < n)%nat → (l < levels)%nat →
  ∃ m, m ∈ seed_adds n levels ∧ ao_stock_locate m = Z.of_nat li + 1 ∧
    is_bid (ao_side m) = bid ∧ ao_price m = level_price bid l.
Proof.
  intros Hli Hl. assert ((li, l) ∈ turns n levels) as Hin by by apply elem_of_turns.
  apply list_elem_of_lookup in Hin as [k Hk].
  set (ref := 1 + 2 * Z.of_nat k).
  exists (if bid then make_add ref "B" 100 (u32 (1000000 + u32 (Z.of_nat l * 100))) (u16 (Z.of_nat li + 1))
    else make_add (ref + 1) "S" 100 (u32 (1010000 + u32 (Z.of_nat l * 100))) (u16 (Z.of_nat li + 1)))%char.
  split.
  - apply elem_of_seed_adds. exists k, li, l. split; [done|]. unfold level_adds, ref.
    rewrite !elem_of_cons. destruct bid; [by left|by right; left].
  - destruct bid; unfold level_price; simpl; rewrite u16_id by lia;
      split_and!; try done; f_equal; ulia.
Qed.

Lemma seeded_inv : engine_inv (seeded n levels).
Proof.
  destruct base_frame as (Ho & Hb & _). apply run_inv.
  - by apply no_orders_inv.
  - rewrite Ho. apply adds_feed_ok.
    + apply snapshot_refs_NoDup.
    + apply Forall_forall. intros m Hm. destruct (seed_adds_spec m Hm) as [-> _]. lia.
    + apply Forall_forall. intros m _. apply lookup_empty.
  - rewrite Ho, map_size_empty, length_fmap, length_seed_adds. lia.
Qed.

Lemma seeded_orders ref r :
  get_order (seeded n levels) ref = Some r ↔
  ∃ m, m ∈ seed_adds n levels ∧ ao_order_ref m = ref ∧ r = add_record m.
Proof.
  unfold get_order, seeded. rewrite run_order_index. destruct base_frame as (-> & _).
  apply run_adds_elem, snapshot_refs_NoDup.
Qed.

(** The prices of a side of a book. *)
Lemma seeded_prices bid li p :
  (li < n)%nat →
  p ∈ level_price bid <$> seq 0 levels ↔
  ∃ ref r, get_order (seeded n levels) ref = Some r ∧ order_slot r = (Z.of_nat li + 1, bid, p).
Proof.
  intros Hli. rewrite list_elem_of_fmap. setoid_rewrite elem_of_seq. split.
  - intros (l & -> & Hl). destruct (seed_adds_level bid li l) as (m & Hm & Hloc & Hb & Hp); [done|lia|].
    exists (ao_order_ref m), (add_record m). split; [apply seeded_orders; by exists m|].
    unfold order_slot. simpl. by rewrite Hloc, Hb, Hp.
  - intros (ref & r & (m & Hm & _ & ->)%seeded_orders & Hs).
    destruct (seed_adds_spec m Hm) as (_ & li' & l & [_ Hl] & _ & Hp).
    unfold order_slot in Hs. simpl in Hs. injection Hs as _ Hb <-.
    exists l. rewrite Hp, Hb. split; [done|lia].
Qed.

Lemma level_prices_NoDup bid : NoDup (level_price bid <$> seq 0 levels).
Proof.
  apply NoDup_fmap_2_strong; [|apply NoDup_seq]. unfold level_price. intros i j _ _ [= E]. lia.
Qed.

Lemma seeded_instruments loc :
  get_instrument (seeded n levels) loc =
  if decide (1 ≤ loc ≤ Z.of_nat n) then Some (bench_instrument loc) else None.
Proof.
  assert (instruments (base_engine n) = instruments (register_all n Engine_init)) as Eb by done.
  unfold get_instrument, seeded. rewrite run_adds_instruments.
  - rewrite Eb, register_all_lookup by done. by case_decide.
  - apply Forall_forall. intros m Hm. destruct (seed_adds_spec m Hm) as (_ & li & l & [? _] & -> & _).
    rewrite Eb, register_all_lookup by done. rewrite decide_True by lia. by eexists.
Qed.

(** The view of an instrument has all its levels. *)
Lemma seeded_view li bid :
  (li < n)%nat →
  length (obs_side bid (instrument_view (seeded n levels) (Z.of_nat li + 1)
    (bench_instrument (Z.of_nat li + 1)))) = levels.
Proof.
  intros Hli. unfold instrument_view.
  destruct (get_book (seeded n levels) (Z.of_nat li + 1)) as [bk|] eqn:Eb.
  - assert (obs_side bid (book_snapshot (bench_instrument (Z.of_nat li + 1)) bk) =
      snapshot_level <$> side_map bid bk) as -> by by destruct bid.
    rewrite length_fmap.
    rewrite (side_length _ _ _ bid _ seeded_inv Eb (level_prices_NoDup bid)
      (λ p, seeded_prices bid li p Hli)).
    by rewrite length_fmap, length_seq.
  - assert (obs_side bid (empty_snapshot (bench_instrument (Z.of_nat li + 1))) = []) as ->
      by by destruct bid.
    destruct (decide (levels = 0%nat)) as [->|Hl]; [done|]. exfalso.
    assert (level_price bid 0 ∈ level_price bid <$> seq 0 levels) as Hp.
    { apply list_elem_of_fmap. exists 0%nat. split; [done|]. apply elem_of_seq. lia. }
    apply (seeded_prices bid li _ Hli), level_of_is_Some in Hp.
    rewrite <- (inv_levels _ seeded_inv) in Hp. destruct Hp as [lv Hp].
    unfold level_at, get_book in *. by rewrite Eb in Hp.
Qed.

Lemma seeded_distinct : symbols_distinct (seeded n levels).
Proof.
  intros loc loc' i i'. rewrite !seeded_instruments. repeat case_decide; try done.
  intros [= <-] [= <-]. simpl. rewrite !u16_id by lia. apply symbol_for_inj; lia.
Qed.

Lemma snapshot_seed_spec `{MapOrder} now :
  SnapshotBench.seed_engine now n levels System_init =
  Ret {| sys_engine := seeded n levels; sys_published := None |}.
Proof.
  unfold SnapshotBench.seed_engine, on_engine, System_init. cbn [sys_engine sys_published].
  destruct (apply_msgs_quiet now (AddOrder <$> seed_adds n levels)
    {| sys_engine := base_engine n; sys_published := None |} 0) as [E _]; [|exact E].
  unfold quiet. cbn [sys_engine]. rewrite length_fmap, length_seed_adds. unfold UINT64_MAX.
  destruct base_frame as (_ & _ & ->). split; [done|]. lia.
Qed.

End seeded.

(** ** Properties *)

(** The snapshot benchmark measures what it says: for [n] instruments and
    [levels] levels a side, within the widths of locates, prices and counters,
    the seeding is defined and the snapshot holds one book per instrument, under
    its own symbol, each side with [levels] levels. *)
Theorem snapshot_bench_size `{MapOrder} now n levels t :
  Z.of_nat n < 2 ^ 16 → Z.of_nat (2 * (n * levels)) < 2 ^ 32 - 1 →
  1010000 + 100 * Z.of_nat levels < 2 ^ 32 →
  ∃ snap, BM_BuildSnapshot now n levels t = Ret snap ∧ size (ss_books snap) = n ∧
    ∀ li, (li < n)%nat → ∃ book,
      ss_books snap !! symbol_for (Z.of_nat li + 1) = Some book ∧
      obs_stock_locate book = Z.of_nat li + 1 ∧
      length (obs_bids book) = levels ∧ length (obs_asks book) = levels.
Proof.
  intros Hn Hsize Hprice. unfold BM_BuildSnapshot.
  rewrite snapshot_seed_spec by done. cbn [mbind outcome_bind sys_engine].
  assert (symbols_distinct (seeded n levels)) as Hd by by apply seeded_distinct.
  assert (∀ li, (li < n)%nat → ss_books (build_snapshot t (seeded n levels)) !!
    symbol_for (Z.of_nat li + 1) =
    Some (instrument_view (seeded n levels) (Z.of_nat li + 1)
      (bench_instrument (Z.of_nat li + 1)))) as Hview.
  { intros li Hli. rewrite <- (snapshot_view t _ _ _ Hd).
    - simpl. by rewrite u16_id by lia.
    - rewrite seeded_instruments by done. by rewrite decide_True by lia. }
  eexists. split; [done|]. split.
  - set (syms := (λ li, symbol_for (Z.of_nat li + 1)) <$> seq 0 n).
    assert (NoDup syms) as Hnd.
    { apply NoDup_fmap_2_strong; [|apply NoDup_seq]. intros i j Hi%elem_of_seq Hj%elem_of_seq E.
      apply symbol_for_inj in E; lia. }
    assert (dom (ss_books (build_snapshot t (seeded n levels))) = list_to_set syms) as Hdom.
    { apply set_eq. intros sym. rewrite elem_of_dom, elem_of_list_to_set. unfold syms.
      rewrite list_elem_of_fmap. setoid_rewrite elem_of_seq. split.
      - intros [s Hs]. destruct (snapshot_entry _ _ _ _ Hs) as (loc & info & Hi & <- & _).
        rewrite seeded_instruments in Hi by done. case_decide; [|done]. injection Hi as <-.
        exists (Z.to_nat (loc - 1)). simpl. rewrite u16_id by lia. split; [f_equal; lia|lia].
      - intros (li & -> & Hli). eexists. apply Hview. lia. }
    rewrite <- size_dom, Hdom, size_list_to_set by done.
    unfold syms. by rewrite length_fmap, length_seq.
  - intros li Hli. eexists. split; [by apply Hview|]. split.
    + unfold instrument_view. destruct (get_book _ _); simpl; by rewrite u16_id by lia.
    + pose proof (λ bid, seeded_view n levels Hn Hsize Hprice li bid Hli) as Hl.
      split; [exact (Hl true)|exact (Hl false)].
Qed.

Lemma snapshot_bench_size_witness :
  ∃ snap, BM_BuildSnapshot (λ _, 0) 3 2 7 = Ret snap ∧ size (ss_books snap) = 3%nat.
Proof.
  destruct (snapshot_bench_size (λ _, 0) 3 2 7) as (snap & E & Hs & _); [lia|lia|lia|].
  exists snap. split; [exact E|exact Hs].
Defined.
