(* ===== verification/Random.v ===== *)
(** The random numbers of the benchmarks under [bench/]: the engine
    [std::mt19937], which the C++ standard defines to the bit, and the
    distributions, which it leaves to the implementation and which are an
    interface here ([Distributions]).

    A word of the engine is a 32-bit [Z]; its state is the list of the last 624
    words. *)

From S2P Require Import Prelude Messages Double DoubleFacts.
From Stdlib Require Import Floats.SpecFloat.

#[local] Open Scope Z_scope.

(** ** [std::mt19937] *)

Definition mt19937 : Type := list Z.

(** The seeding: [n] more words after the word [x], the [i]th of them last. *)
Fixpoint mt_fill (n : nat) (i x : Z) : list Z :=
  match n with
  | O => []
  | S n =>
      let x := u32 (1812433253 * Z.lxor x (Z.shiftr x 30) + i) in
      x :: mt_fill n (i + 1) x
  end.

Definition mt_seed (value : Z) : mt19937 := u32 value :: mt_fill 623 1 (u32 value).

(** The word that follows the state, before tempering. *)
Definition mt_word (x : mt19937) : Z :=
  let y := Z.lor (Z.land (nth 0 x 0) (2 ^ 31)) (Z.land (nth 1 x 0) (2 ^ 31 - 1)) in
  let alpha := if Z.odd y then 0x9908b0df else 0 in
  Z.lxor (Z.lxor (nth 397 x 0) (Z.shiftr y 1)) alpha.

Definition mt_temper (z : Z) : Z :=
  let z := Z.lxor z (Z.shiftr z 11) in
  let z := Z.lxor z (Z.land (u32 (Z.shiftl z 7)) 0x9d2c5680) in
  let z := Z.lxor z (Z.land (u32 (Z.shiftl z 15)) 0xefc60000) in
  Z.lxor z (Z.shiftr z 18).

(** [rng()] *)
Definition mt_next (x : mt19937) : Z * mt19937 :=
  let w := mt_word x in (mt_temper w, tail x ++ [w]).

Definition mt_discard (n : nat) (x : mt19937) : mt19937 := Nat.iter n (λ x, (mt_next x).2) x.

(** The standard's own test: the 10000th number of an engine with the default
    seed. *)
Example mt19937_required : (mt_next (mt_discard 9999 (mt_seed 5489))).1 = 4123659995.
Proof. vm_compute. reflexivity. Qed.

(** ** Doubles *)

Definition double_neg : double → double := SFopp.
Definition double_one : double := double_of_Z 1.

(** The literal [0.6]. *)
Definition double_0_6 : double := double_div (double_of_Z 6) (double_of_Z 10).

(** [int64_t(f)] *)
Definition int64_of_double (f : double) : outcome Z :=
  match double_trunc f with
  | Some n => if (- 2 ^ 63 <=? n) && (n <? 2 ^ 63) then Ret n else Undef
  | None => Undef
  end.

(** [a + b] on [int64_t]. *)
Definition int64_add (a b : Z) : outcome Z :=
  if (- 2 ^ 63 <=? a + b) && (a + b <? 2 ^ 63) then Ret (a + b) else Undef.

(** ** The distributions *)

(** [uniform_int a b] is [std::uniform_int_distribution(a, b)], which keeps no
    state; [lognormal m s] makes a [std::lognormal_distribution<double>], which
    does ([lognormal_draw]).  A number drawn from the distribution with
    parameters 0 and 0.6 is [exp (0.6 z)] for a normal deviate [z]: it is
    positive, and the bounds, which the standard does not promise, hold for every deviate
    within 16 standard deviations. *)
Class Distributions := {
  uniform_int : Z → Z → mt19937 → Z * mt19937;
  uniform_int_range a b rng : a ≤ b → a ≤ (uniform_int a b rng).1 ≤ b;
  lognormal_distribution : Type;
  lognormal : double → double → lognormal_distribution;
  lognormal_draw : lognormal_distribution → mt19937 →
    double * (lognormal_distribution * mt19937);
  lognormal_0_6 : lognormal_distribution → Prop;
  lognormal_0_6_init : lognormal_0_6 (lognormal (double_of_Z 0) double_0_6);
  lognormal_0_6_draw ln rng : lognormal_0_6 ln →
    lognormal_0_6 (lognormal_draw ln rng).2.1 ∧
    ∃ v, is_double (lognormal_draw ln rng).1 v ∧ 2 ^ 106 ≤ v < 2 ^ 160
}.

(** [((rng() & 1) ? 1.0 : -1.0) * s * spread], cast to [int64_t], for a number
    [s] drawn first. *)
Definition signed_offset `{Distributions} (spread : Z) (ln : lognormal_distribution)
    (rng : mt19937) : outcome (Z * (lognormal_distribution * mt19937)) :=
  let '(s, (ln, rng)) := lognormal_draw ln rng in
  let '(w, rng) := mt_next rng in
  let sign := if Z.odd w then double_one else double_neg double_one in
  o ← int64_of_double (double_mul (double_mul sign s) (double_of_Z spread));
  Ret (o, (ln, rng)).

(** ** Products of doubles *)

Lemma double_mul_pos a b x y v w :
  0 ≤ a → 0 ≤ b → 224 ≤ a + b →
  is_double x v → is_double y w → 2 ^ a ≤ v < 2 ^ 170 → 2 ^ b ≤ w < 2 ^ 170 →
  ∃ u, is_double (double_mul x y) u ∧ 2 ^ 53 * Z.abs (u * 2 ^ 120 - v * w) ≤ v * w.
Proof.
  intros Ha Hb Hab (m & e & -> & Hm & He & Hv) (n & f & -> & Hn & Hf & Hw) Hv' Hw'.
  destruct (exponent_bounds (Z.pos m) e v a 170 Hm ltac:(lia) Hv ltac:(lia) ltac:(lia) Hv')
    as [He1 He2].
  destruct (exponent_bounds (Z.pos n) f w b 170 Hn ltac:(lia) Hw ltac:(lia) ltac:(lia) Hw')
    as [Hf1 Hf2].
  unfold double_mul, SFmul. cbn [xorb].
  assert (2 ^ 104 ≤ Z.pos (m * n) < 2 ^ 106) as Hq.
  { rewrite Pos2Z.inj_mul. change (2 ^ 104) with (2 ^ 52 * 2 ^ 52).
    change (2 ^ 106) with (2 ^ 53 * 2 ^ 53). nia. }
  assert (2 ^ 52 ≤ 2 ^ 104) by (apply Z.pow_le_mono_r; lia).
  pose proof (Zdigits2_le (Z.pos (m * n)) 106 ltac:(lia) ltac:(lia)) as Hdig.
  destruct (round_aux_spec (Z.pos (m * n)) (e + f) loc_Exact (Z.pos (m * n)) 1)
    as (m' & e' & E & Hm' & He' & Herr); [by apply stands_exact|lia|lia|lia|].
  change (m * n)%positive with (PosDef.Pos.mul m n) in E. rewrite E.
  exists (fixed (Z.pos m') e'). split.
  { exists m', e'. split_and!; done || lia. }
  assert (Z.pos (m * n) * 2 ^ (e + f + 120) * 2 ^ 120 = v * w) as Hmv.
  { rewrite Pos2Z.inj_mul, <- Hv, <- Hw. unfold fixed.
    rewrite <- Z.mul_assoc, <- Z.pow_add_r by lia.
    replace (e + f + 120 + 120) with (e + 120 + (f + 120)) by lia.
    rewrite Z.pow_add_r by lia. ring. }
  rewrite <- Hmv. rewrite Z.mul_1_r in Herr.
  rewrite <- Z.mul_sub_distr_r, Z.abs_mul, (Z.abs_eq (2 ^ 120)) by lia. lia.
Qed.

Lemma round_aux_neg mx ex lx :
  binary_round_aux prec emax true mx ex lx = SFopp (binary_round_aux prec emax false mx ex lx).
Proof.
  unfold binary_round_aux. destruct (shr_fexp prec emax mx ex lx) as [r e].
  destruct (shr_fexp prec emax _ e loc_Exact) as [r' e']. destruct (shr_m r'); [done| |done].
  by destruct (_ <=? _).
Qed.

Lemma double_mul_neg x y v w :
  is_double x v → is_double y w →
  double_mul (double_neg x) y = double_neg (double_mul x y).
Proof.
  intros (m & e & -> & _) (n & f & -> & _). unfold double_mul, double_neg. cbn [SFopp SFmul xorb].
  apply round_aux_neg.
Qed.

Lemma double_trunc_neg x v :
  is_double x v → double_trunc (double_neg x) = Some (- (v / 2 ^ 120)).
Proof.
  intros Hx. pose proof (double_trunc_spec _ _ Hx) as E. destruct Hx as (m & e & -> & _).
  unfold double_trunc in *. cbn [double_neg SFopp negb]. by injection E as ->.
Qed.

Lemma int64_of_offset x v :
  is_double x v → v < 2 ^ 180 →
  int64_of_double x = Ret (v / 2 ^ 120) ∧ int64_of_double (double_neg x) = Ret (- (v / 2 ^ 120)) ∧
  0 ≤ v / 2 ^ 120 < 2 ^ 60.
Proof.
  intros Hx Hv. assert (0 ≤ v / 2 ^ 120 < 2 ^ 60) as Hb.
  { assert (0 ≤ v).
    { destruct Hx as (m & e & _ & Hm & He & <-). unfold fixed.
      assert (0 < 2 ^ (e + 120)) by (apply Z.pow_pos_nonneg; lia). nia. }
    split; [apply Z.div_pos; lia|]. apply Z.div_lt_upper_bound; [lia|].
    by rewrite <- Z.pow_add_r by lia. }
  assert (2 ^ 60 < 2 ^ 63) by lia.
  unfold int64_of_double. rewrite (double_trunc_spec _ _ Hx), (double_trunc_neg _ _ Hx).
  rewrite !(proj2 (Z.leb_le _ _)), !(proj2 (Z.ltb_lt _ _)) by lia. done.
Qed.

(** ** The offset of a price *)

Section offset.
Context `{Distributions}.

Lemma double_spread_spec spread :
  0 < spread < 2 ^ 16 → ∃ w, is_double (double_of_Z spread) w ∧ 2 ^ 119 ≤ w < 2 ^ 137.
Proof.
  intros Hs. destruct (double_of_Z_spec spread) as (w & Hw & Herr); [lia|].
  exists w. split; [done|].
  change (2 ^ 137) with (2 ^ 17 * 2 ^ 120). change (2 ^ 120) with (2 * 2 ^ 119) in *.
  change (2 ^ 53) with (2 * 2 ^ 52) in Herr. nia.
Qed.

Lemma double_one_spec : is_double double_one (2 ^ 120).
Proof. exists 4503599627370496%positive, (-52). split; [reflexivity|]. split; [lia|]. split; [lia|done]. Qed.

(** The offset before the cast, up to its sign. *)
Lemma offset_magnitude s v spread :
  0 < spread < 2 ^ 16 → is_double s v → 2 ^ 106 ≤ v < 2 ^ 160 →
  ∃ x w, is_double (double_mul double_one s) x ∧
    is_double (double_mul (double_mul double_one s) (double_of_Z spread)) w ∧ w < 2 ^ 180.
Proof.
  intros Hs Hv Hb. destruct (double_spread_spec spread Hs) as (d & Hd & Hdb).
  assert (2 ^ 160 < 2 ^ 170 ∧ 2 ^ 137 < 2 ^ 170 ∧ 2 ^ 161 < 2 ^ 170) as (? & ? & ?)
    by (split_and!; by vm_compute).
  destruct (double_mul_pos 120 106 double_one s (2 ^ 120) v) as (x & Hx & Herr);
    [lia|lia|lia|apply double_one_spec|done|split; [lia|by vm_compute]|lia|].
  assert (2 ^ 105 ≤ x < 2 ^ 161) as Hxb.
  { change (2 ^ 161) with (2 * 2 ^ 160). change (2 ^ 106) with (2 * 2 ^ 105) in Hb.
    assert (0 < 2 ^ 120) by lia. change (2 ^ 53) with (2 * 2 ^ 52) in Herr. nia. }
  destruct (double_mul_pos 105 119 (double_mul double_one s) (double_of_Z spread) x d) as (w & Hw & Herr');
    [lia|lia|lia|exact Hx|exact Hd|lia|lia|].
  exists x, w. split; [exact Hx|]. split; [exact Hw|].
  assert (x * d < 2 ^ 161 * 2 ^ 137) by nia.
  change (2 ^ 161 * 2 ^ 137) with (2 ^ 178 * 2 ^ 120) in *.
  change (2 ^ 180) with (4 * 2 ^ 178). change (2 ^ 53) with (2 * 2 ^ 52) in Herr'. nia.
Qed.

(** The cast is defined. *)
Lemma signed_offset_defined spread ln rng :
  0 < spread < 2 ^ 16 → lognormal_0_6 ln →
  ∃ o ln' rng', signed_offset spread ln rng = Ret (o, (ln', rng')) ∧
    lognormal_0_6 ln' ∧ - 2 ^ 60 < o < 2 ^ 60.
Proof.
  intros Hs Hln. destruct (lognormal_0_6_draw ln rng Hln) as [Hln' (v & Hv & Hvb)].
  unfold signed_offset. destruct (lognormal_draw ln rng) as [s [ln' rng']]. cbn [fst snd] in *.
  destruct (mt_next rng') as [z rng'']. destruct (double_spread_spec spread Hs) as (d & Hd & _).
  destruct (offset_magnitude s v spread Hs Hv Hvb) as (x & w & Hx & Hw & Hwb).
  destruct (int64_of_offset _ _ Hw Hwb) as (E & E' & Hb).
  destruct (Z.odd z).
  - rewrite E. exists (w / 2 ^ 120), ln', rng''. split; [done|]. split; [done|lia].
  - rewrite (double_mul_neg _ _ _ _ double_one_spec Hv), (double_mul_neg _ _ _ _ Hx Hd), E'.
    exists (- (w / 2 ^ 120)), ln', rng''. split; [done|]. split; [done|lia].
Qed.

End offset.

(** ** A source of numbers

    Distributions that a program can run on: a number of a range by remainder,
    and for the deviate one of the integers from 1 to 8. *)
Lemma small_range a b w : a ≤ b → a ≤ a + w mod (b - a + 1) ≤ b.
Proof. intros. pose proof (Z.mod_pos_bound w (b - a + 1)). lia. Qed.

Lemma small_deviate w :
  ∃ v, is_double (double_of_Z (1 + w mod 8)) v ∧ 2 ^ 106 ≤ v < 2 ^ 160.
Proof.
  pose proof (Z.mod_pos_bound w 8 ltac:(lia)).
  destruct (double_spread_spec (1 + w mod 8)) as (v & Hv & Hb); [lia|].
  exists v. split; [done|]. split; [|etrans; [apply Hb|by vm_compute]].
  etrans; [|apply Hb]. by vm_compute.
Qed.

#[export] Program Instance sample_distributions : Distributions := {|
  uniform_int a b rng := (a + (mt_next rng).1 mod (b - a + 1), (mt_next rng).2);
  lognormal_distribution := unit;
  lognormal _ _ := tt;
  lognormal_draw _ rng := (double_of_Z (1 + (mt_next rng).1 mod 8), (tt, (mt_next rng).2));
  lognormal_0_6 _ := True |}.
Next Obligation. intros. by apply small_range. Qed.
Next Obligation. done. Qed.
Next Obligation. intros. split; [done|]. apply small_deviate. Qed.
