(* ===== verification/BenchMixed.v ===== *)
(** The mixed workloads of [bench/bench_mixed_workload.cpp]: adds at hot and at
    cold prices, a synthetic mix of deletes, adds and executions, and the replay
    of a capture.

    A benchmark is the state of its loop after a number of iterations.  Random
    numbers are drawn as in Random; [int] loop counters are naturals. *)

From S2P Require Import Prelude Messages StdMap OrderBook BookEngine Snapshot Pipeline.
From S2P Require Import Double Random FeedReader Replay Bench.
From Stdlib Require Import Strings.Ascii.

#[local] Open Scope Z_scope.

Module MixedBench.

Definition make_add (ref : Z) (side : ascii) (shares price_raw : Z) : AddOrderMsg := {|
  ao_stock_locate := 1; ao_tracking_number := 0; ao_timestamp := 34200000000000;
  ao_order_ref := ref; ao_side := side; ao_shares := shares; ao_stock := "";
  ao_price := mkPrice price_raw |}.

Definition make_delete (ref : Z) : OrderDeleteMsg := {|
  od_stock_locate := 1; od_tracking_number := 0; od_timestamp := 34200000000001;
  od_order_ref := ref |}.

Definition make_execute (ref shares : Z) : OrderExecutedMsg := {|
  oe_stock_locate := 1; oe_tracking_number := 0; oe_timestamp := 34200000000002;
  oe_order_ref := ref; oe_executed_shares := shares; oe_match_number := 0 |}.

Definition register_aapl (st : Engine) : Engine :=
  register_instrument {|
    ii_stock_locate := 1; ii_symbol := "AAPL"; ii_trading_state := "T"%char;
    ii_round_lot_size := 100; ii_market_category := zero; ii_financial_status := zero |} st.

(** The engine that the benchmarks on one instrument start from. *)
Definition start_engine : System :=
  on_engine (set_snapshot_interval UINT64_MAX) (on_engine register_aapl System_init).

(** ** Prices *)

Section distribution.
Context `{Distributions}.

(** One turn of the loop: a price capped to the band. *)
Definition draw_price (mid_raw spread_raw : Z) (ln : lognormal_distribution) (rng : mt19937)
  : outcome (Z * (lognormal_distribution * mt19937)) :=
  '(o, (ln, rng)) ← signed_offset spread_raw ln rng;
  p ← int64_add mid_raw o;
  let lo := u32 (mid_raw - u32 (4 * spread_raw)) in
  let hi := u32 (mid_raw + u32 (4 * spread_raw)) in
  let p := if p <? lo then lo else p in
  let p := if hi <? p then hi else p in
  Ret (u32 p, (ln, rng)).

Fixpoint draw_prices (n : nat) (mid_raw spread_raw : Z) (ln : lognormal_distribution)
    (rng : mt19937) : outcome (list Z) :=
  match n with
  | O => Ret []
  | S n =>
      '(p, (ln, rng)) ← draw_price mid_raw spread_raw ln rng;
      ps ← draw_prices n mid_raw spread_raw ln rng;
      Ret (p :: ps)
  end.

Definition make_price_distribution (n_distinct : nat) (mid_raw spread_raw seed : Z)
  : outcome (list Z) :=
  draw_prices n_distinct mid_raw spread_raw (lognormal (double_of_Z 0) double_0_6)
    (mt_seed seed).

End distribution.

(** ** Adds at hot and at cold prices *)

Definition hot_prices : list Z := (λ i, u32 (1000000 + u32 (Z.of_nat i * 100))) <$> seq 0 16.

Definition hot_seeds : list AddOrderMsg :=
  imap (λ i px, make_add (Z.of_nat i + 1) "B"%char 100 px) hot_prices.

Section adds.
Context `{MapOrder} (now : nat → Z).

Record HotLoop := mkHot { hot_system : System; hot_ref : Z; hot_rng : mt19937 }.

Definition hot_body `{Distributions} (l : HotLoop) : outcome HotLoop :=
  let '(i, rng) := uniform_int 0 15 (hot_rng l) in
  px ← deref (hot_prices !! Z.to_nat i);
  s ← apply_msg now (AddOrder (make_add (hot_ref l) "B"%char 100 px)) (hot_system l);
  Ret (mkHot s (u64 (hot_ref l + 1)) rng).

Definition BM_AddOrder_HotBand `{Distributions} (iterations : nat) : outcome HotLoop :=
  s ← apply_msgs now (AddOrder <$> hot_seeds) start_engine;
  iterate hot_body iterations (mkHot s 17 (mt_seed 0xC0FFEE)).

Record ColdLoop := mkCold { cold_system : System; cold_ref : Z; cold_price : Z }.

Definition cold_body (l : ColdLoop) : outcome ColdLoop :=
  s ← apply_msg now (AddOrder (make_add (cold_ref l) "B"%char 100 (cold_price l)))
        (cold_system l);
  Ret (mkCold s (u64 (cold_ref l + 1)) (u32 (cold_price l + 100))).

Definition BM_AddOrder_ColdPrice (iterations : nat) : outcome ColdLoop :=
  iterate cold_body iterations (mkCold start_engine 1 1000000).

End adds.

(** ** The synthetic workload *)

Inductive Op := OP_DELETE | OP_ADD | OP_EXECUTE.

Record Step := mkStep {
  st_op : Op; st_ref : Z; st_price_raw : Z; st_shares : Z; st_side : ascii }.

(** What the construction of the workload keeps. *)
Record Builder := mkBuilder {
  b_rng : mt19937; b_ops : list Step; b_live : list Z; b_next_ref : Z }.

(** [live[idx] = live.back(); live.pop_back();], as [std::vector] has them on
    an index inside. *)
Definition swap_remove {A} (idx : nat) (live : list A) : list A :=
  match last live with
  | Some x => removelast (<[idx := x]> live)
  | None => live
  end.

Section synth.
Context `{Distributions}.

Definition n_distinct : nat := 500.
Definition mid : Z := 1000000.
Definition spread : Z := 2500.

(** The add of either loop. *)
Definition add_step (prices : list Z) (b : Builder) : outcome Builder :=
  let '(i, rng) := uniform_int 0 (Z.of_nat n_distinct - 1) (b_rng b) in
  px ← deref (prices !! Z.to_nat i);
  let '(sd, rng) := uniform_int 0 1 rng in
  let s := mkStep OP_ADD (b_next_ref b) px 100
    (if sd =? 0 then "S"%char else "B"%char) in
  Ret (mkBuilder rng (b_ops b ++ [s]) (b_live b ++ [b_next_ref b]) (u64 (b_next_ref b + 1))).

(** A reference of [live] and its index. *)
Definition pick_live (live : list Z) (rng : mt19937) : outcome (nat * Z * mt19937) :=
  let '(i, rng) := uniform_int 0 (Z.of_nat (length live) - 1) rng in
  ref ← deref (live !! Z.to_nat i);
  Ret (Z.to_nat i, ref, rng).

Definition mix_step (prices : list Z) (b : Builder) : outcome Builder :=
  let '(r, rng) := uniform_int 0 99 (b_rng b) in
  let b := mkBuilder rng (b_ops b) (b_live b) (b_next_ref b) in
  let empty := bool_decide (b_live b = []) in
  if (r <? 75) && negb empty then
    '(idx, ref, rng) ← pick_live (b_live b) rng;
    Ret (mkBuilder rng (b_ops b ++ [mkStep OP_DELETE ref 0 0 zero])
      (swap_remove idx (b_live b)) (b_next_ref b))
  else if (r <? 95) || empty then add_step prices b
  else
    '(_, ref, rng) ← pick_live (b_live b) rng;
    Ret (mkBuilder rng (b_ops b ++ [mkStep OP_EXECUTE ref 0 1 zero]) (b_live b) (b_next_ref b)).

(** The workload of [n_resting] adds and [n_mix] steps of the mix. *)
Definition synth_builder (n_resting n_mix : nat) : outcome Builder :=
  prices ← make_price_distribution n_distinct mid spread 42;
  b ← iterate (add_step prices) n_resting (mkBuilder (mt_seed 0xBEEF) [] [] 1);
  iterate (mix_step prices) n_mix b.

Definition step_msg (s : Step) : ParsedMessage :=
  match st_op s with
  | OP_ADD => AddOrder (make_add (st_ref s) (st_side s) (st_shares s) (st_price_raw s))
  | OP_DELETE => OrderDelete (make_delete (st_ref s))
  | OP_EXECUTE => OrderExecuted (make_execute (st_ref s) (st_shares s))
  end.

Context `{MapOrder} (now : nat → Z).

(** The system and [idx]. *)
Definition synth_body (ops : list Step) (l : System * nat) : outcome (System * nat) :=
  s ← deref (ops !! l.2);
  sys ← apply_msg now (step_msg s) l.1;
  Ret (sys, (l.2 + 1) mod length ops)%nat.

Definition synth_loop (ops : list Step) (iterations : nat) : outcome (System * nat) :=
  iterate (synth_body ops) iterations (start_engine, O).

Definition mix_steps : nat := Z.to_nat 100000.

Definition BM_ApplyMixed_Synth (n_resting iterations : nat) : outcome (System * nat) :=
  b ← synth_builder n_resting mix_steps;
  synth_loop (b_ops b) iterations.

End synth.

(** ** The replay of a capture *)

Section capture.
Context `{MapOrder} (now : nat → Z).

Definition capture_body (msgs : list ParsedMessage) (l : System * nat)
  : outcome (System * nat) :=
  msg ← deref (msgs !! l.2);
  sys ← apply_msg now msg l.1;
  Ret (sys, if decide (l.2 + 1 = length msgs)%nat then O else (l.2 + 1)%nat).

(** [None] when the fuel is used up; otherwise [None] for [SkipWithError], or the
    loop and [loaded_msgs]. *)
Definition BM_ApplyMixed_Capture {F} `{PosixFile F} (fuel : nat) (opened : option F)
    (MAX iterations : nat) : outcome (option (option (System * nat * nat))) :=
  o ← load_capture fuel opened MAX;
  match o with
  | None => Ret None
  | Some [] => Ret (Some None)
  | Some msgs =>
      l ← iterate (capture_body msgs) iterations
            (on_engine (set_snapshot_interval UINT64_MAX) System_init, O);
      Ret (Some (Some (l, length msgs)))
  end.

End capture.
End MixedBench.
