(* ===== verification/BenchMixedTheorems.v ===== *)
(** What the mixed workloads of [bench/bench_mixed_workload.cpp] measure: the
    prices they draw, the levels the adds build up, the orders that the
    synthetic mix aims at, and what happens when the workload starts over. *)

From S2P Require Import Prelude Messages StdMap OrderBook BookEngine EngineLevels.
From S2P Require Import EngineInvariant EngineProperties Snapshot Pipeline Double Random.
From S2P Require Import FeedReader PipelineTheorems Replay ReplayTheorems Bench BenchMixed.
From Stdlib Require Import Strings.Ascii.

#[local] Open Scope Z_scope.
Import MixedBench.

(** ** The engine after some messages *)

Definition base_engine : Engine := sys_engine start_engine.

Definition ran (msgs : list ParsedMessage) : System := {|
  sys_engine := run msgs base_engine; sys_published := None |}.

Lemma base_inv : engine_inv base_engine.
Proof. by apply no_orders_inv. Qed.

Lemma ran_quiet msgs room :
  Z.of_nat (length msgs + room) < UINT64_MAX → quiet (ran msgs) room.
Proof.
  intros Hn. unfold quiet, ran. cbn [sys_engine].
  destruct (run_config msgs base_engine) as (-> & -> & _); [done|].
  unfold UINT64_MAX in *. simpl messages_processed. rewrite u64_id by lia. split; [done|]. lia.
Qed.

Section ran.
Context `{MapOrder} (now : nat → Z).

Lemma ran_step msg msgs :
  Z.of_nat (length msgs + 1) < UINT64_MAX → apply_msg now msg (ran msgs) = Ret (ran (msgs ++ [msg])).
Proof.
  intros Hn. destruct (apply_msg_quiet now msg (ran msgs) 0 (ran_quiet _ _ Hn)) as [-> _].
  unfold ran. by rewrite run_app.
Qed.

Lemma ran_start msgs :
  Z.of_nat (length msgs) < UINT64_MAX → apply_msgs now msgs start_engine = Ret (ran msgs).
Proof.
  intros Hn. destruct (apply_msgs_quiet now msgs (ran []) 0) as [E _]; [|exact E].
  apply ran_quiet. simpl. lia.
Qed.

End ran.

(** A loop that applies one message per iteration. *)
Lemma ran_skipped msgs :
  Z.of_nat (length msgs) < 2 ^ 64 →
  skipped_unknown_ref (sys_engine (ran msgs)) = miss_count msgs ∅.
Proof. intros Hn. unfold ran. cbn [sys_engine]. by rewrite run_skipped. Qed.

(** ** Prices *)

Section prices.
Context `{Distributions} (mid_raw spread_raw : Z).
Context (Hspread : 0 < spread_raw < 2 ^ 16) (Hlo : 4 * spread_raw ≤ mid_raw).
Context (Hhi : mid_raw + 4 * spread_raw < 2 ^ 32).

Definition banded (p : Z) : Prop := mid_raw - 4 * spread_raw ≤ p ≤ mid_raw + 4 * spread_raw.

Lemma draw_price_banded ln rng :
  lognormal_0_6 ln →
  ∃ p ln' rng', draw_price mid_raw spread_raw ln rng = Ret (p, (ln', rng')) ∧
    lognormal_0_6 ln' ∧ banded p.
Proof.
  intros Hln. destruct (signed_offset_defined spread_raw ln rng Hspread Hln)
    as (o & ln' & rng' & E & Hln' & Ho).
  unfold draw_price. rewrite E. cbn [mbind outcome_bind].
  unfold int64_add. rewrite (proj2 (Z.leb_le _ _)), (proj2 (Z.ltb_lt _ _)) by lia.
  cbn [andb mbind outcome_bind].
  assert (u32 (mid_raw - u32 (4 * spread_raw)) = mid_raw - 4 * spread_raw) as -> by ulia.
  assert (u32 (mid_raw + u32 (4 * spread_raw)) = mid_raw + 4 * spread_raw) as -> by ulia.
  eexists _, ln', rng'. split; [done|]. split; [done|]. unfold banded.
  repeat case_match; rewrite u32_id; lia.
Qed.

Lemma draw_prices_banded n ln rng :
  lognormal_0_6 ln →
  ∃ ps, draw_prices n mid_raw spread_raw ln rng = Ret ps ∧ length ps = n ∧ Forall banded ps.
Proof.
  revert ln rng. induction n as [|n IH]; intros ln rng Hln; [by exists []|].
  destruct (draw_price_banded ln rng Hln) as (p & ln' & rng' & E & Hln' & Hp).
  destruct (IH ln' rng' Hln') as (ps & E' & Hl & Hps).
  cbn [draw_prices]. rewrite E. cbn [mbind outcome_bind]. rewrite E'. cbn [mbind outcome_bind].
  exists (p :: ps). split; [done|]. split; [simpl; lia|by constructor].
Qed.

Lemma distribution_banded n seed :
  ∃ ps, make_price_distribution n mid_raw spread_raw seed = Ret ps ∧ length ps = n ∧
    Forall banded ps.
Proof. apply draw_prices_banded, lognormal_0_6_init. Qed.

End prices.

(** ** Levels built by adds *)

Definition side_levels (st : Engine) (loc : Z) (bid : bool) : nat :=
  match get_book st loc with Some bk => length (side_map bid bk) | None => O end.

(** A feed of bids on one instrument, under references from 1 on. *)
Record bid_feed (ms : list AddOrderMsg) : Prop := {
  bf_refs : ao_order_ref <$> ms = (λ i, 1 + Z.of_nat i) <$> seq 0 (length ms);
  bf_bids : Forall (λ m, m = make_add (ao_order_ref m) "B"%char 100 (raw (ao_price m))) ms
}.

Lemma bid_feed_snoc ms px :
  bid_feed ms → bid_feed (ms ++ [make_add (1 + Z.of_nat (length ms)) "B"%char 100 px]).
Proof.
  intros [Hr Hb]. split.
  - rewrite fmap_app, Hr, length_app, seq_app, fmap_app. done.
  - apply Forall_app. split; [done|]. by constructor.
Qed.

Lemma bid_feed_NoDup ms : bid_feed ms → NoDup (ao_order_ref <$> ms).
Proof.
  intros [-> _]. apply NoDup_fmap_2_strong; [|apply NoDup_seq]. intros i j _ _. lia.
Qed.

Lemma bid_feed_inv ms :
  bid_feed ms → Z.of_nat (length ms) < 2 ^ 32 - 1 →
  engine_inv (run (AddOrder <$> ms) base_engine).
Proof.
  intros Hf Hn. apply run_inv; [apply base_inv| |].
  - change (order_index base_engine) with (∅ : gmap Z OrderRecord). apply adds_feed_ok.
    + by apply bid_feed_NoDup.
    + eapply Forall_impl; [apply Hf|]. intros m ->. simpl. lia.
    + apply Forall_forall. intros m _. apply lookup_empty.
  - change (order_index base_engine) with (∅ : gmap Z OrderRecord).
    rewrite map_size_empty, length_fmap. lia.
Qed.

(** One level per price. *)
Lemma bid_feed_levels ms ps :
  bid_feed ms → Z.of_nat (length ms) < 2 ^ 32 - 1 → NoDup ps →
  (∀ p, p ∈ ps ↔ p ∈ ao_price <$> ms) →
  side_levels (run (AddOrder <$> ms) base_engine) 1 true = length ps.
Proof.
  intros Hf Hn Hnd Hps. pose proof (bid_feed_inv ms Hf Hn) as Hinv.
  assert (∀ p, p ∈ ps ↔ ∃ ref r, get_order (run (AddOrder <$> ms) base_engine) ref = Some r ∧
    order_slot r = (1, true, p)) as Hslots.
  { intros p. rewrite Hps, list_elem_of_fmap. unfold get_order.
    rewrite run_order_index. change (order_index base_engine) with (∅ : gmap Z OrderRecord).
    setoid_rewrite run_adds_elem; [|by apply bid_feed_NoDup].
    pose proof (bf_bids _ Hf) as Hb. rewrite Forall_forall in Hb. split.
    - intros (m & -> & Hm). exists (ao_order_ref m), (add_record m).
      split; [by exists m|]. rewrite (Hb _ Hm). by destruct (ao_price m).
    - intros (ref & r & (m & Hm & _ & ->) & Hs). exists m. split; [|done].
      rewrite (Hb _ Hm) in Hs |- *. by injection Hs as <-. }
  unfold side_levels. destruct (get_book _ 1) as [bk|] eqn:Eb.
  - by apply (side_length _ _ _ true _ Hinv Eb).
  - destruct ps as [|p ps]; [done|exfalso].
    assert (p ∈ p :: ps) as Hp by (by left). apply Hslots, level_of_is_Some in Hp.
    rewrite <- (inv_levels _ Hinv) in Hp. destruct Hp as [lv Hp].
    unfold level_at, get_book in *. by rewrite Eb in Hp.
Qed.

(** *** Hot prices *)

Lemma hot_prices_NoDup : NoDup (mkPrice <$> hot_prices).
Proof. apply (bool_decide_unpack _). vm_compute. exact I. Qed.

Lemma hot_seeds_feed : bid_feed hot_seeds.
Proof. split; [vm_compute; reflexivity|]. vm_compute. repeat constructor. Qed.

(** The loop has fed the seeds and one hot bid per iteration. *)
Definition hot_state (i : nat) (l : HotLoop) : Prop :=
  ∃ ms, bid_feed (hot_seeds ++ ms) ∧ length ms = i ∧
    Forall (λ m, ao_price m ∈ mkPrice <$> hot_prices) ms ∧
    hot_system l = ran (AddOrder <$> hot_seeds ++ ms) ∧ hot_ref l = 17 + Z.of_nat i.

Lemma hot_body_state `{MapOrder} `{Distributions} now i l :
  Z.of_nat i < 2 ^ 62 → hot_state i l →
  ∃ l', hot_body now l = Ret l' ∧ hot_state (S i) l'.
Proof.
  intros Hi (ms & Hf & Hl & Hps & Es & Er). unfold hot_body.
  pose proof (uniform_int_range 0 15 (hot_rng l) ltac:(lia)) as Hr.
  destruct (uniform_int 0 15 (hot_rng l)) as [j rng]. cbn [fst] in Hr.
  destruct (lookup_lt_is_Some_2 hot_prices (Z.to_nat j)) as [px Hpx].
  { change (length hot_prices) with 16%nat. lia. }
  rewrite Hpx. cbn [deref mbind outcome_bind].
  assert (length hot_seeds = 16%nat) as Hl16 by done.
  rewrite Es, ran_step.
  2: { rewrite length_fmap, length_app, Hl16. unfold UINT64_MAX. lia. }
  cbn [mbind outcome_bind]. eexists. split; [done|].
  exists (ms ++ [make_add (17 + Z.of_nat i) "B"%char 100 px]).
  rewrite app_assoc, Er. split; [|split; [|split; [|split]]].
  - replace (17 + Z.of_nat i) with (1 + Z.of_nat (length (hot_seeds ++ ms)))
      by (rewrite length_app, Hl16; lia). by apply bid_feed_snoc.
  - rewrite length_app. simpl. lia.
  - apply Forall_app. split; [done|]. constructor; [|done]. apply list_elem_of_fmap.
    exists px. split; [done|]. by eapply list_elem_of_lookup_2.
  - cbn [hot_system]. by rewrite (fmap_app AddOrder (hot_seeds ++ ms)).
  - cbn [hot_ref]. rewrite u64_id by lia. lia.
Qed.

Lemma hot_band_run `{MapOrder} `{Distributions} now k :
  Z.of_nat k < 2 ^ 31 →
  ∃ l, BM_AddOrder_HotBand now k = Ret l ∧ hot_state k l.
Proof.
  intros Hk. unfold BM_AddOrder_HotBand. rewrite ran_start by done. cbn [mbind outcome_bind].
  apply iterate_inv.
  - exists []. rewrite app_nil_r. split; [apply hot_seeds_feed|]. done.
  - intros i l Hi Hl. apply hot_body_state; [lia|done].
Qed.

Lemma hot_state_levels k l :
  Z.of_nat k < 2 ^ 31 → hot_state k l →
  side_levels (sys_engine (hot_system l)) 1 true = 16%nat.
Proof.
  intros Hk (ms & Hf & Hl & Hps & -> & _). unfold ran. cbn [sys_engine].
  assert (length hot_seeds = 16%nat) as Hl16 by done.
  rewrite (bid_feed_levels _ (mkPrice <$> hot_prices)).
  - done.
  - done.
  - rewrite length_app, Hl16. lia.
  - apply hot_prices_NoDup.
  - intros p. rewrite fmap_app, elem_of_app.
    assert (ao_price <$> hot_seeds = mkPrice <$> hot_prices) as -> by done.
    split; [by left|]. intros [?|(m & -> & Hm)%list_elem_of_fmap]; [done|].
    rewrite Forall_forall in Hps. by apply Hps.
Qed.

(** *** Cold prices *)

Definition cold_add (i : nat) : AddOrderMsg :=
  make_add (1 + Z.of_nat i) "B"%char 100 (u32 (1000000 + 100 * Z.of_nat i)).

Definition cold_adds (k : nat) : list AddOrderMsg := cold_add <$> seq 0 k.

Lemma cold_adds_S k : cold_adds (S k) = cold_adds k ++ [cold_add k].
Proof. unfold cold_adds. by rewrite seq_S, fmap_app. Qed.

Lemma cold_adds_feed k : bid_feed (cold_adds k).
Proof.
  induction k as [|k IH]; [split; [done|constructor]|]. rewrite cold_adds_S.
  assert (length (cold_adds k) = k) as Hl by (unfold cold_adds; by rewrite length_fmap, length_seq).
  unfold cold_add. rewrite <- Hl at 2. by apply bid_feed_snoc.
Qed.

Lemma cold_price_run `{MapOrder} now k :
  Z.of_nat k < 2 ^ 62 →
  BM_AddOrder_ColdPrice now k =
  Ret (mkCold (ran (AddOrder <$> cold_adds k)) (1 + Z.of_nat k)
    (u32 (1000000 + 100 * Z.of_nat k))).
Proof.
  intros Hk. unfold BM_AddOrder_ColdPrice.
  destruct (iterate_inv (cold_body now) (λ i l,
    l = mkCold (ran (AddOrder <$> cold_adds i)) (1 + Z.of_nat i)
      (u32 (1000000 + 100 * Z.of_nat i))) k (mkCold start_engine 1 1000000))
    as (l & E & ->); [done| |done].
  intros i l Hi ->. unfold cold_body. cbn [cold_system cold_ref cold_price].
  change (make_add (1 + Z.of_nat i) _ _ _) with (cold_add i).
  rewrite ran_step.
  2: { unfold cold_adds. rewrite !length_fmap, length_seq. unfold UINT64_MAX. lia. }
  cbn [mbind outcome_bind]. eexists. split; [done|]. rewrite cold_adds_S, fmap_app.
  rewrite u64_id by lia. f_equal; [lia|]. ulia.
Qed.

Lemma cold_levels k :
  Z.of_nat k < 2 ^ 30 →
  side_levels (sys_engine (ran (AddOrder <$> cold_adds k))) 1 true = k.
Proof.
  intros Hk. unfold ran. cbn [sys_engine].
  rewrite (bid_feed_levels _ (ao_price <$> cold_adds k)).
  - unfold cold_adds. by rewrite !length_fmap, length_seq.
  - apply cold_adds_feed.
  - unfold cold_adds. rewrite length_fmap, length_seq. lia.
  - unfold cold_adds. rewrite <- list_fmap_compose.
    apply NoDup_fmap_2_strong; [|apply NoDup_seq].
    intros i j [_ Hi]%elem_of_seq [_ Hj]%elem_of_seq [= E].
    assert (100 * (Z.of_nat i - Z.of_nat j) mod 2 ^ 32 = 0) as Hm.
    { unfold u32 in E. replace (100 * (Z.of_nat i - Z.of_nat j)) with
        ((1000000 + 100 * Z.of_nat i) - (1000000 + 100 * Z.of_nat j)) by lia.
      rewrite Zminus_mod, E, Z.sub_diag. done. }
    apply Z.mod_divide in Hm as [q Hq]; [|done].
    change (2 ^ 32) with (4 * 2 ^ 30) in Hq. change (2 ^ 30) with 1073741824 in *. lia.
  - done.
Qed.

(** ** The synthetic workload *)

Definition step_msgs (ops : list Step) : list ParsedMessage := step_msg <$> ops.

(** How often the workload executes against a reference. *)
Definition executes (ref : Z) (s : Step) : bool :=
  match st_op s with OP_EXECUTE => bool_decide (st_ref s = ref) | _ => false end.

Fixpoint executions (ref : Z) (ops : list Step) : Z :=
  match ops with
  | [] => 0
  | s :: ops => (if executes ref s then 1 else 0) + executions ref ops
  end.

Lemma executions_nonneg ref ops : 0 ≤ executions ref ops.
Proof. induction ops as [|s ops IH]; simpl; [lia|]. destruct (executes ref s); lia. Qed.

Lemma executions_snoc ref ops s :
  executions ref (ops ++ [s]) = executions ref ops + (if executes ref s then 1 else 0).
Proof. induction ops as [|s' ops IH]; simpl; [lia|]. rewrite IH. lia. Qed.

Lemma step_msgs_snoc ops s : step_msgs (ops ++ [s]) = step_msgs ops ++ [step_msg s].
Proof. unfold step_msgs. by rewrite fmap_app. Qed.

Lemma swap_remove_perm {A} (live : list A) i x :
  live !! i = Some x → x :: swap_remove i live ≡ₚ live.
Proof.
  intros Hx. unfold swap_remove. destruct (last live) as [y|] eqn:El.
  2: { apply last_None in El as ->. done. }
  apply last_Some in El as [l ->]. destruct (decide (i = length l)) as [->|Hne].
  - rewrite lookup_app_r, Nat.sub_diag in Hx by done. injection Hx as <-.
    rewrite insert_app_r_alt, Nat.sub_diag by done. simpl. rewrite removelast_last.
    by rewrite Permutation_app_comm.
  - assert (i < length l)%nat as Hi.
    { apply lookup_lt_Some in Hx. rewrite length_app in Hx. simpl in Hx. lia. }
    rewrite lookup_app_l in Hx by done. rewrite insert_app_l, removelast_last by done.
    rewrite <- (take_drop_middle _ _ _ Hx) at 2. rewrite insert_take_drop by done.
    solve_Permutation.
Qed.

(** What the construction has built: [live] are the references added and not
    yet deleted; of those, the ones with fewer than a hundred executions rest
    in a book that is fed the workload; new references are fresh, and nothing
    misses as long as no order is executed away. *)
Record built (b : Builder) : Prop := {
  bu_next : 1 ≤ b_next_ref b ≤ 1 + Z.of_nat (length (b_ops b));
  bu_nodup : NoDup (b_live b);
  bu_live : ∀ ref, ref ∈ b_live b → 1 ≤ ref < b_next_ref b;
  bu_execs : ∀ ref, b_next_ref b ≤ ref → executions ref (b_ops b) = 0;
  bu_orders : ∀ ref, rec_shares <$> (run_orders (step_msgs (b_ops b)) ∅ !! ref) =
    if decide (ref ∈ b_live b ∧ executions ref (b_ops b) < 100)
    then Some (100 - executions ref (b_ops b)) else None;
  bu_feed : feed_ok ∅ (step_msgs (b_ops b));
  bu_misses : (∀ ref, executions ref (b_ops b) < 100) → miss_count (step_msgs (b_ops b)) ∅ = 0
}.

Lemma built_init rng : built (mkBuilder rng [] [] 1).
Proof.
  split; cbn [b_next_ref b_ops b_live length].
  - lia.
  - apply NoDup_nil_2.
  - by intros ref ?%elem_of_nil.
  - done.
  - intros ref. rewrite decide_False by (by intros [?%elem_of_nil _]). done.
  - done.
  - done.
Qed.

Lemma built_add b rng px sd :
  built b → b_next_ref b + 1 < 2 ^ 64 →
  built (mkBuilder rng (b_ops b ++ [mkStep OP_ADD (b_next_ref b) px 100 sd])
    (b_live b ++ [b_next_ref b]) (u64 (b_next_ref b + 1))).
Proof.
  intros [Hn Hnd Hl He Ho Hf Hm] Hw. rewrite u64_id by lia.
  assert (b_next_ref b ∉ b_live b) as Hfresh by (intros H%Hl; lia).
  assert (∀ ref, executions ref (b_ops b ++ [mkStep OP_ADD (b_next_ref b) px 100 sd]) =
    executions ref (b_ops b)) as Hex by (intros ref; rewrite executions_snoc; simpl; lia).
  split; cbn [b_next_ref b_ops b_live].
  - rewrite length_app. simpl. lia.
  - apply NoDup_app. split; [done|]. split; [|apply NoDup_singleton].
    intros ref Hin ->%list_elem_of_singleton. done.
  - intros ref [H%Hl| ->%list_elem_of_singleton]%elem_of_app; lia.
  - intros ref Href. rewrite Hex. apply He. lia.
  - intros ref. rewrite Hex, step_msgs_snoc, run_orders_app. cbn [run_orders fold_left spec_orders
      step_msg st_op make_add ao_order_ref st_ref].
    destruct (decide (ref = b_next_ref b)) as [->|Hne].
    + rewrite lookup_insert_eq, He by lia. rewrite decide_True; [done|].
      split; [|done]. apply elem_of_app. right. by apply list_elem_of_singleton.
    + rewrite lookup_insert_ne by done. change (fold_left _ ?l ?i) with (run_orders l i).
      rewrite Ho. apply decide_ext. rewrite elem_of_app, list_elem_of_singleton. tauto.
  - rewrite step_msgs_snoc. apply feed_ok_app. split; [done|]. split; [simpl; lia|].
    split; [|done]. simpl. specialize (Ho (b_next_ref b)). rewrite decide_False in Ho by tauto.
    by destruct (run_orders _ _ !! _).
  - intros Hlt. rewrite step_msgs_snoc, miss_count_app, Hm; [done|]. intros ref.
    by rewrite <- Hex.
Qed.

(** Deletes and executions take a live reference. *)
Lemma live_lookup b ref :
  built b → ref ∈ b_live b → executions ref (b_ops b) < 100 →
  ∃ r, run_orders (step_msgs (b_ops b)) ∅ !! ref = Some r ∧
    rec_shares r = 100 - executions ref (b_ops b).
Proof.
  intros Hb Hin He. pose proof (bu_orders b Hb ref) as Ho. rewrite decide_True in Ho by done.
  by apply fmap_Some in Ho as (r & Hr & E); exists r.
Qed.

Lemma built_delete b rng i ref :
  built b → b_live b !! i = Some ref →
  built (mkBuilder rng (b_ops b ++ [mkStep OP_DELETE ref 0 0 zero])
    (swap_remove i (b_live b)) (b_next_ref b)).
Proof.
  intros Hb Hi. pose proof (swap_remove_perm _ _ _ Hi) as Hp.
  assert (ref ∈ b_live b) as Hin by by eapply list_elem_of_lookup_2.
  pose proof (live_lookup b ref Hb Hin) as Hlook. destruct Hb as [Hn Hnd Hl He Ho Hf Hm].
  assert (∀ ref', executions ref' (b_ops b ++ [mkStep OP_DELETE ref 0 0 zero]) =
    executions ref' (b_ops b)) as Hex by (intros ref'; rewrite executions_snoc; simpl; lia).
  rewrite <- Hp in Hnd. apply NoDup_cons in Hnd as [Hout Hnd].
  assert (∀ ref', ref' ∈ swap_remove i (b_live b) ↔ ref' ∈ b_live b ∧ ref' ≠ ref) as Hmem.
  { intros ref'. rewrite <- (elem_of_Permutation_proper ref' _ _ Hp), elem_of_cons.
    split; [|tauto]. intros H. split; [tauto|congruence]. }
  split; cbn [b_next_ref b_ops b_live].
  - rewrite length_app. simpl. lia.
  - done.
  - intros ref' [H%Hl _]%Hmem. done.
  - intros ref' Href. rewrite Hex. by apply He.
  - intros ref'. rewrite Hex, step_msgs_snoc, run_orders_app. cbn [run_orders fold_left spec_orders
      step_msg st_op make_delete od_order_ref st_ref].
    destruct (decide (ref' = ref)) as [->|Hne].
    + rewrite lookup_delete_eq, decide_False; [done|]. by intros [[_ ?]%Hmem _].
    + rewrite lookup_delete_ne by done. change (fold_left _ ?l ?j) with (run_orders l j).
      rewrite Ho. apply decide_ext. rewrite Hmem. tauto.
  - rewrite step_msgs_snoc. apply feed_ok_app. by split.
  - intros Hlt. setoid_rewrite Hex in Hlt. rewrite step_msgs_snoc, miss_count_app, Hm by done.
    destruct (Hlook (Hlt ref)) as (r & Hr & _). simpl. unfold misses. simpl. by rewrite Hr.
Qed.

Lemma built_execute b rng ref :
  built b → ref ∈ b_live b →
  built (mkBuilder rng (b_ops b ++ [mkStep OP_EXECUTE ref 0 1 zero]) (b_live b) (b_next_ref b)).
Proof.
  intros Hb Hin. pose proof (live_lookup b ref Hb Hin) as Hlook.
  destruct Hb as [Hn Hnd Hl He Ho Hf Hm].
  assert (∀ ref', executions ref' (b_ops b ++ [mkStep OP_EXECUTE ref 0 1 zero]) =
    executions ref' (b_ops b) + (if decide (ref' = ref) then 1 else 0)) as Hex.
  { intros ref'. rewrite executions_snoc. unfold executes. simpl. f_equal.
    destruct (decide (ref' = ref)) as [->|]; [by rewrite bool_decide_eq_true_2|].
    by rewrite bool_decide_eq_false_2. }
  split; cbn [b_next_ref b_ops b_live].
  - rewrite length_app. simpl. lia.
  - done.
  - done.
  - intros ref' Href. rewrite Hex, He by done. rewrite decide_False; [done|].
    intros ->. apply Hl in Hin. lia.
  - intros ref'. rewrite Hex, step_msgs_snoc, run_orders_app. cbn [run_orders fold_left spec_orders
      step_msg st_op make_execute oe_order_ref oe_executed_shares st_ref st_shares].
    change (fold_left _ ?l ?j) with (run_orders l j). unfold spec_reduce.
    destruct (decide (ref' = ref)) as [->|Hne].
    + destruct (decide (executions ref (b_ops b) < 100)) as [Hlt|Hge].
      * destruct (Hlook Hlt) as (r & Hr & Es). rewrite Hr, Es.
        destruct (Z.leb_spec (100 - executions ref (b_ops b)) 1).
        -- rewrite lookup_delete_eq, decide_False; [done|]. lia.
        -- rewrite lookup_insert_eq, decide_True by (split; [done|lia]).
           simpl. f_equal. lia.
      * pose proof (Ho ref) as E. rewrite decide_False in E by tauto.
        destruct (run_orders _ _ !! ref) eqn:Er; [done|]. rewrite Er.
        by rewrite decide_False by lia.
    + rewrite Z.add_0_r, <- Ho. destruct (run_orders _ _ !! ref) as [r|]; [|done].
      destruct (_ <=? _); [by rewrite lookup_delete_ne|by rewrite lookup_insert_ne].
  - rewrite step_msgs_snoc. apply feed_ok_app. split; [done|]. split; [simpl; lia|done].
  - intros Hlt. setoid_rewrite Hex in Hlt.
    assert (∀ ref', executions ref' (b_ops b) < 100) as Hlt'.
    { intros ref'. specialize (Hlt ref'). case_decide; lia. }
    rewrite step_msgs_snoc, miss_count_app, Hm by done.
    destruct (Hlook (Hlt' ref)) as (r & Hr & _). simpl. unfold misses. simpl. by rewrite Hr.
Qed.

(** *** The construction *)

Lemma pick_live_ok `{Distributions} live rng :
  live ≠ [] →
  ∃ i ref rng', pick_live live rng = Ret (i, ref, rng') ∧ live !! i = Some ref.
Proof.
  intros Hl. unfold pick_live. assert (0 < length live)%nat as Hpos by (destruct live; [done|simpl; lia]).
  pose proof (uniform_int_range 0 (Z.of_nat (length live) - 1) rng ltac:(lia)) as Hr.
  destruct (uniform_int 0 (Z.of_nat (length live) - 1) rng) as [j rng']. cbn [fst] in Hr.
  destruct (lookup_lt_is_Some_2 live (Z.to_nat j)) as [ref Href]; [lia|].
  rewrite Href. cbn [deref mbind outcome_bind]. by eexists _, ref, rng'.
Qed.

Section builder.
Context `{Distributions} (prices : list Z) (Hprices : length prices = n_distinct).

Lemma add_step_ok b :
  built b → b_next_ref b + 1 < 2 ^ 64 →
  ∃ b' px sd, add_step prices b = Ret b' ∧ built b' ∧
    b_ops b' = b_ops b ++ [mkStep OP_ADD (b_next_ref b) px 100 sd].
Proof.
  intros Hb Hw. unfold add_step.
  pose proof (uniform_int_range 0 (Z.of_nat n_distinct - 1) (b_rng b) ltac:(done)) as Hr.
  destruct (uniform_int 0 (Z.of_nat n_distinct - 1) (b_rng b)) as [j rng]. cbn [fst] in Hr.
  destruct (lookup_lt_is_Some_2 prices (Z.to_nat j)) as [px Hpx]; [lia|].
  rewrite Hpx. cbn [deref mbind outcome_bind]. destruct (uniform_int 0 1 rng) as [sd rng'].
  eexists _, px, _. split; [done|]. split; [by apply built_add|done].
Qed.

Lemma built_rng b rng : built b → built (mkBuilder rng (b_ops b) (b_live b) (b_next_ref b)).
Proof. by intros []; split. Qed.

Lemma mix_step_ok b :
  built b → b_next_ref b + 1 < 2 ^ 64 →
  ∃ b' s, mix_step prices b = Ret b' ∧ built b' ∧ b_ops b' = b_ops b ++ [s].
Proof.
  intros Hb Hw. unfold mix_step. destruct (uniform_int 0 99 (b_rng b)) as [r rng].
  pose proof (built_rng b rng Hb) as Hb'. cbn [b_ops b_live b_next_ref].
  destruct (bool_decide_reflect (b_live b = [])) as [E|Hne].
  - rewrite andb_false_r, orb_true_r.
    destruct (add_step_ok _ Hb' Hw) as (b' & px & sd & Ea & Hbb & Ho). eauto.
  - rewrite andb_true_r, orb_false_r. destruct (r <? 75).
    { destruct (pick_live_ok _ rng Hne) as (i & ref & rng' & -> & Hi). cbn [mbind outcome_bind].
      eexists _, _. split; [done|]. split; [by apply built_delete|done]. }
    destruct (r <? 95).
    { destruct (add_step_ok _ Hb' Hw) as (b' & px & sd & Ea & Hbb & Ho). eauto. }
    destruct (pick_live_ok _ rng Hne) as (i & ref & rng' & -> & Hi). cbn [mbind outcome_bind].
    eexists _, _. split; [done|]. split; [|done].
    apply built_execute; [done|]. by eapply list_elem_of_lookup_2.
Qed.

End builder.

Lemma synth_builder_ok `{Distributions} n_resting n_mix :
  Z.of_nat (n_resting + n_mix) < 2 ^ 63 →
  ∃ b, synth_builder n_resting n_mix = Ret b ∧ built b ∧
    length (b_ops b) = (n_resting + n_mix)%nat ∧
    ((0 < n_resting)%nat → ∃ px sd, head (b_ops b) = Some (mkStep OP_ADD 1 px 100 sd)).
Proof.
  intros Hn. unfold synth_builder.
  destruct (distribution_banded mid spread ltac:(unfold spread; lia) ltac:(unfold mid, spread; lia)
    ltac:(unfold mid, spread; lia) n_distinct 42) as (prices & -> & Hp & _).
  cbn [mbind outcome_bind].
  destruct (iterate_inv (add_step prices) (λ i b, built b ∧ length (b_ops b) = i ∧
      (if decide (i = 0)%nat then b_next_ref b = 1
       else ∃ px sd, head (b_ops b) = Some (mkStep OP_ADD 1 px 100 sd)))
    n_resting (mkBuilder (mt_seed 0xBEEF) [] [] 1)) as (b1 & -> & Hb1 & Hl1 & Hh1).
  { split; [apply built_init|]. by rewrite decide_True. }
  { intros i b Hi (Hb & Hl & Hh). pose proof (bu_next b Hb) as Hnext.
    destruct (add_step_ok prices Hp b Hb ltac:(lia)) as (b' & px & sd & E & Hb' & Ho).
    exists b'. split; [done|]. split; [done|]. rewrite Ho, length_app. split; [simpl; lia|].
    rewrite decide_False by done. rewrite head_lookup.
    destruct (b_ops b) as [|s ops]; simpl in Hl.
    - subst i. rewrite decide_True in Hh by done. rewrite Hh. by exists px, sd.
    - rewrite decide_False in Hh by lia. done. }
  cbn [mbind outcome_bind].
  destruct (iterate_inv (mix_step prices) (λ i b, built b ∧ length (b_ops b) = (n_resting + i)%nat ∧
      ((0 < n_resting)%nat → ∃ px sd, head (b_ops b) = Some (mkStep OP_ADD 1 px 100 sd)))
    n_mix b1) as (b2 & -> & Hb2 & Hl2 & Hh2).
  { split; [done|]. split; [lia|]. intros Hpos. by rewrite decide_False in Hh1 by lia. }
  { intros i b Hi (Hb & Hl & Hh). pose proof (bu_next b Hb) as Hnext.
    destruct (mix_step_ok prices Hp b Hb ltac:(lia)) as (b' & s & E & Hb' & Ho).
    exists b'. split; [done|]. split; [done|]. rewrite Ho, length_app. split; [simpl; lia|].
    intros Hpos. destruct (Hh Hpos) as (px & sd & Hhd). exists px, sd.
    by destruct (b_ops b). }
  exists b2. split; [done|]. by split.
Qed.

(** *** The loop *)

Section loop.
Context `{MapOrder} (now : nat → Z) (ops : list Step).

Lemma synth_loop_run k :
  ops ≠ [] → Z.of_nat k < UINT64_MAX →
  synth_loop now ops k = Ret (ran (step_msgs (cycle ops k)), (k mod length ops)%nat).
Proof.
  intros Hne Hk. assert (length ops ≠ 0%nat) as Hlen by by destruct ops.
  unfold synth_loop. destruct (iterate_inv (synth_body now ops) (λ i l,
    l = (ran (step_msgs (cycle ops i)), (i mod length ops)%nat)) k (start_engine, O))
    as (l & E & ->); [by rewrite Nat.mod_0_l| |done].
  intros i l Hi ->. unfold synth_body. cbn [fst snd].
  destruct (cycle_next ops i Hne) as (s & -> & Hs). cbn [deref mbind outcome_bind].
  rewrite ran_step.
  2: { unfold step_msgs. rewrite length_fmap, length_cycle by done. lia. }
  cbn [mbind outcome_bind]. eexists. split; [done|]. by rewrite Hs, step_msgs_snoc, cycle_index.
Qed.

Lemma synth_loop_zero : synth_loop now ops 0 = Ret (ran [], O).
Proof. done. Qed.

Lemma synth_loop_first k :
  (k ≤ length ops)%nat → Z.of_nat k < UINT64_MAX →
  ∃ i, synth_loop now ops k = Ret (ran (step_msgs (take k ops)), i).
Proof.
  intros Hk Hu. destruct (decide (ops = [])) as [->|Hne].
  - simpl in Hk. assert (k = 0%nat) as -> by lia. by exists 0%nat.
  - eexists. rewrite synth_loop_run by done. by rewrite cycle_take.
Qed.

End loop.

(** A part of the workload. *)
Lemma built_take b k :
  built b → Z.of_nat (length (b_ops b)) < 2 ^ 32 - 1 →
  engine_inv (sys_engine (ran (step_msgs (take k (b_ops b))))) ∧
  ((∀ ref, executions ref (b_ops b) < 100) → miss_count (step_msgs (take k (b_ops b))) ∅ = 0).
Proof.
  intros Hb Hn. assert (step_msgs (b_ops b) =
    step_msgs (take k (b_ops b)) ++ step_msgs (drop k (b_ops b))) as E.
  { unfold step_msgs. by rewrite <- fmap_app, take_drop. }
  pose proof (bu_feed b Hb) as Hf. rewrite E in Hf. apply feed_ok_app in Hf as [Hf _]. split.
  - unfold ran. cbn [sys_engine]. apply run_inv; [apply base_inv|exact Hf|].
    change (order_index base_engine) with (∅ : gmap Z OrderRecord). unfold step_msgs.
    rewrite map_size_empty, length_fmap, length_take. lia.
  - intros Hlt. pose proof (bu_misses b Hb Hlt) as Hm. rewrite E, miss_count_app in Hm.
    pose proof (miss_count_range (step_msgs (take k (b_ops b))) ∅).
    pose proof (miss_count_range (step_msgs (drop k (b_ops b)))
      (run_orders (step_msgs (take k (b_ops b))) ∅)). lia.
Qed.

(** An add under the reference of a resting order breaks the books. *)
Lemma duplicate_add_breaks m st old :
  engine_inv st → get_order st (ao_order_ref m) = Some old → has_room (order_index st) →
  ¬ engine_inv (count_message (handle_add m st)).
Proof.
  intros Hinv Hold Hroom Hinv'. set (k := order_slot old).
  assert (level_at (handle_add m st) k = level_of (order_index (handle_add m st)) k) as E
    by exact (inv_levels _ Hinv' k).
  pose proof (inv_orders _ Hinv : orders_ok (order_index st)) as Ho.
  pose proof (inv_orders _ Hinv' : orders_ok (order_index (handle_add m st))) as Ho'.
  apply (f_equal (λ o, lvl_order_count (default PriceLevel_init o))) in E.
  rewrite (proj2 (level_of_default _ k Ho')) in E. unfold handle_add in E.
  rewrite add_order_level, add_order_index, (inv_levels _ Hinv) in E.
  destruct (shares_at_lookup _ _ _ Ho Hold) as [_ Hone]. fold k in Hone.
  pose proof (orders_at_bounds (order_index st) k) as Hb.
  destruct (level_of_default (order_index st) k Ho) as [_ Hc]. unfold has_room in Hroom.
  unfold orders_at at 1 in E.
  rewrite (map_sum_replace _ _ (ao_order_ref m) old) in E by exact Hold.
  fold (orders_at (order_index st) k) in E. rewrite (rests_at_true k old) in E by done.
  case_decide as Hk.
  - rewrite rests_at_true in E by done. simpl in E. rewrite Hc, u32_id in E by ulia. lia.
  - rewrite rests_at_false in E by done. lia.
Qed.

(** ** The replay of a capture *)

Definition capture_engine : Engine := set_snapshot_interval UINT64_MAX Engine_init.

Lemma capture_loop_run `{MapOrder} now (msgs : list ParsedMessage) k :
  msgs ≠ [] → Z.of_nat k < UINT64_MAX →
  iterate (capture_body now msgs) k
    ({| sys_engine := capture_engine; sys_published := None |}, O) =
  Ret ({| sys_engine := run (cycle msgs k) capture_engine; sys_published := None |},
    (k mod length msgs)%nat).
Proof.
  intros Hne Hk. assert (length msgs ≠ 0%nat) as Hlen by by destruct msgs.
  destruct (iterate_inv (capture_body now msgs) (λ i l,
    l = ({| sys_engine := run (cycle msgs i) capture_engine; sys_published := None |},
      (i mod length msgs)%nat) ∧ quiet l.1 (k - i)) k
    ({| sys_engine := capture_engine; sys_published := None |}, O)) as (l & E & -> & _); [| |done].
  { rewrite Nat.mod_0_l by done. split; [done|]. unfold quiet, UINT64_MAX in *. simpl.
    split; [done|lia]. }
  intros i l Hi [-> Hq]. unfold capture_body. cbn [fst snd] in *.
  destruct (cycle_next msgs i Hne) as (msg & -> & Hs). cbn [deref mbind outcome_bind].
  replace (k - i)%nat with (S (k - S i)) in Hq by lia.
  destruct (apply_msg_quiet now msg _ _ Hq) as [-> Hq']. cbn [mbind outcome_bind].
  eexists. split; [done|]. rewrite Hs, cycle_index_test, run_app by done. by split.
Qed.

(** ** Properties *)

(** The price distribution stays in its band: for a spread below [2 ^ 16] whose
    band fits [uint32_t], every cast and every sum of the loop is defined, and the
    [n] prices drawn are within four spreads of the mid price. *)
Theorem price_distribution_banded `{Distributions} n mid_raw spread_raw seed :
  0 < spread_raw < 2 ^ 16 → 4 * spread_raw ≤ mid_raw → mid_raw + 4 * spread_raw < 2 ^ 32 →
  ∃ prices, make_price_distribution n mid_raw spread_raw seed = Ret prices ∧
    length prices = n ∧
    Forall (λ p, mid_raw - 4 * spread_raw ≤ p ≤ mid_raw + 4 * spread_raw) prices.
Proof. intros. by apply distribution_banded. Qed.

Lemma price_distribution_banded_witness :
  ∃ prices, make_price_distribution 500 1000000 2500 42 = Ret prices ∧
    Forall (λ p, 990000 ≤ p ≤ 1010000) prices.
Proof.
  destruct (price_distribution_banded 500 1000000 2500 42) as (ps & E & _ & Hps); [lia|lia|lia|].
  exists ps. split; [exact E|exact Hps].
Defined.

(** The two add benchmarks measure what they say: after any number of hot
    adds the bids still have the sixteen levels they started with, and cold
    adds have made a level each, up to [2 ^ 30] of them, when the price has
    wrapped around. *)
Theorem hot_and_cold_levels `{MapOrder} `{Distributions} now k :
  Z.of_nat k < 2 ^ 30 →
  (∃ l, BM_AddOrder_HotBand now k = Ret l ∧
    side_levels (sys_engine (hot_system l)) 1 true = 16%nat ∧
    engine_inv (sys_engine (hot_system l))) ∧
  (∃ l, BM_AddOrder_ColdPrice now k = Ret l ∧
    side_levels (sys_engine (cold_system l)) 1 true = k ∧
    engine_inv (sys_engine (cold_system l))).
Proof.
  intros Hk. split.
  - destruct (hot_band_run now k) as (l & E & Hl); [lia|]. exists l. split; [done|].
    split; [by apply (hot_state_levels k); [lia|]|].
    destruct Hl as (ms & Hf & Hl & _ & -> & _). apply bid_feed_inv; [done|].
    rewrite length_app, Hl. change (length hot_seeds) with 16%nat. lia.
  - rewrite cold_price_run by lia. eexists. split; [done|]. cbn [cold_system].
    split; [by apply cold_levels|]. apply bid_feed_inv; [apply cold_adds_feed|].
    unfold cold_adds. rewrite length_fmap, length_seq. lia.
Qed.

Lemma hot_and_cold_levels_witness :
  ∃ l l', BM_AddOrder_HotBand (λ _, 0) 20 = Ret l ∧ BM_AddOrder_ColdPrice (λ _, 0) 20 = Ret l' ∧
    side_levels (sys_engine (hot_system l)) 1 true = 16%nat ∧
    side_levels (sys_engine (cold_system l')) 1 true = 20%nat.
Proof.
  destruct (hot_and_cold_levels (λ _, 0) 20) as [(l & E & Hl & _) (l' & E' & Hl' & _)]; [lia|].
  exists l, l'. exact (conj E (conj E' (conj Hl Hl'))).
Defined.

(** The synthetic workload aims at live orders: its construction is defined
    for any source of random numbers and has a step per resting order and per
    step of the mix; on its first pass the books are the aggregate of the
    orders, and no delete and no execution misses, provided no order is
    executed a hundred times. *)
Theorem synth_first_pass `{MapOrder} `{Distributions} now n_resting n_mix k :
  Z.of_nat (n_resting + n_mix) < 2 ^ 32 - 1 → (k ≤ n_resting + n_mix)%nat →
  ∃ b l, synth_builder n_resting n_mix = Ret b ∧
    length (b_ops b) = (n_resting + n_mix)%nat ∧ synth_loop now (b_ops b) k = Ret l ∧
    engine_inv (sys_engine l.1) ∧
    ((∀ ref, executions ref (b_ops b) < 100) → skipped_unknown_ref (sys_engine l.1) = 0).
Proof.
  intros Hn Hk. destruct (synth_builder_ok n_resting n_mix) as (b & Eb & Hb & Hl & _); [lia|].
  destruct (synth_loop_first now (b_ops b) k) as [i El]; [lia|unfold UINT64_MAX; lia|].
  destruct (built_take b k Hb) as [Hinv Hm]; [lia|].
  exists b, (ran (step_msgs (take k (b_ops b))), i). split; [done|]. split; [done|].
  split; [done|]. split; [done|]. intros Hlt. cbn [fst]. rewrite ran_skipped; [by apply Hm|].
  unfold step_msgs. rewrite length_fmap, length_take. lia.
Qed.

Lemma synth_first_pass_witness :
  ∃ b l, synth_builder 20 30 = Ret b ∧ synth_loop (λ _, 0) (b_ops b) 45 = Ret l ∧
    engine_inv (sys_engine l.1).
Proof.
  destruct (synth_first_pass (λ _, 0) 20 30 45) as (b & l & Eb & _ & El & Hinv & _); [lia|lia|].
  exists b, l. exact (conj Eb (conj El Hinv)).
Defined.

(** The replay of the workload corrupts the book: if the first order added
    still rests when the workload starts over, the iteration after the last step
    adds it again under its old reference, and from then on the books are no
    longer the aggregate of the orders. *)
Theorem synth_replay_corrupts `{MapOrder} `{Distributions} now n_resting n_mix b :
  (0 < n_resting)%nat → Z.of_nat (n_resting + n_mix) < 2 ^ 32 - 1 →
  synth_builder n_resting n_mix = Ret b → 1 ∈ b_live b → executions 1 (b_ops b) < 100 →
  ∃ l, synth_loop now (b_ops b) (n_resting + n_mix + 1) = Ret l ∧ ¬ engine_inv (sys_engine l.1).
Proof.
  intros Hpos Hn Eb Hlive Hex.
  destruct (synth_builder_ok n_resting n_mix) as (b' & Eb' & Hb & Hl & Hh); [lia|].
  assert (b' = b) as -> by congruence. clear Eb'. destruct (Hh Hpos) as (px & sd & Hhd).
  assert (b_ops b ≠ []) as Hne by by intros E; rewrite E in Hhd.
  rewrite Nat.add_1_r, <- Hl, synth_loop_run; [|done|unfold UINT64_MAX; lia].
  destruct (cycle_next (b_ops b) (length (b_ops b)) Hne) as (s & Hs & Ec).
  rewrite Nat.Div0.mod_same, <- head_lookup, Hhd in Hs. injection Hs as <-.
  destruct (built_take b (length (b_ops b)) Hb) as [Hinv _]; [lia|].
  rewrite Ec, cycle_take, firstn_all in * by done. rewrite step_msgs_snoc.
  eexists. split; [done|]. unfold ran in *. cbn [fst sys_engine] in *. rewrite run_app.
  destruct (live_lookup b 1 Hb Hlive Hex) as (old & Hold & _).
  apply (duplicate_add_breaks (make_add 1 sd 100 px) _ old Hinv).
  - unfold get_order. by rewrite run_order_index.
  - pose proof (run_orders_size (step_msgs (b_ops b)) ∅) as Hsz.
    rewrite run_order_index. change (order_index base_engine) with (∅ : gmap Z OrderRecord).
    unfold has_room. rewrite map_size_empty in Hsz. unfold step_msgs in Hsz at 2.
    rewrite length_fmap in Hsz. lia.
Qed.

Lemma synth_replay_corrupts_witness :
  ∃ b l, synth_builder 2 1 = Ret b ∧ synth_loop (λ _, 0) (b_ops b) 4 = Ret l ∧
    ¬ engine_inv (sys_engine l.1).
Proof.
  assert (match synth_builder 2 1 with
    | Ret b => bool_decide (1 ∈ b_live b) && (executions 1 (b_ops b) <? 100) = true
    | _ => False end) as Hc by (vm_compute; reflexivity).
  destruct (synth_builder 2 1) as [b| |] eqn:Eb; [|destruct Hc..].
  apply andb_true_iff in Hc as [Hin Hx].
  destruct (synth_replay_corrupts (λ _, 0) 2 1 b) as (l & El & Hinv);
    [lia|lia|exact Eb|exact (bool_decide_eq_true_1 _ Hin)|by apply Z.ltb_lt|].
  exists b, l. exact (conj eq_refl (conj El Hinv)).
Defined.

(** The capture benchmark replays the capture: it is skipped when the file cannot
    be opened or yields no message; otherwise iteration [k] applies message [k]
    modulo the number of messages loaded, and the loop never leaves the vector. *)
Theorem capture_bench_cycles `{MapOrder} {F} `{PosixFile F} now fuel (f : F) MAX k :
  (length (remaining f) < fuel)%nat → Z.of_nat k < UINT64_MAX →
  let msgs := take MAX (omap decoded (frames_read fuel f)) in
  BM_ApplyMixed_Capture now fuel (None : option F) MAX k = Ret (Some None) ∧
  BM_ApplyMixed_Capture now fuel (Some f) MAX k = Ret (Some
    (if decide (msgs = []) then None
     else Some (({| sys_engine := run (cycle msgs k) capture_engine; sys_published := None |},
       (k mod length msgs)%nat), length msgs))).
Proof.
  intros Hf Hk msgs. split; [done|]. unfold BM_ApplyMixed_Capture, load_capture.
  rewrite load_capture_loop_spec by (simpl; lia). cbn [app mbind outcome_bind]. fold msgs.
  case_decide as Hd; [by rewrite Hd|]. destruct msgs as [|m ms] eqn:Em; [done|].
  pose proof (capture_loop_run now (m :: ms) k Hd Hk) as E.
  unfold capture_engine in *. unfold on_engine, System_init. cbn [sys_engine sys_published].
  by rewrite E.
Qed.

Lemma capture_bench_cycles_witness :
  ∃ l, BM_ApplyMixed_Capture (λ _, 0) 99 (Some sample_file) 5 3 = Ret (Some (Some l)) ∧ l.2 = 1%nat.
Proof.
  destruct (capture_bench_cycles (λ _, 0) 99 sample_file 5 3) as [_ E];
    [vm_compute; lia|unfold UINT64_MAX; lia|].
  rewrite E. eexists. split; [vm_compute; reflexivity|reflexivity].
Defined.
