(* ===== verification/BenchLadder.v ===== *)
(** The ladder shootout ([bench/bench_ladder_shootout.cpp]): one workload on the
    three price ladders.

    A benchmark is its ladder and its index after a number of iterations. *)

From S2P Require Import Prelude Messages OrderBook PriceLadder ArrayLadder.
From S2P Require Import Double Random Bench BenchMixed.

#[local] Open Scope Z_scope.

Module LadderBench.

Definition MID : Z := 1000000.
Definition SPREAD : Z := 2500.
Definition BASE : Z := MID - 4 * SPREAD.
Definition SLOTS : nat := 1024.

Inductive Op := OP_ADD | OP_REMOVE_PARTIAL | OP_REMOVE_FULL.

Record Step := mkStep { st_op : Op; st_price_raw : Z; st_shares : Z }.

(** What the construction of the workload keeps. *)
Record Builder `{Distributions} := mkBuilder {
  b_ln : lognormal_distribution; b_rng : mt19937; b_out : list Step; b_live_prices : list Z }.

Section workload.
Context `{Distributions}.

Definition sample_price (ln : lognormal_distribution) (rng : mt19937)
  : outcome (Z * (lognormal_distribution * mt19937)) :=
  '(o, (ln, rng)) ← signed_offset SPREAD ln rng;
  p ← int64_add MID o;
  let top := BASE + (Z.of_nat SLOTS - 1) * 100 in
  let p := if p <? BASE then BASE else p in
  let p := if top <? p then top else p in
  Ret (u32 (Z.quot p 100 * 100), (ln, rng)).

Definition set_rng (rng : mt19937) (b : Builder) : Builder :=
  mkBuilder _ (b_ln b) rng (b_out b) (b_live_prices b).

(** The add of either loop. *)
Definition add_step (b : Builder) : outcome Builder :=
  '(p, (ln, rng)) ← sample_price (b_ln b) (b_rng b);
  Ret (mkBuilder _ ln rng (b_out b ++ [mkStep OP_ADD p 100]) (b_live_prices b ++ [p])).

(** [pick_live] of the mixed workload draws the index of a live price. *)
Definition mix_step (b : Builder) : outcome Builder :=
  let '(r, rng) := uniform_int 0 99 (b_rng b) in
  let b := set_rng rng b in
  let empty := bool_decide (b_live_prices b = []) in
  if (r <? 75) && negb empty then
    '(idx, p, rng) ← MixedBench.pick_live (b_live_prices b) rng;
    Ret (mkBuilder _ (b_ln b) rng (b_out b ++ [mkStep OP_REMOVE_FULL p 100])
      (MixedBench.swap_remove idx (b_live_prices b)))
  else if (r <? 95) || empty then add_step b
  else
    '(_, p, rng) ← MixedBench.pick_live (b_live_prices b) rng;
    Ret (mkBuilder _ (b_ln b) rng (b_out b ++ [mkStep OP_REMOVE_PARTIAL p 1])
      (b_live_prices b)).

Definition build_workload (n_seed n_replay : nat) (seed : Z) : outcome (list Step) :=
  b ← iterate add_step n_seed
        (mkBuilder _ (lognormal (double_of_Z 0) double_0_6) (mt_seed seed) [] []);
  b ← iterate mix_step n_replay b;
  Ret (b_out b).

End workload.

(** The operation of a step. *)
Definition step_op (s : Step) : ladder_op :=
  match st_op s with
  | OP_ADD => AddShares (mkPrice (st_price_raw s)) (st_shares s)
  | OP_REMOVE_PARTIAL => RemoveShares (mkPrice (st_price_raw s)) (st_shares s) false
  | OP_REMOVE_FULL => RemoveShares (mkPrice (st_price_raw s)) (st_shares s) true
  end.

Section run.
Context `{Distributions} {L : Type} `{Ladder L}.

Definition run_workload_inner (ops : list Step) (l : L * nat) : outcome (L * nat) :=
  s ← deref (ops !! l.2);
  ladder ← ladder_step (step_op s) l.1;
  Ret (ladder, if decide (l.2 + 1 = length ops)%nat then O else (l.2 + 1)%nat).

Definition replay_steps : nat := Z.to_nat 100000.

(** The three bid-side benchmarks differ in the empty ladder they start from. *)
Definition bid_bench (empty : L) (n n_replay iterations : nat) : outcome (L * nat) :=
  ops ← build_workload n n_replay 0xC0FFEE;
  l ← iterate (run_workload_inner ops) n (empty, O);
  iterate (run_workload_inner ops) iterations l.

Definition BM_Ladder_Bid (empty : L) (n iterations : nat) : outcome (L * nat) :=
  bid_bench empty n replay_steps iterations.

Definition run_top_bench (iterations : nat) (ladder : L) : outcome (list (option PriceLevel)) :=
  iterate (λ read, b ← ladder_best ladder; Ret (read ++ [b])) iterations [].

(** So do the three benchmarks of the top of the book. *)
Definition BM_Ladder_Top (empty : L) (n iterations : nat) : outcome (list (option PriceLevel)) :=
  ops ← build_workload n replay_steps 0xC0FFEE;
  l ← iterate (run_workload_inner ops) (length ops) (empty, O);
  run_top_bench iterations l.1.

End run.

Definition empty_array : ArrayLadder Bid SLOTS 100 := ArrayLadder_init BASE.

Section benchmarks.
Context `{Distributions}.

Definition BM_Ladder_Map_Bid : nat → nat → outcome (MapLadder Bid * nat) :=
  BM_Ladder_Bid MapLadder_init.
Definition BM_Ladder_Flat_Bid : nat → nat → outcome (FlatLadder Bid * nat) :=
  BM_Ladder_Bid FlatLadder_init.
Definition BM_Ladder_Array_Bid : nat → nat → outcome (ArrayLadder Bid SLOTS 100 * nat) :=
  BM_Ladder_Bid empty_array.

Definition BM_Ladder_Map_Top : nat → nat → outcome (list (option PriceLevel)) :=
  BM_Ladder_Top (MapLadder_init (S := Bid)).
Definition BM_Ladder_Flat_Top : nat → nat → outcome (list (option PriceLevel)) :=
  BM_Ladder_Top (FlatLadder_init (S := Bid)).
Definition BM_Ladder_Array_Top : nat → nat → outcome (list (option PriceLevel)) :=
  BM_Ladder_Top empty_array.

End benchmarks.
End LadderBench.
