(* ===== verification/BenchLadderTheorems.v ===== *)
(** The ladder shootout compares like with like: its workload stays on the
    array's grid, the sorted vector shows what the map shows, and the array the
    same prices and order counts.  The totals of the array part from those of
    the map.

    The order counts are followed by erasing the shares: with every number of
    shares zero the array's condition on removals ([ops_clean]) holds, and
    erasing commutes with running. *)

From S2P Require Import Prelude Messages StdMap OrderBook PriceLadder LadderRefinement.
From S2P Require Import ArrayLadder Double Random Bench BenchMixed BenchMixedTheorems.
From S2P Require Import BenchLadder.

#[local] Open Scope Z_scope.
Import LadderBench.

(** ** The workload *)

Definition grid_price (p : Z) : Prop := ∃ i, (i < SLOTS)%nat ∧ p = BASE + Z.of_nat i * 100.

Definition step_ok (s : Step) : Prop :=
  grid_price (st_price_raw s) ∧ st_shares s = (match st_op s with OP_REMOVE_PARTIAL => 1 | _ => 100 end).

Section workload.
Context `{Distributions}.

Lemma sample_price_grid ln rng :
  lognormal_0_6 ln →
  ∃ p ln' rng', sample_price ln rng = Ret (p, (ln', rng')) ∧ lognormal_0_6 ln' ∧ grid_price p.
Proof.
  intros Hln. destruct (signed_offset_defined SPREAD ln rng) as (o & ln' & rng' & E & Hln' & Ho);
    [unfold SPREAD; lia|done|].
  unfold sample_price. rewrite E. cbn [mbind outcome_bind].
  unfold int64_add, MID. rewrite (proj2 (Z.leb_le _ _)), (proj2 (Z.ltb_lt _ _)) by lia.
  cbn [andb mbind outcome_bind].
  assert (BASE = 990000) as -> by done. change (Z.of_nat SLOTS) with 1024.
  eexists _, ln', rng'. split; [done|]. split; [done|].
  set (q := if 990000 + (1024 - 1) * 100 <? _ then _ else _).
  assert (990000 ≤ q ≤ 1092300) as Hq by (unfold q; repeat case_match; lia).
  rewrite Z.quot_div_nonneg by lia.
  exists (Z.to_nat (q / 100 - 9900)). change SLOTS with 1024%nat. change BASE with 990000.
  rewrite u32_id by (Z.div_mod_to_equations; lia). split; Z.div_mod_to_equations; lia.
Qed.

(** The prices of [live_prices] are prices of steps. *)
Definition workload_ok (n : nat) (b : Builder) : Prop :=
  lognormal_0_6 (b_ln b) ∧ Forall step_ok (b_out b) ∧ Forall grid_price (b_live_prices b) ∧
  length (b_out b) = n.

Lemma workload_snoc n b ln rng s live :
  workload_ok n b → lognormal_0_6 ln → step_ok s → Forall grid_price live →
  workload_ok (S n) (mkBuilder _ ln rng (b_out b ++ [s]) live).
Proof.
  intros (Hln & Ho & Hl & Hn) Hln' Hs Hlive. split; [done|]. split.
  { apply Forall_app. by split; [|constructor]. }
  split; [done|]. cbn [b_out]. rewrite length_app. simpl. lia.
Qed.

Lemma ladder_add_step_ok n b :
  workload_ok n b → ∃ b', LadderBench.add_step b = Ret b' ∧ workload_ok (S n) b'.
Proof.
  intros Hb. pose proof Hb as (Hln & Ho & Hl & Hn). unfold LadderBench.add_step.
  destruct (sample_price_grid (b_ln b) (b_rng b) Hln) as (p & ln & rng & -> & Hln' & Hp).
  cbn [mbind outcome_bind]. eexists. split; [done|].
  apply workload_snoc; [done|done|done|]. apply Forall_app. by split; [|constructor].
Qed.

Lemma ladder_mix_step_ok n b :
  workload_ok n b → ∃ b', LadderBench.mix_step b = Ret b' ∧ workload_ok (S n) b'.
Proof.
  intros Hb. unfold LadderBench.mix_step. destruct (uniform_int 0 99 (b_rng b)) as [r rng].
  assert (workload_ok n (set_rng rng b)) as Hb' by exact Hb.
  pose proof Hb' as (Hln & Ho & Hl & Hn). rewrite Forall_forall in Hl.
  destruct (bool_decide_reflect (b_live_prices (set_rng rng b) = [])) as [E|Hne].
  { rewrite andb_false_r, orb_true_r. by apply ladder_add_step_ok. }
  rewrite andb_true_r, orb_false_r.
  destruct (pick_live_ok _ rng Hne) as (i & p & rng' & Ep & Hi). rewrite Ep.
  assert (p ∈ b_live_prices (set_rng rng b)) as Hin by by eapply list_elem_of_lookup_2.
  destruct (r <? 75); [|destruct (r <? 95)]; [|by apply ladder_add_step_ok|];
    cbn [mbind outcome_bind]; (eexists; split; [done|]); apply workload_snoc; try done.
  - split; [by apply Hl|done].
  - apply Forall_forall. intros x Hx. apply Hl. rewrite <- (swap_remove_perm _ _ _ Hi). by right.
  - split; [by apply Hl|done].
  - apply Forall_forall. intros x Hx. by apply Hl.
Qed.

Lemma build_workload_ok n_seed n_replay seed :
  ∃ ops, build_workload n_seed n_replay seed = Ret ops ∧ Forall step_ok ops ∧
    length ops = (n_seed + n_replay)%nat.
Proof.
  unfold build_workload.
  destruct (iterate_inv LadderBench.add_step workload_ok n_seed
    (mkBuilder _ (lognormal (double_of_Z 0) double_0_6) (mt_seed seed) [] [])) as (b & -> & Hb).
  { split; [apply lognormal_0_6_init|]. by split; [constructor|split; [constructor|]]. }
  { intros i b _. apply ladder_add_step_ok. }
  cbn [mbind outcome_bind].
  destruct (iterate_inv LadderBench.mix_step (λ i, workload_ok (n_seed + i)) n_replay b)
    as (b' & -> & Hb').
  { by rewrite Nat.add_0_r. }
  { intros i b' _ Hb'. rewrite Nat.add_succ_r. by apply ladder_mix_step_ok. }
  cbn [mbind outcome_bind]. exists (b_out b'). destruct Hb' as (_ & Ho & _ & Hl). done.
Qed.

End workload.

(** ** Runs *)

Definition step_ops (ops : list Step) : list ladder_op := step_op <$> ops.

Lemma ladder_run_snoc {L} `{Ladder L} ops op (l : L) :
  ladder_run (ops ++ [op]) l = l' ← ladder_run ops l; ladder_step op l'.
Proof.
  revert l. induction ops as [|o ops IH]; intros l; simpl.
  - by destruct (ladder_step op l).
  - destruct (ladder_step o l) as [l'| |]; [apply IH|done|done].
Qed.

Lemma shootout_run {L} `{Ladder L} (ops : list Step) (l : L) k :
  ops ≠ [] →
  iterate (run_workload_inner ops) k (l, O) =
  l' ← ladder_run (step_ops (cycle ops k)) l; Ret (l', (k mod length ops)%nat).
Proof.
  intros Hne. assert (length ops ≠ 0%nat) as Hn by by destruct ops.
  induction k as [|k IH]; [simpl; by rewrite Nat.mod_0_l|].
  rewrite <- Nat.add_1_r, iterate_add, IH.
  destruct (cycle_next ops k Hne) as (s & Hs & E). rewrite Nat.add_1_r, E.
  unfold step_ops. rewrite fmap_app. change (step_op <$> [s]) with [step_op s].
  rewrite ladder_run_snoc.
  destruct (ladder_run (step_op <$> cycle ops k) l) as [l'| |]; [|done|done].
  cbn [mbind outcome_bind iterate]. unfold run_workload_inner at 1. cbn [fst snd].
  rewrite Hs. cbn [deref mbind outcome_bind].
  destruct (ladder_step (step_op s) l') as [l''| |]; [|done|done].
  cbn [mbind outcome_bind]. by rewrite cycle_index_test.
Qed.

(** A bid benchmark is a run of the cycled workload. *)
Lemma bid_bench_run `{Distributions} {L} `{Ladder L} (empty : L) ops n n_replay k :
  build_workload n n_replay 0xC0FFEE = Ret ops → ops ≠ [] →
  bid_bench empty n n_replay k =
  l ← ladder_run (step_ops (cycle ops (n + k))) empty; Ret (l, ((n + k) mod length ops)%nat).
Proof.
  intros E Hne. unfold bid_bench. rewrite E. cbn [mbind outcome_bind].
  rewrite <- shootout_run by done. by rewrite iterate_add.
Qed.

(** ** Erasing the shares *)

Definition shape_level (l : PriceLevel) : PriceLevel := mkLevel (lvl_price l) 0 (lvl_order_count l).

Definition shape_op (op : ladder_op) : ladder_op :=
  match op with
  | AddShares p _ => AddShares p 0
  | RemoveShares p _ full => RemoveShares p 0 full
  end.

Lemma shape_level_add n l : shape_level (level_add n l) = level_add 0 (shape_level l).
Proof. done. Qed.

Lemma shape_level_sub n full l : shape_level (level_sub n full l) = level_sub 0 full (shape_level l).
Proof. done. Qed.

(** *** Of a map *)

Section map_values.
Context {K V : Type} (ltb : K → K → bool) (g : V → V).
Implicit Types (m : list (K * V)).

Definition map_values m : list (K * V) := prod_map id g <$> m.

Lemma om_find_values k m : om_find ltb k (map_values m) = g <$> om_find ltb k m.
Proof.
  induction m as [|[k' v'] m IH]; [done|]. simpl. destruct (ltb k' k); [exact IH|].
  by destruct (ltb k k').
Qed.

Lemma om_set_values k v m : map_values (om_set ltb k v m) = om_set ltb k (g v) (map_values m).
Proof.
  induction m as [|[k' v'] m IH]; [done|]. simpl. destruct (ltb k' k).
  - cbn. f_equal. exact IH.
  - by destruct (ltb k k').
Qed.

Lemma om_erase_values k m : map_values (om_erase ltb k m) = om_erase ltb k (map_values m).
Proof.
  induction m as [|[k' v'] m IH]; [done|]. simpl. destruct (ltb k' k).
  - cbn. f_equal. exact IH.
  - by destruct (ltb k k').
Qed.

End map_values.

Section shape.
Context {S : Side}.

Definition shape_map (m : MapLadder S) : MapLadder S := {|
  ml_levels := map_values shape_level (ml_levels m) |}.

Lemma shape_map_step op (m : MapLadder S) :
  ladder_step (shape_op op) (shape_map m) = shape_map <$> ladder_step op m.
Proof.
  destruct op as [p n|p n full]; simpl.
  - unfold map_add_shares, shape_map. cbn [ml_levels]. rewrite om_find_values.
    unfold fmap, outcome_fmap. cbn [ml_levels]. do 2 f_equal. rewrite om_set_values. f_equal.
    by destruct (om_find _ p (ml_levels m)).
  - unfold map_remove_shares, shape_map. cbn [ml_levels]. rewrite om_find_values.
    destruct (om_find _ p (ml_levels m)) as [l|]; [|done]. simpl.
    destruct full; cbn [lvl_order_count level_sub]; case_match;
      unfold fmap, outcome_fmap; cbn [ml_levels];
      by rewrite ?om_erase_values, ?om_set_values.
Qed.

(** *** Of an array *)

Context {SLOTS : nat} {TICK : Z}.
Local Notation ladder := (ArrayLadder S SLOTS TICK).

Definition shape_array (a : ladder) : ladder :=
  mkArrayLadder (base_raw a) (best_idx a) (nonempty_count a) (shape_level <$> al_levels a).

Lemma first_nonempty_shape (levels : list PriceLevel) ixs :
  first_nonempty (shape_level <$> levels) ixs = first_nonempty levels ixs.
Proof.
  induction ixs as [|i ixs IH]; [done|]. simpl. rewrite list_lookup_fmap.
  destruct (levels !! i) as [l|]; [|done]. simpl. by destruct (0 <? _).
Qed.

Lemma visit_shape (levels : list PriceLevel) ixs :
  visit (shape_level <$> levels) ixs = (λ ls : list PriceLevel, shape_level <$> ls) <$> visit levels ixs.
Proof.
  induction ixs as [|i ixs IH]; [done|]. simpl. rewrite list_lookup_fmap.
  destruct (levels !! i) as [l|]; [|done]. simpl. rewrite IH.
  destruct (visit levels ixs); [|done|done]. simpl. by destruct (0 <? _).
Qed.

Lemma set_level_shape i l (a : ladder) :
  shape_array (set_level i l a) = set_level i (shape_level l) (shape_array a).
Proof. unfold shape_array, set_level. simpl. by rewrite list_fmap_insert. Qed.

Lemma advance_best_shape i (a : ladder) :
  advance_best_from i (shape_array a) = shape_array <$> advance_best_from i a.
Proof.
  unfold advance_best_from. simpl. destruct (_ =? 0); [done|]. rewrite first_nonempty_shape.
  by destruct (first_nonempty _ _).
Qed.

End shape.

Lemma update_best_shape {S SLOTS TICK} i (a : ArrayLadder S SLOTS TICK) :
  shape_array (update_best_after_add i a) = update_best_after_add i (shape_array a).
Proof. unfold update_best_after_add. simpl. destruct S; by repeat case_match. Qed.

Lemma shape_array_step {S SLOTS TICK} op (a : ArrayLadder S SLOTS TICK) :
  ladder_step (shape_op op) (shape_array a) = shape_array <$> ladder_step op a.
Proof.
  destruct op as [p n|p n full]; simpl.
  - unfold array_add_shares. change (idx_of p (shape_array a)) with (idx_of p a).
    destruct (_ <=? _)%nat; [done|]. cbn [shape_array al_levels]. rewrite list_lookup_fmap.
    destruct (al_levels a !! idx_of p a) as [l|]; [|done]. simpl.
    destruct (_ =? 0); unfold fmap, outcome_fmap; f_equal; rewrite set_level_shape; f_equal.
    by rewrite update_best_shape.
  - unfold array_remove_shares. change (idx_of p (shape_array a)) with (idx_of p a).
    destruct (_ <=? _)%nat; [done|]. cbn [shape_array al_levels]. rewrite list_lookup_fmap.
    destruct (al_levels a !! idx_of p a) as [l|]; [|done]. simpl.
    destruct (_ =? 0); [done|].
    change (set_level (idx_of p a) (level_sub 0 full (shape_level l)) _) with
      (set_level (idx_of p a) (shape_level (level_sub n full l)) (shape_array a)).
    rewrite <- set_level_shape. destruct (_ =? 0); [|done]. simpl.
    destruct (_ =? best_idx a)%nat; [|done]. by rewrite <- advance_best_shape.
Qed.

(** Erasing commutes with running. *)
Lemma shape_run {L} `{Ladder L} (shape : L → L) ops l :
  (∀ op l, ladder_step (shape_op op) (shape l) = shape <$> ladder_step op l) →
  ladder_run (shape_op <$> ops) (shape l) = shape <$> ladder_run ops l.
Proof.
  intros Hs. revert l. induction ops as [|op ops IH]; intros l; [done|]. simpl.
  rewrite Hs. destruct (ladder_step op l); [apply IH|done|done].
Qed.

(** What a client sees, the shares erased. *)
Definition shape_view (v : option PriceLevel * Z * list PriceLevel)
  : option PriceLevel * Z * list PriceLevel :=
  (shape_level <$> v.1.1, v.1.2, shape_level <$> v.2).

Lemma observe_shape_map {S} (m : MapLadder S) : observe (shape_map m) = shape_view <$> observe m.
Proof.
  destruct m as [ms]. unfold observe. simpl. unfold map_size, map_best, map_for_each, shape_map.
  cbn [ml_levels]. unfold map_values, shape_view. cbn.
  rewrite length_fmap, <- !list_fmap_compose. by destruct ms.
Qed.

Lemma observe_shape_array {S SLOTS TICK} (a : ArrayLadder S SLOTS TICK) :
  observe (shape_array a) = shape_view <$> observe a.
Proof.
  unfold observe. simpl. unfold array_best, array_for_each. simpl.
  destruct (_ =? 0); [done|]. rewrite list_lookup_fmap, visit_shape.
  destruct (al_levels a !! best_idx a) as [l|]; [|done]. simpl. by destruct (visit _ _).
Qed.

(** *** Erased operations are clean *)

Section clean.
Context {S : Side}.
Implicit Types (m : MapLadder S).

(** Levels without shares and with at most [j] orders. *)
Definition counts_ok (j : nat) (kv : Price * PriceLevel) : Prop :=
  lvl_total_shares kv.2 = 0 ∧ 1 ≤ lvl_order_count kv.2 ≤ Z.of_nat j.

Lemma Forall_om_set {V} (P : Price * V → Prop) p v (m : list (Price * V)) :
  Forall P m → P (p, v) → Forall P (om_set (map_compare S) p v m).
Proof.
  intros Hm Hv. induction Hm as [|[p' v'] m Hp Hm IH]; simpl; [by constructor|].
  destruct (map_compare S p' p); [by constructor|].
  destruct (map_compare S p p'); by repeat constructor.
Qed.

Lemma Forall_om_erase {V} (P : Price * V → Prop) p (m : list (Price * V)) :
  Forall P m → Forall P (om_erase (map_compare S) p m).
Proof.
  induction 1 as [|[p' v'] m Hp Hm IH]; simpl; [constructor|].
  destruct (map_compare S p' p); [by constructor|].
  destruct (map_compare S p p'); [by constructor|done].
Qed.

Lemma counts_find j m p l :
  Forall (counts_ok j) (ml_levels m) → om_find (map_compare S) p (ml_levels m) = Some l →
  lvl_total_shares l = 0 ∧ 1 ≤ lvl_order_count l ≤ Z.of_nat j.
Proof.
  intros Hm Hl%om_find_elem; [|apply _]. rewrite Forall_forall in Hm. apply (Hm _ Hl).
Qed.

Lemma counts_step j m op :
  Z.of_nat j + 1 < 2 ^ 32 → Forall (counts_ok j) (ml_levels m) →
  ∃ m', ladder_step (shape_op op) m = Ret m' ∧
    Forall (counts_ok (Datatypes.S j)) (ml_levels m').
Proof.
  intros Hj Hm. assert (Forall (counts_ok (Datatypes.S j)) (ml_levels m)) as HmS.
  { eapply Forall_impl; [exact Hm|]. intros kv [??]. split; [done|lia]. }
  destruct op as [p n|p n full]; simpl.
  - eexists. split; [done|]. cbn [ml_levels]. apply Forall_om_set; [done|].
    destruct (om_find _ p (ml_levels m)) as [l|] eqn:E; simpl.
    + destruct (counts_find _ _ _ _ Hm E) as [Ht Hc]. split; simpl; [by rewrite Ht|].
      rewrite u32_id; lia.
    + split; simpl; [done|]. rewrite u32_id; lia.
  - unfold map_remove_shares. destruct (om_find _ p (ml_levels m)) as [l|] eqn:E.
    2: { eexists. by split. }
    destruct (counts_find _ _ _ _ Hm E) as [Ht Hc]. eexists. split; [done|]. cbn [ml_levels].
    destruct (Z.eqb_spec (lvl_order_count (level_sub 0 full l)) 0) as [E0|E0];
      [by apply Forall_om_erase|]. apply Forall_om_set; [done|].
    split; simpl in *; [by rewrite Ht|]. destruct full; [|lia]. rewrite u32_id in * by lia. lia.
Qed.

Lemma shape_ops_clean SLOTS TICK base ops j m :
  Z.of_nat (j + length ops) < 2 ^ 32 → Forall (counts_ok j) (ml_levels m) →
  Forall (λ op, ∃ p, in_band (SLOTS := SLOTS) (TICK := TICK) base p ∧
    (op = AddShares p 0 ∨ ∃ full, op = RemoveShares p 0 full)) (shape_op <$> ops) →
  ops_clean (SLOTS := SLOTS) (TICK := TICK) base m (shape_op <$> ops).
Proof.
  revert j m. induction ops as [|op ops IH]; intros j m Hj Hm Hops; [done|].
  apply Forall_cons in Hops as [(p & Hp & Hop) Hops]. cbn [length] in Hj.
  destruct (counts_step j m op) as (m' & E & Hm'); [lia|done|]. split.
  - change (op_clean (SLOTS := SLOTS) (TICK := TICK) base m (shape_op op)).
    destruct Hop as [->|[full ->]]; (split; [done|]).
    + destruct (om_find _ p (ml_levels m)) as [l|] eqn:El; simpl; [|lia].
      destruct (counts_find _ _ _ _ Hm El). lia.
    + intros l Hl Hc. destruct (counts_find _ _ _ _ Hm Hl) as [Ht _]. simpl. by rewrite Ht.
  - change (match ladder_step (shape_op op) m with
      | Ret m' => ops_clean (SLOTS := SLOTS) (TICK := TICK) base m' (shape_op <$> ops)
      | _ => False end).
    rewrite E. apply (IH (Datatypes.S j)); [lia|done|done].
Qed.

End clean.

(** ** The three ladders on a workload *)

Section three.
Context (ops : list Step) (Hops : Forall step_ok ops).

Lemma workload_in_range : Forall op_in_range (step_ops ops).
Proof.
  unfold step_ops. apply Forall_fmap. eapply Forall_impl; [exact Hops|].
  intros [op p n] [_ Hn]. simpl in *. destruct op; simpl; [subst n; lia|done|done].
Qed.

Lemma workload_in_band :
  Forall (λ op, ∃ p, in_band (SLOTS := SLOTS) (TICK := 100) BASE p ∧
    (op = AddShares p 0 ∨ ∃ full, op = RemoveShares p 0 full)) (shape_op <$> step_ops ops).
Proof.
  unfold step_ops. rewrite <- list_fmap_compose. apply Forall_fmap.
  eapply Forall_impl; [exact Hops|]. intros [op p n] [(i & Hi & Hp) _]. simpl in *.
  exists (mkPrice p). split; [exists i; split; [done|by rewrite Hp]|].
  destruct op; simpl; eauto.
Qed.

Lemma three_ladders :
  Z.of_nat (length ops) < 2 ^ 32 →
  ∃ (m : MapLadder Bid) (f : FlatLadder Bid) (a : ArrayLadder Bid SLOTS 100) v,
    ladder_run (step_ops ops) MapLadder_init = Ret m ∧
    ladder_run (step_ops ops) FlatLadder_init = Ret f ∧
    ladder_run (step_ops ops) empty_array = Ret a ∧
    observe m = Ret v ∧ observe f = Ret v ∧ shape_view <$> observe a = Ret (shape_view v).
Proof.
  intros Hlen.
  destruct (flat_run_refines (step_ops ops) (MapLadder_init (S := Bid)) FlatLadder_init
    workload_in_range) as (m & f & Em & Ef & Hf); [by split; [constructor|constructor|]|].
  destruct (array_run_refines (S := Bid) (SLOTS := SLOTS) (TICK := 100) ltac:(lia) ltac:(done)
    (shape_op <$> step_ops ops) MapLadder_init empty_array (array_init_map BASE))
    as (m' & a' & Em' & Ea' & Hm').
  { apply (shape_ops_clean _ _ _ _ 0).
    - unfold step_ops. rewrite length_fmap. done.
    - constructor.
    - apply workload_in_band. }
  assert (MapLadder_init (S := Bid) = shape_map MapLadder_init) as E1 by done.
  assert (empty_array = shape_array empty_array) as E2.
  { unfold shape_array, empty_array, ArrayLadder_init. cbn [base_raw best_idx nonempty_count al_levels].
    by rewrite fmap_replicate. }
  rewrite E1, (shape_run shape_map), Em in Em' by apply shape_map_step.
  rewrite E2, (shape_run shape_array) in Ea' by apply shape_array_step.
  destruct (ladder_run (step_ops ops) empty_array) as [a| |] eqn:Ea; [|done|done].
  injection Em' as <-. injection Ea' as <-.
  pose proof (array_observe (TICK := 100) ltac:(done) _ _ Hm') as Hobs.
  rewrite observe_shape_map, observe_shape_array in Hobs.
  assert (∃ v, observe m = Ret v) as [v Ev] by by eexists.
  exists m, f, a, v. split; [done|]. split; [done|]. split; [done|]. split; [done|].
  rewrite (flat_observe m f Hf). split; [done|]. by rewrite Hobs, Ev.
Qed.

End three.

Lemma observe_best {L} `{Ladder L} (l : L) v : observe l = Ret v → ladder_best l = Ret v.1.1.
Proof.
  unfold observe. destruct (ladder_best l) as [b| |]; [|done|done]. simpl.
  destruct (ladder_for_each l); [|done|done]. by intros [= <-].
Qed.

Lemma top_bench_run {L} `{Ladder L} (ladder : L) b k :
  ladder_best ladder = Ret b → run_top_bench k ladder = Ret (replicate k b).
Proof.
  intros Hb. unfold run_top_bench.
  destruct (iterate_inv (λ read, b ← ladder_best ladder; Ret (read ++ [b]))
    (λ i read, read = replicate i b) k []) as (r & -> & ->); [done| |done].
  intros i r _ ->. rewrite Hb. cbn [mbind outcome_bind]. eexists. split; [done|].
  by rewrite replicate_S_end.
Qed.

Lemma top_bench_reads `{Distributions} {L} `{Ladder L} (empty ladder : L) ops b n k :
  build_workload n replay_steps 0xC0FFEE = Ret ops → ops ≠ [] →
  ladder_run (step_ops ops) empty = Ret ladder → ladder_best ladder = Ret b →
  BM_Ladder_Top empty n k = Ret (replicate k b).
Proof.
  intros Eb Hne Er Hb. unfold BM_Ladder_Top. rewrite Eb. cbn [mbind outcome_bind].
  rewrite shootout_run, cycle_take, firstn_all, Er by done. cbn [mbind outcome_bind fst].
  by apply top_bench_run.
Qed.

(** The bid benchmarks run the same steps, on whatever ladder. *)
Lemma bid_benches `{Distributions} n k :
  ∃ ops i, Forall step_ok ops ∧ length ops = (n + k)%nat ∧
    ∀ {L} `{Ladder L} (empty : L),
      BM_Ladder_Bid empty n k = (l ← ladder_run (step_ops ops) empty; Ret (l, i)).
Proof.
  destruct (build_workload_ok n replay_steps 0xC0FFEE) as (ops & E & Hops & Hl).
  assert (ops ≠ []) as Hne by (intros ->; unfold replay_steps in Hl; simpl length in Hl; lia).
  exists (cycle ops (n + k)), ((n + k) mod length ops)%nat.
  split; [by apply Forall_cycle|split; [by rewrite length_cycle|]].
  intros L HL empty. by apply bid_bench_run.
Qed.

(** ** Properties *)

(** C35: The shootout compares like with like: on its workload, for any source of
    random numbers and up to [2 ^ 32] steps, no ladder leaves its memory, the
    sorted vector shows exactly what the map shows, and the array the same
    number of levels, the same best price and the same prices and order counts in
    the same order. *)
Theorem shootout_agrees `{Distributions} n k :
  Z.of_nat (n + k) < 2 ^ 32 →
  ∃ m f a i v, BM_Ladder_Map_Bid n k = Ret (m, i) ∧ BM_Ladder_Flat_Bid n k = Ret (f, i) ∧
    BM_Ladder_Array_Bid n k = Ret (a, i) ∧ observe m = Ret v ∧ observe f = Ret v ∧
    shape_view <$> observe a = Ret (shape_view v).
Proof.
  intros Hk. destruct (bid_benches n k) as (ops & i & Hops & Hl & Hrun).
  destruct (three_ladders ops Hops) as (m & f & a & v & Em & Ef & Ea & Hv); [by rewrite Hl|].
  exists m, f, a, i, v.
  unfold BM_Ladder_Map_Bid, BM_Ladder_Flat_Bid, BM_Ladder_Array_Bid.
  rewrite !Hrun, Em, Ef, Ea. done.
Qed.

Lemma shootout_agrees_witness :
  ∃ m f a i v, BM_Ladder_Map_Bid 1000 7 = Ret (m, i) ∧ BM_Ladder_Flat_Bid 1000 7 = Ret (f, i) ∧
    BM_Ladder_Array_Bid 1000 7 = Ret (a, i) ∧ observe m = Ret v ∧ observe f = Ret v ∧
    shape_view <$> observe a = Ret (shape_view v).
Proof. apply shootout_agrees. lia. Defined.

(** The three benchmarks of the top of the book read one level: every iteration
    reads the same best level after the whole workload, which the map and
    the vector show alike and the array with the same price and order count. *)
Theorem top_benches_agree `{Distributions} n k :
  Z.of_nat n < 2 ^ 31 →
  ∃ b b', BM_Ladder_Map_Top n k = Ret (replicate k b) ∧
    BM_Ladder_Flat_Top n k = Ret (replicate k b) ∧
    BM_Ladder_Array_Top n k = Ret (replicate k b') ∧ shape_level <$> b' = shape_level <$> b.
Proof.
  intros Hn. destruct (build_workload_ok n replay_steps 0xC0FFEE) as (ops & E & Hops & Hl).
  assert (ops ≠ []) as Hne by (intros ->; unfold replay_steps in Hl; simpl length in Hl; lia).
  destruct (three_ladders ops Hops) as (m & f & a & v & Em & Ef & Ea & Hm & Hf & Ha).
  { unfold replay_steps in Hl. lia. }
  destruct (observe a) as [w| |] eqn:Hw; [|done|done]. injection Ha as Ha1 Ha2 Ha3.
  exists v.1.1, w.1.1. split; [|split; [|split]]; [..|done].
  - eapply top_bench_reads; [done|done|exact Em|by apply observe_best].
  - eapply top_bench_reads; [done|done|exact Ef|by apply observe_best].
  - eapply top_bench_reads; [done|done|exact Ea|by apply observe_best].
Qed.

Lemma top_benches_agree_witness :
  ∃ b b', BM_Ladder_Map_Top 1000 3 = Ret (replicate 3 b) ∧
    BM_Ladder_Array_Top 1000 3 = Ret (replicate 3 b') ∧ shape_level <$> b' = shape_level <$> b.
Proof.
  destruct (top_benches_agree 1000 3) as (b & b' & E & _ & E' & Hb); [lia|].
  exists b, b'. exact (conj E (conj E' Hb)).
Defined.

(** The totals differ: a short workload, drawn from the sample distributions, ends
    with one order of a hundred shares for the map and of ninety-nine for the
    array. *)
Theorem shootout_totals_differ :
  ∃ m a i, bid_bench (MapLadder_init (S := Bid)) 4 60 60 = Ret (m, i) ∧
    bid_bench empty_array 4 60 60 = Ret (a, i) ∧
    ladder_best m = Ret (Some (mkLevel (mkPrice 990000) 100 1)) ∧
    ladder_best a = Ret (Some (mkLevel (mkPrice 990000) 99 1)).
Proof. eexists _, _, _. split; [vm_compute; reflexivity|]. split; [vm_compute; reflexivity|]. done. Qed.

(** A price outside four spreads of the mid price, which the comments of the
    benchmark exclude. *)
Theorem shootout_leaves_band :
  match build_workload 4 60 0xC0FFEE with
  | Ret ops => Exists (λ s, MID + 4 * SPREAD < st_price_raw s) ops
  | _ => False
  end.
Proof. vm_compute. do 20 (first [left; reflexivity|right]). Qed.
