(* ===== verification/Benchmarks.v ===== *)
(** The program [itch_bench]: the benchmarks that the files under [src/bench/] register
    with [BENCHMARK], with the arguments that they are registered with, and that
    all of them run. *)

From S2P Require Import Prelude ByteOrder Messages Parser FeedReader WireFormat.
From S2P Require Import StdMap OrderBook BookEngine Snapshot PipelineTheorems.
From S2P Require Import PriceLadder ArrayLadder Replay Bench BenchBook BenchBookTheorems BenchParser.
From S2P Require Import BenchSnapshot BenchSnapshotTheorems Random BenchMixed BenchMixedTheorems.
From S2P Require Import BenchLadder BenchLadderTheorems.
Import BookBench SnapshotBench MixedBench LadderBench.

#[local] Open Scope Z_scope.

(** A benchmark, the lists of arguments it is run with, and what a run of a number of
    iterations with the list [state.range] comes to. *)
Record registration := mkRegistration {
  bench_name : string;
  bench_args : list (list Z);
  bench_run : list Z → nat → outcome ()
}.

Definition ran_out {A} (o : outcome A) : outcome () := _ ← o; Ret ().

(** [state.range(0)] and [state.range(1)], as counts; a range that was not given is
    out of bounds. *)
Definition ranges0 {A} (f : nat → outcome A) (args : list Z) (k : nat) : outcome () :=
  ran_out (f k).
Definition ranges1 {A} (f : nat → nat → outcome A) (args : list Z) (k : nat) : outcome () :=
  match args with a :: _ => ran_out (f (Z.to_nat a) k) | [] => Undef end.
Definition ranges2 {A} (f : nat → nat → nat → outcome A) (args : list Z) (k : nat) : outcome () :=
  match args with a :: b :: _ => ran_out (f (Z.to_nat a) (Z.to_nat b) k) | _ => Undef end.

Section registered.
Context `{MapOrder} `{Distributions} (now : nat → Z).
Context {F : Type} `{PosixFile F} (fuel : nat) (capture : option F).

(** *** [bench_book_engine.cpp] *)

Definition reg_BM_DeleteOrder : registration :=
  mkRegistration "BM_DeleteOrder" [[10000]] (ranges1 (BM_DeleteOrder now)).

Definition reg_BM_ReplaceOrder : registration :=
  mkRegistration "BM_ReplaceOrder" [[10000]] (ranges1 (BM_ReplaceOrder now)).

Definition reg_BM_ExecuteOrder : registration :=
  mkRegistration "BM_ExecuteOrder" [[10000]] (ranges1 (BM_ExecuteOrder now)).

Definition bench_book_engine : list registration :=
  [reg_BM_DeleteOrder; reg_BM_ReplaceOrder; reg_BM_ExecuteOrder].

(** *** [bench_parser.cpp] *)

Definition reg_BM_ParseAddOrder : registration :=
  mkRegistration "BM_ParseAddOrder" [[]] (ranges0 BM_ParseAddOrder).

Definition reg_BM_ParseOrderDelete : registration :=
  mkRegistration "BM_ParseOrderDelete" [[]] (ranges0 BM_ParseOrderDelete).

Definition reg_BM_ParseOrderReplace : registration :=
  mkRegistration "BM_ParseOrderReplace" [[]] (ranges0 BM_ParseOrderReplace).

Definition reg_BM_ParseUnknownType : registration :=
  mkRegistration "BM_ParseUnknownType" [[]] (ranges0 BM_ParseUnknownType).

Definition bench_parser : list registration :=
  [reg_BM_ParseAddOrder; reg_BM_ParseOrderDelete; reg_BM_ParseOrderReplace;
   reg_BM_ParseUnknownType].

(** *** [bench_snapshot.cpp] *)

(** The engine is seeded once; every iteration builds its snapshot. *)
Definition BM_BuildSnapshot_loop (n_instr levels iterations : nat)
  : outcome (option SystemSnapshot) :=
  s ← SnapshotBench.seed_engine now n_instr levels System_init;
  iterate (λ _, Ret (Some (build_snapshot (now 0%nat) (sys_engine s)))) iterations None.

Definition reg_BM_BuildSnapshot : registration :=
  mkRegistration "BM_BuildSnapshot" [[100; 20]; [1000; 50]; [5000; 100]]
    (ranges2 BM_BuildSnapshot_loop).

Definition bench_snapshot : list registration :=
  [reg_BM_BuildSnapshot].

(** *** [bench_mixed_workload.cpp] *)

(** Running out of fuel is no run. *)
Definition capture_run (MAX iterations : nat) : outcome (option (System * nat * nat)) :=
  o ← BM_ApplyMixed_Capture now fuel capture MAX iterations;
  match o with Some r => Ret r | None => Undef end.

Definition reg_BM_AddOrder_HotBand : registration :=
  mkRegistration "BM_AddOrder_HotBand" [[]] (ranges0 (BM_AddOrder_HotBand now)).

Definition reg_BM_AddOrder_ColdPrice : registration :=
  mkRegistration "BM_AddOrder_ColdPrice" [[]] (ranges0 (BM_AddOrder_ColdPrice now)).

Definition reg_BM_ApplyMixed_Synth : registration :=
  mkRegistration "BM_ApplyMixed_Synth" [[10000]; [100000]]
    (ranges1 (λ n k, BM_ApplyMixed_Synth now n k)).

Definition reg_BM_ApplyMixed_Capture : registration :=
  mkRegistration "BM_ApplyMixed_Capture" [[100000]] (ranges1 capture_run).

Definition bench_mixed_workload : list registration :=
  [reg_BM_AddOrder_HotBand; reg_BM_AddOrder_ColdPrice; reg_BM_ApplyMixed_Synth;
   reg_BM_ApplyMixed_Capture].

(** *** [bench_ladder_shootout.cpp] *)

Definition reg_BM_Ladder_Map_Bid : registration :=
  mkRegistration "BM_Ladder_Map_Bid" [[10000]] (ranges1 BM_Ladder_Map_Bid).

Definition reg_BM_Ladder_Flat_Bid : registration :=
  mkRegistration "BM_Ladder_Flat_Bid" [[10000]] (ranges1 BM_Ladder_Flat_Bid).

Definition reg_BM_Ladder_Array_Bid : registration :=
  mkRegistration "BM_Ladder_Array_Bid" [[10000]] (ranges1 BM_Ladder_Array_Bid).

Definition reg_BM_Ladder_Map_Top : registration :=
  mkRegistration "BM_Ladder_Map_Top" [[10000]] (ranges1 BM_Ladder_Map_Top).

Definition reg_BM_Ladder_Flat_Top : registration :=
  mkRegistration "BM_Ladder_Flat_Top" [[10000]] (ranges1 BM_Ladder_Flat_Top).

Definition reg_BM_Ladder_Array_Top : registration :=
  mkRegistration "BM_Ladder_Array_Top" [[10000]] (ranges1 BM_Ladder_Array_Top).

Definition bench_ladder_shootout : list registration :=
  [reg_BM_Ladder_Map_Bid; reg_BM_Ladder_Flat_Bid; reg_BM_Ladder_Array_Bid;
   reg_BM_Ladder_Map_Top; reg_BM_Ladder_Flat_Top; reg_BM_Ladder_Array_Top].

Definition itch_bench : list registration :=
  bench_parser ++ bench_book_engine ++ bench_mixed_workload ++ bench_snapshot ++
  bench_ladder_shootout.

End registered.

(** ** All of them run *)

Section runs.
Context `{MapOrder} `{Distributions} (now : nat → Z).
Context {F : Type} `{PosixFile F} (fuel : nat) (capture : option F) (k : nat).
Context (Hk : Z.of_nat k ≤ 1000000000).
Context (Hfuel : ∀ f, capture = Some f → (length (remaining f) < fuel)%nat).

(** The registration runs with all its arguments. *)
Definition runs_all (r : registration) : Prop :=
  Forall (λ args, bench_run r args k = Ret ()) (bench_args r).

(** One goal for each list of arguments. *)
Ltac each_run :=
  repeat (apply Forall_cons; split); try apply Forall_nil_2;
  cbv beta;
  match goal with
  | |- bench_run ?r _ _ = _ => let r' := eval red in r in change r with r'
  end;
  unfold bench_run, ranges0, ranges1, ranges2; cbv beta iota.

Lemma engine_benches_run : Forall runs_all (bench_book_engine now).
Proof.
  destruct (delete_bench_hits now (Z.to_nat 10000) k) as (l1 & E1 & _); [lia|lia|].
  destruct (replace_bench_runs_dry now (Z.to_nat 10000) k) as (l2 & E2 & _); [lia|lia|lia|].
  destruct (execute_bench_runs_dry now (Z.to_nat 10000) k) as (l3 & E3 & _); [lia|lia|lia|].
  each_run; unfold ran_out; [rewrite E1|rewrite E2|rewrite E3]; reflexivity.
Qed.

Lemma parser_benches_run : Forall runs_all bench_parser.
Proof.
  destruct (bench_buffers k) as (_ & _ & _ & _ & E1 & E2 & E3 & E4).
  each_run; unfold ran_out; [rewrite E1|rewrite E2|rewrite E3|rewrite E4]; reflexivity.
Qed.

Lemma snapshot_benches_run : Forall runs_all (bench_snapshot now).
Proof.
  assert (∀ n levels, Z.of_nat n < 2 ^ 16 → Z.of_nat (2 * (n * levels)) < 2 ^ 32 - 1 →
    1010000 + 100 * Z.of_nat levels < 2 ^ 32 →
    ran_out (BM_BuildSnapshot_loop now n levels k) = Ret ()) as Hrun.
  { intros n levels Hn Hall Hp.
    destruct (snapshot_bench_size now n levels 0 Hn Hall Hp) as (snap & E & _). revert E.
    unfold BM_BuildSnapshot, BM_BuildSnapshot_loop.
    destruct (SnapshotBench.seed_engine now n levels System_init) as [s| |]; [|done..]. intros _.
    cbn [mbind outcome_bind]. set (body := λ _ : option SystemSnapshot, _).
    destruct (iterate_inv body (λ _ _, True) k None) as (r & E & _); [done| |].
    - intros i r _ _. by eexists.
    - by rewrite E. }
  each_run; apply Hrun; rewrite ?Nat2Z.inj_mul, ?Z2Nat.id by done; done.
Qed.

Lemma mixed_benches_run : Forall runs_all (bench_mixed_workload now fuel capture).
Proof.
  destruct (hot_and_cold_levels now k) as [(l1 & E1 & _) (l2 & E2 & _)]; [lia|].
  assert (∀ n, (0 < n)%nat → Z.of_nat n < 2 ^ 31 →
    ran_out (BM_ApplyMixed_Synth now n k) = Ret ()) as Hsynth.
  { intros n Hn Hn'. unfold BM_ApplyMixed_Synth.
    destruct (synth_builder_ok n mix_steps) as (b & -> & _ & Hl & _); [unfold mix_steps; lia|].
    cbn [mbind outcome_bind]. rewrite synth_loop_run; [reflexivity| |unfold UINT64_MAX; lia].
    intros E. rewrite E in Hl. cbn [length] in Hl. lia. }
  assert (ran_out (capture_run now fuel capture (Z.to_nat 100000) k) = Ret ()) as Hcap.
  { unfold capture_run. destruct capture as [f|]; [|reflexivity].
    destruct (capture_bench_cycles now fuel f (Z.to_nat 100000) k) as [_ E];
      [by apply Hfuel|unfold UINT64_MAX; lia|]. rewrite E. reflexivity. }
  each_run.
  - unfold ran_out. rewrite E1. reflexivity.
  - unfold ran_out. rewrite E2. reflexivity.
  - apply Hsynth; lia.
  - apply Hsynth; lia.
  - exact Hcap.
Qed.

Lemma ladder_benches_run : Forall runs_all bench_ladder_shootout.
Proof.
  destruct (top_benches_agree (Z.to_nat 10000) k) as (b & b' & E1 & E2 & E3 & _); [lia|].
  destruct (bid_benches (Z.to_nat 10000) k) as (ops & i & Hops & Hl & Hrun).
  destruct (three_ladders ops Hops) as (m & f & a & v & Em & Ef & Ea & _); [lia|].
  each_run; unfold ran_out, BM_Ladder_Map_Bid, BM_Ladder_Flat_Bid, BM_Ladder_Array_Bid;
    rewrite ?Hrun; [rewrite Em|rewrite Ef|rewrite Ea|rewrite E1|rewrite E2|rewrite E3];
    reflexivity.
Qed.

End runs.

(** C36: Every benchmark runs: each one that [itch_bench] registers, with each list
    of arguments that it is registered with, for any number of iterations up to
    the benchmark library's limit of [10 ^ 9], any source of random numbers, any
    clock and any capture, comes to its end without an exception and without
    undefined behaviour: no index leaves its vector or its ladder, no division by
    zero, no overflow of an [int] and no pointer that dangles. *)
Theorem benchmarks_run `{MapOrder} `{Distributions} now {F} `{PosixFile F} fuel
    (capture : option F) k :
  Z.of_nat k ≤ 1000000000 → (∀ f, capture = Some f → (length (remaining f) < fuel)%nat) →
  Forall (λ r, Forall (λ args, bench_run r args k = Ret ()) (bench_args r))
    (itch_bench now fuel capture).
Proof.
  intros Hk Hfuel. unfold itch_bench. rewrite !Forall_app.
  split; [by apply parser_benches_run|]. split; [by apply engine_benches_run|].
  split; [by apply mixed_benches_run|].
  split; [by apply snapshot_benches_run|by apply ladder_benches_run].
Qed.

Lemma benchmarks_run_witness :
  length (itch_bench (λ _, 0) 0 (None : option ChunkedFile)) = 18%nat ∧
  Forall (λ r, Forall (λ args, bench_run r args 1000 = Ret ()) (bench_args r))
    (itch_bench (λ _, 0) 0 (None : option ChunkedFile)).
Proof.
  split; [reflexivity|]. apply (benchmarks_run (λ _, 0) 0 (None : option ChunkedFile) 1000);
    [lia|done].
Defined.
